(* ===== verification/_CoqProject ===== *)
-Q . S2P
Prelude.v
LibLock.v
LibSpin.v
LibMcs.v
LibArray.v
LibSeq.v
Frisbee.v
Memory.v
Strings.v
Grep.v
Umalloc.v
Sh.v
State.v
Spinlock.v
SpinlockSmp.v
Segs.v
Cons.v
Printf.v
Mp.v
Sched.v
Kalloc.v
Sleeplock.v
BufList.v
Bio.v
Ide.v
Log.v
Tx.v
Fs.v
FsBlocks.v
FsInode.v
FsFile.v
FsDir.v
Mkfs.v
Ring.v
Pipe.v
File.v
Vm.v
VmTable.v
Proc.v
Syscall.v
Exec.v
Boot.v
Sysfile.v
Kbd.v
Console.v
VmSpace.v
VmKernel.v
VmCopy.v
VmProc.v
ProcWait.v
Trap.v
ProcTable.v
Scheduler.v
