(* ===== verification/Prelude.v ===== *)
(** * xv6 with user-level threads: a verification development

    The program is a small Unix kernel for the x86 with its user programs, extended by a
    [clone] system call, a thread library with four kinds of locks, and test programs for
    them.  It is translated by hand into Rocq functions, routine by routine, and the
    theorems are about these functions.

    ** The program and its parts

    A trap (trap.c) brings a processor into the kernel: a system call, a fault or an
    interrupt.  System calls fetch their arguments from user memory (syscall.c, sysproc.c,
    sysfile.c, exec.c) and call the process layer (proc.c), virtual memory (vm.c) or the
    file layer (file.c, pipe.c, console.c).  Files are inodes (fs.c), whose blocks are
    changed inside transactions of the log (log.c), which writes them through the buffer
    cache (bio.c) to a disk (memide.c or ide.c).  Spin locks and sleep locks (spinlock.c,
    sleeplock.c) protect all of it; a process that waits gives its processor to the
    scheduler.  User programs see system calls only: the C library (ulib.c, printf.c,
    umalloc.c), the shell (sh.c), grep, wc, the thread library (libthread.c) and the frisbee
    programs.  mkfs.c makes the first file system image on the host.

    ** How the code is modelled

    C integers are [Z], with a cast ([u8], [u32], [i32], ...) where the code can leave the
    range of the type.  An array of structures is a list, a pointer into it an index;
    memory that holds pages, page tables, stacks or a heap is bytes, with words
    little-endian.  The kernel's globals are one record, [State.kernel], and a kernel routine
    is a function in the state and error monad [K] = [M kernel]: it returns ([Ok]) or it
    stops ([Stop]) in a panic, in the switch to the scheduler, in an endless wait for a
    spin lock, or by a power failure in the middle of a disk write.  Where a routine gives
    up the processor, what it does when it runs again is a definition of its own
    ([sleep_return], [wait_resume], [piperead_resume], ...), so that anything can happen in
    between.  Code that runs on several processors or in several threads at a time
    (SpinlockSmp, the locks of libthread.c) is a step relation, one access to shared memory
    per step.  User programs are functions of what the system calls give them.

    What is not part of the sources is a parameter: the disk controller and the other
    devices (with the behaviour the drivers rely on as laws of a type class that has an
    instance), sbrk under the allocator, the outcome of the shell's system calls, the
    pieces in which read delivers a file.

    ** Files

    Foundations.
    - Prelude (this file): machine integers, the monad, loops over lists ([each], [scan]), the
      predicate [ensures] for results that may stop by a power failure only, tactics, hints.
    - Memory, Strings: byte memory; string.c and the string routines of ulib.c.
    - State: param.h, memlayout.h, proc.h, buf.h, file.h, fs.h, stat.h as one record.
    - Ring: ring buffers with wrapping counters, for Pipe and Console.

    User level.
    - LibLock (the interface [MutexLock] of a lock), LibSpin, LibMcs, LibArray, LibSeq:
      libthread.c; Frisbee: frisbee.c, frisbee_mcs.c, frisbee_array.c over the interface.
    - Grep: grep.c, wc.c.  Umalloc: umalloc.c.  Sh: sh.c.  Printf: printf.c.  Mkfs: mkfs.c.

    Kernel.
    - Spinlock, SpinlockSmp: spinlock.c, mycpu, myproc.  Sched: sched, yield, sleep, wakeup, kill
      of proc.c.  Sleeplock: sleeplock.c.
    - Cons: the output half of console.c.  Kbd: kbd.c, kbd.h.  Console: the input half.
    - Kalloc: kalloc.c.  Vm: vm.c; VmTable, VmSpace, VmKernel, VmCopy, VmProc: its theorems.
    - BufList, Bio: bio.c, memide.c.  Ide: ide.c.  Log: log.c.  Tx: the state inside a
      transaction.  Fs: fs.c; FsBlocks, FsInode, FsFile, FsDir: its theorems.
    - Pipe: pipe.c.  File: file.c.  Syscall: syscall.c, sysproc.c.  Exec: exec.c.  Sysfile:
      sysfile.c.  Proc: the rest of proc.c; ProcWait, ProcTable, Scheduler: its theorems.
      Trap: trap.c.

    ** What the theorems show

    - Disk and file system.  The buffer cache implements the disk as an array of blocks
      ([bcache_refines]); a commit and a whole file system call are atomic under power
      failures at any disk write and any number of restarts ([commit_crash_safe],
      [fs_call_atomic]); block allocation keeps the bitmap right ([balloc_bfree_correct]);
      a file read after a write is the spliced file ([write_then_read]); directories are
      maps ([directory_refines]) and paths are taken apart at slashes ([path_elements]);
      mkfs makes an image that satisfies what these theorems ask for ([mkfs_correct]); the
      interrupt-driven driver behaves as the memory disk ([ide_serves_in_order]).
    - Memory.  The page allocator is a stack of pages ([kalloc_refines]); allocuvm, copyuvm,
      copyout, setupkvm, growproc and wait act on address spaces, seen as maps from addresses
      to permissions and bytes, as they should, lose no page and touch no one else's.
    - Processes.  The process table stays in order under everything that a processor can do
      ([process_table_invariant]); a runnable process is scheduled within NPROC + 1 steps
      ([scheduler_fair]); a clock tick preempts, a fault kills ([timer_preempts],
      [user_fault_kills]); pipes and the console are queues ([pipe_refines],
      [console_refines]); spin locks exclude ([spinlock_smp_safe]).
    - User level.  The locks of libthread.c exclude and reads of the sequence lock are
      linearizable, the frisbee goes round; the shell's parser ends on every line, reads back
      printed commands and plumbs pipelines; grep matches its patterns' languages; malloc and
      free keep blocks apart; printf writes what its arguments say.
    - Defects of the code are theorems or examples too: [mcs_lost_waiter],
      [three_full_calls_panic], [thread_sbrk_panics], the last part of [wait_correct],
      [grep_long_line], [malloc_wraps], [append_is_redirect], [cd_chops],
      [read_error_is_valid], [root_hole], [growproc_borders].

    ** Bounds

    Loops over arrays and up to a count recurse on it.  Other loops take fuel, and their
    theorems give fuel that is enough: [printint] divides a 32-bit number at most 32 times;
    string loops take more than the length of the string; the parser of the shell takes the
    length of what is left of the line; the free list of [malloc] is gone round at most once
    before morecore; the loops of vm.c take the number of pages of the range; [namex] the
    length of the path.  A loop that waits for another processor or thread stops or is a
    step relation, never fuel.

    ** Not modelled

    - Assembly and start-up: bootasm.S, entry.S, entryother.S, initcode.S, swtch.S,
      trapasm.S, vectors.S, usys.S switch modes, stacks and registers; their effect is in the
      definitions that stand before and after a switch or a trap.  bootmain.c, main.c, mp.c,
      lapic.c, ioapic.c, picirq.c and the port access of uart.c set up devices.
    - usertests.c, forktest.c and stressfs.c test the system calls from outside.
    - The user programs cat, echo, init, kill, ln, ls, mkdir, rm and zombie are a few system
      calls each.
    - The call stack that a spin lock records is for debugging and has no effect. *)

From stdpp Require Export base tactics option list list_numbers gmap strings numbers relations.
From Stdlib Require Export ZArith Lia.

#[global] Open Scope Z_scope.

(** ** Machine integers

    C integers are kept as [Z]; every operation of the code that can leave the
    range of its type is followed by one of these casts. *)

Definition u8 (x : Z) : Z := x mod 2 ^ 8.
Definition u16 (x : Z) : Z := x mod 2 ^ 16.
Definition u32 (x : Z) : Z := x mod 2 ^ 32.
Definition i8 (x : Z) : Z := (x + 2 ^ 7) mod 2 ^ 8 - 2 ^ 7.
Definition i16 (x : Z) : Z := (x + 2 ^ 15) mod 2 ^ 16 - 2 ^ 15.
Definition i32 (x : Z) : Z := (x + 2 ^ 31) mod 2 ^ 32 - 2 ^ 31.

(** Unfold the widths and let [lia] see plain constants. *)
Ltac zwidth :=
  unfold u8, u16, u32, i8, i16, i32 in *;
  change (2 ^ 7) with 128 in *; change (2 ^ 8) with 256 in *;
  change (2 ^ 15) with 32768 in *; change (2 ^ 16) with 65536 in *;
  change (2 ^ 31) with 2147483648 in *; change (2 ^ 32) with 4294967296 in *.

Ltac zlia := zwidth; Z.div_mod_to_equations; lia.

Lemma u32_range x : 0 ≤ u32 x < 2 ^ 32.
Proof. zlia. Qed.

Lemma u32_small x : 0 ≤ x < 2 ^ 32 → u32 x = x.
Proof. intros. zlia. Qed.

Lemma i32_range x : - 2 ^ 31 ≤ i32 x < 2 ^ 31.
Proof. zlia. Qed.

Lemma i32_small x : - 2 ^ 31 ≤ x < 2 ^ 31 → i32 x = x.
Proof. intros. zlia. Qed.

Lemma u32_u32 x : u32 (u32 x) = u32 x.
Proof. zlia. Qed.

Lemma u32_add_l x y : u32 (u32 x + y) = u32 (x + y).
Proof. zlia. Qed.

Lemma u32_add_r x y : u32 (x + u32 y) = u32 (x + y).
Proof. zlia. Qed.

(** Counting modulo a size. *)
Lemma succ_mod_wrap a sz : 0 < sz → a mod sz + 1 = sz → (a + 1) mod sz = 0.
Proof. intros. by rewrite <- Z.add_mod_idemp_l, H0, Z.mod_same by lia. Qed.

Lemma succ_mod a sz : 0 < sz → a mod sz + 1 ≠ sz → (a + 1) mod sz = a mod sz + 1.
Proof.
  intros Hp Hne. pose proof (Z.mod_pos_bound a sz Hp).
  rewrite <- Z.add_mod_idemp_l by lia. apply Z.mod_small. lia.
Qed.

Create HintDb xv6.
Create Rewrite HintDb xv6.
#[export] Hint Rewrite u32_u32 u32_add_l u32_add_r : xv6.

(** ** Record update

    [x <| f := v |>] is the record [x] with the field [f] replaced by [v], and
    [x <| f ::= g |>] the one with [g] applied to the field.  A record type
    declares how it is rebuilt from its fields ([Rebuild]); the update of one
    field is then found by abstracting that field's projection. *)

Class Rebuild (R : Type) := rebuild : R → R.
Class Upd {R T : Type} (f : R → T) := upd : (T → T) → R → R.
Arguments upd {R T} f {_} _ _ : simpl never.

Ltac derive_upd f :=
  match type of f with
  | ?R → _ =>
      let r := eval cbv beta delta [rebuild] in (@rebuild R _) in
      let r := match r with ?h => eval unfold h in h end in
      match eval pattern f in r with
      | ?k _ => let u := eval cbv beta in (λ g x, k (λ y, g (f y)) x) in exact u
      end
  end.
#[export] Hint Extern 0 (Upd ?f) => derive_upd f : typeclass_instances.

Declare Scope upd_scope.
Delimit Scope upd_scope with upd.
Notation "x <| f ::= g |>" := (upd f g x)
  (at level 12, f at next level, left associativity) : upd_scope.
Notation "x <| f := v |>" := (upd f (λ _, v) x)
  (at level 12, f at next level, left associativity) : upd_scope.
#[global] Open Scope upd_scope.

(** ** Kernel code as a state monad

    A kernel routine takes a state and returns a result with the new state.
    A routine that does not return stops: [Panicked] is the kernel's
    [panic(msg)]; [Swtch] is a switch to the scheduler (the thread that called
    [sleep], [yield] or [exit] is suspended there); [Spin] is a spin lock that
    another processor holds; [PowerOff] is a power failure at a disk write. *)

Inductive stop :=
| Panicked (msg : string)
| Swtch
| Spin
| PowerOff.

Inductive result (A : Type) : Type :=
| Ok (a : A)
| Stop (e : stop).
Arguments Ok {A} a.
Arguments Stop {A} e.

Definition M (S A : Type) : Type := S → result A * S.

#[global] Instance M_ret S : MRet (M S) := λ A a s, (Ok a, s).
#[global] Instance M_bind S : MBind (M S) := λ A B k m s,
  match m s with
  | (Ok a, s') => k a s'
  | (Stop e, s') => (Stop e, s')
  end.

Definition stopped {S A} (e : stop) : M S A := λ s, (Stop e, s).
Definition panic {S A} (msg : string) : M S A := stopped (Panicked msg).
Definition gets {S A} (f : S → A) : M S A := λ s, (Ok (f s), s).
Definition modify {S} (f : S → S) : M S unit := λ s, (Ok tt, f s).
Definition when {S} (b : bool) (m : M S unit) : M S unit := if b then m else mret tt.

(** A loop over a list of loop indices that can leave early: the body answers
    [inl a] to leave the loop with [a] and [inr tt] to go on. *)
Fixpoint scan {S I A} (body : I → M S (A + unit)) (l : list I) : M S (option A) :=
  match l with
  | [] => mret None
  | i :: l' =>
      r ← body i;
      match r with inl a => mret (Some a) | inr _ => scan body l' end
  end.

(** A loop over a list of loop indices without early exit. *)
Fixpoint each {S I} (body : I → M S unit) (l : list I) : M S unit :=
  match l with
  | [] => mret tt
  | i :: l' => body i;; each body l'
  end.

Section monad.
Context {S A B : Type}.
Implicit Types (m : M S A) (k : A → M S B) (s : S).

Lemma bind_ok m k s a s' : m s = (Ok a, s') → (m ≫= k) s = k a s'.
Proof. unfold mbind, M_bind. by intros ->. Qed.

Lemma bind_stop m k s e s' : m s = (Stop e, s') → (m ≫= k) s = (Stop e, s').
Proof. unfold mbind, M_bind. by intros ->. Qed.

Lemma bind_ok_inv m k s b s'' :
  (m ≫= k) s = (Ok b, s'') → ∃ a s', m s = (Ok a, s') ∧ k a s' = (Ok b, s'').
Proof. unfold mbind, M_bind. destruct (m s) as [[a|e] s']; naive_solver. Qed.

Lemma bind_gets (f : S → A) k s : (gets f ≫= k) s = k (f s) s.
Proof. done. Qed.

Lemma bind_modify (f : S → S) (k : unit → M S B) s : (modify f ≫= k) s = k tt (f s).
Proof. done. Qed.

Lemma bind_ret (a : A) k s : (mret a ≫= k) s = k a s.
Proof. done. Qed.

Lemma bind_assoc {C} m k (h : B → M S C) s : ((m ≫= k) ≫= h) s = (m ≫= λ a, k a ≫= h) s.
Proof. unfold mbind, M_bind. by destruct (m s) as [[a|e] s']. Qed.
End monad.

(** Reduce the monad's plumbing in the goal, leaving the routines folded. *)
Ltac mred := unfold mret, M_ret, mbind, M_bind, gets, modify, panic, stopped, when in *; simpl in *.

(** Run the first routine of a sequence with the equation [H] for it. *)
Tactic Notation "mstep" uconstr(H) := rewrite (bind_ok _ _ _ _ _ H).

(** ** Reasoning about runs

    [ensures x Q C]: the run [x] ended either by returning a value and state in
    [Q], or by a power failure in a state in [C]; it did not stop otherwise. *)
Definition ensures {S A} (x : result A * S) (Q : A → S → Prop) (C : S → Prop) : Prop :=
  match x with
  | (Ok a, s) => Q a s
  | (Stop PowerOff, s) => C s
  | (Stop _, _) => False
  end.
Arguments ensures : simpl never.

Section ensures.
Context {S A B : Type}.
Implicit Types (m : M S A) (s : S).

Lemma ensures_bind m (f : A → M S B) s Q C R :
  ensures (m s) Q C → (∀ a s', Q a s' → ensures (f a s') R C) → ensures ((m ≫= f) s) R C.
Proof.
  unfold ensures, mbind, M_bind. destruct (m s) as [[a|[]] s']; try done. intros HQ Hf. by apply Hf.
Qed.

Lemma ensures_mono (x : result A * S) (Q Q' : A → S → Prop) (C C' : S → Prop) :
  ensures x Q C → (∀ a s, Q a s → Q' a s) → (∀ s, C s → C' s) → ensures x Q' C'.
Proof. unfold ensures. destruct x as [[a|[]] s]; auto. Qed.

Lemma ensures_ret (a : A) s Q C : Q a s → ensures ((mret a : M S A) s) Q C.
Proof. done. Qed.

Lemma ensures_ok (x : result A * S) a s Q C : x = (Ok a, s) → Q a s → ensures x Q C.
Proof. by intros ->. Qed.

End ensures.

(** An invariant indexed by the number of iterations done. *)
Lemma ensures_each {S I} (body : I → M S unit) (l : list I) (Inv : nat → S → Prop) C s :
  Inv O s →
  (∀ n i s', l !! n = Some i → Inv n s' → ensures (body i s') (λ _ s'', Inv (Datatypes.S n) s'') C) →
  ensures (each body l s) (λ _ s', Inv (length l) s') C.
Proof.
  revert Inv s. induction l as [|i l IH]; intros Inv s H0 Hb; cbn [each length]; [done|].
  eapply ensures_bind; [by apply (Hb O i)|]. intros [] s' Hs'. simpl in Hs'.
  apply (IH (λ n, Inv (Datatypes.S n))); [done|]. intros n j s'' Hj. by apply (Hb (Datatypes.S n) j).
Qed.

(** The same for a loop that can leave early. *)
Lemma ensures_scan {S I A} (body : I → M S (A + unit)) (l : list I) (Inv : nat → S → Prop)
    (Q : option A → S → Prop) C s :
  Inv O s →
  (∀ n i s', l !! n = Some i → Inv n s' →
     ensures (body i s') (λ r s'', match r with inl a => Q (Some a) s'' | inr _ => Inv (Datatypes.S n) s'' end) C) →
  (∀ s', Inv (length l) s' → Q None s') →
  ensures (scan body l s) Q C.
Proof.
  revert Inv s. induction l as [|i l IH]; intros Inv s H0 Hb Hn; cbn [scan length]; [by apply Hn|].
  eapply ensures_bind; [by apply (Hb O i)|]. intros [a|[]] s' Hs'; [done|].
  apply (IH (λ n, Inv (Datatypes.S n))); [done| |done]. intros n j s'' Hj. by apply (Hb (Datatypes.S n) j).
Qed.

(** Filters that agree on the elements of a list. *)
Lemma filter_ext_elem {A} (P Q : A → Prop) `{∀ x, Decision (P x), ∀ x, Decision (Q x)} (l : list A) :
  (∀ x, x ∈ l → (P x ↔ Q x)) → filter P l = filter Q l.
Proof.
  induction l as [|x l IH]; intros HPQ; [done|]. rewrite !filter_cons.
  rewrite IH by (intros; apply HPQ; by right). pose proof (HPQ x ltac:(left)).
  repeat case_decide; naive_solver.
Qed.

(** ** Overwriting a range of a list

    [splice l off w]: [w] written into [l] at [off], past its end if need be. *)
Definition splice {A} (l : list A) (off : nat) (w : list A) : list A :=
  take off l ++ w ++ drop (off + length w) l.

Section splice.
Context {A : Type}.
Implicit Types (l w : list A).

Lemma splice_length l off w :
  (off ≤ length l)%nat → length (splice l off w) = Nat.max (length l) (off + length w).
Proof. intros H. unfold splice. rewrite !length_app, length_take, length_drop. lia. Qed.

Lemma splice_lookup l off w j :
  (off ≤ length l)%nat →
  splice l off w !! j = if decide (off ≤ j < off + length w)%nat then w !! (j - off)%nat else l !! j.
Proof.
  intros H. unfold splice. case_decide as Hj.
  - rewrite lookup_app_r, length_take by (rewrite length_take; lia).
    rewrite lookup_app_l by lia. f_equal. lia.
  - destruct (decide (j < off)%nat).
    + rewrite lookup_app_l by (rewrite length_take; lia). by rewrite lookup_take_lt by lia.
    + rewrite lookup_app_r, length_take by (rewrite length_take; lia). rewrite lookup_app_r by lia.
      rewrite lookup_drop. f_equal. lia.
Qed.

Lemma splice_nil l off : (off ≤ length l)%nat → splice l off [] = l.
Proof.
  intros H. apply list_eq. intros j. rewrite splice_lookup by done. case_decide as Hj; [simpl in Hj; lia|done].
Qed.

Lemma splice_app l off w w' :
  (off ≤ length l)%nat → splice (splice l off w) (off + length w) w' = splice l off (w ++ w').
Proof.
  intros H. apply list_eq. intros j. rewrite splice_lookup by (rewrite splice_length by done; lia).
  rewrite !splice_lookup by done. rewrite length_app. repeat case_decide; try lia; [| |done].
  - rewrite lookup_app_r by lia. f_equal. lia.
  - by rewrite lookup_app_l by lia.
Qed.
End splice.
