(* ===== verification/LibLock.v ===== *)
(** * The interface of the user-level locks (libthread.h)

    libthread.c runs in several threads that share one address space.  A lock
    is modelled as code for one thread, one shared-memory access per step,
    over the shared words [sh] of the lock and the thread's own program point
    and local variables [loc].  Accesses are sequentially consistent: every
    store that another thread waits for is ordered by the code's compiler
    barriers and by [xchg], which locks the bus.

    [lstep] is the interleaving of any number of threads that call acquire and
    release in alternation; [MutexLock] is the promise of a lock to its
    clients, proved for each lock in its own file and used by Frisbee.v. *)

From S2P Require Import Prelude.

(** [xchg(addr, newval)] of x86.h on one shared word: the old content, which
    the instruction returns, and the new one. *)
Definition xchg {A} (cell newval : A) : A * A := (cell, newval).

Record lock_code (sh loc : Type) := LockCode {
  lc_idle : loc;                        (* outside the lock's code, not holding it *)
  lc_acquire : loc;                     (* entry of the acquire function *)
  lc_release : loc;                     (* entry of the release function *)
  lc_held : loc → bool;                 (* acquire has returned *)
  lc_is_idle : loc → bool;
  lc_exec : nat → sh → loc → sh * loc   (* one step of thread t inside the code *)
}.
Arguments LockCode {sh loc}.
Arguments lc_idle {sh loc}.
Arguments lc_acquire {sh loc}.
Arguments lc_release {sh loc}.
Arguments lc_held {sh loc}.
Arguments lc_is_idle {sh loc}.
Arguments lc_exec {sh loc}.

Section lock_system.
Context {sh loc : Type} (lc : lock_code sh loc).

Inductive lstep : sh * list loc → sh * list loc → Prop :=
| lstep_call_acquire s L t l :
    L !! t = Some l → lc_is_idle lc l = true →
    lstep (s, L) (s, <[t := lc_acquire lc]> L)
| lstep_call_release s L t l :
    L !! t = Some l → lc_held lc l = true →
    lstep (s, L) (s, <[t := lc_release lc]> L)
| lstep_exec s L t l s' l' :
    L !! t = Some l → lc_is_idle lc l = false → lc_held lc l = false →
    lc_exec lc t s l = (s', l') →
    lstep (s, L) (s', <[t := l']> L).

Definition lreachable (s0 : sh) (n : nat) (s : sh) (L : list loc) : Prop :=
  rtc lstep (s0, replicate n (lc_idle lc)) (s, L).

Definition mutex (L : list loc) : Prop :=
  ∀ t1 t2 l1 l2, L !! t1 = Some l1 → L !! t2 = Some l2 →
  lc_held lc l1 = true → lc_held lc l2 = true → t1 = t2.

(** An executable scheduler for concrete runs: thread [t] takes its next step,
    calling acquire when it is outside and release when it holds the lock. *)
Definition lsched (t : nat) (x : sh * list loc) : sh * list loc :=
  match x.2 !! t with
  | None => x
  | Some l =>
      if lc_is_idle lc l then (x.1, <[t := lc_acquire lc]> x.2)
      else if lc_held lc l then (x.1, <[t := lc_release lc]> x.2)
      else let '(s', l') := lc_exec lc t x.1 l in (s', <[t := l']> x.2)
  end.

Definition lrun (ts : list nat) (x : sh * list loc) : sh * list loc :=
  fold_left (λ x t, lsched t x) ts x.

Lemma lrun_rtc ts x : rtc lstep x (lrun ts x).
Proof.
  revert x. induction ts as [|t ts IH]; intros [s L]; [done|].
  transitivity (lsched t (s, L)); [|apply IH]. unfold lsched; simpl.
  destruct (L !! t) as [l|] eqn:Hl; [|done].
  destruct (lc_is_idle lc l) eqn:Hi; [apply rtc_once; by econstructor|].
  destruct (lc_held lc l) eqn:Hh; [apply rtc_once; by eapply lstep_call_release|].
  destruct (lc_exec lc t s l) as [s' l'] eqn:He. apply rtc_once. by eapply lstep_exec.
Qed.

(** What a lock promises to [n] threads that start on the shared state [s0]. *)
Class MutexLock (s0 : sh) (n : nat) : Prop := {
  mutex_safe : ∀ s L, lreachable s0 n s L → mutex L;
  mutex_idle : lc_is_idle lc (lc_idle lc) = true;
  mutex_out : ∀ t s l, lc_is_idle lc l || lc_held lc l = true → lc_exec lc t s l = (s, l)
}.

(** Rule induction: an invariant of [lstep] that holds at the start holds in
    every reachable state. *)
Lemma lreachable_ind (inv : sh → list loc → Prop) s0 n :
  inv s0 (replicate n (lc_idle lc)) →
  (∀ s L s' L', inv s L → length L = n → lstep (s, L) (s', L') → inv s' L') →
  ∀ s L, lreachable s0 n s L → inv s L ∧ length L = n.
Proof.
  intros H0 Hstep s L Hr.
  eapply (rtc_ind_r (λ x, inv x.1 x.2 ∧ length x.2 = n) _ _ _ (s, L) Hr). Unshelve.
  - simpl. by rewrite length_replicate.
  - intros [s1 L1] [s2 L2] _ Hs [Hi Hl]; simpl in *. split; [by eauto|].
    inversion Hs; subst; by rewrite length_insert.
Qed.

Lemma lreachable_length s0 n s L : lreachable s0 n s L → length L = n.
Proof. intros Hr. by apply (lreachable_ind (λ _ _, True)) in Hr as [_ ?]. Qed.
End lock_system.
Arguments mutex {sh loc} lc L.

(** Reading a thread's entry after thread [t] has moved. *)
Lemma vec_upd {A} (L : list A) t l u x :
  <[t := l]> L !! u = Some x → (u = t ∧ x = l) ∨ (u ≠ t ∧ L !! u = Some x).
Proof. rewrite list_lookup_insert_Some. naive_solver. Qed.

Ltac vec_cases :=
  repeat match goal with
  | H : <[_ := _]> _ !! _ = Some _ |- _ =>
      apply vec_upd in H; destruct H as [[? ?]|[? H]]; subst
  end.

(** How the number of threads at a point changes when thread [t] moves. *)
Lemma count_upd {A} (f : A → bool) (L : list A) t l l' :
  L !! t = Some l →
  (length (filter (λ x, f x = true) (<[t := l']> L)) + Nat.b2n (f l) =
   length (filter (λ x, f x = true) L) + Nat.b2n (f l'))%nat.
Proof.
  revert t. induction L as [|a L IH]; intros [|t] Ht; simplify_eq/=.
  - rewrite !filter_cons. destruct (f l), (f l'); simpl; lia.
  - specialize (IH _ Ht). rewrite !filter_cons. destruct (f a); simpl; lia.
Qed.
