(* ===== verification/LibSpin.v ===== *)
(** * The spin lock of libthread.c

    [lock_acquire] spins on [xchg(&lk->lock, 1)] and [lock_release] stores 0
    with another [xchg].  [spin_mutex] is mutual exclusion for any number of
    threads and any interleaving. *)

From S2P Require Import Prelude LibLock.

Record lock_t := Lock_t { lock : Z }.

Inductive spin_pc :=
| SpinIdle      (* outside the lock *)
| SpinAcquire   (* in the loop of lock_acquire *)
| SpinHeld      (* lock_acquire has returned *)
| SpinRelease.  (* in lock_release *)

Definition lock_init : lock_t := {| lock := 0 |}.

(** One iteration of [while (xchg(&lk->lock, 1) != 0);]. *)
Definition lock_acquire (lk : lock_t) : lock_t * spin_pc :=
  let '(old, new) := xchg (lock lk) 1 in
  ({| lock := new |}, if decide (old ≠ 0) then SpinAcquire else SpinHeld).

Definition lock_release (lk : lock_t) : lock_t * spin_pc :=
  let '(_, new) := xchg (lock lk) 0 in ({| lock := new |}, SpinIdle).

Definition spin_exec (t : nat) (lk : lock_t) (pc : spin_pc) : lock_t * spin_pc :=
  match pc with
  | SpinAcquire => lock_acquire lk
  | SpinRelease => lock_release lk
  | SpinIdle | SpinHeld => (lk, pc)
  end.

Definition spin_code : lock_code lock_t spin_pc :=
  LockCode SpinIdle SpinAcquire SpinRelease
    (λ pc, match pc with SpinHeld => true | _ => false end)
    (λ pc, match pc with SpinIdle => true | _ => false end)
    spin_exec.

Definition spin_owner (pc : spin_pc) : Prop := pc = SpinHeld ∨ pc = SpinRelease.

(** The lock word is nonzero while a thread owns it, and one thread at most
    owns it. *)
Definition spin_inv (lk : lock_t) (L : list spin_pc) : Prop :=
  (∀ t pc, L !! t = Some pc → spin_owner pc → lock lk ≠ 0) ∧
  (∀ t1 t2 p1 p2, L !! t1 = Some p1 → L !! t2 = Some p2 →
     spin_owner p1 → spin_owner p2 → t1 = t2).

Lemma spin_inv_step lk L lk' L' :
  spin_inv lk L → lstep spin_code (lk, L) (lk', L') → spin_inv lk' L'.
Proof.
  unfold spin_inv, spin_owner. intros [Hw Hu] Hs.
  inversion Hs as [? ? t l Hl Hi|? ? t l Hl Hh|? ? t l ? l' Hl Hni Hnh He]; subst; clear Hs;
    destruct l; simplify_eq/=.
  - split; intros; vec_cases; naive_solver.
  - split; intros; vec_cases; naive_solver.
  - unfold lock_acquire, xchg in He. case_decide; simplify_eq/=.
    + split; intros; vec_cases; naive_solver.
    + assert (lock lk = 0) by lia.
      split; intros; vec_cases; naive_solver.
  - unfold lock_release, xchg in He. simplify_eq/=.
    split; intros; vec_cases; naive_solver.
Qed.

Lemma spin_reachable_inv n lk L :
  lreachable spin_code lock_init n lk L → spin_inv lk L.
Proof.
  intros Hr. eapply (lreachable_ind spin_code spin_inv) in Hr as [Hi _]; [done| |].
  - unfold spin_inv, spin_owner. split.
    + intros t pc [-> _]%lookup_replicate. by intros [|].
    + intros t1 t2 p1 p2 [-> _]%lookup_replicate. by intros ? [|].
  - intros. by eapply spin_inv_step.
Qed.

#[export] Instance spin_mutex_lock n : MutexLock spin_code lock_init n.
Proof.
  split; [|done|by intros ?? []].
  intros lk L [_ Hu]%spin_reachable_inv t1 t2 l1 l2 H1 H2 Hh1 Hh2.
  eapply Hu; eauto; [destruct l1|destruct l2]; try done; by left.
Qed.

(** Mutual exclusion of the spin lock: for any number of threads and any
    interleaving of lock_acquire and lock_release, two threads never hold the
    lock at once. *)
Theorem spin_mutex n lk L :
  lreachable spin_code lock_init n lk L → mutex spin_code L.
Proof. exact (mutex_safe _ _ _). Qed.

Lemma spin_mutex_witness :
  mutex spin_code [SpinHeld; SpinAcquire; SpinIdle].
Proof.
  apply (spin_mutex 3 {| lock := 1 |}).
  apply (lrun_rtc spin_code [0; 1; 0; 1]%nat (lock_init, replicate 3 SpinIdle)).
Defined.
