(* ===== verification/LibMcs.v ===== *)
(** * The MCS lock of libthread.c

    A queue lock: [lk->next] points to the last queue node, each waiting
    thread spins on the [spin] word of its own node, and the releasing thread
    sets the [spin] word of its successor.  There is no compare-and-swap in
    x86.h, so [mcslock_release] emulates it by a spin lock on [lk->spin].

    [mcs_safe] shows mutual exclusion for any number of threads and
    interleavings.  The emulated compare-and-swap does not exclude
    [mcslock_acquire], which exchanges [lk->next] without taking [lk->spin]:
    [mcs_lost_waiter] runs two threads into a state where the lock is free and
    a thread waits for ever. *)

From S2P Require Import Prelude LibLock.

(** [struct mcs_lock_t]: a pointer is the number of the thread whose queue
    node it points to, [None] is NULL. *)
Record mcs_lock_t := Mcs { next : option nat; spin : Z }.

(** The lock word and every thread's queue node: all are shared. *)
Record mcs_sh := McsSh { lk : mcs_lock_t; qnode : nat → mcs_lock_t }.

Inductive mcs_pc :=
| McsIdle
| McsHeld
  (* mcslock_acquire *)
| AcqNext                  (* qnode->next = NULL *)
| AcqSpin                  (* qnode->spin = 0 *)
| AcqXchg                  (* tail = xchg(&lk->next, qnode) *)
| AcqLink (tail : nat)     (* tail->next = qnode *)
| AcqWait (tail : nat)     (* while (!qnode->spin) *)
  (* mcslock_release *)
| RelTest                  (* if (!qnode->next) *)
| RelLock                  (* while (xchg(&lk->spin, 1) != 0) *)
| RelTail                  (* t = lk->next *)
| RelClear (t : option nat)   (* if (t == qnode) lk->next = NULL *)
| RelUnlock (t : option nat)  (* xchg(&lk->spin, 0); if (t == qnode) return *)
| RelWait                  (* while (!qnode->next) *)
| RelLoad                  (* the load of qnode->next ... *)
| RelStore (nx : nat).     (* ... and the store qnode->next->spin = 1 *)

Definition mcslock_init : mcs_lock_t := {| next := None; spin := 0 |}.

Definition set_lk (v : mcs_lock_t) (s : mcs_sh) : mcs_sh := {| lk := v; qnode := qnode s |}.
Definition set_qnode (t : nat) (v : mcs_lock_t) (s : mcs_sh) : mcs_sh :=
  {| lk := lk s; qnode := λ u, if decide (u = t) then v else qnode s u |}.
Definition set_next (nx : option nat) (n : mcs_lock_t) : mcs_lock_t :=
  {| next := nx; spin := spin n |}.
Definition set_spin (v : Z) (n : mcs_lock_t) : mcs_lock_t := {| next := next n; spin := v |}.

(** [mcslock_acquire(lk, qnode)] run by thread [t] on its own node. *)
Definition mcslock_acquire (t : nat) (s : mcs_sh) (pc : mcs_pc) : mcs_sh * mcs_pc :=
  match pc with
  | AcqNext => (set_qnode t (set_next None (qnode s t)) s, AcqSpin)
  | AcqSpin => (set_qnode t (set_spin 0 (qnode s t)) s, AcqXchg)
  | AcqXchg =>
      let '(tail, new) := xchg (next (lk s)) (Some t) in
      (set_lk (set_next new (lk s)) s,
       match tail with None => McsHeld | Some x => AcqLink x end)
  | AcqLink tail => (set_qnode tail (set_next (Some t) (qnode s tail)) s, AcqWait tail)
  | AcqWait tail =>
      (s, if decide (spin (qnode s t) ≠ 0) then McsHeld else AcqWait tail)
  | _ => (s, pc)
  end.

Definition mcslock_release (t : nat) (s : mcs_sh) (pc : mcs_pc) : mcs_sh * mcs_pc :=
  match pc with
  | RelTest => (s, match next (qnode s t) with None => RelLock | Some _ => RelLoad end)
  | RelLock =>
      let '(old, new) := xchg (spin (lk s)) 1 in
      (set_lk (set_spin new (lk s)) s, if decide (old ≠ 0) then RelLock else RelTail)
  | RelTail => (s, RelClear (next (lk s)))
  | RelClear tl =>
      (if decide (tl = Some t) then set_lk (set_next None (lk s)) s else s, RelUnlock tl)
  | RelUnlock tl =>
      let '(_, new) := xchg (spin (lk s)) 0 in
      (set_lk (set_spin new (lk s)) s, if decide (tl = Some t) then McsIdle else RelWait)
  | RelWait => (s, match next (qnode s t) with None => RelWait | Some _ => RelLoad end)
  | RelLoad => (s, match next (qnode s t) with Some nx => RelStore nx | None => RelLoad end)
  | RelStore nx => (set_qnode nx (set_spin 1 (qnode s nx)) s, McsIdle)
  | _ => (s, pc)
  end.

Definition mcs_exec (t : nat) (s : mcs_sh) (pc : mcs_pc) : mcs_sh * mcs_pc :=
  match pc with
  | AcqNext | AcqSpin | AcqXchg | AcqLink _ | AcqWait _ => mcslock_acquire t s pc
  | _ => mcslock_release t s pc
  end.

Definition mcs_code : lock_code mcs_sh mcs_pc :=
  LockCode McsIdle AcqNext RelTest
    (λ pc, match pc with McsHeld => true | _ => false end)
    (λ pc, match pc with McsIdle => true | _ => false end)
    mcs_exec.

(** At the start the lock is initialised and the nodes hold anything. *)
Definition mcs_start (nodes : nat → mcs_lock_t) : mcs_sh :=
  {| lk := mcslock_init; qnode := nodes |}.

(** ** Mutual exclusion

    The right to enter is a token: it is either in [lk->next = NULL], or with
    one thread in its critical section or in release, or already granted to a
    waiting thread by its [spin] word. *)

Definition mcs_token (t : nat) (pc : mcs_pc) : bool :=
  match pc with
  | McsHeld | RelTest | RelLock | RelTail | RelClear _ | RelWait | RelLoad | RelStore _ => true
  | RelUnlock tl => bool_decide (tl ≠ Some t)
  | _ => false
  end.

Definition mcs_granted (s : mcs_sh) (t : nat) (pc : mcs_pc) : Prop :=
  match pc with AcqWait _ => spin (qnode s t) ≠ 0 | _ => False end.

Definition mcs_right (s : mcs_sh) (t : nat) (pc : mcs_pc) : Prop :=
  mcs_token t pc = true ∨ mcs_granted s t pc.

(** A node is in use from the reset of its [next] field on. *)
Definition mcs_active (pc : mcs_pc) : bool :=
  match pc with McsIdle | AcqNext => false | _ => true end.

(** [y] waits behind [x] and has not been granted the lock. *)
Definition mcs_behind (s : mcs_sh) (L : list mcs_pc) (x y : nat) : Prop :=
  L !! y = Some (AcqWait x) ∧ spin (qnode s y) = 0.

Record mcs_inv (s : mcs_sh) (L : list mcs_pc) : Prop := {
  mi_free : next (lk s) = None → ∀ t pc, L !! t = Some pc → ¬ mcs_right s t pc;
  mi_one : ∀ t1 t2 p1 p2, L !! t1 = Some p1 → L !! t2 = Some p2 →
    mcs_right s t1 p1 → mcs_right s t2 p2 → t1 = t2;
  mi_next : ∀ x pc y, L !! x = Some pc → mcs_active pc = true →
    next (qnode s x) = Some y → mcs_behind s L x y;
  mi_store : ∀ x y, L !! x = Some (RelStore y) → mcs_behind s L x y;
  mi_spin : ∀ t pc, L !! t = Some pc → pc = AcqXchg ∨ (∃ x, pc = AcqLink x) →
    spin (qnode s t) = 0
}.

(** Most steps move only thread [t] and its own node: they keep the invariant
    when they give [t] no new right and no new successor. *)
Lemma mcs_inv_local s L s' t l l' :
  mcs_inv s L → L !! t = Some l →
  next (lk s') = next (lk s) →
  (∀ u, u ≠ t → qnode s' u = qnode s u) →
  (mcs_right s' t l' → mcs_right s t l) →
  (∀ x, l = AcqWait x → spin (qnode s t) = 0 → l' = l ∧ spin (qnode s' t) = 0) →
  (∀ y, mcs_active l' = true → next (qnode s' t) = Some y →
     mcs_active l = true ∧ next (qnode s t) = Some y) →
  (∀ y, l' = RelStore y → mcs_active l = true ∧ next (qnode s t) = Some y) →
  (l' = AcqXchg ∨ (∃ x, l' = AcqLink x) → spin (qnode s' t) = 0) →
  mcs_inv s' (<[t := l']> L).
Proof.
  intros [Hf Ho Hn Hst Hsp] Hl Elk Eq Hr Hw Ha Hs Hx.
  assert (∀ x y, mcs_behind s L x y → mcs_behind s' (<[t := l']> L) x y) as Hb.
  { intros x y [Hy Hz]. destruct (decide (y = t)) as [->|Hne].
    - rewrite Hl in Hy. simplify_eq. destruct (Hw x eq_refl Hz) as [-> Hz'].
      split; [|done]. rewrite list_lookup_insert_eq; [done|]. by eapply lookup_lt_Some.
    - split; [by rewrite list_lookup_insert_ne|by rewrite Eq]. }
  assert (∀ u p, <[t := l']> L !! u = Some p → mcs_right s' u p →
            ∃ p', L !! u = Some p' ∧ mcs_right s u p') as HR.
  { intros u p Hu Hru. vec_cases; [by eauto|]. exists p. split; [done|].
    unfold mcs_right, mcs_granted in *. destruct p; by rewrite ?Eq in Hru. }
  split.
  - intros Hnx u pc Hu Hru. rewrite Elk in Hnx.
    destruct (HR _ _ Hu Hru) as (p' & Hp' & Hrp). by eapply Hf.
  - intros t1 t2 p1 p2 H1 H2 R1 R2.
    destruct (HR _ _ H1 R1) as (?&?&?), (HR _ _ H2 R2) as (?&?&?). eauto.
  - intros x pc y Hxx Hact Hy. apply Hb. vec_cases.
    + destruct (Ha y Hact Hy). eauto.
    + rewrite Eq in Hy by done. eauto.
  - intros x y Hxx. apply Hb. vec_cases; [|by eauto].
    destruct (Hs y ltac:(done)). eauto.
  - intros u pc Hu Hp. vec_cases; [by eauto|]. rewrite Eq by done. eauto.
Qed.

(** [tail = xchg(&lk->next, qnode)]: a NULL tail hands the token to [t]. *)
Lemma mcs_inv_xchg s L t :
  mcs_inv s L → L !! t = Some AcqXchg →
  mcs_inv (set_lk (set_next (Some t) (lk s)) s)
    (<[t := match next (lk s) with None => McsHeld | Some x => AcqLink x end]> L).
Proof.
  intros HI Hl. destruct (next (lk s)) as [x|] eqn:En.
  - destruct HI as [Hf Ho Hn Hst Hsp]. eapply (mcs_inv_local (set_lk (set_next (Some t) (lk s)) s) L);
      [split|..]; try done; try naive_solver.
  - destruct HI as [Hf Ho Hn Hst Hsp]. specialize (Hf En).
    assert (∀ x y, mcs_behind s L x y → y ≠ t) as Hne.
    { intros x y [Hy _] ->. simplify_eq. }
    assert (∀ x y, mcs_behind s L x y →
      mcs_behind (set_lk (set_next (Some t) (lk s)) s) (<[t := McsHeld]> L) x y) as Hb.
    { intros x y Hxy. pose proof (Hne _ _ Hxy). destruct Hxy.
      split; [by rewrite list_lookup_insert_ne|done]. }
    split; simpl.
    + done.
    + intros t1 t2 p1 p2 H1 H2 R1 R2. vec_cases; [done|..]; exfalso;
        match goal with Hu : L !! ?u = Some ?p, R : mcs_right _ ?u ?p |- _ => by apply (Hf u p Hu) end.
    + intros x pc y Hx Ha Hy. apply Hb. vec_cases; by eauto.
    + intros x y Hx. apply Hb. vec_cases; by eauto.
    + intros u pc Hu Hp. vec_cases; [naive_solver|by eauto].
Qed.

(** [tail->next = qnode]: [t] joins the queue behind [tail]. *)
Lemma mcs_inv_link s L t x :
  mcs_inv s L → L !! t = Some (AcqLink x) →
  mcs_inv (set_qnode x (set_next (Some t) (qnode s x)) s) (<[t := AcqWait x]> L).
Proof.
  intros [Hf Ho Hn Hst Hsp] Hl.
  set (s' := set_qnode x (set_next (Some t) (qnode s x)) s).
  assert (∀ u, spin (qnode s' u) = spin (qnode s u)) as Es.
  { intros u. simpl. by case_decide; subst. }
  assert (spin (qnode s t) = 0) as Hz by (eapply Hsp; eauto).
  assert (∀ z y, mcs_behind s L z y → mcs_behind s' (<[t := AcqWait x]> L) z y) as Hb.
  { intros z y [Hy Hzy]. split; [|by rewrite Es].
    rewrite list_lookup_insert_ne; [done|]. intros ->. simplify_eq. }
  assert (∀ u p, <[t := AcqWait x]> L !! u = Some p → mcs_right s' u p →
            L !! u = Some p ∧ mcs_right s u p) as HR.
  { intros u p Hu Hru. vec_cases.
    - exfalso. unfold mcs_right, mcs_granted in Hru. rewrite Es in Hru. naive_solver.
    - split; [done|]. unfold mcs_right, mcs_granted in *. destruct p; by rewrite ?Es in Hru. }
  split.
  - intros Hnx u pc Hu Hru. destruct (HR _ _ Hu Hru). by eapply Hf.
  - intros t1 t2 p1 p2 H1 H2 R1 R2. destruct (HR _ _ H1 R1), (HR _ _ H2 R2). eauto.
  - intros z pc y Hz' Ha Hy. simpl in Hy. destruct (decide (z = x)) as [->|Hne].
    + simpl in Hy. simplify_eq. split; [|by rewrite Es].
      rewrite list_lookup_insert_eq; [done|]. by eapply lookup_lt_Some.
    + apply Hb. vec_cases; by eauto.
  - intros z y Hz'. apply Hb. vec_cases; by eauto.
  - intros u pc Hu Hp. rewrite Es. vec_cases; [naive_solver|by eauto].
Qed.

(** [if (t == qnode) lk->next = NULL]: the token goes back to the lock. *)
Lemma mcs_inv_clear s L t tl :
  mcs_inv s L → L !! t = Some (RelClear tl) →
  mcs_inv (if decide (tl = Some t) then set_lk (set_next None (lk s)) s else s)
    (<[t := RelUnlock tl]> L).
Proof.
  intros HI Hl. case_decide as Htl.
  - destruct HI as [Hf Ho Hn Hst Hsp].
    assert (∀ u p, <[t := RelUnlock tl]> L !! u = Some p →
      ¬ mcs_right (set_lk (set_next None (lk s)) s) u p) as Hno.
    { intros u p Hu Hru. vec_cases.
      - destruct Hru as [Hru|[]]. simpl in Hru. by rewrite bool_decide_eq_true in Hru.
      - assert (u = t) by (eapply (Ho u t); eauto; by left). done. }
    assert (∀ x y, mcs_behind s L x y →
      mcs_behind (set_lk (set_next None (lk s)) s) (<[t := RelUnlock tl]> L) x y) as Hb.
    { intros x y [Hy ?]. split; [|done]. rewrite list_lookup_insert_ne; [done|].
      intros ->. simplify_eq. }
    split.
    + intros _. apply Hno.
    + intros t1 t2 p1 p2 H1 H2 R1 R2. by apply Hno in H1.
    + intros x pc y Hx Ha Hy. apply Hb. vec_cases; by eauto.
    + intros x y Hx. apply Hb. vec_cases; by eauto.
    + intros u pc Hu Hp. vec_cases; [naive_solver|by eapply Hsp].
  - eapply mcs_inv_local; eauto; try done; try naive_solver. intros; by left.
Qed.

(** [qnode->next->spin = 1]: the token goes to the successor. *)
Lemma mcs_inv_store s L t y :
  mcs_inv s L → L !! t = Some (RelStore y) →
  mcs_inv (set_qnode y (set_spin 1 (qnode s y)) s) (<[t := McsIdle]> L).
Proof.
  intros HI Hl. pose proof (mi_store _ _ HI _ _ Hl) as [Hy Hz].
  destruct HI as [Hf Ho Hn Hst Hsp].
  set (s' := set_qnode y (set_spin 1 (qnode s y)) s).
  assert (y ≠ t) as Hne by (intros ->; simplify_eq).
  assert (∀ u, next (qnode s' u) = next (qnode s u)) as En.
  { intros u. simpl. by case_decide; subst. }
  assert (∀ u, u ≠ y → qnode s' u = qnode s u) as Eu.
  { intros u ?. simpl. by rewrite decide_False. }
  assert (∀ u p, u ≠ y → <[t := McsIdle]> L !! u = Some p → ¬ mcs_right s' u p) as Hno.
  { intros u p Huy Hu Hru. vec_cases; [by destruct Hru|].
    assert (u = t); [|done]. eapply (Ho u t); eauto; [|by left].
    unfold mcs_right, mcs_granted in *. destruct p; by rewrite ?(Eu u) in Hru. }
  assert (∀ x z, x ≠ t → mcs_behind s L x z → mcs_behind s' (<[t := McsIdle]> L) x z) as Hb.
  { intros x z Hx [Hxz ?]. assert (z ≠ y) by (intros ->; simplify_eq).
    split; [|by rewrite Eu]. rewrite list_lookup_insert_ne; [done|]. intros ->. simplify_eq. }
  split.
  - simpl. intros Hnx. exfalso. eapply (Hf Hnx t); eauto. by left.
  - intros t1 t2 p1 p2 H1 H2 R1 R2.
    destruct (decide (t1 = y)) as [->|H1y]; [|by destruct (Hno t1 p1)].
    destruct (decide (t2 = y)) as [->|H2y]; [done|by destruct (Hno t2 p2)].
  - intros x pc z Hx Ha Hxz. rewrite En in Hxz. vec_cases; [done|]. apply Hb; [done|]. by eauto.
  - intros x z Hx. vec_cases; [done|]. apply Hb; [done|]. by eauto.
  - intros u pc Hu Hp. vec_cases; [naive_solver|].
    rewrite Eu; [by eapply Hsp|]. intros ->. simplify_eq. naive_solver.
Qed.

Lemma mcs_inv_step s L s' L' :
  mcs_inv s L → lstep mcs_code (s, L) (s', L') → mcs_inv s' L'.
Proof.
  intros HI Hs.
  inversion Hs as [? ? t l Hl Hi|? ? t l Hl Hh|? ? t l ? l' Hl Hni Hnh He]; subst; clear Hs.
  - destruct l; try done. eapply mcs_inv_local; eauto; try done; naive_solver.
  - destruct l; try done. eapply mcs_inv_local; eauto; try done; naive_solver.
  - destruct l; try done; simpl in He; unfold xchg in He; simplify_eq/=.
    (* the steps that change another thread's view *)
    all: try by (apply mcs_inv_xchg || apply mcs_inv_link || apply mcs_inv_clear
                 || apply mcs_inv_store).
    (* the local ones *)
    all: eapply mcs_inv_local; eauto; simpl.
    all: repeat (case_decide || case_match); simplify_eq/=; try done.
    all: try (intros; simplify_eq/=; naive_solver).
    all: first [ by intros; rewrite decide_False
               | unfold mcs_right, mcs_granted; simpl; rewrite ?bool_decide_eq_true; naive_solver ].
Qed.

Lemma mcs_reachable_inv nodes n s L :
  lreachable mcs_code (mcs_start nodes) n s L → mcs_inv s L.
Proof.
  intros Hr. eapply (lreachable_ind mcs_code mcs_inv) in Hr as [Hi _]; [done| |].
  - split; [| | | |].
    all: intros; repeat match goal with
      H : replicate _ _ !! _ = Some _ |- _ => apply lookup_replicate in H as [? _] end.
    all: subst; simpl in *; try done; unfold mcs_right in *; naive_solver.
  - intros. by eapply mcs_inv_step.
Qed.

#[export] Instance mcs_mutex_lock nodes n : MutexLock mcs_code (mcs_start nodes) n.
Proof.
  split; [|done|by intros ?? []].
  intros s L HI%mcs_reachable_inv t1 t2 l1 l2 H1 H2 Hh1 Hh2.
  eapply (mi_one _ _ HI); eauto; [destruct l1|destruct l2]; try done; by left.
Qed.

(** ** The lost waiter

    What the two threads look like once thread 1 has linked itself behind the
    node of thread 0 while thread 0 was clearing [lk->next]. *)
Definition mcs_stuck (s : mcs_sh) (L : list mcs_pc) : Prop :=
  ∃ p, L = [p; AcqWait 0] ∧ spin (qnode s 1) = 0 ∧
  match p with
  | McsIdle | AcqNext => next (lk s) = None
  | AcqSpin | AcqXchg => next (lk s) = None ∧ next (qnode s 0) = None
  | McsHeld | RelTest | RelLock | RelTail =>
      next (lk s) = Some 0%nat ∧ next (qnode s 0) = None
  | RelClear tl => tl = Some 0%nat ∧ next (lk s) = Some 0%nat ∧ next (qnode s 0) = None
  | RelUnlock tl => tl = Some 0%nat ∧ next (lk s) = None
  | _ => False
  end.

Lemma mcs_stuck_step s L s' L' :
  mcs_stuck s L → lstep mcs_code (s, L) (s', L') → mcs_stuck s' L'.
Proof.
  intros (p & -> & Hz & Hp) Hs. unfold mcs_stuck.
  inversion Hs as [? ? t l Hl Hi|? ? t l Hl Hh|? ? t l ? l' Hl Hni Hnh He]; subst; clear Hs.
  all: destruct t as [|[|t]]; simplify_eq/=.
  - destruct l; try done. eexists; split_and!; [done|done|]. by destruct Hp.
  - destruct l; try done. eexists; split_and!; [done|done|]. done.
  - destruct l; try done; simplify_eq/=; try (destruct Hp; simplify_eq/=).
    all: unfold xchg in *; simplify_eq/=; eexists; split_and!; [done| |].
    all: repeat match goal with H : next _ = _ |- _ => rewrite H end; simpl.
    all: try case_decide; naive_solver.
  - rewrite decide_False by lia. by exists p.
Qed.

Lemma mcs_stuck_forever s L s' L' :
  mcs_stuck s L → rtc (lstep mcs_code) (s, L) (s', L') → mcs_stuck s' L'.
Proof.
  intros H0 Hr. apply (rtc_ind_r (λ x, mcs_stuck x.1 x.2) (s, L)) in Hr; [done|done|].
  intros [s1 L1] [s2 L2] _ Hst Hi. by eapply mcs_stuck_step.
Qed.

(** C34: mutual exclusion of the MCS lock: whatever the queue nodes hold at
    the start, for any number of threads and any interleaving of their calls
    to mcslock_acquire and mcslock_release, two threads never hold it at once. *)
Theorem mcs_safe nodes n s L :
  lreachable mcs_code (mcs_start nodes) n s L → mutex mcs_code L.
Proof. exact (mutex_safe _ _ _). Qed.

Lemma mcs_safe_witness :
  mutex mcs_code (lrun mcs_code [0; 0; 0; 0; 1; 1; 1; 1; 1]%nat
    (mcs_start (λ _, mcslock_init), replicate 2 McsIdle)).2
  ∧ (lrun mcs_code [0; 0; 0; 0; 1; 1; 1; 1; 1]%nat
    (mcs_start (λ _, mcslock_init), replicate 2 McsIdle)).2 = [McsHeld; AcqWait 0].
Proof.
  split; [|reflexivity].
  eapply (mcs_safe (λ _, mcslock_init) 2 (lrun mcs_code _ _).1).
  unfold lreachable. rewrite <- surjective_pairing. apply lrun_rtc.
Defined.

(** C38: the emulated compare-and-swap of mcslock_release loses waiters: two
    threads can reach a state in which the lock is free, thread 0 is outside
    it, thread 1 waits in mcslock_acquire, and thread 1 waits for ever,
    whatever the two threads do from then on. *)
Theorem mcs_lost_waiter :
  ∃ s L, lreachable mcs_code (mcs_start (λ _, mcslock_init)) 2 s L
  ∧ next (lk s) = None ∧ L = [McsIdle; AcqWait 0]
  ∧ ∀ s' L', rtc (lstep mcs_code) (s, L) (s', L') → L' !! 1%nat = Some (AcqWait 0).
Proof.
  set (x := lrun mcs_code [0; 0; 0; 0; 0; 0; 0; 0; 1; 1; 1; 1; 1; 0; 0]%nat
              (mcs_start (λ _, mcslock_init), replicate 2 McsIdle)).
  exists x.1, x.2. split_and!.
  - unfold lreachable. rewrite <- surjective_pairing. apply lrun_rtc.
  - reflexivity.
  - reflexivity.
  - intros s' L' Hr. apply mcs_stuck_forever in Hr as (p & -> & _); [done|].
    by exists McsIdle.
Qed.
