(* ===== verification/LibArray.v ===== *)
(** * The array lock of libthread.c

    Each acquiring thread takes the next slot of a circular array under the
    small spin lock [lk->m] and waits until its slot is set; the releasing
    thread clears its slot and sets the following one.

    [array_safe] is mutual exclusion for at most [size] threads, the number
    frisbee_array.c initialises the lock with.  [array_too_many] shows that the
    bound is needed: with one slot less than threads, two threads enter. *)

From S2P Require Import Prelude LibLock.

Record arraylock_t := ArrayLock {
  lock : list Z;
  lockpos : Z;
  next : Z;
  size : Z;
  m : Z
}.

Definition slot (l : list Z) (i : Z) : Z := default 0 (l !! Z.to_nat i).
Definition set_slot (l : list Z) (i v : Z) : list Z := <[Z.to_nat i := v]> l.

Inductive array_pc :=
| ArrIdle
| ArrHeld
  (* arraylock_acquire *)
| ArrLock                  (* while (xchg(&lk->m, 1) != 0) *)
| ArrRead                  (* pos = lk->next *)
| ArrBump (pos : Z)        (* lk->next = pos + 1 *)
| ArrTest (pos : Z)        (* if (lk->next == lk->size) *)
| ArrWrap (pos : Z)        (* lk->next = 0 *)
| ArrUnlock (pos : Z)      (* xchg(&lk->m, 0) *)
| ArrWait (pos : Z)        (* while (lk->lock[pos] == 0) *)
| ArrMine (pos : Z)        (* lk->lockpos = pos *)
  (* arraylock_release *)
| ArrNext                  (* nextpos = lk->lockpos + 1 *)
| ArrNextTest (np : Z)     (* if (nextpos == lk->size) nextpos = 0 *)
| ArrClear (np : Z)        (* lk->lock[lk->lockpos] = 0 *)
| ArrGrant (np : Z).       (* lk->lock[nextpos] = 1 *)

(** [arraylock_init] on the array [buf] that malloc returned; [pos0] is what
    the uninitialised [lockpos] field happens to hold. *)
Definition arraylock_init (buf : list Z) (pos0 sz : Z) : arraylock_t :=
  let cleared := fold_left (λ l i, set_slot l i 0) (seqZ 1 (sz - 1)) buf in
  {| lock := set_slot cleared 0 1; lockpos := pos0; next := 0; size := sz; m := 0 |}.

Definition arraylock_acquire (lk : arraylock_t) (pc : array_pc) : arraylock_t * array_pc :=
  match pc with
  | ArrLock =>
      let '(old, new) := xchg (m lk) 1 in
      (ArrayLock (lock lk) (lockpos lk) (next lk) (size lk) new,
       if decide (old ≠ 0) then ArrLock else ArrRead)
  | ArrRead => (lk, ArrBump (next lk))
  | ArrBump pos =>
      (ArrayLock (lock lk) (lockpos lk) (u32 (pos + 1)) (size lk) (m lk), ArrTest pos)
  | ArrTest pos => (lk, if decide (next lk = size lk) then ArrWrap pos else ArrUnlock pos)
  | ArrWrap pos => (ArrayLock (lock lk) (lockpos lk) 0 (size lk) (m lk), ArrUnlock pos)
  | ArrUnlock pos =>
      let '(_, new) := xchg (m lk) 0 in
      (ArrayLock (lock lk) (lockpos lk) (next lk) (size lk) new, ArrWait pos)
  | ArrWait pos => (lk, if decide (slot (lock lk) pos = 0) then ArrWait pos else ArrMine pos)
  | ArrMine pos => (ArrayLock (lock lk) pos (next lk) (size lk) (m lk), ArrHeld)
  | _ => (lk, pc)
  end.

Definition arraylock_release (lk : arraylock_t) (pc : array_pc) : arraylock_t * array_pc :=
  match pc with
  | ArrNext => (lk, ArrNextTest (u32 (lockpos lk + 1)))
  | ArrNextTest np => (lk, ArrClear (if decide (np = size lk) then 0 else np))
  | ArrClear np =>
      (ArrayLock (set_slot (lock lk) (lockpos lk) 0) (lockpos lk) (next lk) (size lk) (m lk),
       ArrGrant np)
  | ArrGrant np =>
      (ArrayLock (set_slot (lock lk) np 1) (lockpos lk) (next lk) (size lk) (m lk), ArrIdle)
  | _ => (lk, pc)
  end.

Definition array_exec (t : nat) (lk : arraylock_t) (pc : array_pc) : arraylock_t * array_pc :=
  match pc with
  | ArrNext | ArrNextTest _ | ArrClear _ | ArrGrant _ => arraylock_release lk pc
  | _ => arraylock_acquire lk pc
  end.

Definition array_code : lock_code arraylock_t array_pc :=
  LockCode ArrIdle ArrLock ArrNext
    (λ pc, match pc with ArrHeld => true | _ => false end)
    (λ pc, match pc with ArrIdle => true | _ => false end)
    array_exec.

(** ** Mutual exclusion

    Tickets are numbered without wrap-around: [T] tickets have been given out
    and [S] of them are done; the ticket of thread [t] is [tk t], and its slot
    is its ticket modulo the size. *)

Definition ticketed (pc : array_pc) : bool :=
  match pc with ArrIdle | ArrLock | ArrRead => false | _ => true end.

(** The thread is inside the section guarded by [lk->m]. *)
Definition in_m (pc : array_pc) : bool :=
  match pc with ArrRead | ArrBump _ | ArrTest _ | ArrWrap _ | ArrUnlock _ => true | _ => false end.

(** What is true of a thread at [pc] that has ticket [k]. *)
Definition thread_ok (lk : arraylock_t) (S T k : Z) (pc : array_pc) : Prop :=
  (ticketed pc = true → S ≤ k < T) ∧
  match pc with
  | ArrIdle | ArrLock => True
  | ArrRead => next lk = T mod size lk
  | ArrBump p => p = k mod size lk ∧ k = T - 1
  | ArrTest p => p = k mod size lk ∧ k = T - 1 ∧ next lk = p + 1
  | ArrWrap p => p = k mod size lk ∧ k = T - 1 ∧ p + 1 = size lk
  | ArrUnlock p => p = k mod size lk ∧ next lk = T mod size lk
  | ArrWait p => p = k mod size lk
  | ArrMine p => k = S ∧ p = S mod size lk
  | ArrHeld | ArrNext => k = S ∧ lockpos lk = S mod size lk
  | ArrNextTest np => k = S ∧ lockpos lk = S mod size lk ∧ np = S mod size lk + 1
  | ArrClear np => k = S ∧ lockpos lk = S mod size lk ∧ np = (S + 1) mod size lk
  | ArrGrant np => k = S ∧ np = (S + 1) mod size lk ∧
                   ∀ i, 0 ≤ i < size lk → slot (lock lk) i = 0
  end.

Record array_inv_at (lk : arraylock_t) (L : list array_pc) (S T : Z) (tk : nat → Z) : Prop := {
  ai_thread : ∀ t pc, L !! t = Some pc → thread_ok lk S T (tk t) pc;
  ai_unique : ∀ t1 t2 p1 p2, L !! t1 = Some p1 → L !! t2 = Some p2 →
    ticketed p1 = true → ticketed p2 = true → tk t1 = tk t2 → t1 = t2;
  ai_count : T - S = Z.of_nat (length (filter (λ pc, ticketed pc = true) L));
  ai_m_free : m lk = 0 → next lk = T mod size lk ∧ ∀ t pc, L !! t = Some pc → in_m pc = false;
  ai_m_one : ∀ t1 t2 p1 p2, L !! t1 = Some p1 → L !! t2 = Some p2 →
    in_m p1 = true → in_m p2 = true → t1 = t2;
  ai_slot : ∀ i, 0 ≤ i < size lk → slot (lock lk) i ≠ 0 → i = S mod size lk;
  ai_size : Z.of_nat (length L) ≤ size lk < 2 ^ 32 ∧ 0 < size lk ∧
            length (lock lk) = Z.to_nat (size lk)
}.

Definition array_inv (lk : arraylock_t) (L : list array_pc) : Prop :=
  ∃ S T tk, array_inv_at lk L S T tk.

Lemma slot_set_eq l i v : 0 ≤ i < Z.of_nat (length l) → slot (set_slot l i v) i = v.
Proof. intros. unfold slot, set_slot. rewrite list_lookup_insert_eq; [done|lia]. Qed.

Lemma slot_set_ne l i j v : 0 ≤ i → 0 ≤ j → i ≠ j → slot (set_slot l i v) j = slot l j.
Proof. intros. unfold slot, set_slot. by rewrite list_lookup_insert_ne by lia. Qed.

(** Two tickets of one round through the array with the same slot are equal. *)
Lemma ticket_mod a b S T sz :
  S ≤ a < T → S ≤ b < T → T - S ≤ sz → a mod sz = b mod sz → a = b.
Proof.
  intros Ha Hb Hsz E.
  assert (a = sz * (a / sz) + a mod sz) by (apply Z.div_mod; lia).
  assert (b = sz * (b / sz) + b mod sz) by (apply Z.div_mod; lia).
  destruct (Z.lt_trichotomy (a / sz) (b / sz)) as [?|[?|?]]; nia.
Qed.

(** One step of thread [t]: what has to be checked for the invariant. *)
Lemma array_inv_move lk lk' L t l l' S T tk S' T' k' :
  array_inv_at lk L S T tk → L !! t = Some l →
  thread_ok lk' S' T' k' l' →
  (∀ u pc, u ≠ t → L !! u = Some pc → thread_ok lk S T (tk u) pc →
     thread_ok lk' S' T' (tk u) pc) →
  (ticketed l' = true → (ticketed l = true ∧ k' = tk t) ∨ k' = T) →
  T' - S' - Z.b2z (ticketed l') = T - S - Z.b2z (ticketed l) →
  (m lk' = 0 → next lk' = T' mod size lk' ∧ in_m l' = false ∧ (m lk = 0 ∨ in_m l = true)) →
  (in_m l' = true → in_m l = true ∨ m lk = 0) →
  (∀ i, 0 ≤ i < size lk → slot (lock lk') i ≠ 0 → i = S' mod size lk) →
  size lk' = size lk → length (lock lk') = length (lock lk) →
  array_inv lk' (<[t := l']> L).
Proof.
  intros [Hth Hun Hc Hmf Hmo Hsl (Hn & Hp & Hll)] Hl Hok Hoth Htk Hcnt Hm Hin Hs Esz Elen.
  exists S', T', (λ u, if decide (u = t) then k' else tk u).
  assert (∀ u pc, L !! u = Some pc → ticketed pc = true → tk u < T) as Hlt.
  { intros u pc Hu Hpc. by apply (Hth _ _ Hu). }
  split.
  - intros u pc Hu. simpl. vec_cases; [by rewrite decide_True|].
    rewrite decide_False by done. eauto.
  - intros t1 t2 p1 p2 H1 H2 R1 R2 E. simpl in E.
    vec_cases; repeat (case_decide; try done).
    + destruct (Htk R2) as [[? ->]| ->]; [by eauto|]. specialize (Hlt _ _ H1 R1). lia.
    + destruct (Htk R1) as [[? ->]| ->]; [by eauto|]. specialize (Hlt _ _ H2 R2). lia.
    + eauto.
  - pose proof (count_upd ticketed L t l l' Hl). destruct (ticketed l), (ticketed l'); simpl in *; lia.
  - intros Hz. destruct (Hm Hz) as (? & ? & Hor). split; [done|].
    intros u pc Hu. vec_cases; [done|]. destruct Hor as [Hz'|Hl'].
    + by eapply (Hmf Hz').
    + destruct (in_m pc) eqn:Epc; [|done]. by assert (u = t) by (eapply (Hmo u t); eauto).
  - assert (∀ u pc, u ≠ t → L !! u = Some pc → in_m pc = true → in_m l' = true → False) as Hno.
    { intros u pc Hu HL Hpc Hl'. destruct (Hin Hl') as [Hl''|Hz].
      - by assert (u = t) by (eapply (Hmo u t); eauto).
      - destruct (Hmf Hz) as [_ Hf]. rewrite (Hf _ _ HL) in Hpc. done. }
    intros t1 t2 p1 p2 H1 H2 R1 R2. vec_cases; [done|..]; [exfalso; eauto..|by eauto].
  - rewrite Esz. exact Hs.
  - rewrite Esz, Elen, length_insert. done.
Qed.

(** The thread has been granted its slot and has not given it up. *)
Definition served (pc : array_pc) : bool :=
  match pc with
  | ArrMine _ | ArrHeld | ArrNext | ArrNextTest _ | ArrClear _ | ArrGrant _ => true
  | _ => false
  end.

Lemma thread_ok_served lk S T k pc : thread_ok lk S T k pc → served pc = true → k = S.
Proof. intros [_ H]. destruct pc; naive_solver. Qed.

(** A step inside [lk->m] or by the served thread does not disturb the others. *)
Lemma array_others lk lk' L S T tk S' T' t l u pc :
  array_inv_at lk L S T tk → L !! t = Some l →
  size lk' = size lk →
  T ≤ T' → (in_m l = true ∨ (T' = T ∧ next lk' = next lk)) →
  S ≤ S' ≤ S + 1 →
  (served l = true ∨ (S' = S ∧ lockpos lk' = lockpos lk ∧ lock lk' = lock lk)) →
  u ≠ t → L !! u = Some pc →
  thread_ok lk S T (tk u) pc → thread_ok lk' S' T' (tk u) pc.
Proof.
  intros HI Hl Esz HT Hm HS Hsv Hut Hu Hok. pose proof Hok as [Hb Hpc].
  assert (in_m pc = true → T' = T ∧ next lk' = next lk) as Hm'.
  { intros Hin. destruct Hm as [Hm|]; [|done]. destruct Hut. eapply (ai_m_one _ _ _ _ _ HI u t); eauto. }
  assert (served l = true → ticketed pc = true → tk u ≠ S) as Hne.
  { intros Hs Ht E. destruct Hut. eapply (ai_unique _ _ _ _ _ HI u t); eauto.
    - by destruct l.
    - rewrite E. symmetry. eapply thread_ok_served; [|done]. by eapply ai_thread. }
  assert (served pc = true → S' = S ∧ lockpos lk' = lockpos lk ∧ lock lk' = lock lk) as Hs'.
  { intros Hsp. destruct Hsv as [Hs|]; [|done]. destruct (Hne Hs); [by destruct pc|].
    by eapply thread_ok_served. }
  split.
  - intros Ht. specialize (Hb Ht). destruct Hsv as [Hs|(?&_)]; [|lia]. specialize (Hne Hs Ht). lia.
  - destruct pc; simpl in *; rewrite ?Esz; try done;
      try (destruct (Hm' eq_refl) as [-> ?]); try (destruct (Hs' eq_refl) as (-> & ? & ?)); 
      repeat match goal with H : _ lk' = _ lk |- _ => rewrite H end; tauto.
Qed.

(** Apply [array_inv_move] with the given counters; the other threads are
    handled by [array_others]. *)
Ltac arr_move HI Hl S' T' k' :=
  eapply (array_inv_move _ _ _ _ _ _ _ _ _ S' T' k' HI Hl);
  [ | intros ?????; eapply (array_others _ _ _ _ _ _ S' T' _ _ _ _ HI Hl);
      [done|lia|simpl; tauto|lia|simpl; tauto|done|eassumption|eassumption]
    | simpl; tauto || idtac | simpl; lia | simpl; tauto || idtac | simpl; tauto || idtac | try exact (ai_slot _ _ _ _ _ HI)
    | done | simpl; auto ].

Lemma array_inv_acquire lk L t l lk' l' :
  array_inv lk L → L !! t = Some l → in_m l = true ∨ l = ArrLock →
  arraylock_acquire lk l = (lk', l') → array_inv lk' (<[t := l']> L).
Proof.
  intros (S & T & tk & HI) Hl Hin He. pose proof (ai_thread _ _ _ _ _ HI _ _ Hl) as [Hb Hok].
  pose proof (ai_size _ _ _ _ _ HI) as (Hn & Hp & Hlen).
  pose proof (ai_m_free _ _ _ _ _ HI) as Hmf.
  pose proof (ai_count _ _ _ _ _ HI) as Hc.
  destruct l; try (by destruct Hin); simpl in *; unfold xchg in He; injection He as <- <-.
  - (* ArrLock *) case_decide as Hm.
    + arr_move HI Hl S T (tk t); try done.
    + assert (m lk = 0) as Hz by lia. arr_move HI Hl S T (tk t); try done.
      split; [done|]. by apply Hmf.
  - (* ArrRead *) arr_move HI Hl S (T + 1) T; try done.
    + split; [simpl; lia|]. simpl. split; [done|lia].
    + intros Hz. destruct (Hmf Hz) as [_ Hf]. by specialize (Hf _ _ Hl).
  - (* ArrBump *) destruct Hok as [-> E].
    pose proof (Z.mod_pos_bound (tk t) (size lk) Hp).
    arr_move HI Hl S T (tk t); try done.
    + split; [done|]. simpl. split_and!; [done|done|]. apply u32_small. lia.
    + intros Hz. destruct (Hmf Hz) as [_ Hf]. by specialize (Hf _ _ Hl).
  - (* ArrTest *) destruct Hok as (-> & E & Hnx).
    assert (m lk = 0 → False) by (intros Hz; by specialize (proj2 (Hmf Hz) _ _ Hl)).
    case_decide as Hw; arr_move HI Hl S T (tk t); try done.
    + split; [done|]. simpl. split_and!; [done|done|lia].
    + split; [done|]. simpl. split; [done|]. rewrite Hnx.
      replace T with (tk t + 1) by lia. rewrite succ_mod; lia.
  - (* ArrWrap *) destruct Hok as (-> & E & Hw).
    assert (m lk = 0 → False) by (intros Hz; by specialize (proj2 (Hmf Hz) _ _ Hl)).
    arr_move HI Hl S T (tk t); try done.
    split; [done|]. simpl. split; [done|].
    replace T with (tk t + 1) by lia. by rewrite succ_mod_wrap.
  - (* ArrUnlock *) destruct Hok as (-> & Hnx).
    arr_move HI Hl S T (tk t); try done.
Qed.

Lemma array_inv_serve lk L t l lk' l' :
  array_inv lk L → L !! t = Some l → (∃ p, l = ArrWait p) ∨ served l = true → l ≠ ArrHeld →
  array_exec t lk l = (lk', l') → array_inv lk' (<[t := l']> L).
Proof.
  intros (S & T & tk & HI) Hl Hin Hnh He.
  pose proof (ai_thread _ _ _ _ _ HI _ _ Hl) as [Hb Hok].
  pose proof (ai_size _ _ _ _ _ HI) as (Hn & Hp & Hlen).
  pose proof (ai_m_free _ _ _ _ _ HI) as Hmf.
  pose proof (ai_count _ _ _ _ _ HI) as Hc.
  pose proof (ai_slot _ _ _ _ _ HI) as Hsl.
  pose proof (length_filter (λ pc, ticketed pc = true) L) as Hle.
  pose proof (Z.mod_pos_bound S (size lk) Hp) as HSm.
  pose proof (Z.mod_pos_bound (S + 1) (size lk) Hp) as HSm1.
  destruct l; try (destruct Hin as [[? ?]|?]; done); try done; simpl in *; injection He as <- <-;
    specialize (Hb eq_refl).
  - (* ArrWait *) case_decide as Hz.
    { arr_move HI Hl S T (tk t); try done. }
    assert (tk t = S) as E.
    { apply (ticket_mod _ _ S T (size lk)); [done|lia|lia|]. rewrite <- Hok. apply Hsl; [|done].
      rewrite Hok. by apply Z.mod_pos_bound. }
    arr_move HI Hl S T (tk t); try done.
    split; [done|]. simpl. by rewrite <- E.
  - (* ArrMine *) destruct Hok as [E ->]. arr_move HI Hl S T (tk t); try done.
  - (* ArrNext *) destruct Hok as [E Hlp]. arr_move HI Hl S T (tk t); try done.
    split; [done|]. simpl. split_and!; [done|done|]. rewrite Hlp. apply u32_small. lia.
  - (* ArrNextTest *) destruct Hok as (E & Hlp & ->).
    arr_move HI Hl S T (tk t); try done.
    split; [done|]. simpl. split_and!; [done|done|].
    case_decide; [by rewrite succ_mod_wrap|by rewrite succ_mod].
  - (* ArrClear *) destruct Hok as (E & Hlp & ->).
    assert (∀ i, 0 ≤ i < size lk → slot (set_slot (lock lk) (lockpos lk) 0) i = 0) as Hz.
    { intros i Hi. rewrite Hlp. destruct (decide (i = S mod size lk)) as [->|Hne].
      - apply slot_set_eq. lia.
      - rewrite slot_set_ne by lia. destruct (decide (slot (lock lk) i = 0)); [done|]. naive_solver. }
    arr_move HI Hl S T (tk t); try done.
    + simpl. intros i Hi. by rewrite (Hz i Hi).
    + simpl. apply length_insert.
  - (* ArrGrant *) destruct Hok as (E & -> & Hz).
    arr_move HI Hl (S + 1) T (tk t); try done.
    + simpl. intros i Hi Hne. destruct (decide (i = (S + 1) mod size lk)); [done|].
      rewrite slot_set_ne, (Hz i Hi) in Hne by lia. done.
    + simpl. apply length_insert.
Qed.

Lemma array_inv_step lk L lk' L' :
  array_inv lk L → lstep array_code (lk, L) (lk', L') → array_inv lk' L'.
Proof.
  intros HI Hs.
  inversion Hs as [? ? t l Hl Hi|? ? t l Hl Hh|? ? t l ? l' Hl Hni Hnh He]; subst; clear Hs.
  - destruct l; try done. destruct HI as (S & T & tk & HI).
    pose proof (ai_m_free _ _ _ _ _ HI). arr_move HI Hl S T (tk t); try done.
  - destruct l; try done. destruct HI as (S & T & tk & HI).
    pose proof (ai_m_free _ _ _ _ _ HI). pose proof (ai_thread _ _ _ _ _ HI _ _ Hl).
    arr_move HI Hl S T (tk t); try done.
  - destruct (in_m l) eqn:Em; [eapply array_inv_acquire; eauto; by destruct l|].
    destruct l; try done; [by eapply array_inv_acquire; eauto|..];
      (eapply array_inv_serve; [done|done|eauto|done|done]).
Qed.

Lemma clear_slots_length (ix : list Z) l :
  length (fold_left (λ l i, set_slot l i 0) ix l) = length l.
Proof.
  revert l. induction ix as [|i ix IH]; intros l; simpl; [done|].
  rewrite IH. apply length_insert.
Qed.

Lemma clear_slots (ix : list Z) l j :
  Forall (λ i, 0 ≤ i) ix → 0 ≤ j < Z.of_nat (length l) → j ∈ ix ∨ slot l j = 0 →
  slot (fold_left (λ l i, set_slot l i 0) ix l) j = 0.
Proof.
  revert l. induction ix as [|i ix IH]; intros l His Hj Hor; simpl.
  { destruct Hor as [[]%not_elem_of_nil|]; done. }
  apply Forall_cons in His as [Hi His].
  apply IH; [done|unfold set_slot; by rewrite length_insert|].
  destruct (decide (j = i)) as [->|Hne]; [right; by apply slot_set_eq|].
  rewrite slot_set_ne by lia. rewrite elem_of_cons in Hor. tauto.
Qed.

Lemma array_inv_init buf pos0 sz n :
  length buf = Z.to_nat sz → 0 < sz < 2 ^ 32 → Z.of_nat n ≤ sz →
  array_inv (arraylock_init buf pos0 sz) (replicate n ArrIdle).
Proof.
  intros Hb Hsz Hn. exists 0, 0, (λ _, 0). split; simpl.
  - intros t pc [-> _]%lookup_replicate. done.
  - intros t1 t2 p1 p2 [-> _]%lookup_replicate. done.
  - clear. by induction n as [|n IH].
  - rewrite Z.mod_0_l by lia. split; [done|]. by intros t pc [-> _]%lookup_replicate.
  - intros t1 t2 p1 p2 [-> _]%lookup_replicate. done.
  - intros i Hi Hne. rewrite Z.mod_0_l by lia. destruct (decide (i = 0)) as [|Hi0]; [done|].
    destruct Hne. rewrite slot_set_ne by lia. apply clear_slots; [|lia|left].
    + apply Forall_forall. intros x Hx%elem_of_seqZ. lia.
    + apply elem_of_seqZ. lia.
  - rewrite length_replicate. unfold set_slot. rewrite length_insert, clear_slots_length. lia.
Qed.

Section array_client.
Context (buf : list Z) (pos0 sz : Z) (n : nat).
Hypothesis Hbuf : length buf = Z.to_nat sz.
Hypothesis Hsz : 0 < sz < 2 ^ 32.
Hypothesis Hn : Z.of_nat n ≤ sz.

Lemma array_reachable_inv lk L :
  lreachable array_code (arraylock_init buf pos0 sz) n lk L → array_inv lk L.
Proof.
  intros Hr. eapply (lreachable_ind array_code array_inv) in Hr as [Hi _]; [done| |].
  - by apply array_inv_init.
  - intros. by eapply array_inv_step.
Qed.

Lemma array_mutex_lock : MutexLock array_code (arraylock_init buf pos0 sz) n.
Proof.
  split; [|done|by intros ?? []].
  intros lk L (S & T & tk & HI)%array_reachable_inv t1 t2 l1 l2 H1 H2 Hh1 Hh2.
  destruct l1, l2; try done.
  eapply (ai_unique _ _ _ _ _ HI); eauto.
  by rewrite (thread_ok_served _ _ _ _ _ (ai_thread _ _ _ _ _ HI _ _ H1) eq_refl),
             (thread_ok_served _ _ _ _ _ (ai_thread _ _ _ _ _ HI _ _ H2) eq_refl).
Qed.
End array_client.

(** The bound on the number of threads is needed: with two slots and three
    threads, the first and the third thread get the same slot and both enter. *)
Example array_too_many :
  (lrun array_code ([0; 0; 0; 0; 0; 0; 0; 0] ++ [1; 1; 1; 1; 1; 1; 1] ++
                    [2; 2; 2; 2; 2; 2; 2; 2])%nat
     (arraylock_init [0; 0] 0 2, replicate 3 ArrIdle)).2
  = [ArrHeld; ArrWait 1; ArrHeld].
Proof. reflexivity. Qed.


