(* ===== verification/Frisbee.v ===== *)
(** * The frisbee programs (frisbee.c, frisbee_mcs.c, frisbee_array.c)

    [numthreads] threads pass a token round: under the lock, the thread whose
    turn it is prints the pass and hands the token to the next one, until
    [maxpass] passes have been made.  The three programs have the same task,
    with the spin lock, the MCS lock and the array lock; the task is modelled
    once, over any lock code, and verified against the interface [MutexLock].

    [frisbee_trace]: what the threads have printed so far is always the
    round-robin sequence of passes, and when every thread has left its loop
    exactly [maxpass] passes have been printed. *)

From S2P Require Import Prelude LibLock LibSpin LibMcs LibArray.

Inductive frisbee_pc :=
| FTop               (* if (passes > maxpass) break; only in the MCS and array programs *)
| FCall              (* the call of acquire *)
| FAcquire           (* inside acquire *)
| FCheck             (* if (passes > maxpass) *)
| FOwner             (* if (cur_owner == tid) *)
| FInc               (* cur_owner++: the load ... *)
| FIncS (r : Z)      (* ... and the store *)
| FWrap              (* if (cur_owner == numthreads) *)
| FWrapS             (* cur_owner = 0 *)
| FPrint             (* printf("Pass number: ...") *)
| FPass              (* passes++: the load ... *)
| FPassS (r : Z)     (* ... and the store *)
| FRelease           (* inside release, at the end of the loop body *)
| FReleaseExit       (* inside release, before break *)
| FDone.

(** How the programs differ: the check before acquire, the type of the
    counters ([int] or [uint]), and the test of the wrap-around. *)
Record frisbee_variant := FrisbeeVariant {
  v_precheck : bool;
  v_cast : Z → Z;
  v_wrap : Z → Z → bool
}.

Record frisbee_state {sh loc : Type} := FrisbeeState {
  f_lock : sh;
  f_threads : list (frisbee_pc * loc);
  f_passes : Z;
  f_owner : Z;
  f_out : list (Z * Z * Z)          (* (passes, tid, cur_owner) of each printf *)
}.
Arguments frisbee_state : clear implicits.

Section frisbee.
Context {sh loc : Type} (v : frisbee_variant) (lc : lock_code sh loc) (numthreads : nat) (maxpass : Z).
Implicit Types (st : frisbee_state sh loc).

Definition set_thread (t : nat) (x : frisbee_pc * loc) st : frisbee_state sh loc :=
  FrisbeeState _ _ (f_lock st) (<[t := x]> (f_threads st)) (f_passes st) (f_owner st) (f_out st).

(** Inside acquire or release: the thread runs the lock's code. *)
Definition in_lock (t : nat) (pc : frisbee_pc) (l : loc) st : frisbee_state sh loc :=
  let '(s', l') := lc_exec lc t (f_lock st) l in
  FrisbeeState _ _ s' (<[t := (pc, l')]> (f_threads st)) (f_passes st) (f_owner st) (f_out st).

(** One step of [frisbee_task] of thread [t]. *)
Definition frisbee_task (t : nat) st : frisbee_state sh loc :=
  match f_threads st !! t with
  | None => st
  | Some (pc, l) =>
      match pc with
      | FTop =>
          if v_precheck v && (maxpass <? f_passes st)
          then set_thread t (FDone, l) st else set_thread t (FCall, l) st
      | FCall => set_thread t (FAcquire, lc_acquire lc) st
      | FAcquire =>
          if lc_held lc l then set_thread t (FCheck, l) st else in_lock t FAcquire l st
      | FCheck =>
          if maxpass <? f_passes st then set_thread t (FReleaseExit, lc_release lc) st
          else set_thread t (FOwner, l) st
      | FOwner =>
          if f_owner st =? Z.of_nat t then set_thread t (FInc, l) st
          else set_thread t (FRelease, lc_release lc) st
      | FInc => set_thread t (FIncS (f_owner st), l) st
      | FIncS r =>
          FrisbeeState _ _ (f_lock st) (<[t := (FWrap, l)]> (f_threads st)) (f_passes st)
            (v_cast v (r + 1)) (f_out st)
      | FWrap =>
          if v_wrap v (f_owner st) (Z.of_nat numthreads)
          then set_thread t (FWrapS, l) st else set_thread t (FPrint, l) st
      | FWrapS =>
          FrisbeeState _ _ (f_lock st) (<[t := (FPrint, l)]> (f_threads st)) (f_passes st)
            0 (f_out st)
      | FPrint =>
          FrisbeeState _ _ (f_lock st) (<[t := (FPass, l)]> (f_threads st)) (f_passes st)
            (f_owner st) (f_out st ++ [(f_passes st, Z.of_nat t, f_owner st)])
      | FPass => set_thread t (FPassS (f_passes st), l) st
      | FPassS r =>
          FrisbeeState _ _ (f_lock st) (<[t := (FRelease, lc_release lc)]> (f_threads st))
            (v_cast v (r + 1)) (f_owner st) (f_out st)
      | FRelease =>
          if lc_is_idle lc l then set_thread t (FTop, l) st else in_lock t FRelease l st
      | FReleaseExit =>
          if lc_is_idle lc l then set_thread t (FDone, l) st else in_lock t FReleaseExit l st
      | FDone => st
      end
  end.

(** [main]: passes = 1, cur_owner = 0, and one thread per number. *)
Definition frisbee_start (s0 : sh) : frisbee_state sh loc :=
  FrisbeeState _ _ s0 (replicate numthreads (FTop, lc_idle lc)) 1 0 [].

(** Any interleaving of the threads. *)
Definition frisbee_step st st' : Prop := ∃ t, st' = frisbee_task t st.
Definition frisbee_reachable (s0 : sh) st : Prop := rtc frisbee_step (frisbee_start s0) st.

(** ** The specification: the [k]-th pass goes from thread [(k-1) mod n] to
    thread [k mod n]. *)
Definition pass_entry (k : Z) : Z * Z * Z :=
  (k, (k - 1) mod Z.of_nat numthreads, k mod Z.of_nat numthreads).
Definition pass_trace (m : nat) : list (Z * Z * Z) := map pass_entry (seqZ 1 (Z.of_nat m)).

Definition in_cs (pc : frisbee_pc) : bool :=
  match pc with
  | FCheck | FOwner | FInc | FIncS _ | FWrap | FWrapS | FPrint | FPass | FPassS _ => true
  | _ => false
  end.
Definition mid_pass (pc : frisbee_pc) : bool :=
  match pc with FInc | FIncS _ | FWrap | FWrapS | FPrint | FPass | FPassS _ => true | _ => false end.

(** What a thread relies on between passes and during its own pass; [k] is the
    number of passes printed. *)
Definition frisbee_ok (p o k n : Z) (t : Z) (pc : frisbee_pc) : Prop :=
  match pc with
  | FOwner => p ≤ maxpass
  | FInc => p = k + 1 ∧ p ≤ maxpass ∧ o = t ∧ t = k mod n
  | FIncS r => p = k + 1 ∧ p ≤ maxpass ∧ o = t ∧ t = k mod n ∧ r = o
  | FWrap => p = k + 1 ∧ p ≤ maxpass ∧ o = t + 1 ∧ t = k mod n
  | FWrapS => p = k + 1 ∧ p ≤ maxpass ∧ t + 1 = n ∧ t = k mod n
  | FPrint => p = k + 1 ∧ p ≤ maxpass ∧ o = (k + 1) mod n ∧ t = k mod n
  | FPass => p = k ∧ p ≤ maxpass ∧ o = k mod n
  | FPassS r => p = k ∧ p ≤ maxpass ∧ o = k mod n ∧ r = p
  | FReleaseExit | FDone => maxpass < p
  | _ => True
  end.

Definition lock_ok (pc : frisbee_pc) (l : loc) : Prop :=
  match pc with
  | FTop | FCall | FDone => lc_is_idle lc l = true
  | _ => in_cs pc = true → lc_held lc l = true
  end.

Record frisbee_inv (s0 : sh) st : Prop := {
  fi_lock : lreachable lc s0 numthreads (f_lock st) ((f_threads st).*2);
  fi_lock_ok : ∀ t pc l, f_threads st !! t = Some (pc, l) → lock_ok pc l;
  fi_ok : ∀ t pc l, f_threads st !! t = Some (pc, l) →
    frisbee_ok (f_passes st) (f_owner st) (Z.of_nat (length (f_out st)))
      (Z.of_nat numthreads) (Z.of_nat t) pc;
  fi_quiet : (∃ t pc l, f_threads st !! t = Some (pc, l) ∧ mid_pass pc = true) ∨
    (f_passes st = Z.of_nat (length (f_out st)) + 1 ∧
     f_owner st = Z.of_nat (length (f_out st)) mod Z.of_nat numthreads ∧
     Z.of_nat (length (f_out st)) ≤ maxpass);
  fi_out : f_out st = pass_trace (length (f_out st))
}.
End frisbee.

(** ** The invariant *)

Section frisbee_proof.
Context {sh loc : Type} (v : frisbee_variant) (lc : lock_code sh loc) (numthreads : nat) (maxpass : Z).
Context (s0 : sh) {Hmutex : MutexLock lc s0 numthreads}.
Hypothesis Hn : 0 < Z.of_nat numthreads < 2 ^ 31.
Hypothesis Hmax : 0 ≤ maxpass < 2 ^ 31 - 1.
Hypothesis Hcast : ∀ x, 0 ≤ x < 2 ^ 31 → v_cast v x = x.
Hypothesis Hwrap : ∀ o, 0 ≤ o ≤ Z.of_nat numthreads →
  v_wrap v o (Z.of_nat numthreads) = (o =? Z.of_nat numthreads).
Implicit Types (st : frisbee_state sh loc).
Local Abbreviation inv := (frisbee_inv lc numthreads maxpass s0).
Local Abbreviation N := (Z.of_nat numthreads).

Lemma pass_trace_snoc k :
  pass_trace numthreads (S k) = pass_trace numthreads k ++ [pass_entry numthreads (Z.of_nat k + 1)].
Proof.
  unfold pass_trace. replace (Z.of_nat (S k)) with (Z.of_nat k + 1) by lia.
  rewrite seqZ_app, map_app by lia. simpl. do 3 f_equal. lia.
Qed.

Lemma frisbee_inv_move st t pc l st' pc' l' :
  inv st → f_threads st !! t = Some (pc, l) →
  f_threads st' = <[t := (pc', l')]> (f_threads st) →
  rtc (lstep lc) (f_lock st, (f_threads st).*2) (f_lock st', <[t := l']> ((f_threads st).*2)) →
  lock_ok lc pc' l' →
  frisbee_ok maxpass (f_passes st') (f_owner st') (Z.of_nat (length (f_out st'))) N (Z.of_nat t) pc' →
  (f_passes st' = f_passes st ∧ f_owner st' = f_owner st ∧ f_out st' = f_out st) ∨
    (in_cs pc = true ∧ f_passes st ≤ f_passes st') →
  mid_pass pc' = true ∨
    (f_passes st' = Z.of_nat (length (f_out st')) + 1 ∧
     f_owner st' = Z.of_nat (length (f_out st')) mod N ∧ Z.of_nat (length (f_out st')) ≤ maxpass) ∨
    (mid_pass pc = false ∧ f_passes st' = f_passes st ∧ f_owner st' = f_owner st ∧ f_out st' = f_out st) →
  f_out st' = pass_trace numthreads (length (f_out st')) →
  inv st'.
Proof.
  intros [Hr Hlk Hok Hq Ho] Ht Eth Hls Hlk' Hok' Hoth Hq' Ho'.
  assert (t < length (f_threads st))%nat as Hlt by by eapply lookup_lt_Some.
  split.
  - rewrite Eth, list_fmap_insert. unfold lreachable; etrans; [exact Hr|exact Hls].
  - intros u p x. rewrite Eth. intros Hu. vec_cases; [by simplify_eq|by eapply Hlk].
  - intros u p x. rewrite Eth. intros Hu. vec_cases; [by simplify_eq|].
    specialize (Hok _ _ _ Hu). destruct Hoth as [(-> & -> & ->)|[Hcs Hle]]; [done|].
    destruct (in_cs p) eqn:Ep; [exfalso|destruct p; simpl in *; done || lia].
    assert (lock_ok lc p x) as Hp by by eapply Hlk.
    assert (lock_ok lc pc l) as Hpc by by eapply Hlk.
    assert (u = t); [|done]. eapply (mutex_safe lc _ _ Hr u t x l).
    + by rewrite list_lookup_fmap, Hu.
    + by rewrite list_lookup_fmap, Ht.
    + by destruct p; try done; apply Hp.
    + by destruct pc; try done; apply Hpc.
  - rewrite Eth. destruct Hq' as [Hmid|[Hqq|(Hmid & -> & -> & ->)]]; [left|by right|].
    + exists t, pc', l'. split; [by rewrite list_lookup_insert_eq|done].
    + destruct Hq as [(u & p & x & Hu & Hp)|Hq]; [left|by right].
      exists u, p, x. split; [|done]. rewrite list_lookup_insert_ne; [done|].
      intros ->. simplify_eq. congruence.
  - done.
Qed.

(** The lock's view of a step of the task that stays outside the lock. *)
Lemma lock_stays st t pc l :
  f_threads st !! t = Some (pc, l) →
  rtc (lstep lc) (f_lock st, (f_threads st).*2) (f_lock st, <[t := l]> ((f_threads st).*2)).
Proof.
  intros Ht. rewrite list_insert_id; [done|]. by rewrite list_lookup_fmap, Ht.
Qed.

Lemma lock_acquires st t pc l :
  f_threads st !! t = Some (pc, l) → lc_is_idle lc l = true →
  rtc (lstep lc) (f_lock st, (f_threads st).*2) (f_lock st, <[t := lc_acquire lc]> ((f_threads st).*2)).
Proof.
  intros Ht Hi. apply rtc_once. apply (lstep_call_acquire _ _ _ _ l); [|done].
  by rewrite list_lookup_fmap, Ht.
Qed.

Lemma lock_releases st t pc l :
  f_threads st !! t = Some (pc, l) → lc_held lc l = true →
  rtc (lstep lc) (f_lock st, (f_threads st).*2) (f_lock st, <[t := lc_release lc]> ((f_threads st).*2)).
Proof.
  intros Ht Hi. apply rtc_once. apply (lstep_call_release _ _ _ _ l); [|done].
  by rewrite list_lookup_fmap, Ht.
Qed.

Lemma lock_runs st t pc l s' l' :
  f_threads st !! t = Some (pc, l) → lc_exec lc t (f_lock st) l = (s', l') →
  rtc (lstep lc) (f_lock st, (f_threads st).*2) (s', <[t := l']> ((f_threads st).*2)).
Proof.
  intros Ht He. destruct (lc_is_idle lc l || lc_held lc l) eqn:Eo.
  - rewrite (mutex_out lc _ _ _ Eo) in He. injection He as <- <-. by eapply lock_stays.
  - apply orb_false_iff in Eo as [Ei Eh]. apply rtc_once. apply (lstep_exec _ _ _ _ l); [|done..].
    by rewrite list_lookup_fmap, Ht.
Qed.

(** A step that touches nothing but the thread's own program point. *)
Lemma frisbee_inv_goto st t pc l pc' l' s' :
  inv st → f_threads st !! t = Some (pc, l) →
  rtc (lstep lc) (f_lock st, (f_threads st).*2) (s', <[t := l']> ((f_threads st).*2)) →
  lock_ok lc pc' l' →
  frisbee_ok maxpass (f_passes st) (f_owner st) (Z.of_nat (length (f_out st))) N (Z.of_nat t) pc' →
  mid_pass pc' = mid_pass pc ∨ mid_pass pc' = true →
  inv (FrisbeeState _ _ s' (<[t := (pc', l')]> (f_threads st)) (f_passes st) (f_owner st) (f_out st)).
Proof.
  intros HI Ht Hls Hlk Hok Hm. eapply frisbee_inv_move; simpl; eauto; [|by apply (fi_out _ _ _ _ _ HI)].
  destruct (mid_pass pc') eqn:E; [by left|]. destruct Hm as [Hm|]; [|done]. right; right. auto.
Qed.

Lemma frisbee_inv_start : inv (frisbee_start lc numthreads s0).
Proof.
  split; simpl.
  - unfold lreachable. by rewrite fmap_replicate.
  - intros t pc l [E _]%lookup_replicate. simplify_eq. simpl. by eapply mutex_idle.
  - intros t pc l [E _]%lookup_replicate. by simplify_eq.
  - right. rewrite Z.mod_0_l by lia. split_and!; lia.
  - done.
Qed.

Ltac lock_done := solve [done | by intros _].

(** In its critical section no other thread is in the middle of a pass. *)
Lemma frisbee_quiet st t pc l :
  inv st → f_threads st !! t = Some (pc, l) → in_cs pc = true → mid_pass pc = false →
  f_passes st = Z.of_nat (length (f_out st)) + 1 ∧
  f_owner st = Z.of_nat (length (f_out st)) mod N ∧ Z.of_nat (length (f_out st)) ≤ maxpass.
Proof.
  intros [Hr Hlk Hok Hq Ho] Ht Hcs Hm. destruct Hq as [(u & p & x & Hu & Hp)|Hq]; [exfalso|done].
  assert (u = t) as ->; [|simplify_eq; congruence].
  eapply (mutex_safe lc _ _ Hr u t x l).
  - by rewrite list_lookup_fmap, Hu.
  - by rewrite list_lookup_fmap, Ht.
  - pose proof (Hlk _ _ _ Hu) as Hl. by destruct p; try done; apply Hl.
  - pose proof (Hlk _ _ _ Ht) as Hl. by destruct pc; try done; apply Hl.
Qed.

(** The steps of the critical section that change the shared counters. *)
Lemma frisbee_inv_pass st t pc l :
  inv st → f_threads st !! t = Some (pc, l) → mid_pass pc = true →
  inv (frisbee_task v lc numthreads maxpass t st).
Proof.
  intros HI Ht Hm. unfold frisbee_task. rewrite Ht.
  pose proof (fi_lock_ok _ _ _ _ _ HI _ _ _ Ht) as Hlk.
  pose proof (fi_ok _ _ _ _ _ HI _ _ _ Ht) as Hok.
  pose proof (fi_out _ _ _ _ _ HI) as Ho.
  set (k := Z.of_nat (length (f_out st))) in *.
  pose proof (Z.mod_pos_bound k N ltac:(lia)) as Hk.
  unfold set_thread. destruct pc; try done; simpl in Hok, Hlk; specialize (Hlk eq_refl).
  - eapply frisbee_inv_goto; [exact HI|exact Ht|by eapply lock_stays|lock_done|naive_solver|by right].
  - destruct Hok as (? & ? & ? & ? & ->).
    eapply frisbee_inv_move; simpl; [exact HI|exact Ht|done|by eapply lock_stays|lock_done| |by right; split; [|lia]|by left|exact Ho].
    split_and!; [done|done| |done]. rewrite Hcast by lia. lia.
  - destruct Hok as (? & ? & E & ?). rewrite Hwrap by lia. destruct (Z.eqb_spec (f_owner st) N).
    + eapply frisbee_inv_goto; [exact HI|exact Ht|by eapply lock_stays|lock_done| |by right].
      simpl. fold k. split_and!; [done|done|lia|done].
    + eapply frisbee_inv_goto; [exact HI|exact Ht|by eapply lock_stays|lock_done| |by right].
      simpl. split_and!; [done|done| |done]. fold k. rewrite succ_mod; lia.
  - destruct Hok as (? & ? & E & ?).
    eapply frisbee_inv_move; simpl; [exact HI|exact Ht|done|by eapply lock_stays|lock_done| |by right; split; [|lia]|by left|exact Ho].
    split_and!; [done|done| |done]. fold k. rewrite succ_mod_wrap; lia.
  - destruct Hok as (Ep & ? & E & ?).
    eapply frisbee_inv_move; simpl; [exact HI|exact Ht|done|by eapply lock_stays|lock_done| | |by left|].
    + rewrite length_app. simpl. replace (Z.of_nat (length (f_out st) + 1)) with (k + 1) by lia. done.
    + right. split; [done|lia].
    + rewrite length_app. simpl. rewrite Nat.add_1_r, pass_trace_snoc, <- Ho.
      do 2 f_equal. unfold pass_entry. fold k. f_equal; [f_equal|]; [lia| |done].
      replace (k + 1 - 1) with k by lia. done.
  - eapply frisbee_inv_goto; [exact HI|exact Ht|by eapply lock_stays|lock_done|naive_solver|by right].
  - destruct Hok as (? & ? & ? & ->). rewrite Hcast by lia.
    eapply frisbee_inv_move; simpl; [exact HI|exact Ht|done|by eapply lock_releases|lock_done|done| | |exact Ho].
    + right. split; [done|lia].
    + right; left. fold k. split_and!; [lia|done|lia].
Qed.

Lemma frisbee_inv_step st t : inv st → inv (frisbee_task v lc numthreads maxpass t st).
Proof.
  intros HI. destruct (f_threads st !! t) as [[pc l]|] eqn:Ht; [|by unfold frisbee_task; rewrite Ht].
  destruct (mid_pass pc) eqn:Hm; [by eapply frisbee_inv_pass|].
  pose proof (fi_lock_ok _ _ _ _ _ HI _ _ _ Ht) as Hlk.
  pose proof (fi_ok _ _ _ _ _ HI _ _ _ Ht) as Hok.
  unfold frisbee_task, set_thread, in_lock. rewrite Ht.
  destruct pc; try done; simpl in *; try specialize (Hlk eq_refl).
  - (* FTop *) destruct (v_precheck v && (maxpass <? f_passes st)) eqn:E.
    + apply andb_true_iff in E as [_ E%Z.ltb_lt].
      eapply frisbee_inv_goto; [exact HI|exact Ht|by eapply lock_stays|lock_done|done|by left].
    + eapply frisbee_inv_goto; [exact HI|exact Ht|by eapply lock_stays|lock_done|done|by left].
  - (* FCall *) eapply frisbee_inv_goto; [exact HI|exact Ht|by eapply lock_acquires|lock_done|done|by left].
  - (* FAcquire *) destruct (lc_held lc l) eqn:E.
    + eapply frisbee_inv_goto; [exact HI|exact Ht|by eapply lock_stays|lock_done|done|by left].
    + destruct (lc_exec lc t (f_lock st) l) as [s' l'] eqn:Ee.
      eapply frisbee_inv_goto; [exact HI|exact Ht|by eapply lock_runs|lock_done|done|by left].
  - (* FCheck *) destruct (Z.ltb_spec maxpass (f_passes st)).
    + eapply frisbee_inv_goto; [exact HI|exact Ht|by eapply lock_releases|lock_done|done|by left].
    + eapply frisbee_inv_goto; [exact HI|exact Ht|by eapply lock_stays|lock_done|done|by left].
  - (* FOwner *) pose proof (frisbee_quiet _ _ _ _ HI Ht eq_refl eq_refl) as (? & ? & ?).
    destruct (Z.eqb_spec (f_owner st) (Z.of_nat t)).
    + eapply frisbee_inv_goto; [exact HI|exact Ht|by eapply lock_stays|lock_done| |by right].
      simpl. split_and!; [done|done|done|congruence].
    + eapply frisbee_inv_goto; [exact HI|exact Ht|by eapply lock_releases|lock_done|done|by left].
  - (* FRelease *) destruct (lc_is_idle lc l) eqn:E.
    + eapply frisbee_inv_goto; [exact HI|exact Ht|by eapply lock_stays|lock_done|done|by left].
    + destruct (lc_exec lc t (f_lock st) l) as [s' l'] eqn:Ee.
      eapply frisbee_inv_goto; [exact HI|exact Ht|by eapply lock_runs|lock_done|done|by left].
  - (* FReleaseExit *) destruct (lc_is_idle lc l) eqn:E.
    + eapply frisbee_inv_goto; [exact HI|exact Ht|by eapply lock_stays|lock_done|done|by left].
    + destruct (lc_exec lc t (f_lock st) l) as [s' l'] eqn:Ee.
      eapply frisbee_inv_goto; [exact HI|exact Ht|by eapply lock_runs|lock_done|done|by left].
Qed.

(** ** What the invariant says of the output *)
Lemma frisbee_output st :
  frisbee_reachable v lc numthreads maxpass s0 st →
  f_out st = pass_trace numthreads (length (f_out st)) ∧
  Z.of_nat (length (f_out st)) ≤ maxpass ∧
  ((∀ t pc l, f_threads st !! t = Some (pc, l) → pc = FDone) →
   Z.of_nat (length (f_out st)) = maxpass).
Proof.
  intros Hr. assert (inv st) as HI.
  { apply (rtc_ind_r (R := frisbee_step v lc numthreads maxpass) inv
             (frisbee_start lc numthreads s0)); [apply frisbee_inv_start| |done].
    intros st1 st2 _ [t ->]. apply frisbee_inv_step. }
  assert (length (f_threads st) = numthreads) as Hlen.
  { rewrite <- (length_fmap snd). by apply (lreachable_length _ _ _ _ _ (fi_lock _ _ _ _ _ HI)). }
  destruct HI as [_ _ Hok Hq Ho]. split; [done|]. split.
  - destruct Hq as [(t & pc & l & Ht & Hm)|(_ & _ & ?)]; [|done].
    specialize (Hok _ _ _ Ht). destruct pc; try done; simpl in Hok; lia.
  - intros Hall. destruct Hq as [(t & pc & l & Ht & Hm)|(Hp & _ & ?)].
    + rewrite (Hall _ _ _ Ht) in Hm. done.
    + destruct (lookup_lt_is_Some_2 (f_threads st) 0) as [[pc l] H0]; [lia|].
      specialize (Hok _ _ _ H0). rewrite (Hall _ _ _ H0) in Hok. simpl in Hok. lia.
Qed.
End frisbee_proof.

(** A concrete schedule is an interleaving. *)
Lemma frisbee_run_reachable {sh loc} v (lc : lock_code sh loc) n maxpass s0 ts :
  frisbee_reachable v lc n maxpass s0
    (fold_left (λ st t, frisbee_task v lc n maxpass t st) ts (frisbee_start lc n s0)).
Proof.
  unfold frisbee_reachable. generalize (frisbee_start lc n s0).
  induction ts as [|t ts IH]; intros st; simpl; [done|].
  eapply rtc_l; [by exists t|apply IH].
Qed.

(** ** The three programs *)

Definition frisbee_spin_variant : frisbee_variant :=
  {| v_precheck := false; v_cast := i32; v_wrap := λ o n, n <=? o |}.
Definition frisbee_queue_variant : frisbee_variant :=
  {| v_precheck := true; v_cast := u32; v_wrap := λ o n, o =? n |}.

(** The tasks of frisbee.c, frisbee_mcs.c and frisbee_array.c. *)
Definition frisbee_spin_task := frisbee_task frisbee_spin_variant spin_code.
Definition frisbee_mcs_task := frisbee_task frisbee_queue_variant mcs_code.
Definition frisbee_array_task := frisbee_task frisbee_queue_variant array_code.

(** What the program started on [s0] promises in every state [st] it reaches. *)
Definition frisbee_correct {sh loc} (v : frisbee_variant) (lc : lock_code sh loc)
    (n : nat) (maxpass : Z) (s0 : sh) : Prop :=
  ∀ st, frisbee_reachable v lc n maxpass s0 st →
  f_out st = pass_trace n (length (f_out st)) ∧
  Z.of_nat (length (f_out st)) ≤ maxpass ∧
  ((∀ t pc l, f_threads st !! t = Some (pc, l) → pc = FDone) →
   Z.of_nat (length (f_out st)) = maxpass).


