(* ===== verification/Memory.v ===== *)
(** * Byte-addressed memory

    The kernel's and the user programs' view of memory: a byte (0..255) per
    address.  Words are little-endian, as on the x86.  A pointer to bytes that
    are only read is [cptr], the bytes at the pointer by offset; a memory
    address, a [char] array and a string literal all give one. *)

From S2P Require Import Prelude.

Definition mem : Type := Z → Z.

Definition store8 (m : mem) (a v : Z) : mem := λ x, if decide (x = a) then u8 v else m x.

Definition load32 (m : mem) (a : Z) : Z :=
  m a + 2 ^ 8 * m (a + 1) + 2 ^ 16 * m (a + 2) + 2 ^ 24 * m (a + 3).

Definition store32 (m : mem) (a v : Z) : mem :=
  store8 (store8 (store8 (store8 m a v) (a + 1) (v / 2 ^ 8)) (a + 2) (v / 2 ^ 16)) (a + 3) (v / 2 ^ 24).

Definition mem_ok (m : mem) : Prop := ∀ a, 0 ≤ m a < 2 ^ 8.

(** [n] bytes from [src], as a list, and a list stored from [dst] on. *)
Definition read_bytes (m : mem) (src : Z) (n : nat) : list Z := map (λ i, m (src + i)) (seqZ 0 (Z.of_nat n)).
Definition write_bytes (m : mem) (dst : Z) (l : list Z) : mem :=
  λ x, if decide (dst ≤ x < dst + Z.of_nat (length l)) then nth (Z.to_nat (x - dst)) l 0 else m x.

Definition cptr : Type := nat → Z.
Definition at_addr (m : mem) (a : Z) : cptr := λ i, m (a + Z.of_nat i).
Definition at_bytes (l : list Z) : cptr := λ i, nth i l 0.
Definition advance (p : cptr) (k : nat) : cptr := λ i, p (k + i)%nat.

Lemma store8_ok m a v : mem_ok m → mem_ok (store8 m a v).
Proof. intros Hm x. unfold store8. case_decide; [zlia|apply Hm]. Qed.

Lemma store32_ok m a v : mem_ok m → mem_ok (store32 m a v).
Proof. intros. unfold store32. by repeat apply store8_ok. Qed.

Lemma load32_range m a : mem_ok m → 0 ≤ load32 m a < 2 ^ 32.
Proof.
  intros Hm. unfold load32.
  pose proof (Hm a). pose proof (Hm (a + 1)). pose proof (Hm (a + 2)). pose proof (Hm (a + 3)). lia.
Qed.

Lemma load32_store32_eq m a v : load32 (store32 m a v) a = u32 v.
Proof.
  unfold load32, store32, store8.
  repeat (case_decide; try lia). zlia.
Qed.

Lemma load32_store32_ne m a b v :
  b + 4 ≤ a ∨ a + 4 ≤ b → load32 (store32 m a v) b = load32 m b.
Proof. intros. unfold load32, store32, store8. repeat (case_decide; try lia). Qed.

(** Aligned words are equal or disjoint. *)
Lemma load32_store32 m a b v :
  (4 | a) → (4 | b) →
  load32 (store32 m a v) b = if decide (b = a) then u32 v else load32 m b.
Proof.
  intros [x ->] [y ->]. case_decide as E.
  - rewrite E. apply load32_store32_eq.
  - apply load32_store32_ne. lia.
Qed.

Lemma load32_ext m m' a : (∀ i, a ≤ i < a + 4 → m i = m' i) → load32 m a = load32 m' a.
Proof. intros H. unfold load32. by rewrite !H by lia. Qed.

Lemma store8_ne m a v x : x ≠ a → store8 m a v x = m x.
Proof. intros. unfold store8. by rewrite decide_False. Qed.

Lemma store8_eq m a v : store8 m a v a = u8 v.
Proof. unfold store8. by rewrite decide_True. Qed.

Lemma store32_outside m a v x : x < a ∨ a + 4 ≤ x → store32 m a v x = m x.
Proof. intros. unfold store32. by rewrite !store8_ne by lia. Qed.

(** The bytes of the stored word do not depend on the memory before. *)
Lemma store32_inside m m' a v x : a ≤ x < a + 4 → store32 m a v x = store32 m' a v x.
Proof.
  intros Hx. assert (x = a ∨ x = a + 1 ∨ x = a + 2 ∨ x = a + 3) as H by lia.
  unfold store32, store8. destruct H as [->|[->|[->| ->]]]; by repeat (case_decide; try lia).
Qed.

(** ** Words inside a block of bytes *)

Definition byte_at (d : list Z) (i : nat) : Z := nth i d 0.
Definition get32 (d : list Z) (off : nat) : Z :=
  byte_at d off + 2 ^ 8 * byte_at d (off + 1) + 2 ^ 16 * byte_at d (off + 2) + 2 ^ 24 * byte_at d (off + 3).
Definition put32 (d : list Z) (off : nat) (v : Z) : list Z :=
  <[(off + 3)%nat := u8 (v / 2 ^ 24)]> (<[(off + 2)%nat := u8 (v / 2 ^ 16)]>
    (<[(off + 1)%nat := u8 (v / 2 ^ 8)]> (<[off := u8 v]> d))).
Definition get16 (d : list Z) (off : nat) : Z := byte_at d off + 2 ^ 8 * byte_at d (off + 1).
Definition put16 (d : list Z) (off : nat) (v : Z) : list Z :=
  <[(off + 1)%nat := u8 (v / 2 ^ 8)]> (<[off := u8 v]> d).

Lemma byte_at_insert d i j v :
  (i < length d)%nat → byte_at (<[i := v]> d) j = if decide (j = i) then v else byte_at d j.
Proof.
  intros Hi. unfold byte_at. rewrite !nth_lookup. case_decide as E.
  - subst. by rewrite list_lookup_insert_eq.
  - by rewrite list_lookup_insert_ne.
Qed.

Lemma length_put32 d off v : length (put32 d off v) = length d.
Proof. unfold put32. by rewrite !length_insert. Qed.
Lemma length_put16 d off v : length (put16 d off v) = length d.
Proof. unfold put16. by rewrite !length_insert. Qed.

Lemma byte_at_put32 d off v j :
  (off + 3 < length d)%nat →
  byte_at (put32 d off v) j =
  if decide (j = off + 3)%nat then u8 (v / 2 ^ 24) else
  if decide (j = off + 2)%nat then u8 (v / 2 ^ 16) else
  if decide (j = off + 1)%nat then u8 (v / 2 ^ 8) else
  if decide (j = off)%nat then u8 v else byte_at d j.
Proof.
  intros Hl. unfold put32. by rewrite !byte_at_insert by (rewrite ?length_insert; lia).
Qed.

Lemma get32_put32_eq d off v : (off + 3 < length d)%nat → get32 (put32 d off v) off = u32 v.
Proof.
  intros Hl. unfold get32. rewrite !byte_at_put32 by done. repeat (case_decide; try lia). zlia.
Qed.

Lemma get32_put32_ne d off off' v :
  (off + 3 < length d)%nat → (off + 4 ≤ off')%nat ∨ (off' + 4 ≤ off)%nat →
  get32 (put32 d off v) off' = get32 d off'.
Proof.
  intros Hl Hd. unfold get32. rewrite !byte_at_put32 by done. by repeat (rewrite decide_False by lia).
Qed.

Lemma byte_at_put16 d off v j :
  (off + 1 < length d)%nat →
  byte_at (put16 d off v) j =
  if decide (j = off + 1)%nat then u8 (v / 2 ^ 8) else if decide (j = off)%nat then u8 v else byte_at d j.
Proof. intros Hl. unfold put16. by rewrite !byte_at_insert by (rewrite ?length_insert; lia). Qed.

Lemma get16_put16_eq d off v : (off + 1 < length d)%nat → get16 (put16 d off v) off = u16 v.
Proof.
  intros Hl. unfold get16. rewrite !byte_at_put16 by done. repeat (case_decide; try lia). zlia.
Qed.
