(* ===== verification/Strings.v ===== *)
(** * Strings and memory blocks (string.c, and the same routines of ulib.c)

    The kernel's [memset], [memcmp], [memmove], [strncmp], [strncpy],
    [safestrcpy] and [strlen], and the user library's [strcpy], [strcmp],
    [strchr], [memmove], [memset] and [atoi].  A loop bounded by the count [n]
    recurses on [n]; a loop that runs to a NUL takes fuel and returns [None]
    when it runs out, and its theorem gives the fuel that is enough.  Addresses
    do not wrap: the theorems on overlapping blocks ask for blocks that end
    below 2^32. *)

From S2P Require Import Prelude Memory.

(** ** string.c *)

(** [rep stosb] and [rep stosl] of x86.h. *)
Fixpoint stosb (m : mem) (addr data : Z) (cnt : nat) : mem :=
  match cnt with
  | O => m
  | S c => stosb (store8 m addr data) (addr + 1) data c
  end.
Fixpoint stosl (m : mem) (addr data : Z) (cnt : nat) : mem :=
  match cnt with
  | O => m
  | S c => stosl (store32 m addr data) (addr + 4) data c
  end.

Definition memset (m : mem) (dst c n : Z) : mem :=
  if decide (dst mod 4 = 0 ∧ n mod 4 = 0) then
    let c := Z.land c 255 in
    stosl m dst
      (Z.lor (Z.lor (Z.lor (Z.shiftl c 24) (Z.shiftl c 16)) (Z.shiftl c 8)) c) (Z.to_nat (n / 4))
  else stosb m dst c (Z.to_nat n).

Fixpoint memcmp (v1 v2 : cptr) (n : nat) : Z :=
  match n with
  | O => 0
  | S k => if decide (v1 O ≠ v2 O) then v1 O - v2 O else memcmp (advance v1 1) (advance v2 1) k
  end.

(** [while(n-- > 0) *d++ = *s++] and [while(n-- > 0) *--d = *--s]. *)
Fixpoint copy_up (m : mem) (d s : Z) (n : nat) : mem :=
  match n with
  | O => m
  | S k => copy_up (store8 m d (m s)) (d + 1) (s + 1) k
  end.
Fixpoint copy_down (m : mem) (d s : Z) (n : nat) : mem :=
  match n with
  | O => m
  | S k => copy_down (store8 m (d - 1) (m (s - 1))) (d - 1) (s - 1) k
  end.

Definition memmove (m : mem) (dst src n : Z) : mem :=
  if decide (src < dst ∧ u32 (src + n) > dst)
  then copy_down m (dst + n) (src + n) (Z.to_nat n)
  else copy_up m dst src (Z.to_nat n).

Definition memcpy (m : mem) (dst src n : Z) : mem := memmove m dst src n.

Fixpoint strncmp (p q : cptr) (n : nat) : Z :=
  match n with
  | O => 0
  | S k =>
      if decide (p O ≠ 0 ∧ p O = q O) then strncmp (advance p 1) (advance q 1) k
      else u8 (p O) - u8 (q O)
  end.

(** The two loops of [strncpy]: copy up to and including the NUL, then pad. *)
Fixpoint strncpy (m : mem) (s t : Z) (n : nat) : mem :=
  match n with
  | O => m
  | S k =>
      let m' := store8 m s (m t) in
      if decide (m t ≠ 0) then strncpy m' (s + 1) (t + 1) k else stosb m' (s + 1) 0 k
  end.

(** [while(--n > 0 && ( *s++ = *t++ ) != 0); *s = 0;] with [k] = n - 1. *)
Fixpoint safestrcpy_loop (m : mem) (s t : Z) (k : nat) : mem :=
  match k with
  | O => store8 m s 0
  | S k' =>
      let m' := store8 m s (m t) in
      if decide (m t ≠ 0) then safestrcpy_loop m' (s + 1) (t + 1) k' else store8 m' (s + 1) 0
  end.
Definition safestrcpy (m : mem) (s t n : Z) : mem :=
  if decide (n ≤ 0) then m else safestrcpy_loop m s t (Z.to_nat (n - 1)).

Fixpoint strlen_from (fuel : nat) (s : cptr) (n : nat) : option Z :=
  match fuel with
  | O => None
  | S f => if decide (s n ≠ 0) then strlen_from f s (S n) else Some (i32 (Z.of_nat n))
  end.
Definition strlen (fuel : nat) (s : cptr) : option Z := strlen_from fuel s 0.

(** ** ulib.c *)

Fixpoint strcpy (fuel : nat) (m : mem) (s t : Z) : option mem :=
  match fuel with
  | O => None
  | S f =>
      let m' := store8 m s (m t) in
      if decide (m t ≠ 0) then strcpy f m' (s + 1) (t + 1) else Some m'
  end.

Fixpoint strcmp (fuel : nat) (p q : cptr) : option Z :=
  match fuel with
  | O => None
  | S f =>
      if decide (p O ≠ 0 ∧ p O = q O) then strcmp f (advance p 1) (advance q 1)
      else Some (u8 (p O) - u8 (q O))
  end.

Definition ulib_memset (m : mem) (dst c n : Z) : mem := stosb m dst c (Z.to_nat n).

(** [strchr] returns the offset of the character; [Some None] is the null
    pointer. *)
Fixpoint strchr_from (fuel : nat) (s : cptr) (c : Z) (i : nat) : option (option nat) :=
  match fuel with
  | O => None
  | S f =>
      if decide (s i ≠ 0) then
        if decide (s i = c) then Some (Some i) else strchr_from f s c (S i)
      else Some None
  end.
Definition strchr (fuel : nat) (s : cptr) (c : Z) : option (option nat) := strchr_from fuel s c 0.

(** [while('0' <= *s && *s <= '9') n = n*10 + *s++ - '0';] *)
Fixpoint atoi_from (fuel : nat) (s : cptr) (i : nat) (n : Z) : option Z :=
  match fuel with
  | O => None
  | S f =>
      if decide (48 ≤ i8 (s i) ∧ i8 (s i) ≤ 57)
      then atoi_from f s (S i) (i32 (n * 10 + i8 (s i) - 48))
      else Some n
  end.
Definition atoi (fuel : nat) (s : cptr) : option Z := atoi_from fuel s 0 0.

Definition ulib_memmove (m : mem) (vdst vsrc n : Z) : mem := copy_up m vdst vsrc (Z.to_nat n).

(** ** Block operations *)

Lemma stosb_spec m addr data cnt x :
  stosb m addr data cnt x =
  if decide (addr ≤ x < addr + Z.of_nat cnt) then u8 data else m x.
Proof.
  revert m addr. induction cnt as [|c IH]; intros m addr; simpl.
  { rewrite decide_False by lia. done. }
  rewrite IH. unfold store8. repeat (case_decide; try lia); done.
Qed.

Lemma stosl_spec m addr data cnt x :
  stosl m addr data cnt x =
  if decide (addr ≤ x < addr + 4 * Z.of_nat cnt)
  then u8 (data / 2 ^ (8 * ((x - addr) mod 4))) else m x.
Proof.
  revert m addr. induction cnt as [|c IH]; intros m addr; simpl.
  { rewrite decide_False by lia. done. }
  rewrite IH. case_decide as H1.
  - rewrite decide_True by lia. replace (x - addr) with (x - (addr + 4) + 1 * 4) by lia.
    by rewrite Z.mod_add by lia.
  - case_decide as H2; [|by apply store32_outside; lia].
    assert (x = addr ∨ x = addr + 1 ∨ x = addr + 2 ∨ x = addr + 3) as Hx by lia.
    unfold store32, store8. destruct Hx as [->|[->|[->| ->]]];
      repeat (case_decide; try lia); rewrite Z.mod_small by lia.
    + replace (addr - addr) with 0 by lia. by rewrite Z.div_1_r.
    + by replace (addr + 1 - addr) with 1 by lia.
    + by replace (addr + 2 - addr) with 2 by lia.
    + by replace (addr + 3 - addr) with 3 by lia.
Qed.

(** The word [memset] stores has the byte [c] in each of its four bytes. *)
Definition splat (c : Z) : Z :=
  Z.lor (Z.lor (Z.lor (Z.shiftl c 24) (Z.shiftl c 16)) (Z.shiftl c 8)) c.

Lemma splat_byte c k : 0 ≤ c < 2 ^ 8 → 0 ≤ k < 4 → u8 (splat c / 2 ^ (8 * k)) = c.
Proof.
  intros Hc Hk.
  assert (Forall (λ c, Forall (λ k, u8 (splat c / 2 ^ (8 * k)) = c) (seqZ 0 4)) (seqZ 0 256)) as Hall.
  { by apply (bool_decide_unpack _); vm_compute. }
  rewrite Forall_forall in Hall. specialize (Hall c). rewrite Forall_forall in Hall.
  apply Hall; apply elem_of_seqZ; lia.
Qed.

Lemma land_255 c : Z.land c 255 = u8 c.
Proof. change 255 with (Z.ones 8). by rewrite Z.land_ones by lia. Qed.

(** The word-wise and the byte-wise branch of [memset] agree. *)
Lemma memset_spec m dst c n x :
  0 ≤ n → memset m dst c n x = if decide (dst ≤ x < dst + n) then u8 c else m x.
Proof.
  intros Hn. unfold memset. case_decide as Hal.
  - rewrite stosl_spec, land_255. fold (splat (u8 c)).
    replace (4 * Z.of_nat (Z.to_nat (n / 4))) with n by (Z.div_mod_to_equations; lia).
    case_decide; [|done]. apply splat_byte; [zlia|]. apply Z.mod_pos_bound. lia.
  - rewrite stosb_spec. by rewrite Z2Nat.id by lia.
Qed.

Lemma copy_up_spec m d s n x :
  mem_ok m → d ≤ s ∨ s + Z.of_nat n ≤ d →
  copy_up m d s n x = if decide (d ≤ x < d + Z.of_nat n) then m (s + (x - d)) else m x.
Proof.
  revert m d s. induction n as [|n IH]; intros m d s Hm Hd; simpl.
  { by rewrite decide_False by lia. }
  rewrite IH by (lia || by apply store8_ok). unfold store8.
  assert (u8 (m s) = m s) as E by (unfold u8; apply Z.mod_small, Hm). rewrite E.
  destruct (decide (x = d)) as [->|Hx].
  - rewrite decide_False by lia. rewrite decide_True by lia. by replace (s + (d - d)) with s by lia.
  - case_decide as H1; [|by rewrite decide_False by lia].
    rewrite decide_False by lia. rewrite decide_True by lia. f_equal. lia.
Qed.

Lemma copy_down_spec m d s n x :
  mem_ok m → s ≤ d →
  copy_down m d s n x =
  if decide (d - Z.of_nat n ≤ x < d) then m (s + (x - d)) else m x.
Proof.
  revert m d s. induction n as [|n IH]; intros m d s Hm Hd; simpl.
  { by rewrite decide_False by lia. }
  rewrite IH by (lia || by apply store8_ok). unfold store8.
  assert (u8 (m (s - 1)) = m (s - 1)) as E by (unfold u8; apply Z.mod_small, Hm). rewrite E.
  destruct (decide (x = d - 1)) as [->|Hx].
  - rewrite decide_False by lia. rewrite decide_True by lia. f_equal. lia.
  - case_decide as H1; [|by rewrite decide_False by lia].
    rewrite decide_False by lia. rewrite decide_True by lia. f_equal. lia.
Qed.

Lemma memmove_spec m dst src n x :
  mem_ok m → 0 ≤ src → 0 ≤ n → src + n < 2 ^ 32 →
  memmove m dst src n x = if decide (dst ≤ x < dst + n) then m (src + (x - dst)) else m x.
Proof.
  intros Hm Hs Hn Hb. unfold memmove. rewrite u32_small by lia. case_decide as Ho.
  - rewrite copy_down_spec by (done || lia). rewrite Z2Nat.id by lia.
    replace (dst + n - n) with dst by lia.
    case_decide; [|done]. f_equal. lia.
  - rewrite copy_up_spec by (done || lia). by rewrite Z2Nat.id by lia.
Qed.

(** C40: memmove copies the block as it was before the call, whether or not
    source and destination overlap, and changes nothing outside the
    destination; memset stores its byte over exactly its block, whichever of
    its word-wise and byte-wise loops runs. *)
Theorem memmove_memset_correct m dst src n c :
  mem_ok m → 0 ≤ src → 0 ≤ n → src + n < 2 ^ 32 →
  (∀ i, 0 ≤ i < n → memmove m dst src n (dst + i) = m (src + i)) ∧
  (∀ x, ¬ (dst ≤ x < dst + n) → memmove m dst src n x = m x) ∧
  (∀ x, memset m dst c n x = if decide (dst ≤ x < dst + n) then u8 c else m x).
Proof.
  intros Hm Hs Hn Hb. split_and!.
  - intros i Hi. rewrite memmove_spec by done. rewrite decide_True by lia. f_equal. lia.
  - intros x Hx. rewrite memmove_spec by done. by rewrite decide_False.
  - intros x. by apply memset_spec.
Qed.

Lemma memmove_memset_correct_witness :
  (∀ i, 0 ≤ i < 4 → memmove u8 2 0 4 (2 + i) = u8 (0 + i)) ∧
  map (memmove u8 2 0 4) [0; 1; 2; 3; 4; 5; 6] = [0; 1; 0; 1; 2; 3; 6].
Proof.
  split; [|reflexivity].
  apply (memmove_memset_correct u8 2 0 4 0); [intros a; zlia|lia..].
Defined.

(** ** C strings *)

(** The C string at [p] is [l]: [l] has no NUL and is followed by one. *)
Definition cstring (p : cptr) (l : list Z) : Prop :=
  (∀ i x, l !! i = Some x → p i = x ∧ x ≠ 0) ∧ p (length l) = 0.

Lemma strlen_from_spec s n k fuel :
  (∀ i, (n ≤ i < k)%nat → s i ≠ 0) → s k = 0 → (n ≤ k)%nat → (k - n < fuel)%nat →
  strlen_from fuel s n = Some (i32 (Z.of_nat k)).
Proof.
  revert n. induction fuel as [|f IH]; intros n Hnz Hz Hle Hf; [lia|]. simpl.
  destruct (decide (n = k)) as [->|Hne].
  - by rewrite decide_False by tauto.
  - rewrite decide_True by (apply Hnz; lia). apply IH; [|done|lia|lia].
    intros i Hi. apply Hnz. lia.
Qed.

Lemma strlen_spec s l fuel :
  cstring s l → (length l < fuel)%nat → strlen fuel s = Some (i32 (Z.of_nat (length l))).
Proof.
  intros [Hl Hz] Hf. apply strlen_from_spec; [|done|lia|lia].
  intros i [_ Hi]. destruct (lookup_lt_is_Some_2 l i Hi) as [x Hx].
  destruct (Hl _ _ Hx) as [-> ?]. done.
Qed.

(** The strings compared by [strncmp]: the first [n] bytes, cut at the NUL. *)
Fixpoint cut (p : cptr) (n : nat) : list Z :=
  match n with
  | O => []
  | S k => if decide (p O = 0) then [] else p O :: cut (advance p 1) k
  end.

Lemma strncmp_zero p q n :
  (∀ i, 0 ≤ p i < 2 ^ 8) → (∀ i, 0 ≤ q i < 2 ^ 8) →
  strncmp p q n = 0 ↔ cut p n = cut q n.
Proof.
  revert p q. induction n as [|n IH]; intros p q Hp Hq; simpl; [done|].
  assert (∀ x, 0 ≤ x < 2 ^ 8 → u8 x = x) as E by (intros; zlia).
  case_decide as H1.
  - destruct H1 as [H0 Heq]. rewrite !decide_False by congruence. rewrite IH.
    + rewrite Heq. split; [by intros ->|by intros [=]].
    + intros i. apply Hp.
    + intros i. apply Hq.
  - rewrite !E by auto. repeat case_decide; split; intros; try lia; naive_solver lia.
Qed.

Lemma cut_ext p q n : (∀ i, (i < n)%nat → p i = q i) → cut p n = cut q n.
Proof.
  revert p q. induction n as [|n IH]; intros p q H; simpl; [done|].
  rewrite (H O) by lia. case_decide; [done|]. f_equal. apply IH. intros i Hi. apply H. lia.
Qed.

Lemma cut_length p n : (length (cut p n) ≤ n)%nat.
Proof.
  revert p. induction n as [|n IH]; intros p; simpl; [done|].
  case_decide; simpl; [lia|]. specialize (IH (advance p 1)). lia.
Qed.

Lemma cut_nonzero p n x : x ∈ cut p n → x ≠ 0.
Proof.
  revert p. induction n as [|n IH]; intros p; simpl; [by intros []%not_elem_of_nil|].
  case_decide; [by intros []%not_elem_of_nil|]. intros [->|?]%elem_of_cons; eauto.
Qed.

(** What [strncpy] and [safestrcpy] write. *)
Definition strncpy_bytes (t : cptr) (n : nat) : list Z :=
  cut t n ++ replicate (n - length (cut t n)) 0.
Definition safestrcpy_bytes (t : cptr) (n : nat) : list Z := cut t (n - 1) ++ [0].

Lemma strncpy_bytes_length t n : length (strncpy_bytes t n) = n.
Proof. unfold strncpy_bytes. rewrite length_app, length_replicate. pose proof (cut_length t n). lia. Qed.

Lemma nth_replicate_zero n i : nth i (replicate n 0) 0 = 0.
Proof. revert i. induction n as [|n IH]; intros [|i]; simpl; auto. Qed.

Lemma store8_at_addr m s v t n :
  s < t ∨ t + Z.of_nat n ≤ s → ∀ i, (i < n)%nat → at_addr (store8 m s v) t i = at_addr m t i.
Proof. intros Hd i Hi. unfold at_addr. apply store8_ne. lia. Qed.

Lemma cut_at_addr m s v t n :
  s < t ∨ t + Z.of_nat (S n) ≤ s →
  cut (at_addr (store8 m s v) (t + 1)) n = cut (advance (at_addr m t) 1) n.
Proof.
  intros Hd. apply cut_ext. intros i Hi. unfold advance, at_addr. rewrite store8_ne by lia. f_equal. lia.
Qed.

Lemma strncpy_spec m s t n x :
  mem_ok m → s + Z.of_nat n ≤ t ∨ t + Z.of_nat n ≤ s →
  strncpy m s t n x =
  if decide (s ≤ x < s + Z.of_nat n)
  then nth (Z.to_nat (x - s)) (strncpy_bytes (at_addr m t) n) 0 else m x.
Proof.
  revert m s t. induction n as [|n IH]; intros m s t Hm Hd; cbn [strncpy].
  { by rewrite decide_False by lia. }
  assert (u8 (m t) = m t) as E by (unfold u8; apply Z.mod_small, Hm).
  assert (at_addr m t O = m t) as E0 by (unfold at_addr; f_equal; lia).
  unfold strncpy_bytes. cbn [cut]. rewrite E0. destruct (decide (m t = 0)) as [Hz|Hnz].
  - rewrite decide_False by tauto. rewrite stosb_spec. simpl. rewrite Hz.
    unfold store8. destruct (decide (x = s)) as [->|Hx].
    + rewrite decide_False by lia. rewrite decide_True by lia. by replace (s - s) with 0 by lia.
    + case_decide; [|by rewrite decide_False by lia]. rewrite decide_True by lia.
      change (u8 0) with 0. destruct (Z.to_nat (x - s)); [done|]. by rewrite nth_replicate_zero.
  - rewrite decide_True by done. rewrite IH by (lia || by apply store8_ok).
    unfold strncpy_bytes. rewrite cut_at_addr by lia. simpl.
    unfold store8. destruct (decide (x = s)) as [->|Hx].
    + rewrite decide_False by lia. rewrite decide_True by lia. by replace (s - s) with 0 by lia.
    + case_decide; [|by rewrite decide_False by lia]. rewrite decide_True by lia.
      by replace (Z.to_nat (x - s)) with (S (Z.to_nat (x - (s + 1)))) by lia.
Qed.

Lemma safestrcpy_loop_spec m s t k :
  mem_ok m → s + Z.of_nat k < t ∨ t + Z.of_nat k ≤ s →
  (∀ i, (i ≤ length (cut (at_addr m t) k))%nat →
     safestrcpy_loop m s t k (s + Z.of_nat i) = nth i (cut (at_addr m t) k ++ [0]) 0) ∧
  (∀ x, x < s ∨ s + Z.of_nat k < x → safestrcpy_loop m s t k x = m x).
Proof.
  revert m s t. induction k as [|k IH]; intros m s t Hm Hd; cbn [safestrcpy_loop cut].
  { split.
    - intros [|i] Hi; simpl in *; [|lia]. rewrite Z.add_0_r. apply store8_eq.
    - intros x Hx. apply store8_ne. lia. }
  assert (u8 (m t) = m t) as E by (unfold u8; apply Z.mod_small, Hm).
  assert (at_addr m t O = m t) as E0 by (unfold at_addr; f_equal; lia).
  rewrite E0. destruct (decide (m t = 0)) as [Hz|Hnz].
  - rewrite decide_False by tauto. split.
    + intros [|i] Hi; simpl in *; [|lia].
      rewrite store8_ne, Z.add_0_r, store8_eq by lia. by rewrite Hz.
    + intros x Hx. rewrite !store8_ne by lia. done.
  - rewrite decide_True by done.
    destruct (IH (store8 m s (m t)) (s + 1) (t + 1)) as [H1 H2]; [by apply store8_ok|lia|].
    rewrite cut_at_addr in H1 by lia. split.
    + intros [|i] Hi; simpl in *.
      * rewrite H2 by lia. by rewrite Z.add_0_r, store8_eq.
      * rewrite <- H1 by lia. f_equal. lia.
    + intros x Hx. rewrite H2 by lia. apply store8_ne. lia.
Qed.

(** [strncpy] writes exactly [n] bytes, the source string cut at [n]
    bytes and padded with NULs, and nothing else; [safestrcpy] leaves a
    NUL-terminated string, the source cut at [n - 1] bytes, and writes nothing
    outside the [n] bytes of its buffer (and nothing at all when [n] is not
    positive), for a source that does not overlap the buffer. *)
Theorem bounded_copies_correct m s t n :
  mem_ok m → s + Z.of_nat n ≤ t ∨ t + Z.of_nat n ≤ s →
  (∀ x, strncpy m s t n x =
     if decide (s ≤ x < s + Z.of_nat n)
     then nth (Z.to_nat (x - s)) (strncpy_bytes (at_addr m t) n) 0 else m x) ∧
  (∀ x, x < s ∨ s + Z.of_nat n ≤ x → safestrcpy m s t (Z.of_nat n) x = m x) ∧
  ((0 < n)%nat → ∀ i, (i < length (safestrcpy_bytes (at_addr m t) n))%nat →
     safestrcpy m s t (Z.of_nat n) (s + Z.of_nat i) =
     nth i (safestrcpy_bytes (at_addr m t) n) 0).
Proof.
  intros Hm Hd. split; [intros; by apply strncpy_spec|].
  unfold safestrcpy, safestrcpy_bytes. destruct n as [|n]; [split; [done|lia]|].
  rewrite decide_False by lia. replace (Z.to_nat (Z.of_nat (S n) - 1)) with n by lia.
  replace (S n - 1)%nat with n by lia.
  destruct (safestrcpy_loop_spec m s t n) as [H1 H2]; [done|lia|]. split.
  - intros x Hx. apply H2. lia.
  - intros _ i Hi. apply H1. rewrite length_app in Hi. simpl in Hi. lia.
Qed.

Lemma bounded_copies_correct_witness :
  let m : mem := λ a, nth (Z.to_nat a) [105; 110; 105; 116; 0] 0 in
  map (λ i, safestrcpy m 100 0 4 i) [100; 101; 102; 103] = [105; 110; 105; 0] ∧
  safestrcpy m 100 0 4 104 = m 104.
Proof.
  intros m.
  assert (mem_ok m) as Hm.
  { intros a. unfold m. destruct (Z.to_nat a) as [|[|[|[|[|k]]]]]; simpl; try lia. destruct k; lia. }
  split; [reflexivity|].
  apply (bounded_copies_correct m 100 0 4); [done|lia|lia].
Defined.
