(* ===== verification/Grep.v ===== *)
(** * grep and wc (grep.c, wc.c)

    The regular expression matcher of grep against the languages its patterns denote,
    and the loops of grep and wc over the blocks that read() returns.  A C string is
    the list of its characters before the terminating zero. *)

From S2P Require Import Prelude Strings.

(** The characters of the operators: ^ . * $ and newline. *)
Notation CARET := 94.
Notation DOT := 46.
Notation STAR := 42.
Notation DOLLAR := 36.
Notation NEWLINE := 10.

(** [matchhere] is the matcher for what follows the star. *)
Definition matchstar (matchhere : list Z → bool) (c : Z) : list Z → bool :=
  fix star (text : list Z) : bool :=
    if matchhere text then true else
    match text with
    | [] => false
    | t :: text' => if decide (t = c ∨ c = DOT) then star text' else false
    end.

Fixpoint matchhere (re text : list Z) : bool :=
  match re with
  | [] => true
  | c :: re1 =>
      let plain :=
        if decide (c = DOLLAR ∧ re1 = []) then bool_decide (text = []) else
        match text with
        | t :: text' => if decide (c = DOT ∨ c = t) then matchhere re1 text' else false
        | [] => false
        end in
      match re1 with
      | s :: re2 => if decide (s = STAR) then matchstar (matchhere re2) c text else plain
      | [] => plain
      end
  end.

(** The loop of [match] over the places in the text. *)
Fixpoint match_loop (re text : list Z) : bool :=
  if matchhere re text then true else
  match text with
  | [] => false
  | _ :: text' => match_loop re text'
  end.
Definition match_ (re text : list Z) : bool :=
  match re with
  | c :: re' => if decide (c = CARET) then matchhere re' text else match_loop re text
  | [] => match_loop re text
  end.

(** ** The matcher is correct *)

(** Patterns: single characters, repeated characters, and the end of the text. *)
Inductive item := One (c : Z) | Many (c : Z).

Fixpoint parse (re : list Z) : list item * bool :=
  match re with
  | [] => ([], false)
  | c :: re1 =>
      match re1 with
      | [] => if decide (c = DOLLAR) then ([], true) else ([One c], false)
      | s :: re2 =>
          if decide (s = STAR) then let '(l, e) := parse re2 in (Many c :: l, e)
          else let '(l, e) := parse re1 in (One c :: l, e)
      end
  end.

(** A character of the pattern allows one of the text. *)
Definition allows (c t : Z) : Prop := c = DOT ∨ c = t.

(** The language of a pattern. *)
Fixpoint lang (l : list item) (s : list Z) : Prop :=
  match l with
  | [] => s = []
  | One c :: l' => ∃ t s', s = t :: s' ∧ allows c t ∧ lang l' s'
  | Many c :: l' => ∃ s1 s2, s = s1 ++ s2 ∧ Forall (allows c) s1 ∧ lang l' s2
  end.

(** A prefix of the text in the language; all of it if the pattern ends in $. *)
Definition starts (p : list item * bool) (text : list Z) : Prop :=
  ∃ s rest, text = s ++ rest ∧ lang p.1 s ∧ (p.2 = true → rest = []).

Definition matches (re text : list Z) : Prop :=
  match re with
  | c :: re' =>
      if decide (c = CARET) then starts (parse re') text
      else ∃ before after, text = before ++ after ∧ starts (parse re) after
  | [] => ∃ before after, text = before ++ after ∧ starts (parse re) after
  end.

Lemma starts_one c l e text :
  starts (One c :: l, e) text ↔ ∃ t text', text = t :: text' ∧ allows c t ∧ starts (l, e) text'.
Proof.
  unfold starts. simpl. split.
  - intros (s & rest & -> & (t & s' & -> & Ha & Hl) & He). exists t, (s' ++ rest). split; [done|]. split; [done|]. by exists s', rest.
  - intros (t & text' & -> & Ha & s & rest & -> & Hl & He). exists (t :: s), rest. split; [done|]. split; [by exists t, s|done].
Qed.

Lemma starts_many c l e text :
  starts (Many c :: l, e) text ↔ starts (l, e) text ∨ ∃ t text', text = t :: text' ∧ allows c t ∧ starts (Many c :: l, e) text'.
Proof.
  unfold starts. simpl. split.
  - intros (s & rest & -> & (s1 & s2 & -> & Ha & Hl) & He). destruct Ha as [|t s1 Ht Ha]; [left; by exists s2, rest|].
    right. exists t, ((s1 ++ s2) ++ rest). split; [done|]. split; [done|]. exists (s1 ++ s2), rest. split; [done|]. split; [by exists s1, s2|done].
  - intros [(s & rest & -> & Hl & He)|(t & text' & -> & Ha & s & rest & -> & (s1 & s2 & -> & Hf & Hl) & He)].
    + exists s, rest. split; [done|]. split; [by exists [], s|done].
    + exists (t :: s1 ++ s2), rest. split; [done|]. split; [exists (t :: s1), s2; split; [done|]; by split; [constructor|]|done].
Qed.

Lemma matchstar_correct mh c l e text :
  (∀ t, mh t = true ↔ starts (l, e) t) → matchstar mh c text = true ↔ starts (Many c :: l, e) text.
Proof.
  intros Hm. induction text as [|t text IH]; cbn [matchstar]; rewrite starts_many, <- Hm.
  - destruct (mh []); [by split; [left|]|]. split; [done|]. intros [?|(t & text' & ? & _)]; done.
  - destruct (mh (t :: text)); [by split; [left|]|]. case_decide as Ht.
    + rewrite IH. split; [intros Hs; right; exists t, text; split; [done|]; split; [unfold allows; naive_solver|done]|].
      intros [?|(t' & text' & [= -> ->] & _ & Hs)]; done.
    + split; [done|]. intros [?|(t' & text' & [= -> ->] & Ha & _)]; [done|]. exfalso. apply Ht. unfold allows in Ha. naive_solver.
Qed.

Lemma matchhere_correct re text : matchhere re text = true ↔ starts (parse re) text.
Proof.
  remember (length re) as n eqn:En. assert (length re ≤ n)%nat as Hn by lia. clear En.
  revert re Hn text. induction n as [|n IH]; intros re Hn text.
  { destruct re; [|simpl in Hn; lia]. split; [|done]. intros _. by exists [], text. }
  destruct re as [|c re1]; [split; [|done]; intros _; by exists [], text|]. cbn [matchhere parse].
  assert (∀ e l, (c = DOLLAR ∧ re1 = []) ∨ parse re1 = (l, e) → (if decide (c = DOLLAR ∧ re1 = []) then bool_decide (text = []) else
      match text with t :: text' => if decide (c = DOT ∨ c = t) then matchhere re1 text' else false | [] => false end) = true ↔
      starts (if decide (c = DOLLAR ∧ re1 = []) then ([], true) else (One c :: l, e)) text) as Hplain.
  { intros e l Hl. case_decide as Hd.
    - rewrite bool_decide_eq_true. unfold starts. simpl. split; [intros ->; by exists [], []|].
      intros (s & rest & -> & -> & ->); [done|done].
    - destruct Hl as [?|Hl]; [done|]. rewrite starts_one. destruct text as [|t text]; [split; [done|by intros (? & ? & ? & _)]|].
      case_decide as Ha.
      + rewrite IH, Hl by (simpl in Hn; lia). split; [intros Hs; by exists t, text|]. by intros (? & ? & [= -> ->] & _ & ?).
      + split; [done|]. by intros (? & ? & [= -> ->] & ? & _). }
  destruct re1 as [|s re2].
  - rewrite (Hplain false []) by (by right). destruct (decide (c = DOLLAR)) as [->|Hc]; [by rewrite decide_True|].
    by rewrite decide_False by (by intros [? _]).
  - destruct (decide (s = STAR)) as [Hs|Hs].
    + destruct (parse re2) as [l e] eqn:Ep. apply matchstar_correct. intros t. rewrite IH, Ep by (simpl in Hn; lia). done.
    + destruct (parse (s :: re2)) as [l e] eqn:Ep. rewrite (Hplain e l) by (by right). by rewrite decide_False by (by intros [_ ?]).
Qed.

(** C22: the matcher accepts exactly the texts that the pattern describes: a
    stretch of the text, at the start if the pattern begins with ^ and up to the end if
    it ends in $, is a sequence of the characters of the pattern, where a dot stands
    for any character and a starred one for any number of them. *)
Theorem match_correct re text : match_ re text = true ↔ matches re text.
Proof.
  assert (∀ re, match_loop re text = true ↔ ∃ before after, text = before ++ after ∧ starts (parse re) after) as Hloop.
  { clear re. intros re. induction text as [|t text IH]; cbn [match_loop].
    - destruct (matchhere re []) eqn:E.
      + apply matchhere_correct in E. split; [intros _; by exists [], []|done].
      + split; [done|]. intros (before & after & Eq & Hs). symmetry in Eq. apply app_nil in Eq as [-> ->].
        apply matchhere_correct in Hs. congruence.
    - destruct (matchhere re (t :: text)) eqn:E.
      + apply matchhere_correct in E. split; [intros _; by exists [], (t :: text)|done].
      + rewrite IH. split; [intros (b & a & -> & Hs); by exists (t :: b), a|]. intros (b & a & Eq & Hs).
        destruct b as [|t' b]; simpl in Eq; [subst a; apply matchhere_correct in Hs; congruence|].
        injection Eq as -> ->. by exists b, a. }
  unfold match_, matches. destruct re as [|c re']; [apply Hloop|]. case_decide; [apply matchhere_correct|apply Hloop].
Qed.

(** ** The loop of grep *)

(** [strchr(p, '\n')]: the line before the newline and what follows it. *)
Fixpoint cut_line (p : list Z) : option (list Z * list Z) :=
  match p with
  | [] => None
  | c :: p' =>
      if decide (c = 0) then None else
      if decide (c = NEWLINE) then Some ([], p') else
      match cut_line p' with Some (l, q) => Some (c :: l, q) | None => None end
  end.

(** The loop over the lines of the buffer: what is written, and what is left from [p]
    on.  Each round takes a byte at least, so the length of the buffer is enough fuel. *)
Fixpoint grep_lines (fuel : nat) (pattern p : list Z) : list Z * list Z :=
  match cut_line p with
  | None => ([], p)
  | Some (line, q) =>
      match fuel with
      | O => ([], p)
      | S f =>
          let '(out, p') := grep_lines f pattern q in
          ((if match_ pattern line then line ++ [NEWLINE] else []) ++ out, p')
      end
  end.

(** One round: the buffer after a read; what is kept for the next one. *)
Definition grep_block (pattern buf : list Z) : list Z * list Z :=
  let '(out, p) := grep_lines (length buf) pattern buf in
  (out, if decide (length p = length buf) then [] else p).

Definition BUF : nat := 1024.

(** [file] is what is left to read, [kept] the first [m] bytes of the buffer. *)
Fixpoint grep (fuel : nat) (pattern file kept : list Z) : option (list Z) :=
  let n := (BUF - length kept - 1)%nat in
  match take n file with
  | [] => Some []
  | chunk =>
      match fuel with
      | O => None
      | S f =>
          let '(out, kept') := grep_block pattern (kept ++ chunk) in
          match grep f pattern (drop n file) kept' with
          | Some rest => Some (out ++ rest)
          | None => None
          end
      end
  end.

(** A text of lines. *)
Fixpoint unlines (ls : list (list Z)) : list Z :=
  match ls with [] => [] | l :: ls' => l ++ NEWLINE :: unlines ls' end.
Definition line_ok (l : list Z) : Prop := Forall (λ c, c ≠ 0 ∧ c ≠ NEWLINE) l.

Lemma cut_line_full l q : line_ok l → cut_line (l ++ NEWLINE :: q) = Some (l, q).
Proof. induction 1 as [|c l [Hc1 Hc2] Hl IH]; [done|]. simpl. rewrite !decide_False by done. by rewrite IH. Qed.

Lemma cut_line_none l : line_ok l → cut_line l = None.
Proof. induction 1 as [|c l [Hc1 Hc2] Hl IH]; [done|]. simpl. rewrite !decide_False by done. by rewrite IH. Qed.

Lemma unlines_app ls1 ls2 : unlines (ls1 ++ ls2) = unlines ls1 ++ unlines ls2.
Proof. induction ls1 as [|l ls1 IH]; [done|]. simpl. rewrite IH. by rewrite <- app_assoc. Qed.

(** The lines that are complete in the first [N] bytes are done. *)
Lemma grep_lines_spec pattern ls N fuel :
  Forall line_ok ls → (length (take N (unlines ls)) ≤ fuel)%nat →
  ∃ done rest, ls = done ++ rest ∧ (length (unlines done) ≤ N)%nat ∧
    grep_lines fuel pattern (take N (unlines ls)) =
      (unlines (filter (λ l, match_ pattern l = true) done), take (N - length (unlines done)) (unlines rest)) ∧
    match rest with [] => True | l :: _ => (N - length (unlines done) ≤ length l)%nat end.
Proof.
  intros Hok. revert N fuel. induction Hok as [|l ls Hl Hok IH]; intros N fuel Hf.
  { exists [], []. split; [done|]. split; [simpl; lia|]. split; [|done]. simpl. rewrite !take_nil. by destruct fuel. }
  cbn [unlines] in *. destruct (decide (length l < N)%nat) as [Hlt|Hge].
  - assert (take N (l ++ NEWLINE :: unlines ls) = l ++ NEWLINE :: take (N - length l - 1) (unlines ls)) as Et.
    { rewrite take_app_ge by lia. f_equal. destruct (N - length l)%nat as [|j] eqn:Ej; [lia|]. simpl. do 2 f_equal. lia. }
    rewrite Et in *. rewrite length_app in Hf. simpl in Hf. destruct fuel as [|fuel]; [lia|]. cbn [grep_lines]. rewrite cut_line_full by done.
    destruct (IH (N - length l - 1)%nat fuel ltac:(lia)) as (d & rest & -> & Hd & E & Hr). exists (l :: d), rest. split; [done|].
    rewrite E. cbn [unlines]. rewrite length_app. cbn [length]. split; [lia|].
    replace (N - (length l + S (length (unlines d))))%nat with (N - length l - 1 - length (unlines d))%nat by lia.
    split; [|done]. f_equal. rewrite filter_cons. destruct (match_ pattern l) eqn:Em; simpl.
    + by rewrite <- app_assoc.
    + done.
  - exists [], (l :: ls). split; [done|]. split; [simpl; lia|]. simpl. rewrite Nat.sub_0_r. split; [|lia].
    rewrite take_app_le by lia. destruct fuel; cbn [grep_lines]; by rewrite cut_line_none by (by apply Forall_take).
Qed.

Lemma filter_unlines_app pattern ls1 ls2 :
  unlines (filter (λ l, match_ pattern l = true) (ls1 ++ ls2)) =
  unlines (filter (λ l, match_ pattern l = true) ls1) ++ unlines (filter (λ l, match_ pattern l = true) ls2).
Proof. by rewrite filter_app, unlines_app. Qed.

Lemma short_kept ls kept :
  match ls with [] => True | l :: _ => (length kept ≤ length l)%nat end → kept = unlines ls → ls = [].
Proof. intros Hl ->. destruct ls as [|l ls]; [done|]. simpl in Hl. rewrite length_app in Hl. simpl in Hl. lia. Qed.

Lemma grep_spec pattern ls fuel kept file :
  Forall line_ok ls → Forall (λ l, length l < BUF - 1)%nat ls → kept ++ file = unlines ls → (length kept < BUF - 1)%nat →
  match ls with [] => True | l :: _ => (length kept ≤ length l)%nat end → (length file ≤ fuel)%nat →
  grep fuel pattern file kept = Some (unlines (filter (λ l, match_ pattern l = true) ls)).
Proof.
  revert ls kept file. induction fuel as [|fuel IH]; intros ls kept file Hok Hlen Eu Hk Hkl Hf.
  - assert (file = []) as -> by (apply nil_length_inv; lia). cbn [grep]. rewrite take_nil. rewrite app_nil_r in Eu.
    by rewrite (short_kept ls kept Hkl Eu).
  - cbn [grep]. set (n := (BUF - length kept - 1)%nat). destruct (take n file) as [|x chunk] eqn:Et.
    { assert (file = []) as ->. { destruct file; [done|]. destruct n eqn:En; [unfold n in En; lia|done]. }
      rewrite app_nil_r in Eu. by rewrite (short_kept ls kept Hkl Eu). }
    assert (kept ++ x :: chunk = take (BUF - 1) (unlines ls)) as Eb.
    { rewrite <- Et, <- Eu. rewrite take_app_ge by lia. do 2 f_equal. unfold n. lia. }
    unfold grep_block. rewrite Eb. destruct (grep_lines_spec pattern ls (BUF - 1) (length (take (BUF - 1) (unlines ls))) Hok ltac:(done))
      as (d & rest & -> & Hd & -> & Hr). apply Forall_app in Hok as [Hok1 Hok2]. apply Forall_app in Hlen as [Hlen1 Hlen2].
    assert (0 < length (unlines d))%nat as Hd0.
    { destruct d as [|l d]; [|simpl; rewrite length_app; simpl; lia]. destruct rest as [|l rest]; [by destruct kept|].
      apply Forall_cons in Hlen2 as [Hl _]. cbn [unlines length] in Hr. lia. }
    set (kept' := take (BUF - 1 - length (unlines d)) (unlines rest)).
    rewrite decide_False. 2:{ unfold kept'. rewrite unlines_app, !length_take, length_app. assert (0 < BUF - 1)%nat by (unfold BUF; lia). lia. }
    rewrite (IH rest kept' (drop n file)); try done.
    + by rewrite filter_unlines_app.
    + assert (kept' = drop (length (unlines d)) (kept ++ x :: chunk)) as ->.
      { rewrite Eb, unlines_app. unfold kept'. rewrite take_app_ge by lia. by rewrite drop_app_length. }
      apply (app_inv_head (unlines d)). rewrite <- unlines_app, <- Eu, app_assoc. rewrite <- (take_drop n file) at 2. rewrite Et.
      rewrite app_assoc. f_equal. rewrite Eb, unlines_app. rewrite take_app_ge by lia. by rewrite drop_app_length.
    + unfold kept'. rewrite length_take. unfold BUF in *. lia.
    + destruct rest as [|l rest]; [done|]. unfold kept'. rewrite length_take. lia.
    + rewrite length_drop. assert (0 < length (take n file))%nat by (rewrite Et; simpl; lia). rewrite length_take in *. lia.
Qed.



(** A line longer than the buffer is not kept whole: the end of it is taken for a line. *)
Example grep_long_line :
  grep 2000 [CARET; 98] (replicate 1023 97 ++ [98; NEWLINE]) [] = Some [98; NEWLINE].
Proof. vm_compute. reflexivity. Qed.

(** ** wc *)

(** [strchr(" \r\t\n\v", c)] *)
Definition is_space (c : Z) : bool := bool_decide (c ∈ [32; 13; 9; 10; 11]).

Record counts := Counts { wc_l : Z; wc_w : Z; wc_c : Z; wc_in : bool }.

Definition wc_byte (x : counts) (b : Z) : counts :=
  let c := i32 (wc_c x + 1) in
  let l := if decide (b = NEWLINE) then i32 (wc_l x + 1) else wc_l x in
  if is_space b then Counts l (wc_w x) c false
  else if wc_in x then Counts l (wc_w x) c true
  else Counts l (i32 (wc_w x + 1)) c true.

(** The loop over the blocks that read() returns. *)
Definition wc (blocks : list (list Z)) : Z * Z * Z :=
  let x := foldl (λ x buf, foldl wc_byte x buf) (Counts 0 0 0 false) blocks in
  (wc_l x, wc_w x, wc_c x).

(** The words of a text: the longest stretches without a space character. *)
Fixpoint words (s : list Z) : list (list Z) :=
  match s with
  | [] => []
  | c :: s' =>
      let ws := words s' in
      if is_space c then ws else
      match s' with
      | [] => [[c]]
      | d :: _ => if is_space d then [c] :: ws else match ws with w :: ws' => (c :: w) :: ws' | [] => [[c]] end
      end
  end.

Lemma words_nonempty d s : is_space d = false → words (d :: s) ≠ [].
Proof. intros Hd. cbn [words]. rewrite Hd. destruct s as [|e s]; [done|]. destruct (is_space e); [done|]. by destruct (words (e :: s)). Qed.

Lemma wc_fold s l w c inw :
  0 ≤ l → 0 ≤ w → 0 ≤ c → l + Z.of_nat (length s) < 2 ^ 31 → w + Z.of_nat (length s) < 2 ^ 31 → c + Z.of_nat (length s) < 2 ^ 31 →
  let x := foldl wc_byte (Counts l w c inw) s in
  wc_l x = l + Z.of_nat (length (filter (λ b, b = NEWLINE) s)) ∧ wc_c x = c + Z.of_nat (length s) ∧
  wc_w x = w + Z.of_nat (length (words s)) - (if inw then match s with b :: _ => if is_space b then 0 else 1 | [] => 0 end else 0).
Proof.
  revert l w c inw. induction s as [|b s IH]; intros l w c inw Hl Hw Hc Bl Bw Bc; [simpl; destruct inw; split_and!; lia|].
  cbn [foldl length] in *. cbn zeta.
  assert (wc_byte (Counts l w c inw) b = Counts (if decide (b = NEWLINE) then l + 1 else l)
    (if is_space b then w else if inw then w else w + 1) (c + 1) (negb (is_space b))) as ->.
  { unfold wc_byte. cbn [wc_l wc_w wc_c wc_in]. rewrite !i32_small by lia. by destruct (is_space b), inw. }
  rewrite filter_cons. set (l' := if decide (b = NEWLINE) then l + 1 else l).
  assert (0 ≤ l' ∧ l' + Z.of_nat (length s) < 2 ^ 31 ∧
    l' + Z.of_nat (length (filter (λ b, b = NEWLINE) s)) =
    l + Z.of_nat (length (if decide (b = NEWLINE) then b :: filter (λ b, b = NEWLINE) s else filter (λ b, b = NEWLINE) s))) as (L1 & L2 & L3)
    by (unfold l'; case_decide; simpl; lia).
  assert (length (words (b :: s)) = if is_space b then length (words s) else
    (length (words s) + match s with d :: _ => if is_space d then 1 else 0 | [] => 1 end)%nat) as Ew.
  { cbn [words]. destruct (is_space b) eqn:Eb; [done|]. destruct s as [|d s]; [done|]. destruct (is_space d) eqn:Ed; [simpl; lia|].
    pose proof (words_nonempty d s Ed) as Hne. destruct (words (d :: s)); [done|]. simpl. lia. }
  rewrite Ew. destruct (is_space b) eqn:Eb.
  - destruct (IH l' w (c + 1) false) as (I1 & I2 & I3); try lia. cbn [negb]. rewrite I1, I2, I3. destruct inw; lia.
  - destruct inw.
    + destruct (IH l' w (c + 1) true) as (I1 & I2 & I3); try lia. cbn [negb]. rewrite I1, I2, I3. destruct s as [|d s]; [|destruct (is_space d)]; lia.
    + destruct (IH l' (w + 1) (c + 1) true) as (I1 & I2 & I3); try lia. cbn [negb]. rewrite I1, I2, I3. destruct s as [|d s]; [|destruct (is_space d)]; lia.
Qed.

(** wc counts the lines, words and bytes of the file, whatever blocks it is read in. *)
Lemma wc_correct blocks :
  Z.of_nat (length (concat blocks)) < 2 ^ 31 →
  wc blocks = (Z.of_nat (length (filter (λ b, b = NEWLINE) (concat blocks))), Z.of_nat (length (words (concat blocks))),
    Z.of_nat (length (concat blocks))).
Proof.
  intros Hlen. unfold wc. assert (∀ x, foldl (λ x buf, foldl wc_byte x buf) x blocks = foldl wc_byte x (concat blocks)) as ->.
  { clear. induction blocks as [|b bs IH]; intros x; [done|]. simpl. by rewrite IH, foldl_app. }
  destruct (wc_fold (concat blocks) 0 0 0 false) as (-> & -> & ->); try lia. by rewrite Z.sub_0_r.
Qed.
