(* ===== verification/Umalloc.v ===== *)
(** * The user memory allocator (umalloc.c)

    The circular free list of Kernighan and Ritchie, in the memory of the process: a
    header of two words, the next free block and the size in units of a header, before
    every block.  [heap_inv] relates the memory to the list of free blocks in order of
    address and to the blocks the program has, with their contents. *)

From S2P Require Import Prelude Memory.

#[local] Opaque store32 load32.

(** sizeof(Header) *)
Notation HDR := 8.

Record uheap := UHeap { u_mem : mem; u_freep : Z; u_brk : Z }.

Definition hptr (m : mem) (p : Z) : Z := load32 m p.
Definition hsize (m : mem) (p : Z) : Z := load32 m (p + 4).
Definition set_ptr (m : mem) (p v : Z) : mem := store32 m p v.
Definition set_size (m : mem) (p v : Z) : mem := store32 m (p + 4) v.

(** The search for the block before [bp]; the fuel counts blocks. *)
Fixpoint free_loop (fuel : nat) (m : mem) (bp p : Z) : option Z :=
  if decide (p < bp ∧ bp < hptr m p) then Some p else
  if decide (hptr m p ≤ p ∧ (p < bp ∨ bp < hptr m p)) then Some p else
  match fuel with
  | O => None
  | S f => free_loop f m bp (hptr m p)
  end.

(** The block [bp] joined with the one after [p], if they touch. *)
Definition join_next (m : mem) (bp p : Z) : mem :=
  if decide (u32 (bp + HDR * hsize m bp) = hptr m p) then
    let m := set_size m bp (u32 (hsize m bp + hsize m (hptr m p))) in
    set_ptr m bp (hptr m (hptr m p))
  else set_ptr m bp (hptr m p).
(** The block [p] joined with [bp], if they touch. *)
Definition join_prev (m : mem) (bp p : Z) : mem :=
  if decide (u32 (p + HDR * hsize m p) = bp) then
    let m := set_size m p (u32 (hsize m p + hsize m bp)) in
    set_ptr m p (hptr m bp)
  else set_ptr m p bp.

Definition free (fuel : nat) (ap : Z) (h : uheap) : option uheap :=
  let bp := ap - HDR in
  match free_loop fuel (u_mem h) bp (u_freep h) with
  | None => None
  | Some p => Some (UHeap (join_prev (join_next (u_mem h) bp p) bp p) p (u_brk h))
  end.

Section malloc.
(** The system call: the count and the current break; the result and the new break. *)
Context (sbrk : Z → Z → Z * Z) (base : Z).

Definition morecore (fuel : nat) (nu : Z) (h : uheap) : option (Z * uheap) :=
  let nu := if decide (nu < 4096) then 4096 else nu in
  let '(p, brk) := sbrk (i32 (nu * HDR)) (u_brk h) in
  if decide (p = -1) then Some (0, UHeap (u_mem h) (u_freep h) brk) else
  match free fuel (p + HDR) (UHeap (set_size (u_mem h) p nu) (u_freep h) brk) with
  | None => None
  | Some h' => Some (u_freep h', h')
  end.

(** A block found: all of it, or its end. *)
Definition take_block (nunits prevp p : Z) (h : uheap) : Z * uheap :=
  let m := u_mem h in
  if decide (hsize m p = nunits) then
    (p + HDR, UHeap (set_ptr m prevp (hptr m p)) prevp (u_brk h))
  else
    let m := set_size m p (u32 (hsize m p - nunits)) in
    let q := u32 (p + HDR * hsize m p) in
    (q + HDR, UHeap (set_size m q nunits) prevp (u_brk h)).

Fixpoint malloc_loop (fuel : nat) (nunits prevp p : Z) (h : uheap) : option (Z * uheap) :=
  if decide (nunits ≤ hsize (u_mem h) p) then Some (take_block nunits prevp p h) else
  match fuel with
  | O => None
  | S f =>
      if decide (p = u_freep h) then
        match morecore f nunits h with
        | None => None
        | Some (p, h) =>
            if decide (p = 0) then Some (0, h) else malloc_loop f nunits p (hptr (u_mem h) p) h
        end
      else malloc_loop f nunits p (hptr (u_mem h) p) h
  end.

Definition malloc (fuel : nat) (nbytes : Z) (h : uheap) : option (Z * uheap) :=
  let nunits := u32 (u32 (nbytes + HDR - 1) / HDR + 1) in
  let h := if decide (u_freep h = 0)
           then UHeap (set_size (set_ptr (u_mem h) base base) base 0) base (u_brk h) else h in
  malloc_loop fuel nunits (u_freep h) (hptr (u_mem h) (u_freep h)) h.
End malloc.

(** ** The invariant *)

Definition addr (x : Z * Z) : Z := x.1.
Definition hd_addr (l : list (Z * Z)) (next : Z) : Z := match l with [] => next | x :: _ => addr x end.
(** The bytes of a block; the block of [base] has size 0 and is its header. *)
Definition extent (x : Z * Z) : Z := HDR * Z.max 1 x.2.
Definition inside (x : Z * Z) (a : Z) : Prop := addr x ≤ a < addr x + extent x.
Definition before (x y : Z * Z) : Prop := addr x + extent x ≤ addr y.

(** The headers of consecutive free blocks, up to [next]. *)
Fixpoint seg (m : mem) (l : list (Z * Z)) (next : Z) : Prop :=
  match l with
  | [] => True
  | x :: l' => hptr m (addr x) = hd_addr l' next ∧ hsize m (addr x) = x.2 ∧ seg m l' next
  end.

(** In order of address, without overlap. *)
Fixpoint ordered (l : list (Z * Z)) : Prop :=
  match l with
  | [] => True
  | x :: l' => Forall (before x) l' ∧ ordered l'
  end.

Lemma extent_pos x : HDR ≤ extent x.
Proof. unfold extent. lia. Qed.

Lemma ordered_app l1 l2 :
  ordered (l1 ++ l2) ↔ ordered l1 ∧ ordered l2 ∧ ∀ x y, x ∈ l1 → y ∈ l2 → before x y.
Proof.
  induction l1 as [|z l1 IH]; simpl; [split; [intros H; split_and!; [done..|set_solver]|naive_solver]|].
  rewrite IH, Forall_app, !Forall_forall. set_solver.
Qed.

Lemma hseg_app m l1 l2 next : seg m (l1 ++ l2) next ↔ seg m l1 (hd_addr l2 next) ∧ seg m l2 next.
Proof.
  induction l1 as [|x l1 IH]; [simpl; naive_solver|]. cbn [app seg]. rewrite IH.
  assert (hd_addr (l1 ++ l2) next = hd_addr l1 (hd_addr l2 next)) as -> by (by destruct l1). naive_solver.
Qed.

(** The header of a block that is not touched. *)
Lemma hdr_ext m m' p : (∀ a, p ≤ a < p + HDR → m' a = m a) → hptr m' p = hptr m p ∧ hsize m' p = hsize m p.
Proof. intros Hm. unfold hptr, hsize. split; apply load32_ext; intros a Ha; apply Hm; lia. Qed.

Lemma hseg_ext m m' l next :
  seg m l next → (∀ x a, x ∈ l → addr x ≤ a < addr x + HDR → m' a = m a) → seg m' l next.
Proof.
  induction l as [|x l IH]; [done|]. intros (H1 & H2 & H3) Hm. cbn [seg].
  destruct (hdr_ext m m' (addr x)) as [-> ->]; [intros a Ha; apply (Hm x); [by left|done]|].
  split_and!; [done|done|]. apply IH; [done|]. intros y a Hy. apply Hm. by right.
Qed.

(** Any block that overlaps none of an ordered list has a place in it. *)
Lemma ordered_split l b :
  ordered l → (∀ x, x ∈ l → before x b ∨ before b x) →
  ∃ l1 l2, l = l1 ++ l2 ∧ (∀ x, x ∈ l1 → before x b) ∧ (∀ x, x ∈ l2 → before b x).
Proof.
  induction l as [|x l IH]; intros Ho Hb; [exists [], []; set_solver|]. destruct Ho as [Hx Ho].
  destruct (Hb x ltac:(left)) as [Hxb|Hbx].
  - destruct IH as (l1 & l2 & -> & H1 & H2); [done|intros y Hy; apply Hb; by right|]. exists (x :: l1), l2. set_solver.
  - exists [], (x :: l). split; [done|]. split; [set_solver|]. intros y [->|Hy]%elem_of_cons; [done|].
    rewrite Forall_forall in Hx. specialize (Hx y Hy). unfold before in *. pose proof (extent_pos x). lia.
Qed.

(** ** The search *)

Section search.
Context (m : mem) (base bp : Z) (l1 : list (Z * Z)) (p : Z * Z) (l2 : list (Z * Z)).
Context (Hord : ordered (l1 ++ p :: l2)) (Hseg : seg m (l1 ++ p :: l2) base).
Context (Hbase : hd_addr (l1 ++ p :: l2) 0 = base) (Hp : addr p < bp) (Hl2 : ∀ y, y ∈ l2 → bp < addr y).

Lemma base_least x : x ∈ l1 ++ p :: l2 → base ≤ addr x.
Proof.
  intros Hx. rewrite <- Hbase. destruct (l1 ++ p :: l2) as [|y l] eqn:E; [set_solver|]. simpl. destruct Hord as [Hy _].
  apply elem_of_cons in Hx as [->|Hx]; [done|]. rewrite Forall_forall in Hy. specialize (Hy x Hx). unfold before in Hy.
  pose proof (extent_pos y). lia.
Qed.

Lemma free_found f : free_loop f m bp (addr p) = Some (addr p).
Proof.
  pose proof (base_least p ltac:(set_solver)) as Hb. pose proof Hseg as Hs. apply hseg_app in Hs as [_ (Hn & _)].
  assert (∀ {A} (a : option A) b, (if decide (addr p < bp ∧ bp < hptr m (addr p)) then a else
    if decide (hptr m (addr p) ≤ addr p ∧ (addr p < bp ∨ bp < hptr m (addr p))) then a else b) = a) as Hin.
  { intros A a b. rewrite Hn. destruct l2 as [|y l2']; simpl.
    - rewrite decide_False by lia. rewrite decide_True; [done|lia].
    - rewrite decide_True; [done|]. specialize (Hl2 y ltac:(left)). lia. }
  destruct f; cbn [free_loop]; apply Hin.
Qed.

Lemma free_step f q :
  ¬ (q < bp ∧ bp < hptr m q) → ¬ (hptr m q ≤ q ∧ (q < bp ∨ bp < hptr m q)) →
  free_loop (S f) m bp q = free_loop f m bp (hptr m q).
Proof. intros H1 H2. cbn [free_loop]. by rewrite decide_False, decide_False. Qed.

(** From a block before [p]. *)
Lemma free_left k l q f :
  l1 = k ++ q :: l → free_loop (S (length l) + f) m bp (addr q) = Some (addr p).
Proof.
  revert k q. induction l as [|q' l IH]; intros k q El; cbn [length plus];
    pose proof Hord as Ho; pose proof Hseg as Hs; rewrite El, <- app_assoc in Ho, Hs;
    apply ordered_app in Ho as (_ & [Hq Ho] & _); apply hseg_app in Hs as [_ (Hn & _ & _)];
    rewrite Forall_forall in Hq; simpl in Hn.
  - assert (before q p) as Hqp by (apply Hq; set_solver). unfold before in Hqp. pose proof (extent_pos q).
    rewrite free_step by (rewrite Hn; lia). rewrite Hn. apply free_found.
  - assert (before q q' ∧ before q' p) as [Hq1 Hq2].
    { split; [apply Hq; set_solver|]. cbn [app ordered] in Ho. destruct Ho as [Hf _]. rewrite Forall_forall in Hf. apply Hf. set_solver. }
    unfold before in *. pose proof (extent_pos q). pose proof (extent_pos q').
    rewrite free_step by (rewrite Hn; lia). rewrite Hn. apply (IH (k ++ [q])). by rewrite <- app_assoc.
Qed.

(** From a block after [p], by way of the first one. *)
Lemma free_right k l q f :
  l2 = k ++ q :: l → free_loop (S (length l) + (length l1 + f)) m bp (addr q) = Some (addr p).
Proof.
  revert k q. induction l as [|q' l IH]; intros k q El; cbn [length plus];
    pose proof Hord as Ho; pose proof Hseg as Hs; rewrite El in Ho, Hs; change (p :: k ++ q :: ?l) with ((p :: k) ++ q :: l) in Ho, Hs;
    assert (bp < addr q) as Hbq by (apply Hl2; rewrite El; set_solver).
  - rewrite (app_assoc l1 (p :: k)) in Hs. apply hseg_app in Hs as [_ (Hn & _ & _)]. simpl in Hn.
    assert (base ≤ addr p) as Hb by (apply base_least; set_solver).
    rewrite free_step by (rewrite Hn; lia). rewrite Hn. rewrite <- Hbase.
    assert (l1 = [] ∨ ∃ x l, l1 = x :: l) as [E1|(x & l & E1)] by (destruct l1; [by left|right; by eexists _, _]).
    + rewrite E1. apply free_found.
    + pose proof (free_left [] l x f E1) as Hl. rewrite E1 at 2. cbn [app hd_addr]. rewrite E1 at 1. exact Hl.
  - rewrite (app_assoc l1 (p :: k)) in Ho, Hs. apply hseg_app in Hs as [_ (Hn & _ & _)]. simpl in Hn.
    apply ordered_app in Ho as (_ & [Hq _] & _). rewrite Forall_forall in Hq.
    assert (before q q') as Hqq by (apply Hq; set_solver). unfold before in Hqq. pose proof (extent_pos q).
    rewrite free_step by (rewrite Hn; lia). rewrite Hn. apply (IH (k ++ [q])). by rewrite El, <- app_assoc.
Qed.

Lemma free_search f q :
  q ∈ map addr (l1 ++ p :: l2) → (length (l1 ++ p :: l2) ≤ f)%nat → free_loop f m bp q = Some (addr p).
Proof.
  intros (x & -> & Hx)%list_elem_of_fmap Hf. rewrite length_app in Hf. simpl in Hf.
  apply elem_of_app in Hx as [Hx|[->|Hx]%elem_of_cons]; [|apply free_found|].
  - apply list_elem_of_split in Hx as (k & l & El). rewrite El, length_app in Hf. simpl in Hf.
    replace f with (S (length l) + (f - S (length l)))%nat by lia. by eapply free_left.
  - apply list_elem_of_split in Hx as (k & l & El). rewrite El, length_app in Hf. simpl in Hf.
    replace f with (S (length l) + (length l1 + (f - S (length l) - length l1)))%nat by lia. by eapply free_right.
Qed.
End search.

(** ** Freeing *)

Lemma set_hdr m p v a : (a < p ∨ p + HDR ≤ a) → set_ptr m p v a = m a ∧ set_size m p v a = m a.
Proof. intros Ha. unfold set_ptr, set_size. by rewrite !store32_outside by lia. Qed.

Lemma hdr_set m p q v w :
  0 ≤ v < 2 ^ 32 → 0 ≤ w < 2 ^ 32 →
  hptr (set_ptr m p v) p = v ∧ hsize (set_ptr m p v) p = hsize m p ∧
  hptr (set_size m p w) p = hptr m p ∧ hsize (set_size m p w) p = w ∧
  (p + HDR ≤ q ∨ q + HDR ≤ p → hptr (set_ptr m p v) q = hptr m q ∧ hsize (set_ptr m p v) q = hsize m q ∧
     hptr (set_size m p w) q = hptr m q ∧ hsize (set_size m p w) q = hsize m q).
Proof.
  intros Hv Hw. unfold hptr, hsize, set_ptr, set_size. rewrite !load32_store32_eq, !u32_small by done.
  split_and!; [done|rewrite load32_store32_ne by lia; done|rewrite load32_store32_ne by lia; done|done|].
  intros Hq. by rewrite !load32_store32_ne by lia.
Qed.

Definition free_ok (base : Z) (m : mem) (freep : Z) (nodes : list (Z * Z)) : Prop :=
  (∃ rest, nodes = (base, 0) :: rest ∧ Forall (λ x, 1 ≤ x.2) rest) ∧
  ordered nodes ∧ seg m nodes base ∧ freep ∈ map addr nodes.

(** The bytes of some blocks. *)
Definition covered (l : list (Z * Z)) (a : Z) : Prop := ∃ x, x ∈ l ∧ inside x a.

Lemma covered_app l1 l2 a : covered (l1 ++ l2) a ↔ covered l1 a ∨ covered l2 a.
Proof. unfold covered. set_solver. Qed.
Lemma covered_cons x l a : covered (x :: l) a ↔ inside x a ∨ covered l a.
Proof. unfold covered. set_solver. Qed.

Section joining.
Context (m : mem) (base : Z) (b p : Z * Z) (l2 : list (Z * Z)).
Context (Hb : 1 ≤ b.2) (Hbs : hsize m (addr b) = b.2) (Hpb : before p b) (Hbl : ∀ x, x ∈ l2 → before b x).
Context (Hord : ordered (p :: l2)) (Hseg : seg m (p :: l2) base) (Hpos : 0 < base ≤ addr p).
Context (Hl2 : Forall (λ x, 1 ≤ x.2) l2) (Hbd : ∀ a, covered (b :: p :: l2) a → a < 2 ^ 31).

Lemma below x : x ∈ b :: p :: l2 → addr x + extent x ≤ 2 ^ 31.
Proof. intros Hx. pose proof (extent_pos x). specialize (Hbd (addr x + extent x - 1)). assert (addr x + extent x - 1 < 2 ^ 31); [|lia].
  apply Hbd. exists x. split; [done|]. unfold inside. lia. Qed.

(** [bp] after its first step, with what follows it. *)
Lemma join_next_spec m1 :
  m1 = join_next m (addr b) (addr p) →
  ∃ s l3,
    hptr m1 (addr b) = hd_addr l3 base ∧ hsize m1 (addr b) = s ∧ b.2 ≤ s ∧ (length l3 ≤ length l2)%nat ∧
    ordered ((addr b, s) :: l3) ∧ seg m1 l3 base ∧ Forall (λ x, 1 ≤ x.2) l3 ∧
    (∀ a, covered ((addr b, s) :: l3) a → covered (b :: l2) a) ∧
    (∀ a, a < addr b ∨ addr b + HDR ≤ a → m1 a = m a).
Proof.
  intros Em. destruct Hseg as (Hn & Hps & Hs2). destruct Hord as [Hp2 Ho2]. pose proof below as Hbelow.
  pose proof (Hbelow b ltac:(set_solver)) as Bb.
  pose proof (extent_pos b) as Eb. assert (extent b = HDR * b.2) as Exb by (unfold extent; lia).
  assert (0 < base < addr b) as Hb0 by (unfold before in Hpb; pose proof (extent_pos p); lia).
  assert (∀ v a, a < addr b ∨ addr b + HDR ≤ a → set_ptr m (addr b) v a = m a) as Hout by (intros v a Ha; by apply set_hdr).
  unfold join_next in Em. rewrite Hbs, Hn in Em. rewrite u32_small in Em by lia. destruct l2 as [|y l3]; cbn [hd_addr] in Em.
  - rewrite decide_False in Em by lia. subst m1. exists b.2, [].
    destruct (hdr_set m (addr b) (addr b) base 0 ltac:(lia) ltac:(lia)) as (E1 & E2 & _).
    rewrite E1, E2. split_and!; try done. { by destruct b. } intros a Ha. by apply Hout.
  - destruct Hs2 as (Hyn & Hys & Hs3). apply Forall_cons in Hl2 as [Hy1 Hl3].
    assert (before b y) as Hby by (apply Hbl; set_solver). unfold before in Hby. pose proof (Hbelow y ltac:(set_solver)) as By.
    pose proof (extent_pos y) as Ey. destruct Ho2 as [Hy3 Ho3].
    assert (∀ x, x ∈ y :: l3 → addr b + HDR ≤ addr x) as Hfar.
    { intros x Hx. specialize (Hbl x Hx). unfold before in Hbl. lia. }
    destruct (decide (addr b + HDR * b.2 = addr y)) as [Et|Et].
    + destruct (hdr_set m (addr b) (addr p) 0 (u32 (b.2 + y.2)) ltac:(lia) ltac:(zlia)) as (_ & _ & _ & S2 & S3).
      destruct (S3 ltac:(right; unfold before in Hpb; pose proof (extent_pos p); lia)) as (_ & _ & P1 & _).
      destruct (hdr_set m (addr b) (addr y) 0 (u32 (b.2 + y.2)) ltac:(lia) ltac:(zlia)) as (_ & _ & _ & _ & S4).
      destruct (S4 ltac:(left; apply Hfar; set_solver)) as (_ & _ & Y1 & _).
      rewrite Hys, P1, Hn in Em. cbn [hd_addr] in Em. rewrite Y1, Hyn in Em. rewrite u32_small in * by (unfold extent in *; lia). subst m1.
      exists (b.2 + y.2), l3.
      assert (0 ≤ hd_addr l3 base < 2 ^ 32) as Hh.
      { destruct l3 as [|z l3]; simpl; [lia|]. pose proof (Hbelow z ltac:(set_solver)) as Bz. pose proof (extent_pos z).
        pose proof (Hfar z ltac:(set_solver)). lia. }
      destruct (hdr_set (set_size m (addr b) (b.2 + y.2)) (addr b) 0 (hd_addr l3 base) 0 Hh ltac:(lia)) as (E1 & E2 & _).
      rewrite E1, E2, S2. assert (∀ a, a < addr b ∨ addr b + HDR ≤ a → set_ptr (set_size m (addr b) (b.2 + y.2)) (addr b) (hd_addr l3 base) a = m a) as Ho.
      { intros a Ha. destruct (set_hdr (set_size m (addr b) (b.2 + y.2)) (addr b) (hd_addr l3 base) a Ha) as [-> _]. by apply set_hdr. }
      split_and!; try done; try (simpl; lia).
      * split; [|done]. rewrite Forall_forall in *. intros x Hx. specialize (Hy3 x Hx). unfold before, extent in *. simpl. lia.
      * eapply hseg_ext; [done|]. intros x a Hx Ha. apply Ho. right. specialize (Hfar x ltac:(set_solver)). lia.
      * intros a. rewrite !covered_cons. intros [Ha|?]; [|tauto]. unfold inside, extent in *. simpl in *. lia.
    + subst m1. exists b.2, (y :: l3). destruct (hdr_set m (addr b) (addr b) (addr y) 0 ltac:(lia) ltac:(lia)) as (E1 & E2 & _).
      rewrite E1, E2. split_and!; try done.
      * split; [|done]. rewrite Forall_forall. intros x Hx. by destruct b; apply Hbl.
      * eapply hseg_ext; [by repeat split|]. intros x a Hx Ha. apply Hout. right. specialize (Hfar x Hx). lia.
      * by apply Forall_cons.
      * by destruct b.
      * intros a Ha. by apply Hout.
Qed.
End joining.

(** [p] after the second step. *)
Lemma join_prev_spec m m1 m2 base b p s l3 :
  before p b → 1 ≤ s → 0 ≤ p.2 → hsize m (addr p) = p.2 → 0 < addr p → addr b + HDR * s ≤ 2 ^ 31 →
  hptr m1 (addr b) = hd_addr l3 base → hsize m1 (addr b) = s → 0 ≤ hd_addr l3 base < 2 ^ 32 →
  ordered ((addr b, s) :: l3) → seg m1 l3 base → (∀ a, a < addr b ∨ addr b + HDR ≤ a → m1 a = m a) →
  m2 = join_prev m1 (addr b) (addr p) →
  ∃ l, (l = p :: (addr b, s) :: l3 ∨ 1 ≤ p.2 ∧ l = (addr p, p.2 + s) :: l3 ∧ addr p + HDR * p.2 = addr b) ∧
    ordered l ∧ seg m2 l base ∧ (∀ a, a < addr p ∨ addr p + HDR ≤ a → m2 a = m1 a).
Proof.
  intros Hpb Hs Hp2 Hps Hp0 Hbd Hbn Hbs Hh [Hb3 Ho3] Hs3 Hm1 Em. unfold before in Hpb. pose proof (extent_pos p) as Ep.
  assert (p.2 = 0 ∧ extent p = HDR ∨ 1 ≤ p.2 ∧ extent p = HDR * p.2) as Hcase by (unfold extent; lia).
  assert (∀ x, x ∈ l3 → addr b + HDR * s ≤ addr x) as Hfar.
  { intros x Hx. rewrite Forall_forall in Hb3. specialize (Hb3 x Hx). unfold before, extent in Hb3. simpl in Hb3. lia. }
  destruct (hdr_ext m m1 (addr p)) as [_ Ehs]; [intros a Ha; apply Hm1; lia|]. rewrite Hps in Ehs.
  unfold join_prev in Em. rewrite Ehs, Hbs in Em. rewrite u32_small in Em by lia.
  destruct (decide (addr p + HDR * p.2 = addr b)) as [Et|Et].
  - destruct (hdr_set m1 (addr p) (addr b) 0 (u32 (p.2 + s)) ltac:(lia) ltac:(zlia)) as (_ & _ & _ & S2 & S3).
    destruct (S3 ltac:(lia)) as (_ & _ & B1 & _). rewrite B1, Hbn in Em. rewrite u32_small in * by lia.
    destruct (hdr_set (set_size m1 (addr p) (p.2 + s)) (addr p) 0 (hd_addr l3 base) 0 Hh ltac:(lia)) as (E1 & E2 & _).
    assert (∀ a, a < addr p ∨ addr p + HDR ≤ a → m2 a = m1 a) as Ho.
    { intros a Ha. subst m2. destruct (set_hdr (set_size m1 (addr p) (p.2 + s)) (addr p) (hd_addr l3 base) a Ha) as [-> _]. by apply set_hdr. }
    exists ((addr p, p.2 + s) :: l3). split; [right; split_and!; [lia|done|done]|]. split_and!; [split; [|done]| |done].
    + rewrite Forall_forall. intros x Hx. specialize (Hfar x Hx). unfold before, extent. simpl. lia.
    + cbn [seg]. change (addr (addr p, p.2 + s)) with (addr p). split_and!; [by subst m2|subst m2; simpl; by rewrite E2, S2|].
      eapply hseg_ext; [done|]. intros x a Hx Ha. apply Ho. specialize (Hfar x Hx). lia.
  - destruct (hdr_set m1 (addr p) 0 (addr b) 0 ltac:(lia) ltac:(lia)) as (E1 & E2 & _).
    assert (∀ a, a < addr p ∨ addr p + HDR ≤ a → m2 a = m1 a) as Ho by (intros a Ha; subst m2; by apply set_hdr).
    destruct (hdr_ext m1 m2 (addr b)) as [Eb1 Eb2]; [intros a Ha; apply Ho; lia|].
    exists (p :: (addr b, s) :: l3). split; [by left|]. split_and!; [split; [|by split]| |done].
    + apply Forall_cons. split; [unfold before; simpl; lia|]. rewrite Forall_forall. intros x Hx. specialize (Hfar x Hx). unfold before. lia.
    + cbn [seg]. change (addr (addr b, s)) with (addr b). rewrite Eb1, Eb2.
      split_and!; [by subst m2|subst m2; by rewrite E2|done|done|].
      eapply hseg_ext; [done|]. intros x a Hx Ha. apply Ho. specialize (Hfar x Hx). lia.
Qed.

Lemma inside_before x y : (∀ a, ¬ (inside x a ∧ inside y a)) → before x y ∨ before y x.
Proof.
  intros H. unfold before. pose proof (extent_pos x). pose proof (extent_pos y). unfold inside in H.
  destruct (decide (addr x ≤ addr y)); [left|right].
  - specialize (H (addr y)). lia.
  - specialize (H (addr x)). lia.
Qed.

Lemma ordered_nodes base m freep nodes x :
  free_ok base m freep nodes → x ∈ nodes → base ≤ addr x ∧ 0 ≤ x.2 ∧ (x = (base, 0) ∨ 1 ≤ x.2).
Proof.
  intros ((rest & -> & Hr) & [Ho _] & _ & _) [->|Hx]%elem_of_cons; [split_and!; simpl; [lia|lia|by left]|].
  rewrite Forall_forall in Ho, Hr. specialize (Ho x Hx). specialize (Hr x Hx). unfold before in Ho. simpl in Ho.
  pose proof (extent_pos (base, 0)). split_and!; [lia|lia|by right].
Qed.

Lemma free_spec base h nodes b fuel :
  free_ok base (u_mem h) (u_freep h) nodes → 0 < base → 1 ≤ b.2 → hsize (u_mem h) (addr b) = b.2 → base < addr b →
  (∀ a, ¬ (covered nodes a ∧ inside b a)) → (∀ a, covered (b :: nodes) a → a < 2 ^ 31) → (length nodes ≤ fuel)%nat →
  ∃ h' nodes', free fuel (addr b + HDR) h = Some h' ∧ u_brk h' = u_brk h ∧ free_ok base (u_mem h') (u_freep h') nodes' ∧
    (length nodes' ≤ S (length nodes))%nat ∧ (∃ x, x ∈ nodes' ∧ b.2 ≤ x.2) ∧
    (∀ a, covered nodes' a → covered (b :: nodes) a) ∧ (∀ a, ¬ covered (b :: nodes) a → u_mem h' a = u_mem h a).
Proof.
  intros Hok Hb0 Hb1 Hbs Hbb Hdis Hbd Hf. pose proof Hok as ((rest & En & Hr) & Hord & Hseg & Hfp).
  destruct (ordered_split nodes b Hord) as (l0 & l2 & El & Hl0 & Hl2).
  { intros x Hx. apply inside_before. intros a [H1 H2]. apply (Hdis a). split; [by exists x|done]. }
  assert (∃ l1 p, l0 = l1 ++ [p]) as (l1 & p & ->).
  { destruct l0 as [|x l0]; [|destruct (exists_last (l := x :: l0)) as (l1 & p & E); [done|by exists l1, p]].
    exfalso. rewrite El in En. simpl in En. specialize (Hl2 (base, 0) ltac:(rewrite En; left)). unfold before in Hl2.
    pose proof (extent_pos b). simpl in Hl2. lia. }
  rewrite <- app_assoc in El. simpl in El.
  assert (p ∈ nodes) as Hpn by (rewrite El; set_solver). destruct (ordered_nodes _ _ _ _ p Hok Hpn) as (Hpb & Hp2 & _).
  assert (before p b) as Hpbb by (apply Hl0; set_solver).
  assert (Forall (λ x, 1 ≤ x.2) l2) as Hs2.
  { rewrite Forall_forall. intros x Hx. destruct (ordered_nodes _ _ _ _ x Hok ltac:(rewrite El; set_solver)) as (_ & _ & [->|?]); [|done].
    specialize (Hl2 _ Hx). unfold before in Hl2. pose proof (extent_pos b). simpl in Hl2. lia. }
  assert (free_loop fuel (u_mem h) (addr b) (u_freep h) = Some (addr p)) as Eloop.
  { apply (free_search (u_mem h) base (addr b) l1 p l2); rewrite <- ?El; try done.
    - by rewrite En.
    - unfold before in Hpbb. pose proof (extent_pos p). lia.
    - intros y Hy. specialize (Hl2 y Hy). unfold before in Hl2. pose proof (extent_pos b). lia. }
  pose proof Hord as Ho. rewrite El in Ho. apply ordered_app in Ho as (Ho1 & Hop & Ho12).
  pose proof Hseg as Hs. rewrite El in Hs. apply hseg_app in Hs as [Hs1 Hsp].
  assert (∀ a, covered (b :: p :: l2) a → a < 2 ^ 31) as Hbd'.
  { intros a Ha. apply Hbd. rewrite El. rewrite !covered_cons in *. rewrite covered_app, covered_cons. tauto. }
  destruct (join_next_spec (u_mem h) base b p l2 Hb1 Hbs Hpbb Hl2 Hop Hsp ltac:(lia) Hs2 Hbd' _ eq_refl)
    as (s & l3 & N1 & N2 & N3 & N4 & N5 & N6 & N7 & N8 & N9).
  set (m1 := join_next (u_mem h) (addr b) (addr p)) in *.
  assert (addr b + HDR * s ≤ 2 ^ 31) as Hbs31.
  { assert (addr b + HDR * s - 1 < 2 ^ 31); [|lia]. apply Hbd'. rewrite !covered_cons.
    assert (covered (b :: l2) (addr b + HDR * s - 1)) as Hc; [|rewrite covered_cons in Hc; tauto].
    apply N8. rewrite covered_cons. left. unfold inside, extent. simpl. lia. }
  assert (0 ≤ hd_addr l3 base < 2 ^ 32) as Hh.
  { destruct l3 as [|y l3]; simpl; [lia|]. destruct N5 as [Hby _]. apply Forall_cons in Hby as [Hby _]. unfold before in Hby. simpl in Hby.
    pose proof (extent_pos (addr b, s)). pose proof (extent_pos y). assert (addr y < 2 ^ 31); [|lia]. apply Hbd'. rewrite !covered_cons.
    assert (covered (b :: l2) (addr y)) as Hc; [|rewrite covered_cons in Hc; tauto].
    apply N8. rewrite !covered_cons. right. left. unfold inside. lia. }
  destruct (join_prev_spec (u_mem h) m1 _ base b p s l3 Hpbb ltac:(lia) Hp2 ltac:(apply Hsp) ltac:(lia) Hbs31 N1 N2 Hh N5 N6 N9 eq_refl)
    as (l & Hl & L1 & L2 & L3). set (m2 := join_prev m1 (addr b) (addr p)) in *.
  assert (hd_addr l base = addr p ∧ ∀ y, y ∈ l → addr p ≤ addr y) as [Hhd Hge].
  { destruct Hl as [->|(_ & -> & _)]; (split; [done|]); intros y [->|Hy]%elem_of_cons; try (simpl; lia);
      destruct L1 as [L1 _]; rewrite Forall_forall in L1; specialize (L1 y Hy); unfold before in L1; simpl in L1;
      match type of L1 with context [extent ?z] => pose proof (extent_pos z) end; lia. }
  exists (UHeap m2 (addr p) (u_brk h)), (l1 ++ l). unfold free. replace (addr b + HDR - HDR) with (addr b) by lia. rewrite Eloop.
  split; [done|]. split; [done|]. split; [split_and!|split_and!].
  - destruct l1 as [|x l1].
    + simpl in El. rewrite En in El. injection El as <- <-. destruct Hl as [->|(Hc & _)]; [|simpl in Hc; lia].
      exists ((addr b, s) :: l3). split; [done|]. apply Forall_cons. split; [simpl; lia|done].
    + rewrite En in El. injection El as <- El. exists (l1 ++ l). split; [done|]. subst rest. apply Forall_app in Hr as [Hr1 Hr2].
      apply Forall_app. split; [done|]. apply Forall_cons in Hr2 as [Hr2 _].
      destruct Hl as [->|(_ & -> & _)]; repeat (apply Forall_cons; split); simpl; try lia; done.
  - apply ordered_app. split_and!; try done. intros x y Hx Hy. specialize (Hge y Hy).
    specialize (Ho12 x p Hx ltac:(left)). unfold before in *. lia.
  - simpl. apply hseg_app. split; [|done]. rewrite Hhd. eapply hseg_ext; [exact Hs1|]. intros x a Hx Ha. pose proof (extent_pos x).
    specialize (Ho12 x p Hx ltac:(left)). specialize (Hl0 x ltac:(set_solver)). unfold before in *. rewrite L3, N9 by lia. done.
  - simpl. rewrite map_app. apply elem_of_app. right. destruct Hl as [->|(_ & -> & _)]; simpl; left.
  - rewrite El, !length_app. destruct Hl as [->|(_ & -> & _)]; simpl; lia.
  - destruct Hl as [->|(_ & -> & _)].
    + exists (addr b, s). split; [set_solver|done].
    + exists (addr p, p.2 + s). split; [set_solver|simpl; lia].
  - intros a. rewrite El, !covered_cons, !covered_app, !covered_cons. intros [?|Hc]; [tauto|].
    assert (inside p a ∨ covered ((addr b, s) :: l3) a) as Hc'.
    { destruct Hl as [->|(H1 & -> & H2)]; rewrite !covered_cons in *; [tauto|]. destruct Hc as [Hc|?]; [|tauto].
      unfold inside, extent in *. simpl in *. lia. }
    destruct Hc' as [?|Hc'%N8]; [tauto|]. rewrite covered_cons in Hc'. tauto.
  - simpl. intros a Ha. rewrite El, covered_cons, covered_app, covered_cons in Ha.
    assert (¬ inside p a ∧ ¬ inside b a) as [H1 H2] by tauto. unfold inside in H1, H2. pose proof (extent_pos p). pose proof (extent_pos b).
    by rewrite L3, N9 by lia.
Qed.

(** ** Allocating *)

(** The free blocks from the one after [freep] on, round to [freep] itself. *)
Lemma rotation base m freep nodes :
  free_ok base m freep nodes →
  ∃ R fn next, addr fn = freep ∧ (∀ x, x ∈ R ++ [fn] ↔ x ∈ nodes) ∧ NoDup (map addr (R ++ [fn])) ∧
    seg m (R ++ [fn]) next ∧ hptr m freep = hd_addr (R ++ [fn]) 0 ∧ length (R ++ [fn]) = length nodes.
Proof.
  intros ((rest & En & Hr) & Hord & Hseg & (fn & -> & Hfn)%list_elem_of_fmap).
  apply list_elem_of_split in Hfn as (l1 & l2 & El). exists (l2 ++ l1), fn, (hptr m (addr fn)). rewrite <- app_assoc.
  assert (hd_addr (l1 ++ [fn]) 0 = base) as Hhd.
  { rewrite En in El. destruct l1; simpl in *; injection El as <- _; done. }
  pose proof Hseg as Hs. rewrite El in Hs. apply hseg_app in Hs as [Hs1 (Hf1 & Hf2 & Hs2)].
  assert (hd_addr (l2 ++ l1 ++ [fn]) 0 = hd_addr l2 base) as Hhd2 by (destruct l2; [done|done]).
  split_and!; try done.
  - intros x. rewrite El. set_solver.
  - assert (NoDup (map addr nodes)) as Hnd.
    { clear -Hord. induction nodes as [|x l IH]; [constructor|]. destruct Hord as [Hx Ho]. simpl. constructor; [|by apply IH].
      intros (y & Ey & Hy)%list_elem_of_fmap. rewrite Forall_forall in Hx. specialize (Hx y Hy). unfold before in Hx. pose proof (extent_pos x). lia. }
    rewrite El in Hnd. eapply NoDup_Permutation_proper; [|exact Hnd]. rewrite !map_app. simpl. solve_Permutation.
  - apply hseg_app. split; [|apply hseg_app; split; [done|by split]]. destruct l1; simpl in *; by subst.
  - by rewrite Hf1.
  - rewrite El, !length_app. simpl. lia.
Qed.

Section loop.
Context (sbrk : Z → Z → Z * Z).

(** The walk ends at a block that is large enough, or back at [freep]. *)
Lemma malloc_walk R fn next h nunits prev f :
  seg (u_mem h) (R ++ [fn]) next → NoDup (map addr (R ++ [fn])) → addr fn = u_freep h →
  hptr (u_mem h) prev = hd_addr (R ++ [fn]) 0 →
  (∃ x q, x ∈ R ++ [fn] ∧ nunits ≤ x.2 ∧ (q = prev ∨ q ∈ map addr (R ++ [fn])) ∧ hptr (u_mem h) q = addr x ∧
     malloc_loop sbrk (length R + f) nunits prev (hd_addr (R ++ [fn]) 0) h = Some (take_block nunits q (addr x) h)) ∨
  ((∀ x, x ∈ R ++ [fn] → x.2 < nunits) ∧ ∀ f', f = S f' →
     malloc_loop sbrk (length R + f) nunits prev (hd_addr (R ++ [fn]) 0) h =
     match morecore sbrk f' nunits h with
     | None => None
     | Some (p, h) => if decide (p = 0) then Some (0, h) else malloc_loop sbrk f' nunits p (hptr (u_mem h) p) h
     end).
Proof.
  revert prev. induction R as [|y R IH]; intros prev Hs Hnd Hfn Hprev; cbn [app length plus hd_addr] in *.
  - destruct Hs as (_ & Hsz & _). destruct (decide (nunits ≤ fn.2)) as [Hle|Hgt].
    + left. exists fn, prev. split_and!; [set_solver|done|by left|done|]. destruct f; cbn [malloc_loop]; by rewrite Hsz, decide_True.
    + right. split; [intros x ->%list_elem_of_singleton; lia|]. intros f' ->. cbn [malloc_loop].
      rewrite Hsz, decide_False by done. by rewrite (decide_True _ _ Hfn).
  - destruct Hs as (Hn & Hsz & Hs). simpl in Hnd. apply NoDup_cons in Hnd as [Hy Hnd]. destruct (decide (nunits ≤ y.2)) as [Hle|Hgt].
    + left. exists y, prev. split_and!; [set_solver|done|by left|done|]. cbn [malloc_loop]. by rewrite Hsz, decide_True.
    + assert (addr y ≠ u_freep h) as Hne.
      { intros E. apply Hy. rewrite E, <- Hfn. apply list_elem_of_fmap. exists fn. split; [done|set_solver]. }
      assert (hptr (u_mem h) (addr y) = hd_addr (R ++ [fn]) 0) as Hn' by (rewrite Hn; by destruct R).
      assert (malloc_loop sbrk (S (length R + f)) nunits prev (addr y) h =
        malloc_loop sbrk (length R + f) nunits (addr y) (hd_addr (R ++ [fn]) 0) h) as Estep.
      { cbn [malloc_loop]. rewrite Hsz, decide_False by done. by rewrite decide_False, Hn'. }
      destruct (IH (addr y) Hs Hnd Hfn Hn') as [(x & q & Hx & Hxs & Hq & Hqx & E)|(Hall & E)].
      * left. exists x, q. split_and!; [set_solver|done| |done|by rewrite Estep]. right. simpl. destruct Hq as [->|?]; [by left|by right].
      * right. split; [intros x [->|Hx]%elem_of_cons; [lia|by apply Hall]|]. intros f' Ef. rewrite Estep. by apply E.
Qed.
End loop.

Lemma node_unique base m freep nodes x y :
  free_ok base m freep nodes → x ∈ nodes → y ∈ nodes → addr x = addr y → x = y.
Proof.
  intros (_ & Hord & _ & _). induction nodes as [|z l IH]; [set_solver|]. destruct Hord as [Hz Ho]. rewrite Forall_forall in Hz.
  intros [->|Hx]%elem_of_cons [->|Hy]%elem_of_cons E; [done| | |by apply IH].
  - specialize (Hz y Hy). unfold before in Hz. pose proof (extent_pos z). lia.
  - specialize (Hz x Hx). unfold before in Hz. pose proof (extent_pos z). lia.
Qed.

Lemma ordered_disjoint l1 x l2 a : ordered (l1 ++ x :: l2) → inside x a → ¬ covered (l1 ++ l2) a.
Proof.
  intros Ho Hx. apply ordered_app in Ho as (_ & [Hx2 _] & H1). rewrite covered_app. intros [(y & Hy & Hi)|(y & Hy & Hi)].
  - specialize (H1 y x Hy ltac:(left)). unfold before, inside in *. lia.
  - rewrite Forall_forall in Hx2. specialize (Hx2 y Hy). unfold before, inside in *. lia.
Qed.

Lemma take_block_spec base h nodes x q nunits :
  free_ok base (u_mem h) (u_freep h) nodes → 0 < base → (∀ a, covered nodes a → a < 2 ^ 31) →
  x ∈ nodes → 1 ≤ nunits ≤ x.2 → q ∈ map addr nodes → hptr (u_mem h) q = addr x →
  ∃ b nodes' h', take_block nunits q (addr x) h = (addr b + HDR, h') ∧ b.2 = nunits ∧ base < addr b ∧
    hsize (u_mem h') (addr b) = nunits ∧ u_brk h' = u_brk h ∧ free_ok base (u_mem h') (u_freep h') nodes' ∧
    (length nodes' ≤ length nodes)%nat ∧ (∀ a, covered (b :: nodes') a → covered nodes a) ∧
    (∀ a, ¬ (covered nodes' a ∧ inside b a)) ∧ (∀ a, ¬ covered nodes a → u_mem h' a = u_mem h a).
Proof.
  intros Hok Hb0 Hbd Hx Hnu (z & -> & Hz)%list_elem_of_fmap Hq.
  pose proof Hok as ((rest & En & Hr) & Hord & Hseg & Hfp).
  assert (base < addr x ∧ extent x = HDR * x.2) as [Hbx Hxe].
  { split; [|unfold extent; lia]. rewrite En in Hx, Hord. apply elem_of_cons in Hx as [->|Hx]; [simpl in Hnu; lia|].
    destruct Hord as [Hf _]. rewrite Forall_forall in Hf. specialize (Hf x Hx). unfold before in Hf. simpl in Hf. pose proof (extent_pos (base, 0)). lia. }
  apply list_elem_of_split in Hz as (k1 & k2 & El).
  assert (∃ k3, k2 = x :: k3) as (k3 & ->).
  { pose proof Hseg as Hs. rewrite El in Hs. apply hseg_app in Hs as [_ (Hn & _)]. rewrite Hq in Hn.
    destruct k2 as [|x' k3]; simpl in Hn; [lia|]. exists k3. f_equal. eapply node_unique; [done|rewrite El; set_solver|done|done]. }
  assert (addr x + extent x ≤ 2 ^ 31) as Hx31.
  { assert (addr x + extent x - 1 < 2 ^ 31); [|lia]. apply Hbd. exists x. split; [done|]. unfold inside. lia. }
  pose proof Hseg as Hs. rewrite El in Hs. apply hseg_app in Hs as [Hs1 (_ & Hzs & Hxn & Hxs & Hs3)].
  pose proof Hord as Ho. rewrite El in Ho. apply ordered_app in Ho as (Ho1 & [Hzf [Hxf Ho3]] & Ho12).
  apply Forall_cons in Hzf as [Hzx Hz3]. unfold take_block. rewrite Hxs.
  assert (∀ y, y ∈ k1 → addr y + HDR ≤ addr z) as Hk1.
  { intros y Hy. specialize (Ho12 y z Hy ltac:(left)). unfold before in Ho12. pose proof (extent_pos y). lia. }
  assert (∀ y, y ∈ k3 → addr x + extent x ≤ addr y) as Hk3 by (rewrite Forall_forall in Hxf; intros y Hy; by apply Hxf).
  assert (addr z + HDR ≤ addr x) as Hzx' by (unfold before in Hzx; pose proof (extent_pos z); lia).
  assert (∀ a, covered nodes a ↔ covered k1 a ∨ inside z a ∨ inside x a ∨ covered k3 a) as Hcov.
  { intros a. by rewrite El, covered_app, !covered_cons. }
  assert (∀ l, Forall (λ x, 1 ≤ x.2) l → (∃ rest', k1 ++ z :: l = (base, 0) :: rest' ∧ Forall (λ x, 1 ≤ x.2) rest')) as Hhead.
  { intros l Hl. rewrite En in El. destruct k1 as [|y k1]; simpl in El; injection El as <- Er; [by exists l|].
    exists (k1 ++ z :: l). split; [done|]. rewrite Er in Hr. rewrite Forall_app, Forall_cons in *. tauto. }
  assert (Forall (λ x, 1 ≤ x.2) (x :: k3)) as Hsz3.
  { rewrite Forall_forall. intros y Hy. destruct (ordered_nodes _ _ _ _ y Hok ltac:(rewrite El; set_solver)) as (_ & _ & [->|?]); [|done].
    apply elem_of_cons in Hy as [<-|Hy]; [simpl in Hnu; lia|]. specialize (Hk3 _ Hy). simpl in Hk3. pose proof (extent_pos x). lia. }
  apply Forall_cons in Hsz3 as [_ Hsz3]. destruct (decide (x.2 = nunits)) as [He|He].
  - exists x, (k1 ++ z :: k3), (UHeap (set_ptr (u_mem h) (addr z) (hptr (u_mem h) (addr x))) (addr z) (u_brk h)).
    assert (0 ≤ hd_addr k3 base < 2 ^ 32) as Hh.
    { destruct k3 as [|y k3]; simpl; [lia|]. specialize (Hk3 y ltac:(left)). pose proof (extent_pos y).
      assert (addr y < 2 ^ 31); [|lia]. apply Hbd, Hcov. right. right. right. exists y. split; [left|unfold inside; lia]. }
    rewrite Hxn. destruct (hdr_set (u_mem h) (addr z) (addr x) (hd_addr k3 base) 0 Hh ltac:(lia)) as (E1 & E2 & _ & _ & E3).
    destruct (E3 ltac:(lia)) as (_ & E4 & _). cbn [u_mem u_freep u_brk].
    assert (∀ a, a < addr z ∨ addr z + HDR ≤ a → set_ptr (u_mem h) (addr z) (hd_addr k3 base) a = u_mem h a) as Hout by (intros a Ha; by apply set_hdr).
    split; [done|]. split; [done|]. split; [done|]. split; [by rewrite E4, Hxs|]. split; [done|]. split; [split_and!; [by apply Hhead| | |]|split_and!].
    + apply ordered_app. split_and!; [done|by split|]. intros y1 y2 H1 H2. apply Ho12; [done|set_solver].
    + apply hseg_app. split; [eapply hseg_ext; [exact Hs1|]; intros y a Hy Ha; apply Hout; specialize (Hk1 y Hy); lia|].
      cbn [seg]. rewrite E1, E2. split_and!; [done|done|]. eapply hseg_ext; [exact Hs3|]. intros y a Hy Ha. apply Hout.
      specialize (Hk3 y Hy). pose proof (extent_pos x). lia.
    + rewrite map_app. set_solver.
    + rewrite El, !length_app. simpl. lia.
    + intros a. rewrite Hcov, !covered_cons, covered_app, covered_cons. tauto.
    + intros a [Hc Hi]. eapply (ordered_disjoint (k1 ++ [z]) x k3 a); [|done|]; rewrite <- app_assoc; simpl; [by rewrite <- El|done].
    + intros a Ha. apply Hout. rewrite Hcov in Ha. assert (¬ inside z a) as Hi by tauto. unfold inside in Hi. pose proof (extent_pos z). lia.
  - rewrite (u32_small (x.2 - nunits)) by (unfold extent in *; lia). set (y := (addr x, x.2 - nunits)).
    destruct (hdr_set (u_mem h) (addr x) (addr x) 0 (x.2 - nunits) ltac:(lia) ltac:(lia)) as (_ & _ & E1 & E2 & _).
    rewrite E2. rewrite u32_small by lia. set (b := (addr x + HDR * (x.2 - nunits), nunits)).
    set (m1 := set_size (u_mem h) (addr x) (x.2 - nunits)) in *.
    change (addr x + HDR * (x.2 - nunits)) with (addr b).
    destruct (hdr_set m1 (addr b) (addr x) 0 nunits ltac:(lia) ltac:(lia)) as (_ & _ & _ & F1 & F2).
    assert (addr b = addr x + HDR * (x.2 - nunits)) as Eab by done. destruct (F2 ltac:(lia)) as (_ & _ & F3 & F4).
    exists b, (k1 ++ z :: y :: k3), (UHeap (set_size m1 (addr b) nunits) (addr z) (u_brk h)). cbn [u_mem u_freep u_brk].
    assert (∀ a, a < addr x ∨ addr x + extent x ≤ a → set_size m1 (addr b) nunits a = u_mem h a) as Hout.
    { intros a Ha. destruct (set_hdr m1 (addr b) nunits a ltac:(lia)) as [_ ->]. apply set_hdr. lia. }
    assert (∀ a, inside y a ∨ inside b a → inside x a) as Hyb by (intros a; unfold inside, extent in *; simpl; lia).
    assert (∀ a, ¬ (inside y a ∧ inside b a)) as Hdis by (intros a; unfold inside, extent in *; simpl; lia).
    split; [done|]. split; [done|]. split; [lia|]. split; [done|]. split; [done|]. split; [split_and!; [apply Hhead| | |]|split_and!].
    + apply Forall_cons. split; [simpl; lia|done].
    + apply ordered_app. split_and!; [done| |].
      * split; [apply Forall_cons; by split|]. split; [|done]. rewrite Forall_forall. intros w Hw. specialize (Hk3 w Hw).
        unfold before, extent in *. simpl. lia.
      * intros y1 y2 H1 H2. apply elem_of_cons in H2 as [->|[->|H2]%elem_of_cons];
          [apply (Ho12 y1 z); set_solver|exact (Ho12 y1 x H1 ltac:(set_solver))|apply (Ho12 y1 y2); set_solver].
    + apply hseg_app. split; [eapply hseg_ext; [exact Hs1|]; intros w a Hw Ha; apply Hout; specialize (Hk1 w Hw); lia|].
      destruct (hdr_ext (u_mem h) (set_size m1 (addr b) nunits) (addr z)) as [Z1 Z2]; [intros a Ha; apply Hout; lia|].
      cbn [seg]. rewrite Z1, Z2. change (addr y) with (addr x). rewrite F3, F4, E1, E2. split_and!; try done.
      eapply hseg_ext; [exact Hs3|]. intros w a Hw Ha. apply Hout. specialize (Hk3 w Hw). lia.
    + rewrite map_app. set_solver.
    + rewrite El, !length_app. simpl. lia.
    + intros a. rewrite Hcov, !covered_cons, covered_app, !covered_cons. specialize (Hyb a). tauto.
    + intros a [Hc Hi]. rewrite covered_app, !covered_cons in Hc. assert (inside x a) as Hxa by (apply Hyb; by right).
      assert (¬ inside y a) as Hya by (intros ?; by apply (Hdis a)).
      assert (covered ((k1 ++ [z]) ++ k3) a) as Hc' by (rewrite !covered_app, covered_cons; tauto).
      eapply (ordered_disjoint (k1 ++ [z]) x k3 a); [|done|done]. rewrite <- app_assoc. simpl. by rewrite <- El.
    + intros a Ha. apply Hout. rewrite Hcov in Ha. assert (¬ inside x a) as Hi by tauto. unfold inside in Hi. lia.
Qed.

(** ** The heap of a program

    [bl] are the blocks that the program has: header and size, and the contents. *)

Definition block_ok (m : mem) (x : (Z * Z) * list Z) : Prop :=
  1 ≤ x.1.2 ∧ hsize m (addr x.1) = x.1.2 ∧ Z.of_nat (length x.2) ≤ HDR * (x.1.2 - 1) ∧
  read_bytes m (addr x.1 + HDR) (length x.2) = x.2.

Record heap_inv (base : Z) (h : uheap) (nodes : list (Z * Z)) (bl : list ((Z * Z) * list Z)) : Prop := {
  hv_free : free_ok base (u_mem h) (u_freep h) nodes;
  hv_base : 0 < base;
  hv_brk : u_brk h ≤ 2 ^ 31;
  hv_region : ∀ a, covered nodes a → base ≤ a < u_brk h;
  hv_blocks : ∀ x, x ∈ bl → block_ok (u_mem h) x ∧ base < addr x.1 ∧ addr x.1 + extent x.1 ≤ u_brk h;
  hv_apart : ∀ x a, x ∈ bl → inside x.1 a → ¬ covered nodes a;
  hv_disj : ∀ i j x y a, bl !! i = Some x → bl !! j = Some y → inside x.1 a → inside y.1 a → i = j }.

Lemma block_ext m m' x : block_ok m x → (∀ a, inside x.1 a → m' a = m a) → block_ok m' x.
Proof.
  intros (H1 & H2 & H3 & H4) Hm. unfold inside, extent in Hm.
  destruct (hdr_ext m m' (addr x.1)) as [_ E]; [intros a Ha; apply Hm; lia|]. split_and!; [done|congruence|done|].
  rewrite <- H4 at 2. unfold read_bytes. apply map_ext_in. intros i Hi%list_elem_of_In%elem_of_seqZ. apply Hm. lia.
Qed.

(** Changes to the free blocks that leave the program's blocks alone. *)
Lemma heap_inv_free base h nodes bl h' nodes' :
  heap_inv base h nodes bl → free_ok base (u_mem h') (u_freep h') nodes' → u_brk h ≤ u_brk h' ≤ 2 ^ 31 →
  (∀ a, covered nodes' a → covered nodes a ∨ u_brk h ≤ a < u_brk h') →
  (∀ a, a < u_brk h → ¬ covered nodes a → u_mem h' a = u_mem h a) → heap_inv base h' nodes' bl.
Proof.
  intros [H1 H2 H3 H4 H5 H6 H7] Hf Hb Hc Hm. split; try done; [lia| | |].
  - intros a Ha. destruct (Hc a Ha) as [Ha'|?]; [specialize (H4 a Ha'); lia|].
    assert (base < u_brk h); [|lia]. destruct H1 as ((rest & -> & _) & _). specialize (H4 base). destruct H4; [|lia].
    exists (base, 0). split; [left|]. unfold inside. pose proof (extent_pos (base, 0)). simpl. lia.
  - intros x Hx. destruct (H5 x Hx) as (B1 & B2 & B3). split_and!; [|done|lia]. eapply block_ext; [done|]. intros a Ha.
    apply Hm; [unfold inside in Ha; lia|]. by apply (H6 x).
  - intros x a Hx Ha Hcov. destruct (Hc a Hcov) as [?|?]; [by apply (H6 x a)|]. destruct (H5 x Hx) as (_ & _ & B3). unfold inside in Ha. lia.
Qed.

Section sbrk.
Context (sbrk : Z → Z → Z * Z) (base : Z).
(** The system call fails and changes nothing, or gives the old break. *)
Hypothesis sbrk_ok : ∀ n brk, 0 ≤ n → sbrk n brk = (-1, brk) ∨ sbrk n brk = (brk, brk + n) ∧ brk + n ≤ 2 ^ 31.

Lemma morecore_spec h nodes bl nunits fuel :
  heap_inv base h nodes bl → 1 ≤ nunits → HDR * Z.max nunits 4096 < 2 ^ 31 → (length nodes ≤ fuel)%nat →
  (morecore sbrk fuel nunits h = Some (0, h) ∧ ∃ n, sbrk n (u_brk h) = (-1, u_brk h)) ∨
  ∃ h' nodes', morecore sbrk fuel nunits h = Some (u_freep h', h') ∧ u_freep h' ≠ 0 ∧ heap_inv base h' nodes' bl ∧
    (length nodes' ≤ S (length nodes))%nat ∧ ∃ x, x ∈ nodes' ∧ nunits ≤ x.2.
Proof.
  intros H Hn Hb Hf. unfold morecore. set (nu := if decide (nunits < 4096) then 4096 else nunits).
  assert (nu = Z.max nunits 4096) as Enu by (unfold nu; case_decide; lia). rewrite Enu in *.
  set (w := Z.max nunits 4096) in *. rewrite i32_small by lia.
  destruct (sbrk_ok (w * HDR) (u_brk h) ltac:(lia)) as [E|[E Hbr]]; rewrite E.
  { left. rewrite decide_True by done. split; [by destruct h|]. by eexists. }
  right. pose proof H as [H1 H2 H3 H4 H5 H6 H7].
  assert (base < u_brk h) as Hbb.
  { destruct H1 as ((rest & -> & _) & _). specialize (H4 base). destruct H4; [|lia]. exists (base, 0). split; [left|].
    unfold inside. pose proof (extent_pos (base, 0)). simpl. lia. }
  rewrite decide_False by lia. set (b := (u_brk h, w)). set (m := set_size (u_mem h) (u_brk h) w).
  assert (extent b = HDR * w) as Eb by (unfold extent, b; simpl; lia).
  assert (∀ a, a < u_brk h → m a = u_mem h a) as Hm by (intros a Ha; apply set_hdr; lia).
  destruct (free_spec base (UHeap m (u_freep h) (u_brk h + w * HDR)) nodes b fuel) as (h' & nodes' & E' & F1 & F2 & F3 & (x & Hx & Hxs) & F5 & F6); try done.
  { destruct H1 as (G1 & G2 & G3 & G4). split_and!; try done. simpl. eapply hseg_ext; [exact G3|]. intros x a Hx Ha. apply Hm.
    assert (covered nodes a) as Hc by (exists x; split; [done|]; unfold inside; pose proof (extent_pos x); lia). by apply H4. }
  { unfold b. simpl. lia. }
  { simpl. by destruct (hdr_set (u_mem h) (u_brk h) 0 0 w ltac:(lia) ltac:(lia)) as (_ & _ & _ & ? & _). }
  { intros a [Hc Hi]. specialize (H4 a Hc). unfold inside in Hi. simpl in Hi. lia. }
  { intros a [Hi|Hc]%covered_cons; [unfold inside in Hi; simpl in Hi; lia|]. specialize (H4 a Hc). lia. }
  change (addr b) with (u_brk h) in E'. rewrite E'. exists h', nodes'. split; [done|].
  split; [destruct F2 as (_ & _ & _ & Hfp)|split; [|split; [done|by exists x; split; [|unfold b in Hxs; simpl in Hxs; lia]]]].
  - apply list_elem_of_fmap in Hfp as (z & -> & Hz). destruct (F5 (addr z)) as (z' & Hz' & Hi); [exists z; split; [done|unfold inside; pose proof (extent_pos z); lia]|].
    apply elem_of_cons in Hz' as [->|Hz']; unfold inside in Hi; [simpl in Hi; lia|].
    destruct (ordered_nodes _ _ _ _ z' H1 Hz') as (? & _). lia.
  - apply (heap_inv_free base h nodes bl); try done; rewrite ?F1; simpl; [lia| |].
    + intros a Ha%F5. rewrite covered_cons in Ha. destruct Ha as [Ha|?]; [|by left]. right. unfold inside in Ha. simpl in Ha. lia.
    + intros a Ha Hc. rewrite F6; [by apply Hm|]. rewrite covered_cons. intros [Hi|?]; [|done]. unfold inside in Hi. simpl in Hi. lia.
Qed.

Lemma length_read_bytes m a n : length (read_bytes m a n) = n.
Proof. unfold read_bytes. rewrite length_map, length_seqZ. lia. Qed.

(** What a call of [malloc] for [nunits] units has done. *)
Definition allocated (bl : list ((Z * Z) * list Z)) (nunits r : Z) (h' : uheap) (nodes' : list (Z * Z)) : Prop :=
  ∃ b, r = addr b + HDR ∧ b.2 = nunits ∧ 0 < addr b ∧
    ∀ n, Z.of_nat n ≤ HDR * (nunits - 1) → heap_inv base h' nodes' (bl ++ [(b, read_bytes (u_mem h') r n)]).

Lemma take_block_inv h nodes bl nunits x q :
  heap_inv base h nodes bl → x ∈ nodes → 1 ≤ nunits ≤ x.2 → q ∈ map addr nodes → hptr (u_mem h) q = addr x →
  ∃ r h' nodes', take_block nunits q (addr x) h = (r, h') ∧ (length nodes' ≤ length nodes)%nat ∧
    allocated bl nunits r h' nodes'.
Proof.
  intros H Hx Hn Hq Hqx. pose proof H as [H1 H2 H3 H4 H5 H6 H7].
  destruct (take_block_spec base h nodes x q nunits H1 H2) as (b & nodes' & h' & E & B1 & B2 & B3 & B4 & B5 & B6 & B7 & B8 & B9); try done.
  { intros a Ha. specialize (H4 a Ha). lia. }
  exists (addr b + HDR), h', nodes'. split; [done|]. split; [done|]. exists b. split_and!; try done; [lia|]. intros n Hnn.
  assert (heap_inv base h' nodes' bl) as H'.
  { apply (heap_inv_free base h nodes bl); try done; [rewrite B4; lia| |].
    - intros a Ha. left. apply B7. rewrite covered_cons. by right.
    - intros a _. apply B9. }
  assert (∀ a, inside b a → covered nodes a) as Hb by (intros a Ha; apply B7; rewrite covered_cons; by left).
  destruct H' as [G1 G2 G3 G4 G5 G6 G7]. split; try done.
  - intros y [Hy|Hy]%elem_of_app; [by apply G5|apply list_elem_of_singleton in Hy as ->]. split_and!; [|done|].
    + unfold block_ok. cbn [fst snd]. rewrite length_read_bytes, B1. split_and!; try done; lia.
    + cbn [fst]. assert (addr b + extent b - 1 < u_brk h'); [|lia]. rewrite B4. apply H4, Hb. unfold inside. pose proof (extent_pos b). lia.
  - intros y a [Hy|Hy]%elem_of_app Ha; [by apply (G6 y)|apply list_elem_of_singleton in Hy as ->]. intros Hc. by apply (B8 a).
  - intros i j y z a Hi Hj Hy Hz. rewrite lookup_snoc_Some in Hi, Hj.
    destruct Hi as [[Hi Hyi]|[-> Hyi]], Hj as [[Hj Hzj]|[-> Hzj]]; [by eapply G7|..|done]; exfalso.
    + subst z. simpl in Hz. by apply (H6 y a); [eapply list_elem_of_lookup_2|..|apply Hb].
    + subst y. simpl in Hy. by apply (H6 z a); [eapply list_elem_of_lookup_2|..|apply Hb].
Qed.

Lemma malloc_loop_spec h nodes bl nunits fuel :
  heap_inv base h nodes bl → 1 ≤ nunits → HDR * Z.max nunits 4096 < 2 ^ 31 → (2 * length nodes + 2 ≤ fuel)%nat →
  ∃ r h' nodes', malloc_loop sbrk fuel nunits (u_freep h) (hptr (u_mem h) (u_freep h)) h = Some (r, h') ∧
    (length nodes' ≤ S (length nodes))%nat ∧
    (r = 0 ∧ heap_inv base h' nodes' bl ∧ (∃ n, sbrk n (u_brk h) = (-1, u_brk h)) ∨
     allocated bl nunits r h' nodes').
Proof.
  intros H Hn Hb Hf. destruct (rotation base (u_mem h) (u_freep h) nodes (hv_free _ _ _ _ H)) as (R & fn & next & R1 & R2 & R3 & R4 & R5 & R6).
  rewrite length_app in R6. simpl in R6. rewrite R5.
  assert (∀ y, y ∈ map addr (R ++ [fn]) → y ∈ map addr nodes) as Hmap.
  { intros y (z & -> & Hz)%list_elem_of_fmap. apply list_elem_of_fmap. exists z. split; [done|]. by apply R2. }
  destruct (malloc_walk sbrk R fn next h nunits (u_freep h) (fuel - length R) R4 R3 R1 R5) as [(x & q & Hx & Hxs & Hq & Hqx & E)|(Hall & E)];
    replace (length R + (fuel - length R))%nat with fuel in E by lia.
  { assert (q ∈ map addr nodes) as Hqn by (destruct Hq as [->|?]; [apply (hv_free _ _ _ _ H)|by apply Hmap]).
    destruct (take_block_inv h nodes bl nunits x q H (proj1 (R2 x) Hx) ltac:(lia) Hqn Hqx) as (r & h' & nodes' & E' & L & A).
    exists r, h', nodes'. rewrite E, E'. split; [done|]. split; [lia|]. by right. }
  rewrite (E (fuel - length R - 1)%nat ltac:(lia)). set (f := (fuel - length R - 1)%nat).
  destruct (morecore_spec h nodes bl nunits f H Hn Hb ltac:(unfold f; lia)) as [[-> Hs]|(h1 & nodes1 & -> & Hp & H1 & L1 & (x1 & Hx1 & Hxs1))].
  { rewrite decide_True by done. exists 0, h, nodes. split; [done|]. split; [lia|]. by left. }
  rewrite decide_False by done.
  destruct (rotation base (u_mem h1) (u_freep h1) nodes1 (hv_free _ _ _ _ H1)) as (S & sn & next1 & S1 & S2 & S3 & S4 & S5 & S6).
  rewrite length_app in S6. simpl in S6. rewrite S5.
  destruct (malloc_walk sbrk S sn next1 h1 nunits (u_freep h1) (f - length S) S4 S3 S1 S5) as [(x & q & Hx & Hxs & Hq & Hqx & E1)|(Hall1 & _)].
  2:{ specialize (Hall1 x1 (proj2 (S2 x1) Hx1)). lia. }
  replace (length S + (f - length S))%nat with f in E1 by (unfold f; lia).
  assert (q ∈ map addr nodes1) as Hqn.
  { destruct Hq as [->|(z & -> & Hz)%list_elem_of_fmap]; [apply (hv_free _ _ _ _ H1)|]. apply list_elem_of_fmap. exists z. split; [done|]. by apply S2. }
  destruct (take_block_inv h1 nodes1 bl nunits x q H1 (proj1 (S2 x) Hx) ltac:(lia) Hqn Hqx) as (r & h' & nodes' & E' & L & A).
  exists r, h', nodes'. rewrite E1, E'. split; [done|]. split; [lia|]. by right.
Qed.

Lemma free_inv h nodes bl i x fuel :
  heap_inv base h nodes bl → bl !! i = Some x → (length nodes ≤ fuel)%nat →
  ∃ h' nodes', free fuel (addr x.1 + HDR) h = Some h' ∧ (length nodes' ≤ S (length nodes))%nat ∧
    heap_inv base h' nodes' (delete i bl).
Proof.
  intros H Hi Hf. pose proof H as [H1 H2 H3 H4 H5 H6 H7]. assert (x ∈ bl) as Hx by (by eapply list_elem_of_lookup_2).
  destruct (H5 x Hx) as ((X1 & X2 & X3 & X4) & X5 & X6).
  destruct (free_spec base h nodes x.1 fuel) as (h' & nodes' & E & F1 & F2 & F3 & _ & F5 & F6); try done.
  { intros a [Hc Hin]. by apply (H6 x a). }
  { intros a [Hin|Hc]%covered_cons; [unfold inside in Hin; lia|]. specialize (H4 a Hc). lia. }
  exists h', nodes'. split; [done|]. split; [done|].
  assert (∀ j y, delete i bl !! j = Some y → y ∈ bl ∧ (∀ a, inside y.1 a → ¬ inside x.1 a) ∧
    bl !! (if decide (j < i)%nat then j else S j) = Some y) as Hdel.
  { intros j y Hj. rewrite list_lookup_delete in Hj. split; [by eapply list_elem_of_lookup_2|]. split; [|done].
    intros a Ha Hb. pose proof (H7 _ _ _ _ a Hj Hi Ha Hb) as Eij. case_decide; lia. }
  split; try done; rewrite ?F1; try done.
  - intros a [Ha|Ha]%F5%covered_cons; [unfold inside in Ha; lia|by apply H4].
  - intros y (j & Hj)%list_elem_of_lookup. destruct (Hdel j y Hj) as (Hy & Hyx & _). destruct (H5 y Hy) as (Y1 & Y2 & Y3).
    split; [|done]. eapply block_ext; [done|]. intros a Ha. apply F6. rewrite covered_cons. intros [?|?]; [by eapply Hyx|by apply (H6 y a)].
  - intros y a (j & Hj)%list_elem_of_lookup Ha Hc. destruct (Hdel j y Hj) as (Hy & Hyx & _).
    apply F5, covered_cons in Hc as [?|?]; [by eapply Hyx|by apply (H6 y a)].
  - intros j j' y y' a Hj Hj' Ha Ha'. destruct (Hdel j y Hj) as (_ & _ & L1), (Hdel j' y' Hj') as (_ & _ & L2).
    pose proof (H7 _ _ _ _ a L1 L2 Ha Ha'). repeat case_decide; lia.
Qed.

(** A program writes to its own block. *)
Lemma write_inv h nodes bl i x off v :
  heap_inv base h nodes bl → bl !! i = Some x → (off < length x.2)%nat →
  heap_inv base (UHeap (store8 (u_mem h) (addr x.1 + HDR + Z.of_nat off) v) (u_freep h) (u_brk h)) nodes
    (<[i := (x.1, <[off := u8 v]> x.2)]> bl).
Proof.
  intros [H1 H2 H3 H4 H5 H6 H7] Hi Hoff. assert (x ∈ bl) as Hx by (by eapply list_elem_of_lookup_2).
  destruct (H5 x Hx) as ((X1 & X2 & X3 & X4) & X5 & X6). set (w := addr x.1 + HDR + Z.of_nat off).
  assert (inside x.1 w) as Hw by (unfold inside, extent, w; lia).
  assert (∀ a, a ≠ w → store8 (u_mem h) w v a = u_mem h a) as Hout by (intros a Ha; unfold store8; by rewrite decide_False).
  assert (∀ j y, <[i := (x.1, <[off := u8 v]> x.2)]> bl !! j = Some y →
    ∃ y', bl !! j = Some y' ∧ y'.1 = y.1 ∧ (j = i ∧ y = (x.1, <[off := u8 v]> x.2) ∨ j ≠ i ∧ y = y')) as Hins.
  { intros j y. destruct (decide (j = i)) as [->|Hne].
    - rewrite list_lookup_insert_eq by (by eapply lookup_lt_Some). intros [= <-]. exists x. split; [done|]. split; [done|]. by left.
    - rewrite list_lookup_insert_ne by done. intros Hj. exists y. split; [done|]. split; [done|]. by right. }
  split; cbn [u_mem u_freep u_brk]; try done.
  - destruct H1 as (G1 & G2 & G3 & G4). split_and!; try done. eapply hseg_ext; [exact G3|]. intros y a Hy Ha. apply Hout. intros ->.
    apply (H6 x w Hx Hw). exists y. split; [done|]. unfold inside. pose proof (extent_pos y). lia.
  - intros y (j & Hj)%list_elem_of_lookup. destruct (Hins j y Hj) as (y' & Hy' & E1 & [[-> ->]|[Hne ->]]).
    + cbn [fst]. split; [|done]. unfold block_ok. cbn [fst snd]. rewrite length_insert.
      destruct (hdr_ext (u_mem h) (store8 (u_mem h) w v) (addr x.1)) as [_ ->]; [intros a Ha; apply Hout; unfold w; lia|].
      split_and!; try done. apply list_eq. intros k. unfold read_bytes. rewrite list_lookup_fmap.
      destruct (decide (k < length x.2)%nat) as [Hk|Hk].
      2:{ rewrite lookup_seqZ_ge by lia. simpl. symmetry. apply lookup_ge_None. rewrite length_insert. lia. }
      rewrite lookup_seqZ_lt by lia. simpl. destruct (decide (k = off)) as [->|Hne].
      * rewrite list_lookup_insert_eq by done. unfold store8. rewrite decide_True by (unfold w; lia). done.
      * rewrite list_lookup_insert_ne by done. rewrite Hout by (unfold w; lia). rewrite <- X4. unfold read_bytes.
        rewrite list_lookup_fmap, lookup_seqZ_lt by lia. done.
    + destruct (H5 y') as (Y1 & Y2 & Y3); [by eapply list_elem_of_lookup_2|]. split; [|done]. eapply block_ext; [done|].
      intros a Ha. apply Hout. intros ->. apply Hne. by eapply (H7 j i).
  - intros y a (j & Hj)%list_elem_of_lookup Ha. destruct (Hins j y Hj) as (y' & Hy' & E1 & _). rewrite <- E1 in Ha.
    apply (H6 y' a); [by eapply list_elem_of_lookup_2|done].
  - intros j j' y z a Hj Hj' Ha Hz. destruct (Hins j y Hj) as (y' & Hy' & E1 & _), (Hins j' z Hj') as (z' & Hz' & E2 & _).
    rewrite <- E1 in Ha. rewrite <- E2 in Hz. by eapply H7.
Qed.
End sbrk.

(** ** Programs *)

Inductive mop := M_malloc (n : Z) | M_free (i : nat) | M_write (i off : nat) (v : Z).

(** A call of a program that has the pointers and contents [live]. *)
Definition mop_run (sbrk : Z → Z → Z * Z) (base : Z) (fuel : nat) (op : mop) (st : uheap * list (Z * list Z)) :
    option (uheap * list (Z * list Z)) :=
  let '(h, live) := st in
  match op with
  | M_malloc n =>
      match malloc sbrk base fuel n h with
      | None => None
      | Some (r, h') => Some (h', if decide (r = 0) then live else live ++ [(r, read_bytes (u_mem h') r (Z.to_nat n))])
      end
  | M_free i =>
      match live !! i with
      | None => Some st
      | Some (p, _) => match free fuel p h with None => None | Some h' => Some (h', delete i live) end
      end
  | M_write i off v =>
      match live !! i with
      | None => Some st
      | Some (p, bs) =>
          if decide (off < length bs)%nat
          then Some (UHeap (store8 (u_mem h) (p + Z.of_nat off) v) (u_freep h) (u_brk h), <[i := (p, <[off := u8 v]> bs)]> live)
          else Some st
      end
  end.

Fixpoint mops_run (sbrk : Z → Z → Z * Z) (base : Z) (fuel : nat) (ops : list mop) (st : uheap * list (Z * list Z)) :
    option (uheap * list (Z * list Z)) :=
  match ops with
  | [] => Some st
  | op :: ops' => match mop_run sbrk base fuel op st with Some st' => mops_run sbrk base fuel ops' st' | None => None end
  end.

(** Sizes for which neither the number of units nor the argument of sbrk overflows. *)
Definition size_ok (op : mop) : Prop := match op with M_malloc n => 0 ≤ n < 2 ^ 31 - 16 | _ => True end.

Section trace.
Context (sbrk : Z → Z → Z * Z) (base : Z).
Hypothesis sbrk_ok : ∀ n brk, 0 ≤ n → sbrk n brk = (-1, brk) ∨ sbrk n brk = (brk, brk + n) ∧ brk + n ≤ 2 ^ 31.

(** Before the first call, or with the invariant and at most [k] free blocks. *)
Definition state_ok (k : nat) (st : uheap * list (Z * list Z)) : Prop :=
  (u_freep st.1 = 0 ∧ st.2 = [] ∧ 0 < base ∧ base + HDR ≤ u_brk st.1 ≤ 2 ^ 31 ∧ (1 ≤ k)%nat) ∨
  ∃ nodes bl, heap_inv base st.1 nodes bl ∧ (length nodes ≤ k)%nat ∧ st.2 = map (λ x, (addr x.1 + HDR, x.2)) bl.

Lemma malloc_units n : 0 ≤ n < 2 ^ 31 - 16 →
  u32 (u32 (n + HDR - 1) / HDR + 1) = (n + 7) / 8 + 1 ∧ HDR * Z.max ((n + 7) / 8 + 1) 4096 < 2 ^ 31 ∧ n ≤ HDR * ((n + 7) / 8 + 1 - 1).
Proof.
  intros Hn. rewrite (u32_small (n + HDR - 1)) by lia. replace (n + HDR - 1) with (n + 7) by lia.
  rewrite u32_small by zlia. split_and!; [done|zlia|zlia].
Qed.

Lemma malloc_spec h nodes bl n fuel :
  heap_inv base h nodes bl → 0 ≤ n < 2 ^ 31 - 16 → (2 * length nodes + 2 ≤ fuel)%nat →
  ∃ r h' nodes' bl', malloc sbrk base fuel n h = Some (r, h') ∧ heap_inv base h' nodes' bl' ∧ (length nodes' ≤ S (length nodes))%nat ∧
    (r = 0 ∧ bl' = bl ∧ (∃ c, sbrk c (u_brk h) = (-1, u_brk h)) ∨
     r ≠ 0 ∧ ∃ b, r = addr b + HDR ∧ bl' = bl ++ [(b, read_bytes (u_mem h') r (Z.to_nat n))]).
Proof.
  intros H Hn Hf. destruct (malloc_units n Hn) as (Eu & U1 & U2). unfold malloc. rewrite Eu.
  assert (u_freep h ≠ 0) as Hfp.
  { pose proof (hv_base _ _ _ _ H). destruct (hv_free _ _ _ _ H) as (_ & _ & _ & (z & -> & Hz)%list_elem_of_fmap).
    destruct (ordered_nodes _ _ _ _ z (hv_free _ _ _ _ H) Hz). lia. }
  rewrite decide_False by done.
  destruct (malloc_loop_spec sbrk base sbrk_ok h nodes bl ((n + 7) / 8 + 1) fuel H ltac:(zlia) U1 Hf)
    as (r & h' & nodes' & E & L & [(-> & H' & Hs)|(b & -> & Hb & Hpos & H')]).
  - exists 0, h', nodes', bl. split; [done|]. split; [done|]. split; [done|]. by left.
  - exists (addr b + HDR), h', nodes', (bl ++ [(b, read_bytes (u_mem h') (addr b + HDR) (Z.to_nat n))]).
    split; [done|]. split; [apply H'; lia|]. split; [done|]. right. split; [lia|]. by exists b.
Qed.

(** The first call makes [base] the only free block. *)
Lemma malloc_first n fuel h :
  u_freep h = 0 → 0 < base → base + HDR ≤ u_brk h ≤ 2 ^ 31 →
  let h1 := UHeap (set_size (set_ptr (u_mem h) base base) base 0) base (u_brk h) in
  malloc sbrk base fuel n h = malloc sbrk base fuel n h1 ∧ heap_inv base h1 [(base, 0)] [].
Proof.
  intros Hf Hb Hbr h1. split; [unfold malloc, h1; cbn [u_freep]; rewrite Hf, decide_True, decide_False by (done || lia); done|].
  destruct (hdr_set (u_mem h) base base base 0 ltac:(lia) ltac:(lia)) as (E1 & _).
  destruct (hdr_set (set_ptr (u_mem h) base base) base base 0 0 ltac:(lia) ltac:(lia)) as (_ & _ & E2 & E3 & _).
  split; try done; try (unfold h1; cbn [u_brk]; lia).
  - split_and!; [by exists []|by split| |simpl; left]. simpl. change (addr (base, 0)) with base. rewrite E2, E1, E3. done.
  - intros a (x & Hx & Hi). apply list_elem_of_singleton in Hx as ->. unfold inside, extent in Hi. simpl in Hi. simpl. lia.
  - intros x Hx. set_solver.
  - intros x a Hx. set_solver.
Qed.

Lemma mop_ok k op st fuel :
  state_ok k st → size_ok op → (2 * k + 2 ≤ fuel)%nat →
  ∃ st', mop_run sbrk base fuel op st = Some st' ∧ state_ok (S k) st'.
Proof.
  assert (∀ k h bl nodes n, heap_inv base h nodes bl → (length nodes ≤ k)%nat → 0 ≤ n < 2 ^ 31 - 16 → (2 * k + 2 ≤ fuel)%nat →
    ∃ st', mop_run sbrk base fuel (M_malloc n) (h, map (λ x, (addr x.1 + HDR, x.2)) bl) = Some st' ∧ state_ok (S k) st') as Hmalloc.
  { clear k st. intros k h bl nodes n H Hk Hn Hf.
    destruct (malloc_spec h nodes bl n fuel H Hn ltac:(lia)) as (r & h' & nodes' & bl' & E & H' & L & Hr).
    unfold mop_run. rewrite E. eexists. split; [done|]. right. exists nodes', bl'. split; [done|]. split; [lia|]. cbn [snd].
    destruct Hr as [(-> & -> & _)|(Hr & b & -> & ->)]; [by rewrite decide_True|]. rewrite decide_False by done. by rewrite map_app. }
  destruct st as [h live]. intros [(Hf0 & El & Hb & Hbr & Hk)|(nodes & bl & H & Hk & El)] Hop Hf; cbn [fst snd] in *; subst live.
  - destruct op as [n|i|i off v].
    + destruct (malloc_first n fuel h Hf0 Hb Hbr) as [E1 H1]. destruct (Hmalloc k _ [] [(base, 0)] n H1 ltac:(simpl; lia) Hop Hf) as (st' & E & Hst).
      exists st'. split; [|done]. unfold mop_run in *. by rewrite E1.
    + exists (h, []). split; [done|]. left. cbn [fst snd]. split_and!; try done; lia.
    + exists (h, []). split; [done|]. left. cbn [fst snd]. split_and!; try done; lia.
  - destruct op as [n|i|i off v]; [by eapply Hmalloc|..]; unfold mop_run; rewrite list_lookup_fmap;
      (destruct (bl !! i) as [x|] eqn:Ei; simpl; [|eexists; split; [done|]; right; exists nodes, bl; split; [done|]; split; [lia|done]]).
    + destruct (free_inv base h nodes bl i x fuel H Ei ltac:(lia)) as (h' & nodes' & -> & L & H'). eexists. split; [done|].
      right. exists nodes', (delete i bl). split; [done|]. split; [lia|]. cbn [snd]. by rewrite list_fmap_delete.
    + case_decide as Ho; [|eexists; split; [done|]; right; exists nodes, bl; split; [done|]; split; [lia|done]].
      pose proof (write_inv base h nodes bl i x off v H Ei Ho) as H'. eexists. split; [done|]. right. eexists nodes, _.
      split; [exact H'|]. split; [lia|]. cbn [snd]. by rewrite list_fmap_insert.
Qed.

Lemma mops_ok k ops st fuel :
  state_ok k st → Forall size_ok ops → (2 * (k + length ops) + 2 ≤ fuel)%nat →
  ∃ st', mops_run sbrk base fuel ops st = Some st' ∧ state_ok (k + length ops) st'.
Proof.
  revert k st. induction ops as [|op ops IH]; intros k st Hst Hops Hf; cbn [mops_run length] in *.
  { exists st. split; [done|]. by rewrite Nat.add_0_r. }
  apply Forall_cons in Hops as [Hop Hops]. destruct (mop_ok k op st fuel Hst Hop ltac:(lia)) as (st1 & -> & H1).
  destruct (IH (S k) st1 H1 Hops ltac:(lia)) as (st' & E & H'). exists st'. split; [done|]. by replace (k + S (length ops))%nat with (S k + length ops)%nat by lia.
Qed.
End trace.


(** A system call that fails beyond a megabyte, and a program. *)
Definition demo_sbrk (n brk : Z) : Z * Z := if decide (brk + n ≤ 0x100000) then (brk, brk + n) else (-1, brk).
Definition demo_ops : list mop := [M_malloc 100; M_malloc 3000; M_write 0 7 65; M_free 1; M_malloc 40; M_free 0].


(** Outside these sizes the arithmetic wraps: a request for nearly all of memory is
    served with a block without any room, and one for two gigabytes asks sbrk for a
    negative count. *)
Example malloc_wraps : u32 (u32 (2 ^ 32 - 1 + HDR - 1) / HDR + 1) = 1 ∧ i32 (u32 (u32 (2 ^ 31 - 1 + HDR - 1) / HDR + 1) * HDR) < 0.
Proof. split; vm_compute; reflexivity. Qed.
