(* ===== verification/Sh.v ===== *)
(** The shell (sh.c).

    A command line is the list of its characters, [n] of them, without the
    terminating zero; the pointer [*ps] of the source is the state of the parser
    monad, as the characters that are left.  The commands keep their strings the
    way the source does, as a pair of pointers (here: offsets) to the first
    character and past the last one; [nulterminate] writes the zeros.  [runcmd]
    works on the table of file descriptors and gives the tree of processes it
    starts, for any outcome of the system calls; [sh_main] cuts the input into
    commands.

    Theorems: the parser ends on every line, with a command or one of its
    panics, and after [nulterminate] the strings of the command are the words of
    the line; a printed command reads back as itself, whatever it is made of; a
    pipeline connects its programs and leaves no end of a pipe behind. *)
From stdpp Require Import base list numbers strings.
From S2P Require Import Prelude Strings.
#[local] Open Scope Z_scope.

Notation MAXARGS := 10%nat.
Notation O_RDONLY := 0.
Notation O_WRONLY_CREATE := 513.

(** The characters of the grammar. *)
Notation PIPE := 124.
Notation LPAREN := 40.
Notation RPAREN := 41.
Notation SEMI := 59.
Notation AMP := 38.
Notation LESS := 60.
Notation GREATER := 62.
Notation APPEND := 43.
Notation WORD := 97.

(** ** Commands *)

(** The structs of the source, over the type of their strings. *)
Inductive cmd (T : Type) : Type :=
| Execcmd (argv : list T)
| Redircmd (c : cmd T) (file : T) (mode fd : Z)
| Pipecmd (left right : cmd T)
| Listcmd (left right : cmd T)
| Backcmd (c : cmd T).
Arguments Execcmd {_}.
Arguments Redircmd {_}.
Arguments Pipecmd {_}.
Arguments Listcmd {_}.
Arguments Backcmd {_}.

(** ** Tokens *)

Definition whitespace : list Z := [32; 9; 13; 10; 11].
Definition symbols : list Z := [LESS; PIPE; GREATER; AMP; SEMI; LPAREN; RPAREN].

Definition isws (c : Z) : bool := bool_decide (c ∈ whitespace).
Definition issym (c : Z) : bool := bool_decide (c ∈ symbols).

Fixpoint skip_ws (s : list Z) : list Z :=
  match s with
  | c :: s' => if isws c then skip_ws s' else s
  | [] => []
  end.

Fixpoint skip_word (s : list Z) : list Z :=
  match s with
  | c :: s' => if isws c || issym c then s else skip_word s'
  | [] => []
  end.

(** The type of the token at the head of the line, and the characters behind it. *)
Definition token (s : list Z) : Z * list Z :=
  match s with
  | [] => (0, [])
  | c :: s' =>
      if bool_decide (c ∈ [PIPE; LPAREN; RPAREN; SEMI; AMP; LESS]) then (c, s')
      else if bool_decide (c = GREATER) then
        match s' with
        | d :: s'' => if bool_decide (d = GREATER) then (APPEND, s'') else (GREATER, s')
        | [] => (GREATER, s')
        end
      else (WORD, skip_word s)
  end.

(** A string of the line: the offsets of [q] and [eq]. *)
Notation str := (nat * nat)%type.

Notation P A := (M (list Z) A).

Section parser.
(** The length of the line: the offset of [es]. *)
Variable n : nat.

Definition pos (s : list Z) : nat := n - length s.

Definition gettoken : P (Z * str) := λ s,
  let s := skip_ws s in
  let q := pos s in
  let '(ret, s) := token s in
  let eq := pos s in
  (Ok (ret, (q, eq)), skip_ws s).

Definition peek (toks : list Z) : P bool := λ s,
  let s := skip_ws s in
  (Ok (match s with c :: _ => bool_decide (c ∈ toks) | [] => false end), s).

(** ** The parser *)

(** What [redircmd] adds around a command: file, mode, fd. *)
Notation redir := (str * Z * Z)%type.

Definition redircmd {T} (c : cmd T) (r : T * Z * Z) : cmd T := Redircmd c r.1.1 r.1.2 r.2.

Definition execcmd : cmd str := Execcmd [].
Definition pipecmd (left right : cmd str) : cmd str := Pipecmd left right.
Definition listcmd (left right : cmd str) : cmd str := Listcmd left right.
Definition backcmd (c : cmd str) : cmd str := Backcmd c.

(** The arguments that [parseexec] fills in. *)
Definition set_argv (c : cmd str) (argv : list str) : cmd str :=
  match c with Execcmd _ => Execcmd argv | _ => c end.

(** The redirections are collected in order: [parseexec] goes on to fill in the
    arguments of the command it has already wrapped. *)
Fixpoint parseredirs (fuel : nat) : P (list redir) :=
  match fuel with
  | O => stopped Spin
  | S f =>
      b ← peek [LESS; GREATER];
      if (b : bool) then
        t ← gettoken;
        w ← gettoken;
        if bool_decide (w.1 ≠ WORD) then panic "missing file for redirection"
        else
          let rs := if bool_decide (t.1 = LESS) then [(w.2, O_RDONLY, 0)]
                    else if bool_decide (t.1 = GREATER) then [(w.2, O_WRONLY_CREATE, 1)]
                    else if bool_decide (t.1 = APPEND) then [(w.2, O_WRONLY_CREATE, 1)]
                    else [] in
          rest ← parseredirs f;
          mret (rs ++ rest)
      else mret []
  end.

Fixpoint parseargs (fuel : nat) (argv : list str) (rs : list redir) : P (list str * list redir) :=
  match fuel with
  | O => stopped Spin
  | S f =>
      b ← peek [PIPE; RPAREN; AMP; SEMI];
      if (b : bool) then mret (argv, rs)
      else
        t ← gettoken;
        if bool_decide (t.1 = 0) then mret (argv, rs)
        else if bool_decide (t.1 ≠ WORD) then panic "syntax"
        else
          let argv := argv ++ [t.2] in
          if bool_decide (MAXARGS ≤ length argv)%nat then panic "too many args"
          else
            rs' ← parseredirs f;
            parseargs f argv (rs ++ rs')
  end.

Fixpoint parseback (fuel : nat) (c : cmd str) : P (cmd str) :=
  match fuel with
  | O => stopped Spin
  | S f =>
      b ← peek [AMP];
      if (b : bool) then gettoken;; parseback f (backcmd c) else mret c
  end.

Fixpoint parseline (fuel : nat) : P (cmd str) :=
  match fuel with
  | O => stopped Spin
  | S f =>
      c ← parsepipe f;
      c ← parseback f c;
      b ← peek [SEMI];
      if (b : bool) then gettoken;; (r ← parseline f; mret (listcmd c r)) else mret c
  end
with parsepipe (fuel : nat) : P (cmd str) :=
  match fuel with
  | O => stopped Spin
  | S f =>
      c ← parseexec f;
      b ← peek [PIPE];
      if (b : bool) then gettoken;; (r ← parsepipe f; mret (pipecmd c r)) else mret c
  end
with parseexec (fuel : nat) : P (cmd str) :=
  match fuel with
  | O => stopped Spin
  | S f =>
      b ← peek [LPAREN];
      if (b : bool) then parseblock f
      else
        rs ← parseredirs f;
        a ← parseargs f [] rs;
        mret (foldl redircmd (set_argv execcmd a.1) a.2)
  end
with parseblock (fuel : nat) : P (cmd str) :=
  match fuel with
  | O => stopped Spin
  | S f =>
      b ← peek [LPAREN];
      if (b : bool) then
        gettoken;;
        (c ← parseline f;
         b ← peek [RPAREN];
         if (b : bool) then gettoken;; (rs ← parseredirs f; mret (foldl redircmd c rs))
         else panic "syntax - missing )")
      else panic "parseblock"
  end.

(** Zeros at the ends of the strings, in the line's buffer. *)
Fixpoint nulterminate (c : cmd str) (buf : list Z) : list Z :=
  match c with
  | Execcmd argv => foldl (λ b t, <[t.2 := 0]> b) buf argv
  | Redircmd c file _ _ => <[file.2 := 0]> (nulterminate c buf)
  | Pipecmd l r => nulterminate r (nulterminate l buf)
  | Listcmd l r => nulterminate r (nulterminate l buf)
  | Backcmd c => nulterminate c buf
  end.
End parser.

(** Fuel for a line of [n] characters: a call of [parseline] needs at most four nested
    calls for each opening parenthesis. *)
Definition line_fuel (n : nat) : nat := 4 * n + 4.

(** The characters before the first zero. *)
Fixpoint text (buf : list Z) : list Z :=
  match buf with
  | c :: b => if bool_decide (c = 0) then [] else c :: text b
  | [] => []
  end.

(** [parsecmd] on the line in [buf]: the command, and the buffer with the zeros. *)
Definition parsecmd (buf : list Z) : result (cmd str * list Z) :=
  let line := text buf in
  let n := length line in
  match parseline n (line_fuel n) line with
  | (Ok c, s) =>
      if bool_decide (skip_ws s = []) then Ok (c, nulterminate c buf)
      else Stop (Panicked "syntax")
  | (Stop e, _) => Stop e
  end.

(** ** The parser ends *)

(** The strings of a command. *)
Fixpoint strs {T} (c : cmd T) : list T :=
  match c with
  | Execcmd argv => argv
  | Redircmd c f _ _ => strs c ++ [f]
  | Pipecmd l r | Listcmd l r => strs l ++ strs r
  | Backcmd c => strs c
  end.

(** The arguments leave room for the null pointer that ends [argv]. *)
Fixpoint fits {T} (c : cmd T) : Prop :=
  match c with
  | Execcmd argv => (length argv < MAXARGS)%nat
  | Redircmd c _ _ _ | Backcmd c => fits c
  | Pipecmd l r | Listcmd l r => fits l ∧ fits r
  end.

(** A run of a parser that ends in a panic or in a value and state in [Q]. *)
Definition ends {A} (x : result A * list Z) (Q : A → list Z → Prop) : Prop :=
  match x with
  | (Ok a, s) => Q a s
  | (Stop (Panicked _), _) => True
  | (Stop _, _) => False
  end.
Arguments ends : simpl never.

Lemma ends_bind {A B} (m : P A) (f : A → P B) s Q R :
  ends (m s) Q → (∀ a s', Q a s' → ends (f a s') R) → ends ((m ≫= f) s) R.
Proof. unfold ends, mbind, M_bind. destruct (m s) as [[a|[]] s']; try done. intros HQ Hf. by apply Hf. Qed.

Lemma ends_mono {A} (x : result A * list Z) (Q R : A → list Z → Prop) :
  ends x Q → (∀ a s, Q a s → R a s) → ends x R.
Proof. unfold ends. destruct x as [[a|[]] s]; auto. Qed.

(** A character of a word. *)
Definition plain (c : Z) : Prop := isws c = false ∧ issym c = false.

(** The character, if any, ends a word. *)
Definition breaks (s : list Z) : Prop := match s with c :: _ => ¬ plain c | [] => True end.

(** The string is one of the words of the line. *)
Definition word_at (line : list Z) (t : str) : Prop :=
  ∃ pre w post, line = pre ++ w ++ post ∧ t = (length pre, length pre + length w)%nat ∧
    w ≠ [] ∧ Forall plain w ∧ breaks post.

Lemma skip_ws_suffix s : skip_ws s `suffix_of` s.
Proof. induction s as [|c s IH]; simpl; [done|]. case_match; [by apply suffix_cons_r|done]. Qed.

Lemma skip_ws_head s c s' : skip_ws s = c :: s' → isws c = false.
Proof. induction s as [|d s IH]; simpl; [done|]. case_match; naive_solver. Qed.

Lemma skip_ws_id c s : isws c = false → skip_ws (c :: s) = c :: s.
Proof. simpl. by intros ->. Qed.

Lemma skip_ws_idem s : skip_ws (skip_ws s) = skip_ws s.
Proof. induction s as [|c s IH]; simpl; [done|]. case_match eqn:E; [done|]. simpl. by rewrite E. Qed.

Lemma skip_word_spec s : ∃ w, s = w ++ skip_word s ∧ Forall plain w ∧ breaks (skip_word s).
Proof.
  induction s as [|c s (w & Hs & Hw & Hb)]; simpl; [by exists []|].
  destruct (isws c || issym c) eqn:E.
  - exists []. split_and!; [done|done|]. simpl. intros [H1 H2]. by rewrite H1, H2 in E.
  - apply orb_false_elim in E as [E1 E2]. exists (c :: w). split_and!; [by rewrite Hs at 1|by constructor|done].
Qed.

Lemma issym_other c :
  bool_decide (c ∈ [PIPE; LPAREN; RPAREN; SEMI; AMP; LESS]) = false → bool_decide (c = GREATER) = false → issym c = false.
Proof. intros H1%bool_decide_eq_false H2%bool_decide_eq_false. apply bool_decide_eq_false. unfold symbols. set_solver. Qed.

(** A token takes at least one character; a word takes all its characters. *)
Lemma token_spec c s :
  isws c = false →
  (token (c :: s)).2 `suffix_of` s ∧
  ((token (c :: s)).1 = WORD → ∃ w, c :: s = w ++ (token (c :: s)).2 ∧ w ≠ [] ∧ Forall plain w ∧ breaks (token (c :: s)).2).
Proof.
  intros Hc. cbn [token].
  destruct (bool_decide (c ∈ _)) eqn:E1; cbn [fst snd].
  { split; [done|]. intros ->. by vm_compute in E1. }
  destruct (bool_decide (c = GREATER)) eqn:E2.
  { destruct s as [|d s]; [done|]. case_match; simpl; (split; [|done]); [by apply suffix_cons_r|done]. }
  pose proof (issym_other _ E1 E2) as E3. cbn [fst snd skip_word]. rewrite Hc, E3. cbn [orb].
  destruct (skip_word_spec s) as (w & Hs & Hw & Hb). split; [by exists w|].
  intros _. exists (c :: w). split_and!; [by rewrite Hs at 1|done|by constructor|done].
Qed.

Lemma token_nil : token [] = (0, []).
Proof. done. Qed.

Lemma suffix_tr (a b c : list Z) : a `suffix_of` b → b `suffix_of` c → a `suffix_of` c.
Proof. by intros ? ?; etrans. Qed.

(** One rest of the line is a rest of another. *)
Ltac suf := solve [eauto 7 using suffix_tr].

(** The rule for the next step of a parser. *)
Ltac step lem := eapply ends_bind; [apply lem|cbn beta].

Section ends.
Variable line : list Z.
#[local] Notation n := (length line).

Lemma pos_suffix pre s : line = pre ++ s → pos n s = length pre.
Proof. intros ->. unfold pos. rewrite length_app. lia. Qed.

(** What a parser may return from the characters [s]: a rest of them, and words. *)
Definition within {A} (ok : A → Prop) (s : list Z) (a : A) (s' : list Z) : Prop := s' `suffix_of` s ∧ ok a.

Lemma peek_spec toks s :
  ends (peek toks s) (λ b s', s' `suffix_of` s ∧ (b = true → ∃ c r, s' = c :: r ∧ c ∈ toks ∧ isws c = false)).
Proof.
  unfold ends, peek. simpl. split; [apply skip_ws_suffix|].
  destruct (skip_ws s) as [|c r] eqn:E; [done|]. intros ?%bool_decide_eq_true. exists c, r.
  split_and!; [done|done|]. by eapply skip_ws_head.
Qed.

Lemma gettoken_spec s :
  s `suffix_of` line →
  ends (gettoken n s) (λ t s', s' `suffix_of` s ∧ (t.1 = WORD → word_at line t.2) ∧
    (t.1 ≠ 0 → (length s' < length s)%nat) ∧
    (∀ c r, s = c :: r → isws c = false → (length s' < length s)%nat)).
Proof.
  intros [pre Hl]. unfold ends, gettoken. destruct (skip_ws_suffix s) as [sp Hsp].
  destruct (token (skip_ws s)) as [ret s1] eqn:E. cbn [fst snd].
  destruct (skip_ws s) as [|c r] eqn:Es.
  { rewrite token_nil in E. simplify_eq. split_and!; [by apply suffix_nil|done|done|].
    intros c r Ec Hc. rewrite Ec in Es. by rewrite (skip_ws_id _ _ Hc) in Es. }
  destruct (token_spec c r) as [Hsuf Hw]; [by eapply skip_ws_head|]. rewrite E in Hsuf, Hw. cbn [fst snd] in *.
  assert (length (skip_ws s1) < length s)%nat.
  { apply suffix_length in Hsuf. pose proof (suffix_length _ _ (skip_ws_suffix s1)). rewrite Hsp, length_app. simpl. lia. }
  split_and!; [|intros Hr|done|done].
  - etrans; [apply skip_ws_suffix|]. etrans; [exact Hsuf|]. exists (sp ++ [c]). by rewrite <- app_assoc.
  - destruct (Hw Hr) as (w & Hcr & Hne & Hp & Hb). exists (pre ++ sp), w, s1.
    split_and!; [by rewrite Hl, Hsp, Hcr, <- app_assoc| |done|done|done].
    rewrite (pos_suffix (pre ++ sp)) by (by rewrite Hl, Hsp, <- app_assoc).
    rewrite (pos_suffix (pre ++ sp ++ w)) by (by rewrite Hl, Hsp, Hcr, <- !app_assoc).
    by rewrite !length_app, !Nat.add_assoc.
Qed.

Definition rstrs (rs : list (str * Z * Z)) : list str := (λ r, r.1.1) <$> rs.

Definition redirs_ok (rs : list (str * Z * Z)) : Prop := Forall (word_at line) (rstrs rs).

Lemma parseredirs_ends f s :
  s `suffix_of` line → (length s < f)%nat → ends (parseredirs n f s) (within redirs_ok s).
Proof.
  revert s. induction f as [|f IH]; intros s Hs Hf; [lia|]. cbn [parseredirs].
  step peek_spec. intros b s1 (H1 & Hb). pose proof (suffix_length _ _ H1). destruct b; [|split; [done|by apply Forall_nil]].
  destruct (Hb eq_refl) as (c & r & Hs1 & _ & Hc). assert (H1' : s1 `suffix_of` line) by (by etrans).
  step gettoken_spec; [done|]. intros t s2 (H2 & _ & _ & Hlt). specialize (Hlt _ _ Hs1 Hc).
  assert (H2' : s2 `suffix_of` line) by (by etrans).
  step gettoken_spec; [done|]. intros w s3 (H3 & Hw & _ & _). pose proof (suffix_length _ _ H3).
  case_bool_decide as Ew; [done|].
  step IH; [by etrans|lia|]. intros rs s4 (H4 & Hrs).
  split; [suf|].
  unfold redirs_ok, rstrs in *. rewrite fmap_app. apply Forall_app. split; [|done].
  repeat case_bool_decide; repeat constructor; by apply Hw.
Qed.

Definition astrs (a : list str * list (str * Z * Z)) : list str := a.1 ++ rstrs a.2.

Definition args_ok (a : list str * list (str * Z * Z)) : Prop :=
  Forall (word_at line) (astrs a) ∧ (length a.1 < MAXARGS)%nat.

Lemma parseargs_ends f argv rs s :
  s `suffix_of` line → (length s < f)%nat → args_ok (argv, rs) →
  ends (parseargs n f argv rs s) (within args_ok s).
Proof.
  revert argv rs s. induction f as [|f IH]; intros argv rs s Hs Hf Hw; [lia|]. cbn [parseargs].
  step peek_spec. intros b s1 (H1 & _). pose proof (suffix_length _ _ H1). destruct b; [by split|].
  assert (H1' : s1 `suffix_of` line) by (by etrans).
  step gettoken_spec; [done|]. intros t s2 (H2 & Ht & Hlt & _).
  case_bool_decide as E0; [split; [by etrans|done]|]. specialize (Hlt E0).
  case_bool_decide as Ew; [done|]. case_bool_decide as Em; [done|].
  assert (H2' : s2 `suffix_of` line) by (by etrans).
  step parseredirs_ends; [done|lia|]. intros rs' s3 (H3 & Hrs). pose proof (suffix_length _ _ H3).
  eapply ends_mono; [apply IH; [by etrans|lia|]|].
  - destruct Hw as [Hw _]. unfold args_ok, redirs_ok, astrs, rstrs in *. cbn [fst snd] in *.
    rewrite fmap_app. rewrite !Forall_app in *. split; [naive_solver|lia].
  - intros a s4 (H4 & Ha). split; [|done]. suf.
Qed.

Definition cmd_ok (c : cmd str) : Prop := Forall (word_at line) (strs c) ∧ fits c.

Lemma parseback_ends f c s :
  s `suffix_of` line → (length s < f)%nat → cmd_ok c → ends (parseback n f c s) (within cmd_ok s).
Proof.
  revert c s. induction f as [|f IH]; intros c s Hs Hf Hc; [lia|]. cbn [parseback].
  step peek_spec. intros b s1 (H1 & Hb). pose proof (suffix_length _ _ H1). destruct b; [|by split].
  destruct (Hb eq_refl) as (d & r & Hs1 & _ & Hd). assert (H1' : s1 `suffix_of` line) by (by etrans).
  step gettoken_spec; [done|]. intros t s2 (H2 & _ & _ & Hlt). specialize (Hlt _ _ Hs1 Hd).
  eapply ends_mono; [apply IH; [by etrans|lia|done]|].
  intros a s3 (H3 & Ha). split; [|done]. suf.
Qed.

Lemma strs_redirs (c : cmd str) rs : strs (foldl redircmd c rs) = strs c ++ rstrs rs.
Proof.
  revert c. induction rs as [|r rs IH]; intros c; simpl; [by rewrite app_nil_r|].
  rewrite IH. simpl. by rewrite <- app_assoc.
Qed.

Lemma fits_redirs (c : cmd str) rs : fits (foldl redircmd c rs) ↔ fits c.
Proof. revert c. induction rs as [|r rs IH]; intros c; simpl; [done|]. by rewrite IH. Qed.

Lemma cmd_ok_redirs c rs : cmd_ok c → redirs_ok rs → cmd_ok (foldl redircmd c rs).
Proof. intros [Hc Hf] Hrs. split; [rewrite strs_redirs; by apply Forall_app|by apply fits_redirs]. Qed.

Lemma cmd_ok_pair l r : cmd_ok l → cmd_ok r → cmd_ok (Pipecmd l r) ∧ cmd_ok (Listcmd l r).
Proof. intros [??] [??]. repeat split; simpl; try done; by apply Forall_app. Qed.

(** The four routines on the [len] last characters of the line. *)
Definition parse_ok (len : nat) : Prop :=
  ∀ s f, s `suffix_of` line → (length s ≤ len)%nat →
    ((4 * len + 4 ≤ f)%nat → ends (parseline n f s) (within cmd_ok s)) ∧
    ((4 * len + 3 ≤ f)%nat → ends (parsepipe n f s) (within cmd_ok s)) ∧
    ((4 * len + 2 ≤ f)%nat → ends (parseexec n f s) (within cmd_ok s)) ∧
    ((4 * len + 1 ≤ f)%nat → ends (parseblock n f s) (within cmd_ok s)).

(** The four routines on fewer characters. *)
Definition parse_below (len : nat) : Prop := ∀ len', (len' < len)%nat → parse_ok len'.

Section below.
Variable len : nat.
Hypothesis IH : parse_below len.

Lemma shorter s s' f :
  s `suffix_of` line → (length s ≤ len)%nat → s' `suffix_of` s → (length s' < length s)%nat →
  ((4 * len ≤ f)%nat → ends (parseline n f s') (within cmd_ok s')) ∧
  ((4 * len ≤ f)%nat → ends (parsepipe n f s') (within cmd_ok s')).
Proof.
  intros Hs Hl Hsuf Hlt. destruct (IH (len - 1)%nat ltac:(lia) s' f ltac:(suf) ltac:(lia)) as (Hline & Hpipe & _).
  split; intros Hf; [apply Hline|apply Hpipe]; lia.
Qed.

Lemma parseblock_ends s f :
  s `suffix_of` line → (length s ≤ len)%nat → (4 * len + 1 ≤ f)%nat → ends (parseblock n f s) (within cmd_ok s).
Proof.
  intros Hs Hl Hf. destruct f as [|f]; [lia|]. cbn [parseblock].
  step peek_spec. intros b s1 (H1 & Hb). destruct b; [|done].
  destruct (Hb eq_refl) as (c & r & Hs1 & _ & Hc). assert (H1' : s1 `suffix_of` line) by suf.
  step gettoken_spec; [done|]. intros t s2 (H2 & _ & _ & Hlt). specialize (Hlt _ _ Hs1 Hc).
  pose proof (suffix_length _ _ H1).
  step (shorter s s2 f); [done|done|suf|lia|lia|]. intros x s3 (H3 & Hx).
  step peek_spec. intros b s4 (H4 & _). destruct b; [|done]. assert (H4' : s4 `suffix_of` line) by suf.
  step gettoken_spec; [done|]. intros t' s5 (H5 & _). assert (H5' : s5 `suffix_of` line) by suf.
  assert (length s5 ≤ length s2)%nat by (apply suffix_length; suf).
  step parseredirs_ends; [done|lia|]. intros rs s6 (H6 & Hrs). split; [suf|].
  by apply cmd_ok_redirs.
Qed.

Lemma parseexec_ends s f :
  s `suffix_of` line → (length s ≤ len)%nat → (4 * len + 2 ≤ f)%nat → ends (parseexec n f s) (within cmd_ok s).
Proof.
  intros Hs Hl Hf. destruct f as [|f]; [lia|]. cbn [parseexec].
  step peek_spec. intros b s1 (H1 & _). pose proof (suffix_length _ _ H1).
  assert (H1' : s1 `suffix_of` line) by suf. destruct b.
  - eapply ends_mono; [apply parseblock_ends; [done|lia|lia]|]. intros c s2 (H2 & Hc). split; [suf|done].
  - step parseredirs_ends; [done|lia|]. intros rs s2 (H2 & Hrs). assert (H2' : s2 `suffix_of` line) by suf.
    pose proof (suffix_length _ _ H2).
    step parseargs_ends; [done|lia|split; [done|simpl; lia]|]. intros a s3 (H3 & Ha & Hn). split; [suf|].
    apply Forall_app in Ha as [Ha Hr]. by apply cmd_ok_redirs.
Qed.

Lemma parsepipe_ends s f :
  s `suffix_of` line → (length s ≤ len)%nat → (4 * len + 3 ≤ f)%nat → ends (parsepipe n f s) (within cmd_ok s).
Proof.
  intros Hs Hl Hf. destruct f as [|f]; [lia|]. cbn [parsepipe].
  step parseexec_ends; [done|lia|lia|]. intros c s1 (H1 & Hc).
  step peek_spec. intros b s2 (H2 & Hb). destruct b; [|split; [suf|done]].
  destruct (Hb eq_refl) as (d & r & Hs2 & _ & Hd). assert (H2' : s2 `suffix_of` line) by suf.
  assert (length s2 ≤ length s)%nat by (apply suffix_length; suf).
  step gettoken_spec; [done|]. intros t s3 (H3 & _ & _ & Hlt). specialize (Hlt _ _ Hs2 Hd).
  step (shorter s s3 f); [done|done|suf|lia|lia|]. intros x s4 (H4 & Hx). split; [suf|]. by apply cmd_ok_pair.
Qed.

Lemma parseline_ends s f :
  s `suffix_of` line → (length s ≤ len)%nat → (4 * len + 4 ≤ f)%nat → ends (parseline n f s) (within cmd_ok s).
Proof.
  intros Hs Hl Hf. destruct f as [|f]; [lia|]. cbn [parseline].
  step parsepipe_ends; [done|lia|lia|]. intros c s1 (H1 & Hc). assert (H1' : s1 `suffix_of` line) by suf.
  pose proof (suffix_length _ _ H1).
  step parseback_ends; [done|lia|done|]. intros c' s1' (H1'' & Hc').
  step peek_spec. intros b s2 (H2 & Hb). destruct b; [|split; [suf|done]].
  destruct (Hb eq_refl) as (d & r & Hs2 & _ & Hd). assert (H2' : s2 `suffix_of` line) by suf.
  assert (length s2 ≤ length s)%nat by (apply suffix_length; suf).
  step gettoken_spec; [done|]. intros t s3 (H3 & _ & _ & Hlt). specialize (Hlt _ _ Hs2 Hd).
  step (shorter s s3 f); [done|done|suf|lia|lia|]. intros x s4 (H4 & Hx). split; [suf|]. by apply cmd_ok_pair.
Qed.
End below.

Lemma parse_ok_all len : parse_ok len.
Proof.
  induction len as [len IH] using lt_wf_ind. intros s f Hs Hl.
  split_and!; intros Hf; [by apply (parseline_ends len)|by apply (parsepipe_ends len)|
    by apply (parseexec_ends len)|by apply (parseblock_ends len)].
Qed.

Lemma parse_all f : (line_fuel n ≤ f)%nat → ends (parseline n f line) (within cmd_ok line).
Proof. intros Hf. apply (parse_ok_all n); [done|done|exact Hf]. Qed.
End ends.

(** ** The strings of a command *)

Definition cut (b : list Z) (t : str) : list Z := <[t.2 := 0]> b.

Lemma nulterminate_strs c buf : nulterminate c buf = foldl cut buf (strs c).
Proof.
  revert buf. induction c as [argv|c IHc f m d|l IHl r IHr|l IHl r IHr|c IHc]; intros buf; simpl; [done| | | |done].
  - rewrite foldl_app, IHc. done.
  - by rewrite foldl_app, IHr, IHl.
  - by rewrite foldl_app, IHr, IHl.
Qed.

Lemma cuts_length ts buf : length (foldl cut buf ts) = length buf.
Proof. revert buf. induction ts as [|t ts IH]; intros buf; simpl; [done|]. rewrite IH. apply length_insert. Qed.

Lemma cuts_other ts buf i : i ∉ ts.*2 → foldl cut buf ts !! i = buf !! i.
Proof.
  revert buf. induction ts as [|t ts IH]; intros buf Hi; simpl in *; [done|].
  rewrite IH by set_solver. apply list_lookup_insert_ne. set_solver.
Qed.

Lemma cuts_end ts buf i : i ∈ ts.*2 → (i < length buf)%nat → foldl cut buf ts !! i = Some 0.
Proof.
  revert buf. induction ts as [|t ts IH]; intros buf Hi Hl; simpl in *; [set_solver|].
  destruct (decide (i ∈ ts.*2)) as [H|H]; [apply IH; [done|by unfold cut; rewrite length_insert]|].
  rewrite cuts_other by done. assert (i = t.2) as -> by set_solver. unfold cut. by apply list_lookup_insert_eq.
Qed.

Lemma text_lookup w b :
  (∀ i c, w !! i = Some c → b !! i = Some c ∧ c ≠ 0) → b !! length w = Some 0 → text b = w.
Proof.
  revert b. induction w as [|c w IH]; intros b Hw H0; destruct b as [|d b]; try done.
  - simpl in *. simplify_eq. by rewrite bool_decide_true.
  - destruct (Hw 0%nat c) as [? ?]; [done|]. simplify_eq/=. rewrite bool_decide_false by done. f_equal.
    apply IH; [|done]. intros i d Hd. by apply (Hw (S i) d).
Qed.

Lemma text_app line junk : Forall (λ c, c ≠ 0) line → text (line ++ 0 :: junk) = line.
Proof.
  intros Hl. apply text_lookup; [|by apply list_lookup_middle].
  intros i c Hc. split; [by apply lookup_app_l_Some|]. by eapply (Forall_lookup_1 (λ c, c ≠ 0)).
Qed.

(** The characters of a string of the line. *)
Definition slice (line : list Z) (t : str) : list Z := take (t.2 - t.1) (drop t.1 line).

Lemma slice_word pre w post : slice (pre ++ w ++ post) (length pre, length pre + length w)%nat = w.
Proof. unfold slice. cbn [fst snd]. rewrite drop_app_length, Nat.add_comm, Nat.add_sub. by rewrite take_app_length. Qed.

(** The end of a word is not a place inside of a word. *)
Lemma word_ends line t t' i : word_at line t → word_at line t' → (t.1 ≤ i < t.2)%nat → i ≠ t'.2.
Proof.
  intros (pre & w & post & Hl & -> & _ & Hw & _) (pre' & w' & post' & Hl' & -> & _ & _ & Hb) Hi ->. cbn [fst snd] in Hi.
  assert (is_Some (w !! (length pre' + length w' - length pre)%nat)) as [c Hc] by (apply lookup_lt_is_Some; lia).
  assert (H1 : line !! (length pre' + length w')%nat = Some c).
  { rewrite Hl, lookup_app_r by lia. by apply lookup_app_l_Some. }
  rewrite Hl', app_assoc in H1. rewrite lookup_app_r in H1 by (rewrite length_app; lia).
  rewrite length_app, Nat.sub_diag in H1. destruct post' as [|d post']; [done|]. simpl in H1. simplify_eq.
  apply Hb. by eapply Forall_lookup_1.
Qed.

(** All strings come out as the words of the line they are in the parse. *)
Lemma nulterminate_spec line junk c t :
  Forall (λ c, c ≠ 0) line → Forall (word_at line) (strs c) → t ∈ strs c →
  text (drop t.1 (nulterminate c (line ++ 0 :: junk))) = slice line t.
Proof.
  intros Hl Hc Ht. rewrite nulterminate_strs. pose proof (proj1 (Forall_forall _ _) Hc t Ht) as Hwt.
  pose proof Hwt as (pre & w & post & Hline & Et & _ & _ & _).
  assert (Hs : slice line t = w) by (rewrite Hline, Et; apply slice_word). rewrite Hs.
  apply text_lookup.
  - intros i x Hx. assert (Hi : (i < length w)%nat) by (by eapply lookup_lt_Some).
    assert (Hlx : line !! (length pre + i)%nat = Some x).
    { rewrite Hline, lookup_app_r, Nat.add_comm, Nat.add_sub by lia. by apply lookup_app_l_Some. }
    split; [|by eapply (Forall_lookup_1 (λ c, c ≠ 0))].
    rewrite lookup_drop, cuts_other.
    + rewrite Et. cbn [fst]. by apply lookup_app_l_Some.
    + intros (t' & E & Ht')%list_elem_of_fmap. pose proof (proj1 (Forall_forall _ _) Hc t' Ht') as Hwt'.
      eapply (word_ends line t t' (t.1 + i)%nat); [done|done| |done]. rewrite Et. simpl. lia.
  - rewrite lookup_drop. apply cuts_end.
    + apply list_elem_of_fmap. exists t. by rewrite Et in Ht |- *.
    + rewrite Et, Hline, !length_app. simpl. lia.
Qed.

(** C15: on every command line, of any characters, [parsecmd] ends: it stops with a
    syntax error, or it gives a command.  In this command every argument list has room
    for its terminating null pointer, and every string, read as a C string from the
    buffer [nulterminate] has written to, is the word of the line it was parsed as: no
    zero falls into another word.  Nothing but these zeros is written. *)
Theorem parsecmd_correct line junk :
  Forall (λ c, c ≠ 0) line →
  match parsecmd (line ++ 0 :: junk) with
  | Ok (c, buf) =>
      fits c ∧
      (∀ t, t ∈ strs c → word_at line t ∧ text (drop t.1 buf) = slice line t) ∧
      (∀ i, i ∉ (strs c).*2 → buf !! i = (line ++ 0 :: junk) !! i)
  | Stop (Panicked _) => True
  | Stop _ => False
  end.
Proof.
  intros Hl. unfold parsecmd. rewrite text_app by done.
  pose proof (parse_all line (line_fuel (length line)) ltac:(done)) as H. unfold ends in H.
  destruct (parseline _ _ line) as [[c|[]] s]; try done. destruct H as (_ & Hw & Hf).
  case_bool_decide; [|done]. split_and!; [done| |].
  - intros t Ht. split; [by eapply (proj1 (Forall_forall _ _) Hw)|by apply nulterminate_spec].
  - intros i Hi. rewrite nulterminate_strs. by apply cuts_other.
Qed.

(** ** Printing and reading back *)

Fixpoint cmd_map {A B} (f : A → B) (c : cmd A) : cmd B :=
  match c with
  | Execcmd argv => Execcmd (f <$> argv)
  | Redircmd c file mode fd => Redircmd (cmd_map f c) (f file) mode fd
  | Pipecmd l r => Pipecmd (cmd_map f l) (cmd_map f r)
  | Listcmd l r => Listcmd (cmd_map f l) (cmd_map f r)
  | Backcmd c => Backcmd (cmd_map f c)
  end.

Definition pr_words (ws : list (list Z)) : list Z := concat ((λ w, 32 :: w) <$> ws).

Definition pr_redir (r : list Z * Z * Z) : list Z :=
  32 :: (if bool_decide (r.1.2 = O_RDONLY) then LESS else GREATER) :: 32 :: r.1.1.

Definition paren (s : list Z) : list Z := LPAREN :: s ++ [RPAREN].

(** The command line of a command as a line (level 0), an operand of [&] (1), of [|] on
    the right (2), and of [|] on the left or of a redirection (3). *)
Fixpoint unparse (lvl : nat) (c : cmd (list Z)) : list Z :=
  match c with
  | Execcmd argv => pr_words argv
  | Redircmd c file mode fd => unparse 3 c ++ pr_redir (file, mode, fd)
  | Pipecmd l r =>
      let s := unparse 3 l ++ PIPE :: unparse 2 r in
      if bool_decide (lvl ≤ 2)%nat then s else paren s
  | Backcmd c =>
      let s := unparse 1 c ++ [AMP] in
      if bool_decide (lvl ≤ 1)%nat then s else paren s
  | Listcmd l r =>
      let s := unparse 1 l ++ SEMI :: unparse 0 r in
      if bool_decide (lvl ≤ 0)%nat then s else paren s
  end.

Definition word_ok (w : list Z) : Prop := w ≠ [] ∧ Forall (λ c, plain c ∧ c ≠ 0) w.

Definition redir_ok (mode fd : Z) : Prop := (mode = O_RDONLY ∧ fd = 0) ∨ (mode = O_WRONLY_CREATE ∧ fd = 1).

(** The commands one can write: words without blanks and symbols, the two kinds of
    redirection, and at most nine arguments. *)
Fixpoint writable (c : cmd (list Z)) : Prop :=
  match c with
  | Execcmd argv => Forall word_ok argv ∧ (length argv < MAXARGS)%nat
  | Redircmd c file mode fd => writable c ∧ word_ok file ∧ redir_ok mode fd
  | Pipecmd l r | Listcmd l r => writable l ∧ writable r
  | Backcmd c => writable c
  end.

(** The characters that may follow a piece of a line. *)
Definition follow (toks : list Z) (s : list Z) : Prop := match s with [] => True | c :: _ => c ∈ toks end.

Definition unblank (s : list Z) : Prop := match s with [] => True | c :: _ => isws c = false end.

Lemma sym_not_ws c : c ∈ symbols → isws c = false.
Proof. intros H. apply bool_decide_eq_false. unfold symbols, whitespace in *. set_solver. Qed.

Lemma follow_unblank toks s : toks ⊆ symbols → follow toks s → unblank s.
Proof. intros Ht. destruct s as [|c s]; simpl; [done|]. intros Hc. apply sym_not_ws. by apply Ht. Qed.

Lemma follow_breaks toks s : toks ⊆ symbols → follow toks s → breaks s.
Proof. intros Ht. destruct s as [|c s]; simpl; [done|]. intros Hc [_ H]. apply bool_decide_eq_false in H. by apply H, Ht. Qed.

Lemma follow_mono toks toks' s : toks ⊆ toks' → follow toks s → follow toks' s.
Proof. intros Ht. destruct s as [|c s]; simpl; [done|]. apply Ht. Qed.

Lemma skip_unblank s : unblank s → skip_ws s = s.
Proof. destruct s as [|c s]; [done|]. apply skip_ws_id. Qed.

Lemma skip_rest p rest : unblank rest → rest `suffix_of` skip_ws (p ++ rest).
Proof.
  intros Hr. induction p as [|c p IH]; simpl; [by rewrite skip_unblank|].
  case_match; [done|]. by exists (c :: p).
Qed.

Lemma word_unblank w s : word_ok w → unblank (w ++ s).
Proof. intros [Hne Hw]. destruct w as [|c w]; [done|]. inversion Hw as [|?? [[H _] _] _]. done. Qed.

Lemma skip_word_app w s : Forall plain w → breaks s → skip_word (w ++ s) = s.
Proof.
  intros Hw Hs. induction Hw as [|c w [H1 H2] Hw IH]; simpl.
  - destruct s as [|c s]; [done|]. simpl in *. destruct (isws c) eqn:E1, (issym c) eqn:E2; try done. by destruct Hs.
  - by rewrite H1, H2.
Qed.

Lemma plain_token c s : plain c → token (c :: s) = (WORD, skip_word (c :: s)).
Proof.
  intros [_ H]. apply bool_decide_eq_false in H. unfold symbols in H. cbn [token].
  rewrite !bool_decide_eq_false_2 by set_solver. done.
Qed.

Lemma word_plain w : word_ok w → Forall plain w.
Proof. intros [_ Hw]. eapply Forall_impl; [exact Hw|]. by intros c []. Qed.

Section reads.
Variable line : list Z.
#[local] Notation n := (length line).
#[local] Notation ENDS := [PIPE; RPAREN; AMP; SEMI].

Lemma peek_at toks s s' :
  skip_ws s = s' → peek toks s = (Ok (match s' with c :: _ => bool_decide (c ∈ toks) | [] => false end), s').
Proof. by intros <-. Qed.

Lemma skip_tail s p s' : s `suffix_of` line → skip_ws s = p ++ s' → skip_ws s' `suffix_of` line.
Proof.
  intros Hs E. apply (suffix_tr _ s'); [apply skip_ws_suffix|]. apply (suffix_tr _ (skip_ws s)); [by exists p|].
  apply (suffix_tr _ s); [apply skip_ws_suffix|done].
Qed.

Lemma skip_tail_length s p s' : skip_ws s = p ++ s' → (length p + length (skip_ws s') ≤ length s)%nat.
Proof.
  intros E. pose proof (suffix_length _ _ (skip_ws_suffix s)) as H. rewrite E, length_app in H.
  pose proof (suffix_length _ _ (skip_ws_suffix s')). lia.
Qed.

Lemma gettoken_word s w s' :
  s `suffix_of` line → skip_ws s = w ++ s' → word_ok w → breaks s' →
  ∃ t, gettoken n s = (Ok (WORD, t), skip_ws s') ∧ slice line t = w.
Proof.
  intros Hs E Hw Hb. unfold gettoken. rewrite E. pose proof (word_plain _ Hw) as Hp.
  assert (Htok : token (w ++ s') = (WORD, s')).
  { pose proof (skip_word_app w s' Hp Hb) as H. destruct Hw as [Hne _]. destruct w as [|c w]; [done|].
    cbn [app] in *. rewrite plain_token by (by inversion Hp). by rewrite H. }
  rewrite Htok. eexists. split; [done|].
  destruct Hs as [pre Hl]. destruct (skip_ws_suffix s) as [sp Hsp]. rewrite E in Hsp. rewrite Hsp in Hl.
  rewrite (pos_suffix line (pre ++ sp) (w ++ s')) by (by rewrite <- app_assoc).
  rewrite (pos_suffix line ((pre ++ sp) ++ w) s') by (by rewrite <- !app_assoc).
  rewrite (length_app (pre ++ sp) w), Hl, (app_assoc pre sp). apply slice_word.
Qed.

Lemma gettoken_sym s c s' :
  skip_ws s = c :: s' → c ∈ [PIPE; LPAREN; RPAREN; SEMI; AMP; LESS] →
  ∃ t, gettoken n s = (Ok (c, t), skip_ws s').
Proof. intros E Hc. unfold gettoken. rewrite E. cbn [token]. rewrite bool_decide_true by done. by eexists. Qed.

(** The sign of a redirection, with a blank behind it. *)
Lemma gettoken_redir s c s' :
  skip_ws s = c :: 32 :: s' → c ∈ [LESS; GREATER] → ∃ t, gettoken n s = (Ok (c, t), skip_ws s').
Proof.
  intros E Hc. assert (c = LESS ∨ c = GREATER) as [-> | ->] by set_solver.
  - by apply (gettoken_sym s LESS (32 :: s')); [|set_solver].
  - unfold gettoken. rewrite E. by eexists.
Qed.

#[local] Notation pr_redirs rs := (concat (pr_redir <$> rs)).
Definition rslice (r : str * Z * Z) : list Z * Z * Z := (slice line r.1.1, r.1.2, r.2).
Definition redir_good (r : list Z * Z * Z) : Prop := word_ok r.1.1 ∧ redir_ok r.1.2 r.2.

Lemma ends_symbols : ENDS ⊆ symbols.
Proof. unfold symbols. set_solver. Qed.

Lemma redirs_break rs rest : follow ENDS rest → breaks (pr_redirs rs ++ rest).
Proof. intros Hr. destruct rs; simpl; [by apply (follow_breaks ENDS), Hr; apply ends_symbols|]. intros [H _]. by vm_compute in H. Qed.

Lemma parseredirs_none f s : (0 < f)%nat →
  (∀ c r, skip_ws s = c :: r → c ∉ [LESS; GREATER]) → parseredirs n f s = (Ok [], skip_ws s).
Proof.
  intros Hf Hn. destruct f as [|f]; [lia|]. cbn [parseredirs]. mstep (peek_at _ _ _ eq_refl).
  destruct (skip_ws s) as [|c r]; [done|]. by rewrite bool_decide_false by (by eapply Hn).
Qed.

Lemma parseredirs_read rs f s rest :
  s `suffix_of` line → skip_ws s = skip_ws (pr_redirs rs ++ rest) → Forall redir_good rs → follow ENDS rest →
  (length s < f)%nat →
  ∃ rs', parseredirs n f s = (Ok rs', rest) ∧ rslice <$> rs' = rs.
Proof.
  revert f s. induction rs as [|r rs IH]; intros f s Hs E Hg Hr Hf.
  - simpl in E. pose proof (follow_unblank _ _ ends_symbols Hr) as Hu. rewrite (skip_unblank _ Hu) in E.
    exists []. rewrite parseredirs_none; [by rewrite E|lia|]. intros c x Hx. rewrite <- E, Hx in Hr.
    cbn [follow] in Hr. intros Hc. set_unfold in Hr. set_unfold in Hc. lia.
  - inversion_clear Hg as [|?? [Hw Hm] Hg']. destruct r as [[file mode] fd]. cbn [fst snd] in *.
    set (sg := if bool_decide (mode = O_RDONLY) then LESS else GREATER).
    assert (Hsg : sg ∈ [LESS; GREATER]) by (unfold sg; case_bool_decide; set_solver).
    assert (Hws : isws sg = false) by (apply sym_not_ws; unfold symbols; set_solver).
    assert (E1 : skip_ws s = sg :: 32 :: file ++ pr_redirs rs ++ rest).
    { rewrite E. simpl. fold sg. rewrite Hws. by rewrite <- !app_assoc. }
    destruct f as [|f]; [lia|]. cbn [parseredirs]. mstep (peek_at _ _ _ E1). rewrite bool_decide_true by done.
    destruct (gettoken_redir _ _ _ (eq_trans (skip_ws_idem s) E1) Hsg) as [t Ht].
    rewrite E1 in Ht. mstep Ht. pose proof (skip_unblank (file ++ pr_redirs rs ++ rest) (word_unblank _ _ Hw)) as Eu.
    pose proof (skip_tail s [sg; 32] _ Hs E1) as Hs1. pose proof (skip_tail_length s [sg; 32] _ E1) as Hl1.
    rewrite Eu in *. cbn [length] in Hl1.
    destruct (gettoken_word _ _ _ Hs1 Eu Hw (redirs_break _ _ Hr)) as (w & Hgw & Hsw). mstep Hgw. cbn [fst snd].
    pose proof (skip_tail_length _ _ _ Eu) as Hl2.
    rewrite (bool_decide_false (WORD ≠ WORD)) by (by intros []).
    destruct (IH f (skip_ws (pr_redirs rs ++ rest))) as (rs' & Hrs & Hmap);
      [by apply (skip_tail _ _ _ Hs1 Eu)|by rewrite skip_ws_idem|done|done|lia|].
    rewrite (bind_ok _ _ _ _ _ Hrs). eexists. split; [done|]. rewrite fmap_app, Hmap. f_equal.
    unfold sg, rslice. destruct Hm as [[-> ->] | [-> ->]]; simpl; by rewrite Hsw.
Qed.

Lemma plain_not_sym c toks : plain c → toks ⊆ symbols → c ∉ toks.
Proof. intros [_ H] Ht Hc. apply bool_decide_eq_false in H. by apply H, Ht. Qed.

Lemma word_head w s : word_ok w → ∃ c r, w ++ s = c :: r ∧ plain c.
Proof. intros [Hne Hw]. destruct w as [|c w]; [done|]. inversion Hw as [|?? [Hc _] _]. by exists c, (w ++ s). Qed.

Lemma peek_word toks s w s' :
  toks ⊆ symbols → word_ok w → skip_ws s = w ++ s' → peek toks s = (Ok false, skip_ws s).
Proof.
  intros Ht Hw E. unfold peek. destruct (word_head w s' Hw) as (c & r & Ec & Hc). rewrite E, Ec.
  rewrite bool_decide_false; [done|]. by apply plain_not_sym.
Qed.

Lemma parseargs_end f argv rs s rest :
  skip_ws s = rest → follow ENDS rest → (0 < f)%nat → parseargs n f argv rs s = (Ok (argv, rs), rest).
Proof.
  intros E Hr Hf. destruct f as [|f]; [lia|]. cbn [parseargs]. mstep (peek_at _ _ _ E).
  destruct rest as [|c rest]; [done|]. cbn [follow] in Hr. by rewrite bool_decide_true.
Qed.

Lemma skip_line s : s `suffix_of` line → skip_ws s `suffix_of` line.
Proof. intros Hs. apply (suffix_tr _ s); [apply skip_ws_suffix|done]. Qed.

(** One argument, and what is done behind it. *)
Lemma parseargs_word f argv rs0 s w s' :
  s `suffix_of` line → skip_ws s = w ++ s' → word_ok w → breaks s' → (length argv + 1 < MAXARGS)%nat →
  ∃ t, slice line t = w ∧
    parseargs n (S f) argv rs0 s = (rs' ← parseredirs n f; parseargs n f (argv ++ [t]) (rs0 ++ rs')) (skip_ws s').
Proof.
  intros Hs E Hw Hb Hm. cbn [parseargs]. mstep (peek_word ENDS s w _ ends_symbols Hw E).
  destruct (gettoken_word _ _ _ (skip_line _ Hs) (eq_trans (skip_ws_idem s) E) Hw Hb) as (t & Ht & Hst).
  mstep Ht. exists t. split; [done|]. cbn [fst snd].
  rewrite bool_decide_false, (bool_decide_false (WORD ≠ WORD)) by (try done; by intros []).
  by rewrite bool_decide_false by (rewrite length_app; simpl; lia).
Qed.

Lemma parseargs_read rs rest args w f argv rs0 s :
  s `suffix_of` line → skip_ws s = w ++ pr_words args ++ pr_redirs rs ++ rest →
  Forall word_ok (w :: args) → Forall redir_good rs → follow ENDS rest →
  (length argv + length (w :: args) < MAXARGS)%nat → (length s < f)%nat →
  ∃ argv' rs', parseargs n f argv rs0 s = (Ok (argv ++ argv', rs0 ++ rs'), rest) ∧
    slice line <$> argv' = w :: args ∧ rslice <$> rs' = rs.
Proof.
  revert w f argv rs0 s. induction args as [|w' args IH]; intros w f argv rs0 s Hs E Hw Hg Hr Hm Hf;
    inversion_clear Hw as [|?? Hw1 Hws]; (destruct f as [|f]; [lia|]); cbn [length] in *;
    pose proof (skip_tail_length _ _ _ E) as Hl; pose proof (skip_tail _ _ _ Hs E) as Hs2;
    assert (length w ≠ 0)%nat by (destruct Hw1; by destruct w).
  - cbn [pr_words concat fmap list_fmap app] in *.
    destruct (parseargs_word f argv rs0 s w _ Hs E Hw1 (redirs_break rs _ Hr) ltac:(lia)) as (t & Hst & ->).
    destruct (parseredirs_read rs f (skip_ws (pr_redirs rs ++ rest)) rest) as (rs' & Hrs & Hmap);
      [done|by rewrite skip_ws_idem|done|done|lia|].
    mstep Hrs. exists [t], rs'. split; [|by simpl; rewrite Hst]. apply parseargs_end; [|done|lia].
    by apply skip_unblank, (follow_unblank _ _ ends_symbols).
  - inversion Hws as [|?? Hw2 _]. subst.
    set (tl := pr_words args ++ pr_redirs rs ++ rest) in *.
    change (pr_words (w' :: args)) with (32 :: w' ++ pr_words args) in *. cbn [app] in *.
    rewrite <- app_assoc in *. fold tl in E, Hl, Hs2. pose proof (skip_unblank (w' ++ tl) (word_unblank _ _ Hw2)) as E2.
    change (skip_ws (32 :: w' ++ tl)) with (skip_ws (w' ++ tl)) in *. rewrite E2 in Hl, Hs2.
    destruct (parseargs_word f argv rs0 s w _ Hs E Hw1) as (t & Hst & ->); [intros [H' _]; by vm_compute in H'|lia|].
    change (skip_ws (32 :: w' ++ tl)) with (skip_ws (w' ++ tl)). rewrite E2.
    rewrite (bind_ok _ _ _ [] (w' ++ tl)).
    + destruct (IH w' f (argv ++ [t]) (rs0 ++ []) (w' ++ tl)) as (argv' & rs' & Hp & Ha & Hr');
        [done|done|done|done|done|rewrite length_app; simpl; lia|lia|].
      exists (t :: argv'), rs'. rewrite Hp, app_nil_r, <- app_assoc. split; [done|]. by rewrite fmap_cons, Hst, Ha.
    + rewrite <- E2 at 2. apply parseredirs_none; [lia|]. intros c r Hc. rewrite E2 in Hc.
      destruct (word_head w' tl Hw2) as (d & r' & Hd & Hpl). rewrite Hc in Hd. simplify_eq.
      apply plain_not_sym; [done|]. unfold symbols. set_solver.
Qed.

(** The routine reads the characters [p] as the command [c]. *)
Definition reads (parse : nat → P (cmd str)) (base : nat) (toks p : list Z) (c : cmd (list Z)) : Prop :=
  ∀ s rest len f, s `suffix_of` line → skip_ws s = skip_ws (p ++ rest) → follow toks rest →
    (length s ≤ len)%nat → (4 * len + base ≤ f)%nat →
    ∃ c', parse f s = (Ok c', rest) ∧ cmd_map (slice line) c' = c.

#[local] Notation BACKS := [RPAREN; AMP; SEMI].

Definition reads_line (c : cmd (list Z)) : Prop := reads (parseline n) 4 [RPAREN] (unparse 0 c) c.
Definition reads_pipe (c : cmd (list Z)) : Prop := reads (parsepipe n) 3 BACKS (unparse 2 c) c.
Definition reads_exec (c : cmd (list Z)) : Prop :=
  ∀ rs, Forall redir_good rs → reads (parseexec n) 2 ENDS (unparse 3 c ++ pr_redirs rs) (foldl redircmd c rs).

(** A command and its [&] signs are read by [parsepipe] and rounds of [parseback]. *)
Definition reads_back (c : cmd (list Z)) : Prop :=
  ∀ s rest len f, s `suffix_of` line → skip_ws s = skip_ws (unparse 1 c ++ rest) → follow BACKS rest →
    (length s ≤ len)%nat → (4 * len + 3 ≤ f)%nat →
    ∃ c0 s0 k c', parsepipe n f s = (Ok c0, s0) ∧
      (∀ fb, parseback n (k + fb) c0 s0 = parseback n fb c' rest) ∧
      cmd_map (slice line) c' = c ∧ (k + length rest ≤ length s)%nat.

Lemma backs_symbols : BACKS ⊆ symbols.
Proof. unfold symbols. set_solver. Qed.

Lemma rest_suffix s p rest : skip_ws s = skip_ws (p ++ rest) → unblank rest → rest `suffix_of` s.
Proof. intros E Hr. apply (suffix_tr _ (skip_ws s)); [rewrite E; by apply skip_rest|apply skip_ws_suffix]. Qed.

(** Behind a piece, a symbol [c] and the blanks behind it. *)
Lemma next_piece s p c x :
  s `suffix_of` line → skip_ws s = skip_ws (p ++ c :: x) → c ∈ symbols →
  skip_ws x `suffix_of` line ∧ (length (skip_ws x) < length s)%nat.
Proof.
  intros Hs E Hc. pose proof (rest_suffix _ _ _ E (sym_not_ws _ Hc)) as Hr.
  pose proof (skip_ws_suffix x) as Hx. assert (x `suffix_of` c :: x) by (by exists [c]). split; [suf|].
  apply suffix_length in Hr, Hx. simpl in Hr. lia.
Qed.

Lemma peek_sym toks c x : c ∈ symbols → peek toks (c :: x) = (Ok (bool_decide (c ∈ toks)), c :: x).
Proof. intros Hc. by rewrite (peek_at toks _ _ (skip_ws_id _ _ (sym_not_ws _ Hc))). Qed.

Lemma peek_rest toks toks' rest :
  toks' ⊆ symbols → follow toks' rest → (∀ c, c ∈ toks' → c ∉ toks) → peek toks rest = (Ok false, rest).
Proof.
  intros Ht Hr Hn. destruct rest as [|c x]; [done|]. cbn [follow] in Hr.
  rewrite peek_sym by (by apply Ht). by rewrite bool_decide_false by (by apply Hn).
Qed.

Lemma gettoken_at c x :
  c ∈ [PIPE; LPAREN; RPAREN; SEMI; AMP; LESS] → ∃ t, gettoken n (c :: x) = (Ok (c, t), skip_ws x).
Proof.
  intros Hc. apply gettoken_sym; [|done]. apply skip_ws_id, sym_not_ws. unfold symbols. set_solver.
Qed.

(** ** From a level to the next *)

Lemma reads_pipe_exec c : unparse 2 c = unparse 3 c → reads_exec c → reads_pipe c.
Proof.
  intros E He s rest len f Hs Es Hr Hl Hf. destruct f as [|f]; [lia|]. cbn [parsepipe].
  destruct (He [] (Forall_nil_2 _) s rest len f) as (c' & Hp & Hc); [done| | |done|lia|].
  { simpl. by rewrite app_nil_r, <- E. }
  { eapply follow_mono; [|done]. set_solver. }
  exists c'. split; [|done]. mstep Hp.
  by rewrite (bind_ok _ _ _ _ _ (peek_rest [PIPE] BACKS rest backs_symbols Hr ltac:(set_solver))).
Qed.

Lemma reads_back_pipe c : unparse 1 c = unparse 2 c → reads_pipe c → reads_back c.
Proof.
  intros E Hp s rest len f Hs Es Hr Hl Hf. rewrite E in Es.
  destruct (Hp s rest len f) as (c' & Hrun & Hc); [done..|].
  exists c', rest, 0%nat, c'. split_and!; [done|done|done|].
  apply suffix_length, (rest_suffix _ _ _ Es), (follow_unblank _ _ backs_symbols Hr).
Qed.

Lemma reads_line_back c : unparse 0 c = unparse 1 c → reads_back c → reads_line c.
Proof.
  intros E Hb s rest len f Hs Es Hr Hl Hf. destruct f as [|f]; [lia|]. cbn [parseline]. rewrite E in Es.
  destruct (Hb s rest len f) as (c0 & s0 & k & c' & Hp & Hbk & Hc & Hk); [done|done| |done|lia|].
  { eapply follow_mono; [|done]. set_solver. }
  exists c'. split; [|done]. mstep Hp.
  assert (Hend : parseback n f c0 s0 = (Ok c', rest)).
  { replace f with (k + S (f - k - 1))%nat by lia. rewrite Hbk. cbn [parseback].
    by rewrite (bind_ok _ _ _ _ _ (peek_rest [AMP] [RPAREN] rest ltac:(unfold symbols; set_solver) Hr ltac:(set_solver))). }
  mstep Hend.
  by rewrite (bind_ok _ _ _ _ _ (peek_rest [SEMI] [RPAREN] rest ltac:(unfold symbols; set_solver) Hr ltac:(set_solver))).
Qed.

(** ** The commands *)

Lemma cmd_map_redirs c rs : cmd_map (slice line) (foldl redircmd c rs) = foldl redircmd (cmd_map (slice line) c) (rslice <$> rs).
Proof. revert c. induction rs as [|r rs IH]; intros c; simpl; [done|]. by rewrite IH. Qed.

(** No parenthesis in front of redirections or the end of a command. *)
Lemma peek_redirs rs s rest :
  skip_ws s = skip_ws (pr_redirs rs ++ rest) → follow ENDS rest → peek [LPAREN] s = (Ok false, skip_ws s).
Proof.
  intros E Hr. unfold peek. rewrite E. destruct rs as [|r rs].
  - simpl. rewrite skip_unblank by (by apply (follow_unblank _ _ ends_symbols)).
    destruct rest as [|c x]; [done|]. cbn [follow] in Hr. by rewrite bool_decide_false by set_solver.
  - simpl. by case_bool_decide.
Qed.

Lemma exec_read args : writable (Execcmd args) → reads_exec (Execcmd args).
Proof.
  intros [Hw Hn] rs Hg s rest len f Hs E Hr Hl Hf. destruct f as [|f]; [lia|]. cbn [parseexec unparse] in *.
  rewrite <- app_assoc in E. pose proof (skip_line _ Hs) as Hs'. pose proof (suffix_length _ _ (skip_ws_suffix s)).
  destruct args as [|w args].
  - simpl in E. mstep (peek_redirs _ _ _ E Hr).
    destruct (parseredirs_read rs f (skip_ws s) rest) as (rs' & Hrs & Hm); [done|by rewrite skip_ws_idem|done|done|lia|].
    mstep Hrs. rewrite (bind_ok _ _ _ ([], rs') rest).
    2: { apply parseargs_end; [|done|lia]. by apply skip_unblank, (follow_unblank _ _ ends_symbols). }
    eexists. split; [done|]. cbn [fst snd]. by rewrite cmd_map_redirs, Hm.
  - inversion Hw as [|?? Hw1 _]. subst.
    assert (E1 : skip_ws s = w ++ pr_words args ++ pr_redirs rs ++ rest).
    { rewrite E. change (pr_words (w :: args)) with (32 :: w ++ pr_words args). rewrite <- app_comm_cons, <- app_assoc.
      apply (skip_unblank (w ++ _)), word_unblank, Hw1. }
    mstep (peek_word [LPAREN] s w _ ltac:(unfold symbols; set_solver) Hw1 E1).
    rewrite (bind_ok _ _ _ [] (skip_ws s)).
    2: { rewrite <- skip_ws_idem at 2. apply parseredirs_none; [lia|]. intros c r Hc. rewrite skip_ws_idem, E1 in Hc.
      destruct (word_head w (pr_words args ++ pr_redirs rs ++ rest) Hw1) as (d & r' & Hd & Hpl). rewrite Hc in Hd.
      simplify_eq. apply plain_not_sym; [done|]. unfold symbols. set_solver. }
    destruct (parseargs_read rs rest args w f [] [] (skip_ws s)) as (argv' & rs' & Hp & Ha & Hm);
      [done|by rewrite skip_ws_idem|done|done|done|done|lia|].
    mstep Hp. eexists. split; [done|]. cbn [fst snd app]. by rewrite cmd_map_redirs, Hm; cbn [cmd_map set_argv execcmd]; rewrite Ha.
Qed.

Lemma redir_read c file mode fd :
  writable (Redircmd c file mode fd) → reads_exec c → reads_exec (Redircmd c file mode fd).
Proof.
  intros (_ & Hw & Hm) Hc rs Hg s rest len f Hs E. apply (Hc ((file, mode, fd) :: rs)); [by constructor|done|].
  rewrite E. f_equal. cbn [unparse fmap list_fmap concat]. by rewrite <- !app_assoc.
Qed.

Lemma paren_read c : unparse 3 c = paren (unparse 0 c) → reads_line c → reads_exec c.
Proof.
  intros Ec Hline rs Hg s rest len f Hs E Hr Hl Hf. destruct f as [|[|f]]; [lia..|].
  set (tl := pr_redirs rs ++ rest). set (X := unparse 0 c ++ RPAREN :: tl).
  assert (E1 : skip_ws s = LPAREN :: X).
  { rewrite E, Ec. unfold paren, X, tl. cbn [app]. rewrite <- !app_assoc. done. }
  cbn [parseexec]. mstep (peek_at _ _ _ E1). rewrite bool_decide_true by set_solver.
  cbn [parseblock]. rewrite (bind_ok _ _ _ _ _ (peek_sym [LPAREN] LPAREN X ltac:(unfold symbols; set_solver))).
  rewrite bool_decide_true by set_solver. destruct (gettoken_at LPAREN X ltac:(set_solver)) as [t Ht]. mstep Ht.
  destruct (next_piece s [] LPAREN X Hs) as [HX HlX]; [by rewrite E1|unfold symbols; set_solver|].
  destruct (Hline (skip_ws X) (RPAREN :: tl) (len - 1)%nat f) as (c' & Hc' & Hmap);
    [done|by rewrite skip_ws_idem|by simpl; set_solver|lia|lia|].
  mstep Hc'. rewrite (bind_ok _ _ _ _ _ (peek_sym [RPAREN] RPAREN tl ltac:(unfold symbols; set_solver))).
  rewrite bool_decide_true by set_solver. destruct (gettoken_at RPAREN tl ltac:(set_solver)) as [t' Ht']. mstep Ht'.
  destruct (next_piece (skip_ws X) (unparse 0 c) RPAREN tl HX) as [Htl Hltl];
    [by rewrite skip_ws_idem|unfold symbols; set_solver|].
  destruct (parseredirs_read rs f (skip_ws tl) rest) as (rs' & Hrs & Hm); [done|by rewrite skip_ws_idem|done|done|lia|].
  mstep Hrs. eexists. split; [done|]. by rewrite cmd_map_redirs, Hm, Hmap.
Qed.

Lemma pipe_read l r : reads_exec l → reads_pipe r → reads_pipe (Pipecmd l r).
Proof.
  intros Hl Hr s rest len f Hs E Hfo Hlen Hf. destruct f as [|f]; [lia|]. cbn [parsepipe unparse] in *.
  rewrite bool_decide_true in E by lia. cbn zeta in E. rewrite <- app_assoc in E. cbn [app] in E.
  destruct (Hl [] (Forall_nil_2 _) s (PIPE :: unparse 2 r ++ rest) len f) as (c1 & H1 & Hm1);
    [done|simpl; by rewrite app_nil_r|by simpl; set_solver|done|lia|].
  mstep H1. rewrite (bind_ok _ _ _ _ _ (peek_sym [PIPE] PIPE _ ltac:(unfold symbols; set_solver))).
  rewrite bool_decide_true by set_solver. destruct (gettoken_at PIPE (unparse 2 r ++ rest) ltac:(set_solver)) as [t Ht].
  mstep Ht. destruct (next_piece s _ PIPE _ Hs E) as [Hx Hlx]; [unfold symbols; set_solver|].
  destruct (Hr (skip_ws (unparse 2 r ++ rest)) rest (len - 1)%nat f) as (c2 & H2 & Hm2);
    [done|by rewrite skip_ws_idem|done|lia|lia|].
  mstep H2. eexists. split; [done|]. simpl in *. by rewrite Hm1, Hm2.
Qed.

Lemma back_read a : reads_back a → reads_back (Backcmd a).
Proof.
  intros Ha s rest len f Hs E Hfo Hlen Hf. cbn [unparse] in *.
  rewrite bool_decide_true in E by lia. cbn zeta in E. rewrite <- app_assoc in E. cbn [app] in E.
  destruct (Ha s (AMP :: rest) len f) as (c0 & s0 & k & c' & Hp & Hb & Hm & Hk);
    [done|done|by simpl; set_solver|done|done|].
  exists c0, s0, (k + 1)%nat, (Backcmd c'). split_and!; [done| |by simpl; rewrite Hm|simpl in Hk; lia].
  intros fb. rewrite <- Nat.add_assoc, Hb. cbn [Nat.add parseback].
  rewrite (bind_ok _ _ _ _ _ (peek_sym [AMP] AMP rest ltac:(unfold symbols; set_solver))).
  rewrite bool_decide_true by set_solver. destruct (gettoken_at AMP rest ltac:(set_solver)) as [t Ht]. mstep Ht.
  by rewrite skip_unblank by (by apply (follow_unblank _ _ backs_symbols)).
Qed.

Lemma list_read l r : reads_back l → reads_line r → reads_line (Listcmd l r).
Proof.
  intros Hl Hr s rest len f Hs E Hfo Hlen Hf. destruct f as [|f]; [lia|]. cbn [parseline unparse] in *.
  rewrite bool_decide_true in E by lia. cbn zeta in E. rewrite <- app_assoc in E. cbn [app] in E.
  set (X := unparse 0 r ++ rest) in *.
  destruct (Hl s (SEMI :: X) len f) as (c0 & s0 & k & c' & Hp & Hb & Hm & Hk);
    [done|done|by simpl; set_solver|done|lia|].
  mstep Hp. assert (Hend : parseback n f c0 s0 = (Ok c', SEMI :: X)).
  { replace f with (k + S (f - k - 1))%nat by (simpl in Hk; lia). rewrite Hb. cbn [parseback].
    rewrite (bind_ok _ _ _ _ _ (peek_sym [AMP] SEMI X ltac:(unfold symbols; set_solver))).
    by rewrite bool_decide_false by set_solver. }
  mstep Hend. rewrite (bind_ok _ _ _ _ _ (peek_sym [SEMI] SEMI X ltac:(unfold symbols; set_solver))).
  rewrite bool_decide_true by set_solver. destruct (gettoken_at SEMI X ltac:(set_solver)) as [t Ht]. mstep Ht.
  destruct (next_piece s _ SEMI X Hs E) as [Hx Hlx]; [unfold symbols; set_solver|].
  destruct (Hr (skip_ws X) rest (len - 1)%nat f) as (c2 & H2 & Hm2); [done|by rewrite skip_ws_idem|done|lia|lia|].
  mstep H2. eexists. split; [done|]. simpl in *. by rewrite Hm, Hm2.
Qed.

(** Every routine reads what is printed for it. *)
Lemma reads_all c : writable c → reads_exec c ∧ reads_pipe c ∧ reads_back c ∧ reads_line c.
Proof.
  induction c as [args|c IH file mode fd|l IHl r IHr|l IHl r IHr|c IH]; intros Hw.
  - pose proof (exec_read args Hw) as He. pose proof (reads_pipe_exec (Execcmd args) eq_refl He) as Hp.
    pose proof (reads_back_pipe (Execcmd args) eq_refl Hp) as Hb. split_and!; [done..|by apply reads_line_back].
  - pose proof (redir_read _ _ _ _ Hw (proj1 (IH (proj1 Hw)))) as He. pose proof (reads_pipe_exec (Redircmd _ _ _ _) eq_refl He) as Hp.
    pose proof (reads_back_pipe (Redircmd _ _ _ _) eq_refl Hp) as Hb. split_and!; [done..|by apply reads_line_back].
  - destruct Hw as [Hwl Hwr]. destruct (IHl Hwl) as (Hl & _), (IHr Hwr) as (_ & Hr & _).
    pose proof (pipe_read _ _ Hl Hr) as Hp. pose proof (reads_back_pipe (Pipecmd l r) eq_refl Hp) as Hb.
    pose proof (reads_line_back (Pipecmd l r) eq_refl Hb) as Hn. split_and!; [by apply paren_read|done..].
  - destruct Hw as [Hwl Hwr]. destruct (IHl Hwl) as (_ & _ & Hl & _), (IHr Hwr) as (_ & _ & _ & Hr).
    pose proof (list_read _ _ Hl Hr) as Hn. pose proof (paren_read (Listcmd l r) eq_refl Hn) as He.
    pose proof (reads_pipe_exec (Listcmd l r) eq_refl He) as Hp. split_and!; [done|done|by apply reads_back_pipe|done].
  - destruct (IH Hw) as (_ & _ & Hb & _). apply back_read in Hb.
    pose proof (reads_line_back (Backcmd c) eq_refl Hb) as Hn. pose proof (paren_read (Backcmd c) eq_refl Hn) as He.
    split_and!; [done|by apply reads_pipe_exec|done|done].
Qed.
End reads.

Lemma word_nonzero w : word_ok w → Forall (λ c, c ≠ 0) w.
Proof. intros [_ H]. eapply Forall_impl; [exact H|]. by intros c []. Qed.

Lemma unparse_nonzero c lvl : writable c → Forall (λ c, c ≠ 0) (unparse lvl c).
Proof.
  revert lvl. induction c as [args|c IH file mode fd|l IHl r IHr|l IHl r IHr|c IH]; intros lvl Hw; cbn [unparse].
  - destruct Hw as [Hw _]. unfold pr_words. induction Hw as [|w args Hw _ IH]; [constructor|].
    constructor; [done|]. apply Forall_app. split; [by apply word_nonzero|done].
  - destruct Hw as (Hw & Hf & _). apply Forall_app. split; [by apply IH|]. unfold pr_redir. cbn [fst snd].
    apply word_nonzero in Hf. repeat constructor; try done. by case_bool_decide.
  - destruct Hw. assert (Forall (λ c, c ≠ 0) (unparse 3 l ++ PIPE :: unparse 2 r)) by (apply Forall_app; auto).
    case_bool_decide; [done|]. constructor; [done|]. apply Forall_app; auto.
  - destruct Hw. assert (Forall (λ c, c ≠ 0) (unparse 1 l ++ SEMI :: unparse 0 r)) by (apply Forall_app; auto).
    case_bool_decide; [done|]. constructor; [done|]. apply Forall_app; auto.
  - assert (Forall (λ c, c ≠ 0) (unparse 1 c ++ [AMP])) by (apply Forall_app; auto).
    case_bool_decide; [done|]. constructor; [done|]. apply Forall_app; auto.
Qed.

Lemma cmd_map_ext {A B} (f g : A → B) c : (∀ t, t ∈ strs c → f t = g t) → cmd_map f c = cmd_map g c.
Proof.
  induction c as [args|c IH file mode fd|l IHl r IHr|l IHl r IHr|c IH]; intros H; simpl in *.
  - f_equal. apply list_fmap_ext. intros i x Hx. apply H. by eapply list_elem_of_lookup_2.
  - rewrite IH by set_solver. f_equal. apply H. set_solver.
  - rewrite IHl, IHr by set_solver. done.
  - rewrite IHl, IHr by set_solver. done.
  - rewrite IH by done. done.
Qed.

(** C14: a command printed as a command line, with parentheses where its shape
    asks for them, is read back by [parsecmd] as the same command: the same tree of
    lists, pipes, background commands and redirections, with the same words, taken from
    the buffer as the C strings that [exec] and [open] will be given. *)
Theorem print_parse c junk :
  writable c →
  ∃ c' buf, parsecmd (unparse 0 c ++ 0 :: junk) = Ok (c', buf) ∧
    cmd_map (λ t, text (drop t.1 buf)) c' = c.
Proof.
  intros Hw. set (line := unparse 0 c). assert (Hnz : Forall (λ c, c ≠ 0) line) by (by apply unparse_nonzero).
  destruct (reads_all line c Hw) as (_ & _ & _ & Hl).
  destruct (Hl line [] (length line) (line_fuel (length line))) as (c' & Hp & Hm);
    [done|by unfold line; rewrite app_nil_r|done|done|done|].
  pose proof (parse_all line (line_fuel (length line)) ltac:(done)) as He. rewrite Hp in He. destruct He as (_ & Hws & _).
  exists c', (nulterminate c' (line ++ 0 :: junk)). split.
  - unfold parsecmd. rewrite text_app by done. by rewrite Hp.
  - rewrite <- Hm. apply cmd_map_ext. intros t Ht. by apply nulterminate_spec.
Qed.

(** ** Running a command *)

(** What a file descriptor stands for. *)
Inductive fobj := Ochan (k : nat) | Ofile (path : list Z) (mode : Z) | OpipeR (id : list nat) | OpipeW (id : list nat).

#[global] Instance fobj_eq_dec : EqDecision fobj.
Proof. solve_decision. Defined.

Notation fds := (list (option fobj)).

(** The lowest free descriptor. *)
Fixpoint fd_alloc (t : fds) (o : fobj) : option (nat * fds) :=
  match t with
  | [] => None
  | None :: t' => Some (0%nat, Some o :: t')
  | x :: t' => '(i, t'') ← fd_alloc t' o; Some (S i, x :: t'')
  end.

Definition fd_close (t : fds) (fd : nat) : fds := <[fd := None]> t.

Definition fd_dup (t : fds) (fd : nat) : fds :=
  match t !! fd with
  | Some (Some o) => match fd_alloc t o with Some (_, t') => t' | None => t end
  | _ => t
  end.

(** What a process of the shell goes on to do; its descriptors are kept where it
    waits and where another program takes over. *)
Inductive behaviour :=
| B_exit
| B_exec (argv : list (list Z)) (t : fds)
| B_print (msg : string) (arg : list Z) (k : behaviour)
| B_fork (child parent : behaviour)
| B_wait (t : fds) (k : behaviour).

Section runcmd.
(** The system calls: whether [exec] finds the program, [open] the file, and
    [fork] memory, the last by the process that calls it. *)
Variables (exec_ok : list Z → bool) (open_ok : list Z → Z → bool) (fork_ok : list nat → bool).

Definition sh_panic (msg : string) : behaviour := B_print msg [] B_exit.

Definition fork1 (id : list nat) (child parent : behaviour) : behaviour :=
  if fork_ok id then B_fork child parent else sh_panic "fork".

(** [pid] names the process by the forks that led to it (in a list, the process goes on
    under a name of its own), so that it also names the one pipe the process can make. *)
Fixpoint runcmd (pid : list nat) (c : cmd (list Z)) (t : fds) : behaviour :=
  match c with
  | Execcmd [] => B_exit
  | Execcmd ((path :: _) as argv) =>
      if exec_ok path then B_exec argv t else B_print "exec failed" path B_exit
  | Redircmd c file mode fd =>
      let t := fd_close t (Z.to_nat fd) in
      match fd_alloc t (Ofile file mode) with
      | Some (_, t') => if open_ok file mode then runcmd pid c t' else B_print "open failed" file B_exit
      | None => B_print "open failed" file B_exit
      end
  | Listcmd l r =>
      fork1 (pid ++ [0%nat]) (runcmd (pid ++ [0%nat]) l t) (B_wait t (runcmd (pid ++ [1%nat]) r t))
  | Pipecmd l r =>
      match '(p0, t1) ← fd_alloc t (OpipeR pid); '(p1, t2) ← fd_alloc t1 (OpipeW pid); Some (p0, p1, t2) with
      | None => sh_panic "pipe"
      | Some (p0, p1, t) =>
          let child fd p := fd_close (fd_close (fd_dup (fd_close t fd) p) p0) p1 in
          let t' := fd_close (fd_close t p0) p1 in
          fork1 (pid ++ [0%nat]) (runcmd (pid ++ [0%nat]) l (child 1%nat p1))
            (fork1 (pid ++ [1%nat]) (runcmd (pid ++ [1%nat]) r (child 0%nat p0))
               (B_wait t' (B_wait t' B_exit)))
      end
  | Backcmd c => fork1 (pid ++ [0%nat]) (runcmd (pid ++ [0%nat]) c t) B_exit
  end.
End runcmd.

(** The programs that take over, with their descriptors, and the descriptors of the
    processes of the shell that wait. *)
Fixpoint programs (b : behaviour) : list (list (list Z) * fds) :=
  match b with
  | B_exit => []
  | B_exec argv t => [(argv, t)]
  | B_print _ _ k | B_wait _ k => programs k
  | B_fork x y => programs x ++ programs y
  end.

Fixpoint waiting (b : behaviour) : list fds :=
  match b with
  | B_exit | B_exec _ _ => []
  | B_print _ _ k => waiting k
  | B_wait t k => t :: waiting k
  | B_fork x y => waiting x ++ waiting y
  end.

(** A pipeline, and the descriptors its programs should have. *)
Fixpoint pipeline (argv : list (list Z)) (more : list (list (list Z))) : cmd (list Z) :=
  match more with
  | [] => Execcmd argv
  | a :: more' => Pipecmd (Execcmd argv) (pipeline a more')
  end.

Definition standard (i o e : fobj) : fds := [Some i; Some o; Some e] ++ replicate 13 None.

Fixpoint plumbed (pid : list nat) (i o e : fobj) (argv : list (list Z)) (more : list (list (list Z))) :
    list (list (list Z) * fds) :=
  match more with
  | [] => [(argv, standard i o e)]
  | a :: more' => (argv, standard i (OpipeW pid) e) :: plumbed (pid ++ [1%nat]) (OpipeR pid) o e a more'
  end.

(** The descriptors on both sides of a pipe. *)
Lemma runcmd_pipe exec_ok open_ok fork_ok pid l r i o e :
  runcmd exec_ok open_ok fork_ok pid (Pipecmd l r) (standard i o e) =
  fork1 fork_ok (pid ++ [0%nat]) (runcmd exec_ok open_ok fork_ok (pid ++ [0%nat]) l (standard i (OpipeW pid) e))
    (fork1 fork_ok (pid ++ [1%nat]) (runcmd exec_ok open_ok fork_ok (pid ++ [1%nat]) r (standard (OpipeR pid) o e))
       (B_wait (standard i o e) (B_wait (standard i o e) B_exit))).
Proof. reflexivity. Qed.

Lemma standard_write i o e id : Some (OpipeW id) ∈ standard i o e → OpipeW id ∈ [i; o; e].
Proof.
  unfold standard. intros [H|H]%elem_of_app; [|by apply elem_of_replicate in H as [? _]].
  apply (list_elem_of_fmap_1 Some [i; o; e]) in H as (x & ? & ?). by simplify_eq.
Qed.

(** C26: a pipeline of any number of commands, run with the three standard
    descriptors open, starts exactly its programs.  The first one reads what the shell
    read, the last one writes where the shell wrote, every other one reads from the pipe
    that the one before it writes to, and they have no other descriptors: no program
    holds an end of a pipe that is not its own.  No process of the shell that waits for
    them holds the write end of a pipe, so each reader sees the end of its input when
    the writer is done. *)
Theorem pipeline_plumbing exec_ok open_ok fork_ok pid i o e argv more :
  (∀ p, fork_ok p = true) → Forall (λ a, ∃ p r, a = p :: r ∧ exec_ok p = true) (argv :: more) →
  let b := runcmd exec_ok open_ok fork_ok pid (pipeline argv more) (standard i o e) in
  programs b = plumbed pid i o e argv more ∧
  (∀ t id, t ∈ waiting b → Some (OpipeW id) ∈ t → OpipeW id ∈ [i; o; e]).
Proof.
  intros Hfork. revert pid i argv. induction more as [|a more IH]; intros pid i argv Hex;
    inversion_clear Hex as [|?? (p & r & -> & Hp) Hm]; cbn [pipeline].
  - cbn [runcmd]. rewrite Hp. split; [done|]. intros t id Ht. cbn [waiting] in Ht. set_solver.
  - rewrite runcmd_pipe. unfold fork1. rewrite !Hfork.
    destruct (IH (pid ++ [1%nat]) (OpipeR pid) a Hm) as [Hprog Hwait]. cbn zeta. split.
    + cbn [runcmd programs plumbed]. rewrite Hp, app_nil_r, Hprog. done.
    + intros t id Ht Hid. cbn [runcmd waiting] in Ht. rewrite Hp in Ht. cbn [waiting app] in Ht.
      apply elem_of_app in Ht as [Ht|Ht].
      * pose proof (Hwait t id Ht Hid) as H. set_unfold in H. set_unfold. naive_solver.
      * apply standard_write. assert (t = standard i o e) as <- by set_solver. done.
Qed.

Definition demo_line : cmd (list Z) :=
  Listcmd (Backcmd (Pipecmd (Execcmd [[99; 97; 116]; [97]]) (Redircmd (Execcmd [[119; 99]]) [111] O_WRONLY_CREATE 1)))
    (Pipecmd (Listcmd (Execcmd [[108; 115]]) (Execcmd [])) (Execcmd [[119; 99]])).

Lemma print_parse_witness :
  writable demo_line ∧ ∃ c' buf, parsecmd (unparse 0 demo_line ++ 0 :: [7]) = Ok (c', buf) ∧
    cmd_map (λ t, text (drop t.1 buf)) c' = demo_line.
Proof.
  assert (H : writable demo_line).
  { repeat split; simpl; repeat constructor; try done; right; done. }
  split; [exact H|]. exact (print_parse demo_line [7] H).
Defined.

(** ls>>a b: a redirection in between, with [>>] for [>]. *)
Notation demo_buf := [108; 115; 62; 62; 97; 32; 98; 10].

Lemma parsecmd_correct_witness :
  Forall (λ c, c ≠ 0) demo_buf ∧
  match parsecmd (demo_buf ++ 0 :: []) with
  | Ok (c, buf) =>
      fits c ∧
      (∀ t, t ∈ strs c → word_at demo_buf t ∧ text (drop t.1 buf) = slice demo_buf t) ∧
      (∀ i, i ∉ (strs c).*2 → buf !! i = (demo_buf ++ 0 :: []) !! i)
  | Stop (Panicked _) => True
  | Stop _ => False
  end.
Proof.
  assert (H : Forall (λ c, c ≠ 0) demo_buf) by (repeat constructor; lia).
  split; [exact H|]. exact (parsecmd_correct demo_buf [] H).
Defined.

(** [>>] opens its file in the same way as [>]. *)
Example append_is_redirect :
  parsecmd (demo_buf ++ [0]) =
  Ok (Redircmd (Execcmd [(0, 2); (6, 7)]%nat) (4, 5)%nat O_WRONLY_CREATE 1, [108; 115; 0; 62; 97; 0; 98; 0; 0]).
Proof. vm_compute. reflexivity. Qed.

Notation demo_pipeline := [[[108; 115]]; [[103; 114; 101; 112]; [120]]; [[119; 99]]].

Lemma pipeline_plumbing_witness :
  let b := runcmd (λ _, true) (λ _ _, true) (λ _, true) [] (pipeline [[99; 97; 116]] demo_pipeline)
             (standard (Ochan 0) (Ochan 1) (Ochan 2)) in
  programs b = plumbed [] (Ochan 0) (Ochan 1) (Ochan 2) [[99; 97; 116]] demo_pipeline ∧
  (∀ t id, t ∈ waiting b → Some (OpipeW id) ∈ t → OpipeW id ∈ [Ochan 0; Ochan 1; Ochan 2]).
Proof.
  apply (pipeline_plumbing (λ _, true) (λ _ _, true) (λ _, true) [] (Ochan 0) (Ochan 1) (Ochan 2) [[99; 97; 116]] demo_pipeline).
  - intros p. reflexivity.
  - repeat constructor; eexists _, _; split; reflexivity.
Defined.

(** ** The main loop *)

(** [gets]: the characters stored, and the input left; a read past the end gives nothing. *)
Fixpoint gets_chars (room : nat) (input : list Z) : list Z * list Z :=
  match room, input with
  | S r, c :: input' =>
      if bool_decide (c = 10) || bool_decide (c = 13) then ([c], input')
      else let '(l, rest) := gets_chars r input' in (c :: l, rest)
  | _, _ => ([], input)
  end.

Definition ulib_gets (max : nat) (input : list Z) : list Z * list Z := gets_chars (max - 1) input.

(** The buffer after [memset] and [gets]; [None] is the -1 at the end of the input. *)
Definition getcmd (nbuf : nat) (input : list Z) : option (list Z * list Z) :=
  let '(l, rest) := ulib_gets nbuf input in
  let buf := l ++ replicate (nbuf - length l) 0 in
  if bool_decide (head buf = Some 0) then None else Some (buf, rest).

(** What the shell does with a line: change the directory, or run a child and wait. *)
Inductive action := Chdir (path : list Z) | Run (buf : list Z).

Definition dispatch (buf : list Z) : action :=
  if bool_decide (take 3 buf = [99; 100; 32]) then
    Chdir (text (drop 3 (<[(length (text buf) - 1)%nat := 0]> buf)))
  else Run buf.

Fixpoint sh_main (fuel : nat) (input : list Z) : option (list action) :=
  match fuel with
  | O => None
  | S f =>
      match getcmd 100 input with
      | None => Some []
      | Some (buf, rest) => l ← sh_main f rest; Some (dispatch buf :: l)
      end
  end.

(** The line as it stands in the buffer. *)
Definition in_buffer (l : list Z) : list Z := (l ++ [10]) ++ replicate (99 - length l) 0.

Definition input_line (l : list Z) : Prop := Forall (λ c, c ≠ 0 ∧ c ≠ 10 ∧ c ≠ 13) l ∧ (length l ≤ 98)%nat.

Lemma gets_line l room rest :
  Forall (λ c, c ≠ 0 ∧ c ≠ 10 ∧ c ≠ 13) l → (length l < room)%nat → gets_chars room (l ++ 10 :: rest) = (l ++ [10], rest).
Proof.
  intros Hl. revert room. induction Hl as [|c l (_ & H1 & H2) _ IH]; intros room Hr; (destruct room as [|r]; [simpl in Hr; lia|]).
  - done.
  - cbn [app gets_chars]. rewrite !bool_decide_false by done. cbn [orb]. rewrite IH by (simpl in Hr; lia). done.
Qed.

Lemma getcmd_line l rest : input_line l → getcmd 100 (l ++ 10 :: rest) = Some (in_buffer l, rest).
Proof.
  intros [Hl Hn]. unfold getcmd, ulib_gets. rewrite gets_line by (done || lia).
  rewrite bool_decide_false.
  - unfold in_buffer. rewrite length_app. cbn [length]. by replace (100 - (length l + 1))%nat with (99 - length l)%nat by lia.
  - destruct Hl as [|c l (? & _) _]; simpl; congruence.
Qed.

(** A shell fed with lines of at most 98 characters handles each of them as one command,
    in order, and leaves at the end of its input; a [cd] is done by the shell itself. *)
Lemma sh_main_lines ls :
  Forall input_line ls →
  sh_main (S (length ls)) (concat ((λ l, l ++ [10]) <$> ls)) = Some ((λ l, dispatch (in_buffer l)) <$> ls).
Proof.
  induction 1 as [|l ls Hl _ IH]; [done|]. cbn [length fmap list_fmap concat].
  rewrite <- app_assoc. cbn [app]. cbn [sh_main]. rewrite getcmd_line by done. cbn [sh_main] in IH. by rewrite IH.
Qed.

Lemma cd_line d : input_line ([99; 100; 32] ++ d) → dispatch (in_buffer ([99; 100; 32] ++ d)) = Chdir d.
Proof.
  intros [Hd Hn]. unfold dispatch, in_buffer. rewrite bool_decide_true by done. f_equal.
  set (l := [99; 100; 32] ++ d) in *. destruct (99 - length l)%nat as [|z] eqn:Ez; [lia|]. cbn [replicate].
  assert (Hnz : Forall (λ c, c ≠ 0) l) by (eapply Forall_impl; [exact Hd|]; by intros c []).
  rewrite text_app by (apply Forall_app; auto). rewrite length_app, Nat.add_sub, <- app_assoc.
  rewrite <- (Nat.add_0_r (length l)), insert_app_r. cbn [app insert list_insert]. unfold l.
  cbn [app drop]. apply text_app. unfold l in Hnz. by apply Forall_app in Hnz as [_ ?].
Qed.

(** The last character goes even when it is not a newline: cd ab at the end of the input. *)
Example cd_chops : sh_main 2 [99; 100; 32; 97; 98] = Some [Chdir [97]].
Proof. vm_compute. reflexivity. Qed.
