(* ===== verification/State.v ===== *)
(** * The kernel's state

    Every global of the kernel that the modelled routines touch, in one record:
    the processors, the spin locks, physical memory and its allocator, the disk,
    the buffer cache, the log, the inode cache, the file table, the pipes, the
    process table, the clock and the console.  An array of structures is a list
    indexed by [nat], a pointer into it an index; kernel memory that holds no
    modelled structure (pages, page tables, trap frames) is bytes. *)

From S2P Require Import Prelude Memory.

(** ** Constants (param.h, memlayout.h, mmu.h, fs.h, stat.h) *)

Definition NPROC : nat := 64.
Definition KSTACKSIZE : Z := 4096.
Definition NOFILE : nat := 16.
Definition NFILE : nat := 100.
Definition NINODE : nat := 50.
Definition NDEV : Z := 10.
Definition ROOTDEV : Z := 1.
Definition MAXARG : nat := 32.
Definition MAXOPBLOCKS : Z := 10.
Definition LOGSIZE : Z := MAXOPBLOCKS * 3.
Definition NBUF : nat := 30.

Definition EXTMEM : Z := 0x100000.
Definition PHYSTOP : Z := 0xE000000.
Definition DEVSPACE : Z := 0xFE000000.
Definition KERNBASE : Z := 0x80000000.
Definition KERNLINK : Z := KERNBASE + EXTMEM.
Definition V2P (a : Z) : Z := u32 (a - KERNBASE).
Definition P2V (a : Z) : Z := u32 (a + KERNBASE).

Definition PGSIZE : Z := 4096.
Definition PGROUNDUP (sz : Z) : Z := Z.land (u32 (sz + PGSIZE - 1)) (Z.lnot (PGSIZE - 1)).
Definition PGROUNDDOWN (a : Z) : Z := Z.land a (Z.lnot (PGSIZE - 1)).

Definition ROOTINO : Z := 1.
Definition BSIZE : Z := 512.
Definition NDIRECT : Z := 12.
Definition NINDIRECT : Z := BSIZE / 4.
Definition MAXFILE : Z := NDIRECT + NINDIRECT.
Definition DIRSIZ : nat := 14.
Definition T_DIR : Z := 1.
Definition T_FILE : Z := 2.
Definition T_DEV : Z := 3.

(** ** Locks (spinlock.h, sleeplock.h) *)

(** The spin locks of the kernel; the last two are the spin locks inside the
    sleep locks of a buffer and of an inode. *)
Inductive lockid :=
| L_kmem | L_ptable | L_bcache | L_log | L_icache | L_ftable | L_ticks | L_cons | L_ide
| L_pipe (p : Z) | L_buf (b : nat) | L_inode (i : nat).
#[global] Instance lockid_eq_dec : EqDecision lockid.
Proof. solve_decision. Defined.

(** A sleep lock without its spin lock, which is one of [lockid]. *)
Record sleeplock := Sleeplock { sl_locked : bool; sl_pid : Z }.

(** What a process can sleep on: the addresses the code passes to [sleep]. *)
Inductive chan :=
| C_log | C_ticks | C_input | C_proc (p : nat) | C_buf (b : nat) | C_inode (i : nat)
| C_nread (p : Z) | C_nwrite (p : Z).
#[global] Instance chan_eq_dec : EqDecision chan.
Proof. solve_decision. Defined.

(** ** Processors and processes (proc.h) *)

Record cpu := Cpu {
  c_apicid : Z;
  c_ncli : Z;
  c_intena : bool;
  c_if : bool;                  (* FL_IF in the processor's flags *)
  c_proc : option nat;
  c_esp0 : Z;                   (* ts.esp0 *)
  c_cr3 : Z }.
#[global] Instance cpu_rebuild : Rebuild cpu := λ x,
  Cpu (c_apicid x) (c_ncli x) (c_intena x) (c_if x) (c_proc x) (c_esp0 x) (c_cr3 x).

Inductive procstate := UNUSED | EMBRYO | SLEEPING | RUNNABLE | RUNNING | ZOMBIE.
#[global] Instance procstate_eq_dec : EqDecision procstate.
Proof. solve_decision. Defined.

Record proc := Proc {
  p_sz : Z;
  p_pgdir : Z;
  p_kstack : Z;
  p_state : procstate;
  p_pid : Z;
  p_parent : option nat;
  p_tf : Z;                     (* address of the trap frame *)
  p_context : Z;                (* address of the saved registers *)
  p_chan : option chan;
  p_killed : bool;
  p_ofile : list (option nat);
  p_cwd : option nat;
  p_name : list Z;
  p_isthread : bool;
  p_stack : Z;
  p_stacksize : Z }.
#[global] Instance proc_rebuild : Rebuild proc := λ x,
  Proc (p_sz x) (p_pgdir x) (p_kstack x) (p_state x) (p_pid x) (p_parent x) (p_tf x)
    (p_context x) (p_chan x) (p_killed x) (p_ofile x) (p_cwd x) (p_name x) (p_isthread x)
    (p_stack x) (p_stacksize x).

(** ** Buffers, log and inodes (buf.h, log.c, fs.h, file.h) *)

(** [flags] holds the two bits B_VALID and B_DIRTY; [b_prev] and [b_next] are
    indices into the cache, whose entry [NBUF] is the head of the list. *)
Record buf := Buf {
  b_valid : bool;
  b_dirty : bool;
  b_dev : Z;
  b_blockno : Z;
  b_lock : sleeplock;
  b_refcnt : Z;
  b_prev : nat;
  b_next : nat;
  b_data : list Z }.
#[global] Instance buf_rebuild : Rebuild buf := λ x,
  Buf (b_valid x) (b_dirty x) (b_dev x) (b_blockno x) (b_lock x) (b_refcnt x) (b_prev x)
    (b_next x) (b_data x).

Record log := Log {
  lg_start : Z;
  lg_size : Z;
  lg_outstanding : Z;
  lg_committing : bool;
  lg_dev : Z;
  lg_n : Z;
  lg_block : list Z }.
#[global] Instance log_rebuild : Rebuild log := λ x,
  Log (lg_start x) (lg_size x) (lg_outstanding x) (lg_committing x) (lg_dev x) (lg_n x)
    (lg_block x).

Record superblock := Superblock {
  sb_size : Z;
  sb_nblocks : Z;
  sb_ninodes : Z;
  sb_nlog : Z;
  sb_logstart : Z;
  sb_inodestart : Z;
  sb_bmapstart : Z }.

Record inode := Inode {
  i_dev : Z;
  i_inum : Z;
  i_ref : Z;
  i_lock : sleeplock;
  i_valid : bool;
  i_type : Z;
  i_major : Z;
  i_minor : Z;
  i_nlink : Z;
  i_size : Z;
  i_addrs : list Z }.
#[global] Instance inode_rebuild : Rebuild inode := λ x,
  Inode (i_dev x) (i_inum x) (i_ref x) (i_lock x) (i_valid x) (i_type x) (i_major x)
    (i_minor x) (i_nlink x) (i_size x) (i_addrs x).

(** ** Files and pipes (file.h, pipe.c) *)

Inductive filetype := FD_NONE | FD_PIPE | FD_INODE.
#[global] Instance filetype_eq_dec : EqDecision filetype.
Proof. solve_decision. Defined.

Record file := File {
  f_type : filetype;
  f_ref : Z;
  f_readable : bool;
  f_writable : bool;
  f_pipe : Z;
  f_ip : nat;
  f_off : Z }.
#[global] Instance file_rebuild : Rebuild file := λ x,
  File (f_type x) (f_ref x) (f_readable x) (f_writable x) (f_pipe x) (f_ip x) (f_off x).

Record pipe := Pipe {
  pi_data : list Z;
  pi_nread : Z;
  pi_nwrite : Z;
  pi_readopen : bool;
  pi_writeopen : bool }.
#[global] Instance pipe_rebuild : Rebuild pipe := λ x,
  Pipe (pi_data x) (pi_nread x) (pi_nwrite x) (pi_readopen x) (pi_writeopen x).

(** ** Console input (console.c) *)

Record input := Input { in_buf : list Z; in_r : Z; in_w : Z; in_e : Z }.
#[global] Instance input_rebuild : Rebuild input := λ x,
  Input (in_buf x) (in_r x) (in_w x) (in_e x).

(** ** What the linker and the build put into the kernel image

    The addresses [end] and [data] of kernel.ld, the entry points [trapret] and
    [forkret], and the bytes of initcode.S. *)
Record image := Image {
  img_end : Z;
  img_data : Z;
  img_trapret : Z;
  img_forkret : Z;
  img_initcode : list Z }.

(** ** The whole kernel

    [k_lapicid] is the APIC id of the processor that executes; [k_locks] lists
    the spin locks with [locked] = 1 and the processor that holds each;
    [k_pipes] holds the pipe structure in the page at an address; [k_power] is
    the number of disk writes before the power fails, if it does; [k_shift] is the
    keyboard's static variable, [k_locking] is cons.locking and [k_out] the
    characters sent to the console so far. *)
Record kernel := Kernel {
  k_img : image;
  k_lapicid : Z;
  k_cpus : list cpu;
  k_locks : list (lockid * nat);
  k_mem : mem;
  k_freelist : Z;
  k_use_lock : bool;
  k_kpgdir : Z;
  k_disk : list (list Z);
  k_power : option nat;
  k_bufs : list buf;
  k_log : log;
  k_sb : superblock;
  k_icache : list inode;
  k_ftable : list file;
  k_pipes : gmap Z pipe;
  k_procs : list proc;
  k_initproc : option nat;
  k_nextpid : Z;
  k_first : bool;
  k_ticks : Z;
  k_input : input;
  k_shift : Z;
  k_locking : bool;
  k_out : list Z }.
#[global] Instance kernel_rebuild : Rebuild kernel := λ x,
  Kernel (k_img x) (k_lapicid x) (k_cpus x) (k_locks x) (k_mem x) (k_freelist x)
    (k_use_lock x) (k_kpgdir x) (k_disk x) (k_power x) (k_bufs x) (k_log x) (k_sb x)
    (k_icache x) (k_ftable x) (k_pipes x) (k_procs x) (k_initproc x) (k_nextpid x)
    (k_first x) (k_ticks x) (k_input x) (k_shift x)
    (k_locking x) (k_out x).

Notation K := (M kernel).

(** An array index the code is trusted to keep in range: out of range it
    touches memory that no C array owns. *)
Definition wild {A} : K A := panic "wild access".
Definition at_index {A} (f : kernel → list A) (i : nat) : K A := λ k,
  match f k !! i with Some a => (Ok a, k) | None => wild k end.

Lemma at_index_ok {A} (f : kernel → list A) i a k : f k !! i = Some a → at_index f i k = (Ok a, k).
Proof. intros H. unfold at_index. by rewrite H. Qed.

Definition the_proc (i : nat) : K proc := at_index k_procs i.
Definition upd_proc (i : nat) (f : proc → proc) : K unit :=
  modify (λ k, k <| k_procs ::= alter f i |>).
Definition the_buf (i : nat) : K buf := at_index k_bufs i.
Definition upd_buf (i : nat) (f : buf → buf) : K unit :=
  modify (λ k, k <| k_bufs ::= alter f i |>).
Definition the_inode (i : nat) : K inode := at_index k_icache i.
Definition upd_inode (i : nat) (f : inode → inode) : K unit :=
  modify (λ k, k <| k_icache ::= alter f i |>).
Definition the_file (i : nat) : K file := at_index k_ftable i.
Definition upd_file (i : nat) (f : file → file) : K unit :=
  modify (λ k, k <| k_ftable ::= alter f i |>).

(** ** The globals before any code has run

    The C globals start zeroed; the processors are the ones mp.c has found, and
    memory and the disk are what the machine starts with. *)
Definition proc0 : proc :=
  Proc 0 0 0 UNUSED 0 None 0 0 None false (replicate NOFILE None) None (replicate 16 0) false 0 0.
Definition buf0 : buf := Buf false false 0 0 (Sleeplock false 0) 0 0 0 (replicate 512 0).
Definition log0 : log := Log 0 0 0 false 0 0 (replicate 30 0).
Definition inode0 : inode := Inode 0 0 0 (Sleeplock false 0) false 0 0 0 0 0 (replicate 13 0).
Definition file0 : file := File FD_NONE 0 false false 0 0 0.

Definition boot (img : image) (cpus : list cpu) (m : mem) (disk : list (list Z)) : kernel := {|
  k_img := img;
  k_lapicid := 0;
  k_cpus := cpus;
  k_locks := [];
  k_mem := m;
  k_freelist := 0;
  k_use_lock := false;
  k_kpgdir := 0;
  k_disk := disk;
  k_power := None;
  k_bufs := replicate (S NBUF) buf0;
  k_log := log0;
  k_sb := Superblock 0 0 0 0 0 0 0;
  k_icache := replicate NINODE inode0;
  k_ftable := replicate NFILE file0;
  k_pipes := ∅;
  k_procs := replicate NPROC proc0;
  k_initproc := None;
  k_nextpid := 1;
  k_first := true;
  k_ticks := 0;
  k_input := Input (replicate 128 0) 0 0 0;
  k_shift := 0;
  k_locking := false;
  k_out := [] |}.

(** One processor with interrupts enabled, for concrete runs. *)
Definition cpu0 : cpu := Cpu 0 0 true true None 0 0.
Definition img0 : image := Image (KERNBASE + 0x115000) (KERNBASE + 0x109000) 0 0 [].
Definition boot0 : kernel := boot img0 [cpu0] (λ _, 0) [].

(** ** Page rounding *)

Lemma land_page a : Z.land a (Z.lnot (PGSIZE - 1)) = a / PGSIZE * PGSIZE.
Proof.
  change (PGSIZE - 1) with (Z.ones 12). rewrite <- Z.ldiff_land, Z.ldiff_ones_r by lia.
  rewrite Z.shiftl_mul_pow2, Z.shiftr_div_pow2 by lia. done.
Qed.

Lemma PGROUNDDOWN_spec a : PGROUNDDOWN a = a / PGSIZE * PGSIZE.
Proof. apply land_page. Qed.

Lemma PGROUNDUP_spec a : 0 ≤ a ≤ 2 ^ 32 - PGSIZE → PGROUNDUP a = (a + PGSIZE - 1) / PGSIZE * PGSIZE.
Proof.
  intros H. unfold PGROUNDUP. rewrite land_page, u32_small; [done|]. unfold PGSIZE in *. lia.
Qed.
