(* ===== verification/Spinlock.v ===== *)
(** * Spin locks and interrupt nesting (spinlock.c, proc.c)

    [pushcli]/[popcli], [holding], [acquire] and [release] on the processor that
    executes, and [mycpu], [cpuid] and [myproc].  A lock another processor
    holds makes [acquire] spin ([Spin]); the lock's name and the recorded call
    stack are debugging aids and are left out.  The second half is the same
    lock seen from several processors at once, one memory access per step. *)

From S2P Require Import Prelude State.

(** ** The current processor *)

(** The lookup loop of [mycpu]: the entry of [cpus] with this APIC id. *)
Fixpoint find_apicid (apicid : Z) (cs : list cpu) (i : nat) : option nat :=
  match cs with
  | [] => None
  | c :: cs' => if decide (c_apicid c = apicid) then Some i else find_apicid apicid cs' (S i)
  end.

(** The processor that executes, which the hardware knows at any time. *)
Definition this_cpu (k : kernel) : option nat := find_apicid (k_lapicid k) (k_cpus k) 0.
Definition read_if (k : kernel) : bool :=
  match this_cpu k with
  | Some i => match k_cpus k !! i with Some c => c_if c | None => false end
  | None => false
  end.
Definition set_if (b : bool) : K unit := modify (λ k,
  match this_cpu k with
  | Some i => k <| k_cpus ::= alter (λ c, c <| c_if := b |>) i |>
  | None => k
  end).
Definition cli : K unit := set_if false.
Definition sti : K unit := set_if true.

Definition mycpu : K nat :=
  on ← gets read_if;
  if on : bool then panic "mycpu called with interrupts enabled" else
  i ← gets this_cpu;
  match i with
  | Some i => mret i
  | None => panic "unknown apicid"
  end.

Definition cpuid : K nat := mycpu.

Definition the_cpu (i : nat) : K cpu := at_index k_cpus i.
Definition upd_cpu (i : nat) (f : cpu → cpu) : K unit :=
  modify (λ k, k <| k_cpus ::= alter f i |>).

(** ** spinlock.c *)

Definition pushcli : K unit :=
  eflags ← gets read_if;
  cli;;
  c ← mycpu;
  cp ← the_cpu c;
  when (bool_decide (c_ncli cp = 0)) (upd_cpu c (λ c, c <| c_intena := eflags |>));;
  upd_cpu c (λ c, c <| c_ncli ::= λ n, i32 (n + 1) |>).

Definition popcli : K unit :=
  on ← gets read_if;
  if on : bool then panic "popcli - interruptible" else
  c ← mycpu;
  upd_cpu c (λ c, c <| c_ncli ::= λ n, i32 (n - 1) |>);;
  cp ← the_cpu c;
  if decide (c_ncli cp < 0) then panic "popcli" else
  when (bool_decide (c_ncli cp = 0) && c_intena cp) sti.

(** [lk->cpu] of a lock with [locked] = 1. *)
Fixpoint lock_holder (lk : lockid) (ls : list (lockid * nat)) : option nat :=
  match ls with
  | [] => None
  | (l, c) :: ls' => if decide (l = lk) then Some c else lock_holder lk ls'
  end.
Definition unlock (lk : lockid) (ls : list (lockid * nat)) : list (lockid * nat) :=
  filter (λ x, x.1 ≠ lk) ls.

Definition initlock (lk : lockid) : K unit := modify (λ k, k <| k_locks ::= unlock lk |>).

Definition holding (lk : lockid) : K bool :=
  pushcli;;
  c ← mycpu;
  r ← gets (λ k, bool_decide (lock_holder lk (k_locks k) = Some c));
  popcli;;
  mret r.

Definition acquire (lk : lockid) : K unit :=
  pushcli;;
  h ← holding lk;
  if h : bool then panic "acquire" else
  l ← gets (λ k, lock_holder lk (k_locks k));
  match l with
  | Some _ => stopped Spin
  | None =>
      c ← mycpu;
      modify (λ k, k <| k_locks ::= cons (lk, c) |>)
  end.

Definition release (lk : lockid) : K unit :=
  h ← holding lk;
  if negb h then panic "release" else
  modify (λ k, k <| k_locks ::= unlock lk |>);;
  popcli.

(** ** proc.c *)

Definition myproc : K (option nat) :=
  pushcli;;
  c ← mycpu;
  cp ← the_cpu c;
  popcli;;
  mret (c_proc cp).

(** ** What the lock operations do

    [cpu_at k c cp]: processor [c] executes and its structure is [cp], with the
    interrupt bookkeeping in order: interrupts are off while [ncli] is positive,
    and at depth zero [intena] is the interrupt flag. *)
Record cpu_at (k : kernel) (c : nat) (cp : cpu) : Prop := {
  ca_this : this_cpu k = Some c;
  ca_cpu : k_cpus k !! c = Some cp;
  ca_ncli : 0 ≤ c_ncli cp < 2 ^ 30;
  ca_calm : c_ncli cp = 0 → c_intena cp = c_if cp;
  ca_off : c_ncli cp ≠ 0 → c_if cp = false }.

Definition pushed (x : cpu) : cpu :=
  x <| c_intena := if decide (c_ncli x = 0) then c_if x else c_intena x |>
    <| c_if := false |> <| c_ncli ::= λ n, n + 1 |>.
Definition push (c : nat) (k : kernel) : kernel := k <| k_cpus ::= alter pushed c |>.

(** The state in which processor [c] holds [lk] on top of [k]. *)
Definition locked (lk : lockid) (c : nat) (k : kernel) : kernel :=
  push c k <| k_locks ::= cons (lk, c) |>.
Definition free (lk : lockid) (k : kernel) : Prop := lock_holder lk (k_locks k) = None.

Lemma alter_fix {A} (f : A → A) (l : list A) i x : l !! i = Some x → f x = x → alter f i l = l.
Proof.
  intros Hl Hf. apply list_eq. intros j. destruct (decide (i = j)) as [<-|Hne].
  - rewrite list_lookup_alter_eq, Hl. simpl. by rewrite Hf.
  - by rewrite list_lookup_alter_ne.
Qed.

Lemma alter_comp {A} (f g : A → A) (l : list A) i : alter f i (alter g i l) = alter (f ∘ g) i l.
Proof.
  apply list_eq. intros j. destruct (decide (i = j)) as [<-|Hne].
  - rewrite !list_lookup_alter_eq. by destruct (l !! i).
  - by rewrite !list_lookup_alter_ne.
Qed.

Lemma alter_at {A} (f g : A → A) (l : list A) i x :
  l !! i = Some x → f x = g x → alter f i l = alter g i l.
Proof.
  intros Hl Hf. apply list_eq. intros j. destruct (decide (i = j)) as [<-|Hne].
  - rewrite !list_lookup_alter_eq, Hl. simpl. by rewrite Hf.
  - by rewrite !list_lookup_alter_ne.
Qed.

Lemma find_apicid_alter f a l c i :
  (∀ x, c_apicid (f x) = c_apicid x) → find_apicid a (alter f c l) i = find_apicid a l i.
Proof.
  intros Hf. revert c i. induction l as [|x l IH]; intros [|c] i; simpl; try done.
  - by rewrite Hf.
  - rewrite <- (IH c (S i)). done.
Qed.

Lemma this_cpu_alter f c k :
  (∀ x, c_apicid (f x) = c_apicid x) → this_cpu (k <| k_cpus ::= alter f c |>) = this_cpu k.
Proof. intros Hf. unfold this_cpu, upd. simpl. by apply find_apicid_alter. Qed.

Lemma cpus_same k : k <| k_cpus ::= id |> = k.
Proof. by destruct k. Qed.

Lemma cpus_alter_fix f c cp k :
  k_cpus k !! c = Some cp → f cp = cp → k <| k_cpus ::= alter f c |> = k.
Proof. intros H1 H2. unfold upd. destruct k; simpl in *. f_equal. by eapply alter_fix. Qed.

Lemma cpus_alter_comp f g c k :
  k <| k_cpus ::= alter g c |> <| k_cpus ::= alter f c |> = k <| k_cpus ::= alter (f ∘ g) c |>.
Proof. unfold upd. simpl. by rewrite alter_comp. Qed.

Section ops.
Context (k : kernel) (c : nat) (cp : cpu) (Hc : cpu_at k c cp).

Lemma read_if_at : read_if k = c_if cp.
Proof. unfold read_if. by rewrite (ca_this _ _ _ Hc), (ca_cpu _ _ _ Hc). Qed.

Lemma set_if_at b : set_if b k = (Ok tt, k <| k_cpus ::= alter (λ c, c <| c_if := b |>) c |>).
Proof. unfold set_if, modify. by rewrite (ca_this _ _ _ Hc). Qed.

Lemma mycpu_at : c_if cp = false → mycpu k = (Ok c, k).
Proof.
  intros Hif. unfold mycpu. rewrite bind_gets, read_if_at, Hif, bind_gets.
  by rewrite (ca_this _ _ _ Hc).
Qed.
End ops.

Lemma cpu_at_alter f k c cp :
  this_cpu k = Some c → k_cpus k !! c = Some cp → (∀ x, c_apicid (f x) = c_apicid x) →
  this_cpu (k <| k_cpus ::= alter f c |>) = Some c ∧
  k_cpus (k <| k_cpus ::= alter f c |>) !! c = Some (f cp).
Proof.
  intros H1 H2 Hf. rewrite this_cpu_alter by done. split; [done|].
  unfold upd. simpl. by rewrite list_lookup_alter_eq, H2.
Qed.

(** [mycpu] needs only the processor's identity and its flag. *)
Lemma mycpu_off k c cp :
  this_cpu k = Some c → k_cpus k !! c = Some cp → c_if cp = false → mycpu k = (Ok c, k).
Proof.
  intros H1 H2 H3. unfold mycpu. rewrite bind_gets. unfold read_if at 1. rewrite H1, H2, H3.
  rewrite bind_gets. by rewrite H1.
Qed.

Lemma the_cpu_at k c cp : k_cpus k !! c = Some cp → the_cpu c k = (Ok cp, k).
Proof. intros H. unfold the_cpu, at_index. by rewrite H. Qed.

Lemma pushcli_at k c cp :
  this_cpu k = Some c → k_cpus k !! c = Some cp → 0 ≤ c_ncli cp < 2 ^ 30 → pushcli k = (Ok tt, push c k).
Proof.
  intros H1 H2 H3. unfold pushcli. rewrite bind_gets.
  assert (read_if k = c_if cp) as -> by (unfold read_if; by rewrite H1; simpl; rewrite H2).
  unfold cli, set_if. rewrite bind_modify, H1.
  destruct (cpu_at_alter (λ c, c <| c_if := false |>) k c cp H1 H2) as [T1 T2]; [done|].
  mstep (mycpu_off _ _ _ T1 T2 eq_refl).
  mstep (the_cpu_at _ _ _ T2).
  unfold upd_cpu, when. change (c_ncli (cp <| c_if := false |>)) with (c_ncli cp).
  unfold push. case_bool_decide as Hz; rewrite ?bind_modify, ?bind_ret; unfold modify; f_equal.
  - rewrite !cpus_alter_comp. unfold upd. simpl. f_equal.
    eapply alter_at; [done|]. unfold pushed, upd. simpl. rewrite decide_True by done.
    f_equal. zlia.
  - rewrite !cpus_alter_comp. unfold upd. simpl. f_equal.
    eapply alter_at; [done|]. unfold pushed, upd. simpl. rewrite decide_False by done.
    f_equal. zlia.
Qed.

Lemma pushcli_spec k c cp : cpu_at k c cp → pushcli k = (Ok tt, push c k).
Proof. intros [H1 H2 H3 _ _]. by eapply pushcli_at. Qed.

Lemma push_at k c cp : cpu_at k c cp → c_ncli cp + 1 < 2 ^ 30 → cpu_at (push c k) c (pushed cp).
Proof.
  intros [H1 H2 H3 H4 H5] Hb.
  destruct (cpu_at_alter pushed k c cp H1 H2) as [T1 T2]; [done|].
  split; auto; unfold pushed, upd; simpl; intros; try done; lia.
Qed.

Lemma popcli_spec k c cp : cpu_at k c cp → popcli (push c k) = (Ok tt, k).
Proof.
  intros Hc. pose proof Hc as [H1 H2 H3 H4 H5].
  destruct (cpu_at_alter pushed k c cp H1 H2) as [T1 T2]; [done|].
  unfold popcli, push. rewrite bind_gets. unfold read_if at 1. rewrite T1, T2. simpl.
  mstep (mycpu_off _ _ _ T1 T2 eq_refl).
  unfold upd_cpu. rewrite bind_modify, cpus_alter_comp.
  set (f := (λ c, c <| c_ncli ::= λ n, i32 (n - 1) |>) ∘ pushed).
  destruct (cpu_at_alter f k c cp H1 H2) as [U1 U2]; [done|].
  mstep (the_cpu_at _ _ _ U2).
  assert (c_ncli (f cp) = c_ncli cp) as E by (unfold f, pushed, upd; simpl; zlia).
  rewrite E, decide_False by lia. unfold when.
  destruct (decide (c_ncli cp = 0)) as [Hz|Hz].
  - rewrite bool_decide_true by done. unfold f at 1, pushed at 1, upd at 1. simpl.
    rewrite decide_True by done. destruct (c_if cp) eqn:Hif.
    + unfold sti, set_if, modify. rewrite U1, cpus_alter_comp. f_equal.
      eapply cpus_alter_fix; [done|]. unfold f, pushed, upd. simpl. rewrite decide_True by done.
      destruct cp; simpl in *. f_equal; solve [zlia | by rewrite ?H4 | rewrite H4; congruence].
    + unfold mret, M_ret. f_equal. eapply cpus_alter_fix; [done|].
      unfold f, pushed, upd. simpl. rewrite decide_True by done.
      destruct cp; simpl in *. f_equal; solve [zlia | by rewrite ?H4 | rewrite H4; congruence].
  - rewrite bool_decide_false by done. simpl. unfold mret, M_ret. f_equal.
    eapply cpus_alter_fix; [done|]. unfold f, pushed, upd. simpl. rewrite decide_False by done.
    destruct cp; simpl in *. f_equal; solve [zlia | by rewrite ?H5 | rewrite H5; congruence].
Qed.

Lemma holding_spec lk k c cp :
  cpu_at k c cp → c_ncli cp + 1 < 2 ^ 30 →
  holding lk k = (Ok (bool_decide (lock_holder lk (k_locks k) = Some c)), k).
Proof.
  intros Hc Hb. unfold holding. mstep (pushcli_spec _ _ _ Hc).
  pose proof (push_at _ _ _ Hc Hb) as Hp.
  rewrite (bind_ok _ _ _ _ _ (mycpu_at _ _ _ Hp eq_refl)), bind_gets.
  by mstep (popcli_spec _ _ _ Hc).
Qed.

Lemma myproc_spec k c cp :
  cpu_at k c cp → c_ncli cp + 1 < 2 ^ 30 → myproc k = (Ok (c_proc cp), k).
Proof.
  intros Hc Hb. unfold myproc. mstep (pushcli_spec _ _ _ Hc).
  pose proof (push_at _ _ _ Hc Hb) as Hp.
  mstep (mycpu_at _ _ _ Hp eq_refl).
  mstep (the_cpu_at _ _ _ (ca_cpu _ _ _ Hp)).
  by mstep (popcli_spec _ _ _ Hc).
Qed.

Lemma acquire_spec lk k c cp :
  cpu_at k c cp → c_ncli cp + 2 < 2 ^ 30 → free lk k → acquire lk k = (Ok tt, locked lk c k).
Proof.
  intros Hc Hb Hf. unfold acquire. mstep (pushcli_spec _ _ _ Hc).
  assert (cpu_at (push c k) c (pushed cp)) as Hp by (apply push_at; [done|lia]).
  assert (c_ncli (pushed cp) + 1 < 2 ^ 30) as Hb' by (unfold pushed, upd; simpl; lia).
  mstep (holding_spec lk _ _ _ Hp Hb').
  change (k_locks (push c k)) with (k_locks k). unfold free in Hf. rewrite Hf.
  rewrite bool_decide_false by done. rewrite bind_gets. change (k_locks (push c k)) with (k_locks k).
  rewrite Hf. by mstep (mycpu_at _ _ _ Hp eq_refl).
Qed.

(** Acquiring a lock this processor already holds panics; a lock another one
    holds makes it spin. *)
Lemma acquire_held lk k c cp h :
  cpu_at k c cp → c_ncli cp + 2 < 2 ^ 30 → lock_holder lk (k_locks k) = Some h →
  acquire lk k = (Stop (if decide (h = c) then Panicked "acquire" else Spin), push c k).
Proof.
  intros Hc Hb Hf. unfold acquire. mstep (pushcli_spec _ _ _ Hc).
  assert (cpu_at (push c k) c (pushed cp)) as Hp by (apply push_at; [done|lia]).
  assert (c_ncli (pushed cp) + 1 < 2 ^ 30) as Hb' by (unfold pushed, upd; simpl; lia).
  mstep (holding_spec lk _ _ _ Hp Hb').
  change (k_locks (push c k)) with (k_locks k). rewrite Hf. case_decide as E.
  - by rewrite bool_decide_true by congruence.
  - rewrite bool_decide_false by congruence. rewrite bind_gets.
    change (k_locks (push c k)) with (k_locks k). by rewrite Hf.
Qed.

Lemma unlock_free lk ls : lock_holder lk ls = None → unlock lk ls = ls.
Proof.
  induction ls as [|[l c] ls IH]; simpl; [done|]. case_decide as E; [done|]. intros H.
  unfold unlock in *. rewrite filter_cons_True by done. by rewrite IH.
Qed.

Lemma unlock_locked lk c ls : lock_holder lk ls = None → unlock lk ((lk, c) :: ls) = ls.
Proof.
  intros H. unfold unlock. rewrite filter_cons_False by (simpl; tauto). by apply unlock_free.
Qed.

Lemma locked_at lk k c cp :
  cpu_at k c cp → c_ncli cp + 1 < 2 ^ 30 → cpu_at (locked lk c k) c (pushed cp).
Proof. intros Hc Hb. destruct (push_at _ _ _ Hc Hb). by split. Qed.

(** Releasing a lock that this processor holds, not necessarily the last one
    it took. *)
Lemma release_any lk ls k c cp :
  cpu_at k c cp → c_ncli cp + 2 < 2 ^ 30 → lock_holder lk ls = Some c →
  release lk (push c k <| k_locks := ls |>) = (Ok tt, k <| k_locks := unlock lk ls |>).
Proof.
  intros Hc Hb Hh. unfold release.
  assert (cpu_at (push c k <| k_locks := ls |>) c (pushed cp)) as Hl.
  { destruct (push_at _ _ _ Hc ltac:(lia)). by split. }
  assert (c_ncli (pushed cp) + 1 < 2 ^ 30) as Hb' by (unfold pushed, upd; simpl; lia).
  mstep (holding_spec lk _ _ _ Hl Hb').
  rewrite bool_decide_true by done. cbn [negb]. rewrite bind_modify.
  change (push c k <| k_locks := ls |> <| k_locks ::= unlock lk |>)
    with (push c (k <| k_locks := unlock lk ls |>)).
  eapply (popcli_spec _ _ cp). by destruct Hc.
Qed.

Lemma release_spec lk k c cp :
  cpu_at k c cp → c_ncli cp + 2 < 2 ^ 30 → free lk k → release lk (locked lk c k) = (Ok tt, k).
Proof.
  intros Hc Hb Hf.
  change (locked lk c k) with (push c k <| k_locks := (lk, c) :: k_locks k |>).
  erewrite release_any; [|done|done|by simpl; rewrite decide_True].
  f_equal. rewrite unlock_locked by done. by destruct k.
Qed.

(** A section of code between [acquire lk] and [release lk] that maps [k] to
    [k'] as seen below the lock. *)
Lemma critical_section {A} lk (body : K A) k k' c cp a :
  cpu_at k c cp → cpu_at k' c cp → c_ncli cp + 2 < 2 ^ 30 → free lk k → free lk k' →
  body (locked lk c k) = (Ok a, locked lk c k') →
  (acquire lk;; r ← body; release lk;; mret r) k = (Ok a, k').
Proof.
  intros Hc Hc' Hb Hf Hf' Hbody. mstep (acquire_spec _ _ _ _ Hc Hb Hf).
  mstep Hbody.
  by mstep (release_spec _ _ _ _ Hc' Hb Hf').
Qed.

(** ** Nesting *)

Fixpoint locked_all (ls : list lockid) (c : nat) (k : kernel) : kernel :=
  match ls with
  | [] => k
  | l :: ls' => locked_all ls' c (locked l c k)
  end.

Lemma free_locked l l' c k : l ≠ l' → free l k → free l (locked l' c k).
Proof. intros Hne Hf. unfold free, locked, upd. simpl. by rewrite decide_False. Qed.

Lemma locked_holder l c k : lock_holder l (k_locks (locked l c k)) = Some c.
Proof. unfold locked, upd. simpl. by rewrite decide_True. Qed.

Lemma locked_all_holder l ls c k :
  l ∉ ls → lock_holder l (k_locks (locked_all ls c k)) = lock_holder l (k_locks k).
Proof.
  revert k. induction ls as [|l' ls IH]; intros k Hn; [done|]. apply not_elem_of_cons in Hn as [H1 H2].
  simpl. rewrite IH by done. unfold locked, upd. simpl. by rewrite decide_False.
Qed.

Lemma each_app {S I} (body : I → M S unit) l1 l2 s :
  each body (l1 ++ l2) s = (each body l1;; each body l2) s.
Proof.
  revert s. induction l1 as [|i l1 IH]; intros s; [done|]. simpl. rewrite bind_assoc.
  unfold mbind, M_bind. destruct (body i s) as [[[]|e] s']; [|done]. apply IH.
Qed.

Lemma acquire_all ls k c cp :
  cpu_at k c cp → c_ncli cp + Z.of_nat (length ls) + 2 < 2 ^ 30 → NoDup ls →
  (∀ l, l ∈ ls → free l k) →
  each acquire ls k = (Ok tt, locked_all ls c k) ∧
  each release (reverse ls) (locked_all ls c k) = (Ok tt, k) ∧
  ∃ cp', cpu_at (locked_all ls c k) c cp' ∧ c_ncli cp' = c_ncli cp + Z.of_nat (length ls).
Proof.
  revert k cp. induction ls as [|l ls IH]; intros k cp Hc Hb Hnd Hf; simpl in *.
  { split_and!; [done|done|]. exists cp. split; [done|lia]. }
  apply NoDup_cons in Hnd as [Hnl Hnd].
  assert (free l k) as Hl by (apply Hf; left).
  destruct (IH (locked l c k) (pushed cp)) as (I1 & I2 & cp' & I3 & I4).
  - apply locked_at; [done|lia].
  - unfold pushed, upd; simpl; lia.
  - done.
  - intros l' Hl'. apply free_locked; [set_solver|]. apply Hf. by right.
  - split_and!.
    + mstep (acquire_spec l k c cp Hc ltac:(lia) Hl). done.
    + rewrite reverse_cons, each_app, (bind_ok _ _ _ _ _ I2). simpl.
      mstep (release_spec l k c cp Hc ltac:(lia) Hl). done.
    + exists cp'. split; [done|]. rewrite I4. unfold pushed, upd. simpl. lia.
Qed.

(** Any distinct free spin locks can be acquired one inside the other;
    meanwhile interrupts are off on the processor, it holds each of the locks,
    and acquiring one of them again panics; releasing them in the opposite
    order restores the kernel state exactly, the interrupt flag included. *)
Theorem locks_nest ls k c cp :
  cpu_at k c cp → c_ncli cp + Z.of_nat (length ls) + 2 < 2 ^ 30 → NoDup ls →
  (∀ l, l ∈ ls → free l k) →
  each acquire ls k = (Ok tt, locked_all ls c k) ∧
  each release (reverse ls) (locked_all ls c k) = (Ok tt, k) ∧
  (ls ≠ [] → read_if (locked_all ls c k) = false) ∧
  (∀ l, l ∈ ls → holding l (locked_all ls c k) = (Ok true, locked_all ls c k) ∧
     (acquire l (locked_all ls c k)).1 = Stop (Panicked "acquire")).
Proof.
  intros Hc Hb Hnd Hf. destruct (acquire_all ls k c cp Hc Hb Hnd Hf) as (H1 & H2 & cp' & H3 & H4).
  assert (∀ l, l ∈ ls → lock_holder l (k_locks (locked_all ls c k)) = Some c) as Hh.
  { clear -Hnd. revert k. induction ls as [|l ls IH]; intros k l' Hl'; [by apply not_elem_of_nil in Hl'|].
    apply NoDup_cons in Hnd as [Hnl Hnd]. simpl. apply elem_of_cons in Hl' as [->|Hl'].
    - by rewrite locked_all_holder, locked_holder.
    - by apply IH. }
  split_and!; [done|done| |].
  - intros Hne. rewrite (read_if_at _ _ _ H3). apply (ca_off _ _ _ H3).
    pose proof (ca_ncli _ _ _ Hc). destruct ls; [done|]. simpl length in *. lia.
  - intros l Hl. specialize (Hh l Hl). split.
    + rewrite (holding_spec l _ _ _ H3) by lia. by rewrite bool_decide_true.
    + rewrite (acquire_held l _ _ _ c H3) by (lia || done). simpl. by rewrite decide_True.
Qed.

Lemma cpu0_at k : k_lapicid k = 0 → k_cpus k = [cpu0] → cpu_at k 0 cpu0.
Proof.
  intros H1 H2. split; unfold this_cpu; rewrite ?H1, ?H2; simpl; try done; lia.
Qed.

Lemma locks_nest_witness :
  (each acquire [L_log; L_ptable] boot0).1 = Ok tt ∧
  each release [L_ptable; L_log] (locked_all [L_log; L_ptable] 0 boot0) = (Ok tt, boot0).
Proof.
  destruct (locks_nest [L_log; L_ptable] boot0 0 cpu0) as (A1 & A2 & _).
  - by apply cpu0_at.
  - simpl. lia.
  - apply NoDup_cons. split; [set_solver|]. apply NoDup_singleton.
  - intros l _. done.
  - by rewrite A1.
Defined.

#[global] Opaque acquire release holding myproc mycpu pushcli popcli.
