(* ===== verification/SpinlockSmp.v ===== *)
(** * The kernel spin lock on several processors (spinlock.c)

    [acquire] and [release] as each of [n] processors runs them, one access to
    the lock's words per step: the [holding] check that guards against taking
    the lock twice reads [locked] and then [cpu]; [acquire] then exchanges
    [locked] until it reads 0 and records the processor; [release] checks
    [holding], clears [cpu] and stores 0 to [locked].  Memory is sequentially
    consistent, which the barriers of the code ask for. *)

From S2P Require Import Prelude LibLock.

Record spinlock := Spinlock { sp_locked : Z; sp_cpu : option nat }.

Inductive smp_pc :=
| SmpIdle
| AcqLocked           (* holding in acquire: reads lk->locked *)
| AcqCpu              (* and then lk->cpu *)
| AcqXchg             (* while(xchg(&lk->locked, 1) != 0) *)
| AcqRecord           (* lk->cpu = mycpu() *)
| SmpHeld
| RelLocked           (* holding in release *)
| RelCpu
| RelClear            (* lk->cpu = 0 *)
| RelStore            (* movl $0, lk->locked *)
| SmpPanic.

Definition initlock_smp : spinlock := {| sp_locked := 0; sp_cpu := None |}.

Definition acquire_smp (t : nat) (lk : spinlock) (pc : smp_pc) : spinlock * smp_pc :=
  match pc with
  | AcqLocked => (lk, if decide (sp_locked lk ≠ 0) then AcqCpu else AcqXchg)
  | AcqCpu => (lk, if decide (sp_cpu lk = Some t) then SmpPanic else AcqXchg)
  | AcqXchg =>
      let '(old, new) := xchg (sp_locked lk) 1 in
      ({| sp_locked := new; sp_cpu := sp_cpu lk |}, if decide (old ≠ 0) then AcqXchg else AcqRecord)
  | AcqRecord => ({| sp_locked := sp_locked lk; sp_cpu := Some t |}, SmpHeld)
  | _ => (lk, pc)
  end.

Definition release_smp (t : nat) (lk : spinlock) (pc : smp_pc) : spinlock * smp_pc :=
  match pc with
  | RelLocked => (lk, if decide (sp_locked lk ≠ 0) then RelCpu else SmpPanic)
  | RelCpu => (lk, if decide (sp_cpu lk = Some t) then RelClear else SmpPanic)
  | RelClear => ({| sp_locked := sp_locked lk; sp_cpu := None |}, RelStore)
  | RelStore => ({| sp_locked := 0; sp_cpu := sp_cpu lk |}, SmpIdle)
  | _ => (lk, pc)
  end.

Definition smp_exec (t : nat) (lk : spinlock) (pc : smp_pc) : spinlock * smp_pc :=
  match pc with
  | AcqLocked | AcqCpu | AcqXchg | AcqRecord => acquire_smp t lk pc
  | RelLocked | RelCpu | RelClear | RelStore => release_smp t lk pc
  | SmpIdle | SmpHeld | SmpPanic => (lk, pc)
  end.

Definition smp_code : lock_code spinlock smp_pc := {|
  lc_idle := SmpIdle;
  lc_acquire := AcqLocked;
  lc_release := RelLocked;
  lc_held := λ pc, match pc with SmpHeld => true | _ => false end;
  lc_is_idle := λ pc, match pc with SmpIdle => true | _ => false end;
  lc_exec := smp_exec |}.

(** ** Invariant *)

(** The exchange of this processor read 0 and its store of 0 is still to come. *)
Definition owner (pc : smp_pc) : bool :=
  match pc with
  | AcqRecord | SmpHeld | RelLocked | RelCpu | RelClear | RelStore => true
  | _ => false
  end.
(** Its name is in [lk->cpu]. *)
Definition recorded (pc : smp_pc) : bool :=
  match pc with SmpHeld | RelLocked | RelCpu | RelClear => true | _ => false end.

Record smp_inv (lk : spinlock) (L : list smp_pc) : Prop := {
  si_one : ∀ t u x y, L !! t = Some x → L !! u = Some y → owner x = true → owner y = true → t = u;
  si_taken : ∀ t x, L !! t = Some x → owner x = true → sp_locked lk ≠ 0;
  si_free : sp_locked lk ≠ 0 → ∃ t x, L !! t = Some x ∧ owner x = true;
  si_cpu : ∀ t x, L !! t = Some x → recorded x = true → sp_cpu lk = Some t;
  si_rec : ∀ t x, L !! t = Some x → sp_cpu lk = Some t → recorded x = true;
  si_calm : ∀ t x, L !! t = Some x → x ≠ SmpPanic }.

Lemma recorded_owner x : recorded x = true → owner x = true.
Proof. by destruct x. Qed.

(** A step that leaves the lock's words alone and keeps the processor's standing. *)
Lemma smp_quiet lk L t x y :
  smp_inv lk L → L !! t = Some x → owner y = owner x → recorded y = recorded x → y ≠ SmpPanic →
  smp_inv lk (<[t := y]> L).
Proof.
  intros [I1 I2 I3 I4 I5 I6] Ht Ho Hr Hp. pose proof (lookup_lt_Some _ _ _ Ht). split.
  - intros u v a b Hu Hv Ha Hb. vec_cases; try done; rewrite ?Ho in *; eauto.
  - intros u a Hu Ha. vec_cases; rewrite ?Ho in *; eauto.
  - intros Hl. destruct (I3 Hl) as (u & a & Hu & Ha). destruct (decide (u = t)) as [->|Hne].
    + exists t, y. rewrite list_lookup_insert_eq by done. simplify_eq. by rewrite Ho.
    + exists u, a. by rewrite list_lookup_insert_ne.
  - intros u a Hu Ha. vec_cases; rewrite ?Hr in *; eauto.
  - intros u a Hu Ha. vec_cases; [rewrite Hr|]; eauto.
  - intros u a Hu. vec_cases; eauto.
Qed.

(** A step of the only processor that can own the lock. *)
Lemma smp_mine lk lk' L t x y :
  smp_inv lk L → L !! t = Some x → (∀ u z, u ≠ t → L !! u = Some z → owner z = false) →
  (owner y = true ↔ sp_locked lk' ≠ 0) → (recorded y = true ↔ sp_cpu lk' = Some t) →
  (∀ u z, u ≠ t → L !! u = Some z → sp_cpu lk' ≠ Some u) → y ≠ SmpPanic →
  smp_inv lk' (<[t := y]> L).
Proof.
  intros I Ht Hno Ho Hr Hc Hp. pose proof (lookup_lt_Some _ _ _ Ht) as Hlt. split.
  - intros u v a b Hu Hv Ha Hb. vec_cases; try done;
      by rewrite (Hno _ _ ltac:(eassumption) ltac:(eassumption)) in *.
  - intros u a Hu Ha. vec_cases; [by apply Ho|].
    by rewrite (Hno _ _ ltac:(eassumption) ltac:(eassumption)) in *.
  - intros Hl. exists t, y. rewrite list_lookup_insert_eq by done. split; [done|]. by apply Ho.
  - intros u a Hu Ha. vec_cases; [by apply Hr|]. apply recorded_owner in Ha.
    by rewrite (Hno _ _ ltac:(eassumption) ltac:(eassumption)) in *.
  - intros u a Hu Ha. vec_cases; [by apply Hr|]. by destruct (Hc u a).
  - intros u a Hu. vec_cases; [done|]. by eapply si_calm.
Qed.

Lemma smp_others lk L t x :
  smp_inv lk L → L !! t = Some x → owner x = true →
  ∀ u z, u ≠ t → L !! u = Some z → owner z = false.
Proof.
  intros I Ht Hx u z Hne Hu. destruct (owner z) eqn:Ho; [|done].
  by destruct (si_one _ _ I u t _ _ Hu Ht).
Qed.

Lemma smp_step lk L lk' L' :
  smp_inv lk L → lstep smp_code (lk, L) (lk', L') → smp_inv lk' L'.
Proof.
  intros I Hs. inversion Hs as [s M t x Ht Hid|s M t x Ht Hh|s M t x s' y Ht Hid Hh He]; subst.
  - by destruct x; try done; eapply smp_quiet.
  - by destruct x; try done; eapply smp_quiet.
  - pose proof I as [I1 I2 I3 I4 I5 I6].
    destruct x; simpl in He; try done; try (injection He as <- <-); [..|by destruct (I6 _ _ Ht)].
    + eapply smp_quiet; [done|done| | |]; by case_decide.
    + case_decide as E; [by specialize (I5 _ _ Ht E)|]. by eapply smp_quiet.
    + destruct lk as [w p]; simpl in *. case_decide as E.
      * eapply smp_quiet; [|done..]. by split; simpl; eauto.
      * assert (w = 0) as -> by (destruct (decide (w = 0)); tauto).
        eapply smp_mine; [done|done| |done| | |done]; simpl.
        -- intros u z _ Hu. destruct (owner z) eqn:Ho; [|done]. by destruct (I2 _ _ Hu Ho).
        -- split; [done|]. intros Hp. by specialize (I5 _ _ Ht Hp).
        -- intros u z _ Hu Hp. specialize (I5 _ _ Hu Hp). apply recorded_owner in I5.
           by destruct (I2 _ _ Hu I5).
    + eapply smp_mine; [done|done|by eapply smp_others| | | |done]; simpl; [|done|naive_solver].
      split; [|done]. intros _. by eapply (I2 t).
    + rewrite decide_True by (by eapply (I2 t)). by eapply smp_quiet.
    + rewrite decide_True by (by eapply (I4 t)). by eapply smp_quiet.
    + eapply smp_mine; [done|done|by eapply smp_others| | | |done]; simpl; [|done|done].
      split; [|done]. intros _. by eapply (I2 t).
    + eapply smp_mine; [done|done|by eapply smp_others|done| | |done]; simpl.
      * split; [done|]. intros Hp. by specialize (I5 _ _ Ht Hp).
      * intros u z Hne Hu Hp. specialize (I5 _ _ Hu Hp). apply recorded_owner in I5.
        by destruct (I1 u t _ _ Hu Ht).
Qed.

Lemma smp_inv_reachable n lk L :
  lreachable smp_code initlock_smp n lk L → smp_inv lk L ∧ length L = n.
Proof.
  apply lreachable_ind.
  - split; try (intros t x Hx; apply lookup_replicate in Hx as [-> _]; done); try done.
    intros t u x y Hx _ Ho. apply lookup_replicate in Hx as [-> _]. done.
  - intros s L' s' L'' Hi _ Hs. by eapply smp_step.
Qed.

#[global] Instance smp_mutex_lock n : MutexLock smp_code initlock_smp n.
Proof.
  split; [|done|by intros t s []].
  intros s L Hr t1 t2 x y H1 H2 Hx Hy. destruct (smp_inv_reachable _ _ _ Hr) as [I _].
  eapply (si_one _ _ I); [done|done|by destruct x|by destruct y].
Qed.

(** C33: whatever [n] processors do with a spin lock, at most one holds it,
    [holding] never misjudges (no processor panics in [acquire] or [release],
    although the check reads the lock's two words without the lock), a
    processor that holds the lock is named in [lk->cpu], and the lock's word is
    set exactly while some processor is between its exchange and its store. *)
Theorem spinlock_smp_safe n lk L :
  lreachable smp_code initlock_smp n lk L →
  mutex smp_code L ∧
  (∀ t pc, L !! t = Some pc → pc ≠ SmpPanic) ∧
  (∀ t, L !! t = Some SmpHeld → sp_locked lk ≠ 0 ∧ sp_cpu lk = Some t) ∧
  (sp_locked lk ≠ 0 ↔ ∃ t pc, L !! t = Some pc ∧ owner pc = true).
Proof.
  intros Hr. destruct (smp_inv_reachable _ _ _ Hr) as [I _]. split_and!.
  - exact (mutex_safe _ _ _ Hr).
  - intros t pc. apply (si_calm _ _ I).
  - intros t Ht. split; [by eapply (si_taken _ _ I)|by eapply (si_cpu _ _ I)].
  - split; [apply (si_free _ _ I)|]. intros (t & pc & Ht & Ho). by eapply (si_taken _ _ I).
Qed.

(** Two processors: the second spins while the first holds the lock. *)
Lemma spinlock_smp_safe_witness :
  let x := lrun smp_code [0; 0; 0; 0; 1; 1; 1; 1]%nat (initlock_smp, [SmpIdle; SmpIdle]) in
  x.2 = [SmpHeld; AcqXchg] ∧ mutex smp_code x.2 ∧ sp_cpu x.1 = Some 0%nat.
Proof.
  intros x.
  assert (lreachable smp_code initlock_smp 2 x.1 x.2) as Hr.
  { unfold lreachable. replace (x.1, x.2) with x by done. apply lrun_rtc. }
  destruct (spinlock_smp_safe 2 x.1 x.2 Hr) as (H1 & _ & H3 & _).
  split; [reflexivity|]. split; [exact H1|]. by apply H3.
Defined.
