(* ===== verification/Segs.v ===== *)
(** * Segments and gates (mmu.h; vm.c: seginit; trap.c: tvinit)

    Segment and gate descriptors with the fields of the source, packed into the 64 bits that
    the processor reads; the descriptor table that [seginit] makes and the interrupt table
    that [tvinit] makes.  [interrupt] is what the processor does with them, from its manual:
    the address and the privilege level at which it goes on.

    Theorem: user code can enter the kernel by an int instruction through the gate for system
    calls only. *)

From S2P Require Import Prelude State Spinlock.

Notation STA_X := 0x8.
Notation STA_W := 0x2.
Notation STA_R := 0x2.
Notation STS_T32A := 0x9.
Notation STS_IG32 := 0xE.
Notation STS_TG32 := 0xF.
Notation DPL_USER := 3.
Notation SEG_KCODE := 1.
Notation NSEGS := 6%nat.

(** ** Descriptors *)

Record segdesc := Segdesc {
  lim_15_0 : Z; base_15_0 : Z; base_23_16 : Z; type : Z; s : Z; dpl : Z; p : Z;
  lim_19_16 : Z; avl : Z; rsv1 : Z; db : Z; g : Z; base_31_24 : Z }.

Definition SEG (type base lim dpl : Z) : segdesc :=
  Segdesc (Z.land (Z.shiftr lim 12) 0xffff) (Z.land (u32 base) 0xffff) (Z.land (Z.shiftr (u32 base) 16) 0xff)
    type 1 dpl 1 (Z.shiftr (u32 lim) 28) 0 0 1 1 (Z.shiftr (u32 base) 24).
Definition SEG16 (type base lim dpl : Z) : segdesc :=
  Segdesc (Z.land lim 0xffff) (Z.land (u32 base) 0xffff) (Z.land (Z.shiftr (u32 base) 16) 0xff)
    type 1 dpl 1 (Z.shiftr (u32 lim) 16) 0 0 1 0 (Z.shiftr (u32 base) 24).

Record gatedesc := Gatedesc {
  off_15_0 : Z; gd_cs : Z; gd_args : Z; gd_rsv1 : Z; gd_type : Z; gd_s : Z; gd_dpl : Z; gd_p : Z; off_31_16 : Z }.

Definition SETGATE (istrap : bool) (sel off d : Z) : gatedesc :=
  Gatedesc (Z.land (u32 off) 0xffff) sel 0 0 (if istrap then STS_TG32 else STS_IG32) 0 d 1 (Z.shiftr (u32 off) 16).

(** Bit fields, from the lowest bits up; a field keeps the low bits of its value. *)
Fixpoint pack (l : list (Z * Z)) : Z :=
  match l with [] => 0 | (w, x) :: l => x mod 2 ^ w + 2 ^ w * pack l end.
Definition seg_bits (d : segdesc) : Z :=
  pack [(16, lim_15_0 d); (16, base_15_0 d); (8, base_23_16 d); (4, type d); (1, s d); (2, dpl d); (1, p d);
        (4, lim_19_16 d); (1, avl d); (1, rsv1 d); (1, db d); (1, g d); (8, base_31_24 d)].
Definition gate_bits (d : gatedesc) : Z :=
  pack [(16, off_15_0 d); (16, gd_cs d); (5, gd_args d); (3, gd_rsv1 d); (4, gd_type d); (1, gd_s d); (2, gd_dpl d);
        (1, gd_p d); (16, off_31_16 d)].

(** ** The tables *)

Definition seginit (gdt : list segdesc) : list segdesc :=
  <[4%nat := SEG STA_W 0 0xffffffff DPL_USER]>
    (<[3%nat := SEG (Z.lor STA_X STA_R) 0 0xffffffff DPL_USER]>
      (<[2%nat := SEG STA_W 0 0xffffffff 0]>
        (<[1%nat := SEG (Z.lor STA_X STA_R) 0 0xffffffff 0]> gdt))).

(** The descriptor of the task state segment at [ts], 104 bytes, as [switchuvm] makes it. *)
Definition tss_gdt (ts : Z) (gdt : list segdesc) : list segdesc :=
  let d := SEG16 STS_T32A ts (104 - 1) 0 in
  <[5%nat := Segdesc (lim_15_0 d) (base_15_0 d) (base_23_16 d) (type d) 0 (dpl d) (p d) (lim_19_16 d) (avl d) (rsv1 d)
               (db d) (g d) (base_31_24 d)]> gdt.

(** The part of [tvinit] that fills the table; [vectors] are the entry points of vectors.S. *)
Definition tvinit_idt (vectors : nat → Z) (idt : list gatedesc) : list gatedesc :=
  let idt := foldl (λ t i, <[i := SETGATE false (Z.shiftl SEG_KCODE 3) (vectors i) 0]> t) idt (seq 0 256) in
  <[64%nat := SETGATE true (Z.shiftl SEG_KCODE 3) (vectors 64%nat) DPL_USER]> idt.

(** ** The processor *)

Definition bits (off w b : Z) : Z := (b / 2 ^ off) mod 2 ^ w.

(** A segment descriptor as the processor takes it apart. *)
Definition sd_base (b : Z) : Z := bits 16 16 b + 2 ^ 16 * bits 32 8 b + 2 ^ 24 * bits 56 8 b.
Definition sd_limit (b : Z) : Z :=
  let lim := bits 0 16 b + 2 ^ 16 * bits 48 4 b in
  if decide (bits 55 1 b = 1) then lim * 4096 + 4095 else lim.
Definition sd_type (b : Z) : Z := bits 40 4 b.
Definition sd_app (b : Z) : bool := bool_decide (bits 44 1 b = 1).
Definition sd_dpl (b : Z) : Z := bits 45 2 b.
Definition sd_present (b : Z) : bool := bool_decide (bits 47 1 b = 1).

(** A gate descriptor. *)
Definition gt_offset (b : Z) : Z := bits 0 16 b + 2 ^ 16 * bits 48 16 b.
Definition gt_selector (b : Z) : Z := bits 16 16 b.
Definition gt_type (b : Z) : Z := bits 40 4 b.
Definition gt_dpl (b : Z) : Z := bits 45 2 b.
Definition gt_present (b : Z) : bool := bool_decide (bits 47 1 b = 1).

Record entered := Entered { en_cpl : Z; en_eip : Z; en_if_off : bool }.

(** Interrupt [n] at privilege level [cpl], by an int instruction or by the hardware.  Nothing
    when the processor raises a fault instead. *)
Definition interrupt (gdt idt : list Z) (soft : bool) (cpl : Z) (n : nat) : option entered :=
  b ← idt !! n;
  if negb (gt_present b) then None else
  if decide (gt_type b ≠ STS_IG32 ∧ gt_type b ≠ STS_TG32) then None else
  if soft && bool_decide (gt_dpl b < cpl) then None else
  c ← gdt !! Z.to_nat (gt_selector b / 8);
  if negb (sd_present c && sd_app c) || bool_decide (Z.land (sd_type c) STA_X = 0) then None else
  if decide (cpl < sd_dpl c ∨ sd_limit c < gt_offset b) then None else
  Some (Entered (sd_dpl c) (sd_base c + gt_offset b) (bool_decide (gt_type b = STS_IG32))).

(** ** Properties *)

Lemma pack_range l : Forall (λ x, 0 ≤ x.1) l → 0 ≤ pack l.
Proof. induction 1 as [|[w x] l Hw _ IH]; simpl in *; [done|]. pose proof (Z.mod_pos_bound x (2 ^ w) ltac:(lia)). nia. Qed.

(** The field at its place. *)
Definition place (l : list (Z * Z)) (i : nat) : Z := foldr (λ x n, x.1 + n) 0 (take i l).

Lemma place_nonneg l i : Forall (λ x, 0 ≤ x.1) l → 0 ≤ place l i.
Proof.
  intros Hl. unfold place. revert i. induction Hl as [|y l Hy _ IH]; intros [|i]; cbn [take foldr]; try lia. specialize (IH i). lia.
Qed.

Lemma pack_field l i w x :
  Forall (λ x, 0 ≤ x.1) l → l !! i = Some (w, x) → bits (place l i) w (pack l) = x mod 2 ^ w.
Proof.
  intros Hl. revert i. induction Hl as [|[w0 x0] l Hw Hl IH]; intros i Hi; [done|]. cbn [pack]. simpl in Hw.
  assert (0 < 2 ^ w0) as Hp by lia. destruct i as [|i]; simpl in Hi.
  - injection Hi as -> ->. unfold place, bits. simpl. rewrite Z.div_1_r, Z.mul_comm, Z_mod_plus_full. apply Z.mod_mod. lia.
  - specialize (IH i Hi). change (place ((w0, x0) :: l) (S i)) with (w0 + place l i). rewrite <- IH. unfold bits.
    pose proof (place_nonneg l i Hl). rewrite Z.pow_add_r, <- Z.div_div by lia. do 2 f_equal. rewrite Z.mul_comm, Z.div_add by lia.
    rewrite Z.div_small by (apply Z.mod_pos_bound; lia). lia.
Qed.

Ltac field_at i :=
  match goal with
  | |- bits _ ?w (pack ?l) = ?x mod _ => refine (pack_field l i w x _ eq_refl); rewrite !Forall_cons, Forall_nil; simpl; lia
  end.

Lemma seg_bits_fields d : let x := seg_bits d in
  bits 0 16 x = lim_15_0 d mod 2 ^ 16 ∧ bits 16 16 x = base_15_0 d mod 2 ^ 16 ∧ bits 32 8 x = base_23_16 d mod 2 ^ 8 ∧
  bits 40 4 x = type d mod 2 ^ 4 ∧ bits 44 1 x = s d mod 2 ^ 1 ∧ bits 45 2 x = dpl d mod 2 ^ 2 ∧ bits 47 1 x = p d mod 2 ^ 1 ∧
  bits 48 4 x = lim_19_16 d mod 2 ^ 4 ∧ bits 55 1 x = g d mod 2 ^ 1 ∧ bits 56 8 x = base_31_24 d mod 2 ^ 8.
Proof.
  intros x. unfold x, seg_bits.
  split; [field_at 0%nat|]. split; [field_at 1%nat|]. split; [field_at 2%nat|]. split; [field_at 3%nat|]. split; [field_at 4%nat|].
  split; [field_at 5%nat|]. split; [field_at 6%nat|]. split; [field_at 7%nat|]. split; [field_at 11%nat|field_at 12%nat].
Qed.

Lemma gate_bits_fields d : let x := gate_bits d in
  bits 0 16 x = off_15_0 d mod 2 ^ 16 ∧ bits 16 16 x = gd_cs d mod 2 ^ 16 ∧ bits 40 4 x = gd_type d mod 2 ^ 4 ∧
  bits 45 2 x = gd_dpl d mod 2 ^ 2 ∧ bits 47 1 x = gd_p d mod 2 ^ 1 ∧ bits 48 16 x = off_31_16 d mod 2 ^ 16.
Proof.
  intros x. unfold x, gate_bits. split; [field_at 0%nat|]. split; [field_at 1%nat|]. split; [field_at 4%nat|].
  split; [field_at 6%nat|]. split; [field_at 7%nat|field_at 8%nat].
Qed.

Lemma base_split b : 0 ≤ b < 2 ^ 32 →
  Z.land (u32 b) 0xffff mod 2 ^ 16 + 2 ^ 16 * (Z.land (Z.shiftr (u32 b) 16) 0xff mod 2 ^ 8) + 2 ^ 24 * (Z.shiftr (u32 b) 24 mod 2 ^ 8) = b.
Proof.
  intros Hb. rewrite u32_small by done. change 0xffff with (Z.ones 16). change 0xff with (Z.ones 8).
  rewrite !Z.land_ones, !Z.shiftr_div_pow2 by lia. zlia.
Qed.

(** What the processor reads in the descriptors that the macros make. *)
Lemma SEG_fields t b l d :
  0 ≤ t < 16 → 0 ≤ d < 4 → 0 ≤ b < 2 ^ 32 → 0 ≤ l < 2 ^ 32 →
  let x := seg_bits (SEG t b l d) in
  sd_base x = b ∧ sd_limit x = 4096 * (l / 4096) + 4095 ∧ sd_type x = t ∧ sd_app x = true ∧ sd_dpl x = d ∧ sd_present x = true.
Proof.
  intros Ht Hd Hb Hl x. destruct (seg_bits_fields (SEG t b l d)) as (F0 & F1 & F2 & F3 & F4 & F5 & F6 & F7 & F11 & F12).
  fold x in F0, F1, F2, F3, F4, F5, F6, F7, F11, F12. cbn [SEG lim_15_0 base_15_0 base_23_16 type s dpl p lim_19_16 g base_31_24] in *.
  unfold sd_base, sd_limit, sd_type, sd_app, sd_dpl, sd_present. rewrite F0, F1, F2, F3, F4, F5, F6, F7, F11, F12. clearbody x. clear F0 F1 F2 F3 F4 F5 F6 F7 F11 F12.
  rewrite base_split by done. split_and!; try done.
  - rewrite decide_True by done. rewrite (u32_small l) by done. change 0xffff with (Z.ones 16). rewrite Z.land_ones, !Z.shiftr_div_pow2 by lia. zlia.
  - apply Z.mod_small. lia.
  - apply Z.mod_small. lia.
Qed.

(** The task state segment, where the processor finds the kernel stack: it is [ts], to its
    last byte, and a system segment that user code cannot load. *)
Lemma tss_fields ts gdt : length gdt = NSEGS → 0 ≤ ts < 2 ^ 32 →
  ∃ x, map seg_bits (tss_gdt ts gdt) !! 5%nat = Some x ∧ sd_base x = ts ∧ sd_limit x = 103 ∧ sd_type x = STS_T32A ∧
    sd_app x = false ∧ sd_dpl x = 0 ∧ sd_present x = true.
Proof.
  intros Hl Hb. unfold tss_gdt. cbv zeta. set (d := Segdesc _ _ _ _ _ _ _ _ _ _ _ _ _). exists (seg_bits d).
  split; [by rewrite list_lookup_fmap, list_lookup_insert_eq by lia|].
  destruct (seg_bits_fields d) as (F0 & F1 & F2 & F3 & F4 & F5 & F6 & F7 & F11 & F12).
  set (x := seg_bits d) in *. unfold sd_base, sd_limit, sd_type, sd_app, sd_dpl, sd_present.
  rewrite F0, F1, F2, F3, F4, F5, F6, F7, F11, F12. clearbody x. clear F0 F1 F2 F3 F4 F5 F6 F7 F11 F12.
  cbn [d SEG16 lim_15_0 base_15_0 base_23_16 type s dpl p lim_19_16 g base_31_24]. by rewrite base_split.
Qed.

Lemma SETGATE_fields istrap sel off d :
  0 ≤ sel < 2 ^ 16 → 0 ≤ off < 2 ^ 32 → 0 ≤ d < 4 →
  let x := gate_bits (SETGATE istrap sel off d) in
  gt_offset x = off ∧ gt_selector x = sel ∧ gt_type x = (if istrap then STS_TG32 else STS_IG32) ∧ gt_dpl x = d ∧ gt_present x = true.
Proof.
  intros Hs Ho Hd x. destruct (gate_bits_fields (SETGATE istrap sel off d)) as (F0 & F1 & F4 & F6 & F7 & F8).
  fold x in F0, F1, F4, F6, F7, F8. cbn [SETGATE off_15_0 gd_cs gd_type gd_dpl gd_p off_31_16] in *.
  unfold gt_offset, gt_selector, gt_type, gt_dpl, gt_present. rewrite F0, F1, F4, F6, F7, F8. clearbody x. clear F0 F1 F4 F6 F7 F8.
  rewrite u32_small by done. split_and!; [|by apply Z.mod_small|by destruct istrap|by apply Z.mod_small; lia|done].
  change 0xffff with (Z.ones 16). rewrite Z.land_ones, Z.shiftr_div_pow2 by lia. zlia.
Qed.

Lemma gates_filled f n : ∀ (idt : list gatedesc) k i,
  (i < length idt)%nat →
  foldl (λ t i, <[i := f i]> t) idt (seq k n) !! i = if decide (k ≤ i < k + n)%nat then Some (f i) else idt !! i.
Proof.
  induction n as [|n IH]; intros idt k i Hi; cbn [seq foldl]; [by rewrite decide_False by lia|].
  rewrite IH by (by rewrite length_insert). destruct (decide (i = k)) as [->|Hne].
  - rewrite decide_False, decide_True by lia. by rewrite list_lookup_insert_eq.
  - rewrite list_lookup_insert_ne by done. by repeat case_decide; try lia.
Qed.

Lemma tvinit_lookup vectors idt n : length idt = 256%nat → (n < 256)%nat →
  tvinit_idt vectors idt !! n =
  Some (if decide (n = 64%nat) then SETGATE true 8 (vectors n) DPL_USER else SETGATE false 8 (vectors n) 0).
Proof.
  intros Hl Hn. unfold tvinit_idt. cbv zeta. set (f := λ i, SETGATE false (Z.shiftl SEG_KCODE 3) (vectors i) 0).
  assert (∀ i, (i < 256)%nat → foldl (λ t i, <[i := f i]> t) idt (seq 0 256) !! i = Some (f i)) as H.
  { intros i Hi. rewrite gates_filled by lia. by rewrite decide_True by lia. }
  case_decide as E.
  - subst n. apply list_lookup_insert_eq. apply lookup_lt_Some with (f 64%nat). by apply H.
  - rewrite list_lookup_insert_ne by done. by apply H.
Qed.

Lemma seginit_lookup gdt : length gdt = NSEGS → ∀ i, (1 ≤ i ≤ 4)%nat →
  seginit gdt !! i = Some (SEG (if decide (i = 1 ∨ i = 3)%nat then Z.lor STA_X STA_R else STA_W) 0 0xffffffff (if decide (i ≤ 2)%nat then 0 else DPL_USER)).
Proof.
  intros Hl i Hi. destruct gdt as [|g0 [|g1 [|g2 [|g3 [|g4 [|g5 [|]]]]]]]; simplify_eq/=.
  assert (i = 1 ∨ i = 2 ∨ i = 3 ∨ i = 4)%nat as [->|[->|[->| ->]]] by lia; done.
Qed.

(** C-GATE: the way into the kernel.  With the tables that [seginit] and [tvinit] fill, the four
    segments cover all addresses, two of them for the kernel's privilege level and two for
    the user's.  A hardware interrupt or a fault with number [n], from user or kernel code,
    goes on at the kernel's entry point for [n] at the kernel's level; interrupts are off
    there unless [n] is the system call.  An int instruction of a user program does the
    same for the system call, and faults for every other number. *)
Theorem gates_enter_kernel vectors gdt idt :
  length gdt = NSEGS → length idt = 256%nat → (∀ i, (i < 256)%nat → 0 ≤ vectors i < 2 ^ 32) →
  let G := map seg_bits (seginit gdt) in
  let I := map gate_bits (tvinit_idt vectors idt) in
  (∀ i, (1 ≤ i ≤ 4)%nat → ∃ x, G !! i = Some x ∧ sd_base x = 0 ∧ sd_limit x = 2 ^ 32 - 1 ∧ sd_present x = true ∧
     sd_dpl x = if decide (i ≤ 2)%nat then 0 else DPL_USER) ∧
  (∀ n soft cpl, (n < 256)%nat → cpl = 0 ∨ cpl = DPL_USER →
     interrupt G I soft cpl n =
     if soft && bool_decide (cpl = DPL_USER ∧ n ≠ 64%nat) then None
     else Some (Entered 0 (vectors n) (bool_decide (n ≠ 64%nat)))).
Proof.
  intros Hg Hi Hv G I. split.
  - intros i Hin. exists (seg_bits (SEG (if decide (i = 1 ∨ i = 3)%nat then Z.lor STA_X STA_R else STA_W) 0 0xffffffff (if decide (i ≤ 2)%nat then 0 else DPL_USER))).
    destruct (SEG_fields (if decide (i = 1 ∨ i = 3)%nat then Z.lor STA_X STA_R else STA_W) 0 0xffffffff (if decide (i ≤ 2)%nat then 0 else DPL_USER))
      as (E1 & E2 & _ & _ & E5 & E6); [by case_decide|by case_decide|done|done|].
    split; [|by split_and!; try done; rewrite E2]. unfold G. by rewrite list_lookup_fmap, seginit_lookup.
  - intros n soft cpl Hn Hc. unfold interrupt, G, I. rewrite list_lookup_fmap, tvinit_lookup by done. cbn [fmap option_fmap option_map mbind option_bind].
    set (b := gate_bits _). specialize (Hv n Hn).
    assert (gt_offset b = vectors n ∧ gt_selector b = 8 ∧ gt_type b = (if decide (n = 64%nat) then STS_TG32 else STS_IG32) ∧
      gt_dpl b = (if decide (n = 64%nat) then DPL_USER else 0) ∧ gt_present b = true) as (B1 & B2 & B3 & B4 & B5).
    { unfold b. case_decide; by apply SETGATE_fields. }
    rewrite B1, B2, B3, B4, B5. change (Z.to_nat (8 / 8)) with 1%nat. rewrite list_lookup_fmap, seginit_lookup by (done || lia).
    clearbody b. cbn [fmap option_fmap option_map mbind option_bind negb].
    rewrite (decide_True (P := (1 = 1 ∨ 1 = 3)%nat)), (decide_True (P := (1 ≤ 2)%nat)) by lia.
    destruct (SEG_fields (Z.lor STA_X STA_R) 0 0xffffffff 0) as (E1 & E2 & E3 & E4 & E5 & E6); [done..|].
    set (c := seg_bits _) in *. clearbody c. rewrite E1, E2, E3, E4, E5, E6.
    change (4096 * (0xffffffff / 4096) + 4095) with 0xffffffff. rewrite decide_False by (case_decide; lia).
    rewrite (decide_False (P := cpl < 0 ∨ _)) by lia. cbn [andb negb orb].
    rewrite (bool_decide_eq_false_2 (Z.land (Z.lor STA_X STA_R) STA_X = 0)) by done.
    destruct soft, (decide (n = 64%nat)) as [En|En], Hc as [->| ->]; cbn [andb];
      rewrite ?(bool_decide_eq_true_2 (n ≠ 64%nat)), ?(bool_decide_eq_false_2 (n ≠ 64%nat)) by tauto;
      rewrite ?bool_decide_eq_true_2, ?bool_decide_eq_false_2 by lia; done.
Qed.

Lemma gates_enter_kernel_witness :
  let G := map seg_bits (seginit (replicate 6 (SEG 0 0 0 0))) in
  let I := map gate_bits (tvinit_idt (λ i, 0x80100000 + 16 * Z.of_nat i) (replicate 256 (SETGATE false 0 0 0))) in
  interrupt G I true 3 64 = Some (Entered 0 0x80100400 false) ∧ interrupt G I true 3 33 = None ∧
  interrupt G I false 3 33 = Some (Entered 0 0x80100210 true).
Proof.
  intros G I. destruct (gates_enter_kernel (λ i, 0x80100000 + 16 * Z.of_nat i) (replicate 6 (SEG 0 0 0 0)) (replicate 256 (SETGATE false 0 0 0)))
    as [_ H]; [done|done|lia|]. fold G I in H. clearbody G I.
  split; [|split]; rewrite H by lia; reflexivity.
Defined.
