(* ===== verification/Cons.v ===== *)
(** * Console output (console.c: printint, cprintf, cgaputc, consputc)

    Formatting is a pure function from a format and its arguments to the
    characters printed; [k_out] collects the characters given to [consputc], and
    the serial line and the screen are functions of that list. *)

From S2P Require Import Prelude State Spinlock.

(** ** Formatting *)

(** The character codes of a string constant, and a newline for such constants. *)
Definition ascii_codes (s : string) : list Z :=
  map (λ c, Z.of_nat (Ascii.nat_of_ascii c)) (String.list_ascii_of_string s).
Definition nl : string := String (Ascii.ascii_of_nat 10) EmptyString.
(** The bytes of a C string in a buffer: those before the first NUL. *)
Fixpoint until_zero (l : list Z) : list Z :=
  match l with
  | [] => []
  | c :: l' => if decide (c = 0) then [] else c :: until_zero l'
  end.

Definition digits : list Z := Eval vm_compute in ascii_codes "0123456789abcdef".
(** [do buf[i++] = digits[x % base]; while((x /= base) != 0)]: what it stores, in
    order.  [x] has at most 32 binary digits, so [fuel] 32 is enough. *)
Fixpoint digit_loop (tbl : list Z) (fuel : nat) (x base : Z) : list Z :=
  match fuel with
  | O => []
  | S f =>
      nth (Z.to_nat (x mod base)) tbl 0 ::
      (if decide (x / base ≠ 0) then digit_loop tbl f (x / base) base else [])
  end.
Definition printint (xx base : Z) (sign : bool) : list Z :=
  let sign := sign && bool_decide (xx < 0) in
  let x := if sign then u32 (- xx) else u32 xx in
  let buf := digit_loop digits 32 x base ++ (if sign then [45] else []) in
  rev buf.

(** An argument of [cprintf]: a number, or the bytes a pointer leads to; a null
    pointer is the number 0. *)
Inductive parg := PInt (z : Z) | PStr (s : list Z).

(** The switch on the character after a percent sign: what it prints and the
    arguments left.  An argument of the wrong kind, or one that was not passed,
    has no defined meaning. *)
Definition convert (c : Z) (args : list parg) : option (list Z * list parg) :=
  if decide (c = 100) then
    match args with PInt z :: a => Some (printint (i32 z) 10 true, a) | _ => None end
  else if decide (c = 120 ∨ c = 112) then
    match args with PInt z :: a => Some (printint (i32 z) 16 false, a) | _ => None end
  else if decide (c = 115) then
    match args with
    | PInt 0 :: a => Some (ascii_codes "(null)", a)
    | PStr s :: a => Some (until_zero s, a)
    | _ => None
    end
  else if decide (c = 37) then Some ([37], args)
  else Some ([37; c], args).

(** The loop of [cprintf] over the format; the end of the list is its NUL. *)
Fixpoint cprintf_chars (fmt : list Z) (args : list parg) : option (list Z) :=
  match fmt with
  | [] => Some []
  | c :: rest =>
      if decide (c ≠ 37) then out ← cprintf_chars rest args; Some (c :: out) else
      match rest with
      | [] => Some []
      | c :: rest' =>
          '(out, args') ← convert c args;
          out' ← cprintf_chars rest' args';
          Some (out ++ out')
      end
  end.

(** ** The devices *)

Definition BACKSPACE : Z := 0x100.

Definition consputc (c : Z) : K unit := modify (λ k, k <| k_out ::= λ o, o ++ [c] |>).
(** What [consputc] sends to the serial line. *)
Definition uart_bytes (c : Z) : list Z := if decide (c = BACKSPACE) then [8; 32; 8] else [u8 c].

Definition cprintf (fmt : string) (args : list parg) : K unit :=
  locking ← gets k_locking;
  when locking (acquire L_cons);;
  (match cprintf_chars (ascii_codes fmt) args with
   | None => wild
   | Some cs => each consputc cs
   end);;
  when locking (release L_cons).

(** The CGA memory, 25 rows of 80 cells, and the cursor registers 14 and 15. *)
Record screen := Screen { s_crt : list Z; s_hi : Z; s_lo : Z }.

(** [None] is the panic "pos under/overflow". *)
Definition cgaputc (c : Z) (s : screen) : option screen :=
  let pos := Z.lor (Z.shiftl (s_hi s) 8) (s_lo s) in
  let '(pos, crt) :=
    if decide (c = 10) then (pos + (80 - pos mod 80), s_crt s)
    else if decide (c = BACKSPACE) then (if decide (pos > 0) then pos - 1 else pos, s_crt s)
    else (pos + 1, <[Z.to_nat pos := Z.lor (Z.land c 0xff) 0x0700]> (s_crt s)) in
  if decide (pos < 0 ∨ pos > 25 * 80) then None else
  let '(pos, crt) :=
    if decide (24 ≤ pos / 80) then
      let crt := splice crt 0 (take (23 * 80) (drop 80 crt)) in
      let pos := pos - 80 in
      (pos, splice crt (Z.to_nat pos) (replicate (Z.to_nat (24 * 80 - pos)) 0))
    else (pos, crt) in
  Some (Screen (<[Z.to_nat pos := Z.lor 32 0x0700]> crt) (u8 (Z.shiftr pos 8)) (u8 pos)).

(** ** Numbers print and read back *)

Definition digit_value (c : Z) : Z :=
  if decide (c ≤ 57) then c - 48 else if decide (c ≤ 70) then c - 55 else c - 87.
Definition value (base : Z) (l : list Z) : Z := foldl (λ n c, n * base + digit_value c) 0 l.
(** The number a decimal numeral with an optional sign denotes. *)
Definition read_int (l : list Z) : Z :=
  match l with 45 :: l' => - value 10 l' | _ => value 10 l end.

(** A table that has the sixteen digits in order. *)
Definition digit_table (tbl : list Z) : Prop :=
  ∀ d, 0 ≤ d < 16 → digit_value (nth (Z.to_nat d) tbl 0) = d ∧
    (d < 10 → nth (Z.to_nat d) tbl 0 = 48 + d).

Lemma digits_table : digit_table digits.
Proof.
  intros d Hd. assert (d ∈ seqZ 0 16) as Hin by (apply elem_of_seqZ; lia). clear Hd. revert d Hin.
  rewrite <- Forall_forall. repeat (constructor; [by split|]). constructor.
Qed.

Lemma value_rev base l : value base (rev l) = foldr (λ c n, n * base + digit_value c) 0 l.
Proof. unfold value. induction l as [|c l IH]; [done|]. simpl. by rewrite foldl_app, IH. Qed.

Section digits.
Context (tbl : list Z) (Htbl : digit_table tbl) (base : Z) (Hbase : 2 ≤ base ≤ 16).

Lemma digit_loop_value fuel x :
  (0 < fuel)%nat → 0 ≤ x < 2 ^ Z.of_nat fuel →
  foldr (λ c n, n * base + digit_value c) 0 (digit_loop tbl fuel x base) = x.
Proof.
  revert x. induction fuel as [|f IH]; intros x Hf Hx; [lia|]. cbn [digit_loop foldr].
  pose proof (Z.mod_pos_bound x base ltac:(lia)) as Hm. pose proof (Z.div_mod x base ltac:(lia)) as Hd.
  rewrite (proj1 (Htbl (x mod base) ltac:(lia))). case_decide as Hq; [|simpl; lia].
  rewrite Nat2Z.inj_succ, Z.pow_succ_r in Hx by lia.
  assert (0 ≤ x / base < 2 ^ Z.of_nat f) as Hr.
  { split; [apply Z.div_pos; lia|]. apply Z.div_lt_upper_bound; [lia|]. nia. }
  rewrite IH; [lia| |done]. destruct f; [simpl in Hr; lia|lia].
Qed.

Lemma digit_loop_length fuel x n :
  0 ≤ x < base ^ Z.of_nat (S n) → (length (digit_loop tbl fuel x base) ≤ S n)%nat.
Proof.
  revert x n. induction fuel as [|f IH]; intros x n Hx; cbn [digit_loop length]; [lia|].
  case_decide as Hq; [|simpl; lia]. rewrite Nat2Z.inj_succ, Z.pow_succ_r in Hx by lia.
  assert (0 ≤ x / base < base ^ Z.of_nat n) as Hr.
  { split; [apply Z.div_pos; lia|]. apply Z.div_lt_upper_bound; lia. }
  destruct n as [|n]; [simpl in Hr; lia|]. specialize (IH (x / base) n Hr). lia.
Qed.

Lemma digit_loop_ne fuel x : (0 < fuel)%nat → digit_loop tbl fuel x base ≠ [].
Proof. by destruct fuel; [lia|]. Qed.
End digits.

Lemma decimal_digits tbl fuel x :
  digit_table tbl → Forall (λ c, 48 ≤ c ≤ 57) (digit_loop tbl fuel x 10).
Proof.
  intros Ht. revert x. induction fuel as [|f IH]; intros x; cbn [digit_loop]; [constructor|].
  pose proof (Z.mod_pos_bound x 10 ltac:(lia)). constructor.
  - rewrite (proj2 (Ht (x mod 10) ltac:(lia))); lia.
  - case_decide; [apply IH|constructor].
Qed.

(** A list of decimal digits has no sign. *)
Lemma read_int_digits l : Forall (λ c, 48 ≤ c ≤ 57) l → read_int l = value 10 l.
Proof. intros Hl. destruct l as [|c l]; [done|]. inversion_clear Hl. unfold read_int. by repeat case_match; try lia. Qed.

(** For every int, the decimal form that [printint] prints with a
    sign denotes that int, the most negative one included, and the hexadecimal
    form denotes the unsigned word with the same bits; the digits fit the 16 bytes
    of [buf]. *)
Theorem printint_roundtrip xx :
  - 2 ^ 31 ≤ xx < 2 ^ 31 →
  read_int (printint xx 10 true) = xx ∧ (length (printint xx 10 true) ≤ 11)%nat ∧
  value 16 (printint xx 16 false) = u32 xx ∧ (length (printint xx 16 false) ≤ 8)%nat.
Proof.
  intros Hx. assert (∀ y, 0 ≤ u32 y < 2 ^ Z.of_nat 32) as Hr by apply u32_range.
  assert (∀ y, 0 ≤ u32 y < 10 ^ Z.of_nat 10) as Hr10 by (intros y; specialize (Hr y); lia).
  unfold printint. rewrite !length_rev, !length_app. change (false && _) with false. cbn [andb].
  rewrite value_rev, app_nil_r, (digit_loop_value _ digits_table) by (try done; lia).
  pose proof (digit_loop_length digits 16 ltac:(lia) 32 (u32 xx) 7 (Hr xx)) as H16.
  pose proof (digit_loop_length digits 10 ltac:(lia) 32 (u32 xx) 9 (Hr10 xx)) as H10.
  pose proof (digit_loop_length digits 10 ltac:(lia) 32 (u32 (- xx)) 9 (Hr10 (- xx))) as H10'.
  cbn [length]. case_bool_decide as Hneg; cbn [length]; (split; [|split; [lia|split; [done|lia]]]).
  - rewrite rev_app_distr. cbn [rev app read_int]. rewrite value_rev, (digit_loop_value _ digits_table) by (try done; lia).
    rewrite u32_small; lia.
  - rewrite app_nil_r, read_int_digits, value_rev, (digit_loop_value _ digits_table) by (try done; try lia; apply Forall_rev, decimal_digits, digits_table).
    rewrite u32_small; lia.
Qed.

Lemma printint_roundtrip_witness :
  read_int (printint (- 2 ^ 31) 10 true) = - 2 ^ 31 ∧ (length (printint (- 2 ^ 31) 10 true) ≤ 11)%nat ∧
  value 16 (printint (- 2 ^ 31) 16 false) = u32 (- 2 ^ 31) ∧ (length (printint (- 2 ^ 31) 16 false) ≤ 8)%nat.
Proof. apply (printint_roundtrip (- 2 ^ 31)). lia. Defined.

(** ** The screen as text

    A terminal of 24 rows: the text from the top left corner up to the cursor, as
    character codes.  When it fills the last row, the first row scrolls away. *)

Definition tmove (t : list Z) (c : Z) : list Z :=
  if decide (c = 10) then t ++ replicate (80 - length t mod 80) 32
  else if decide (c = BACKSPACE) then take (length t - 1) t
  else t ++ [Z.land c 0xff].
Definition tput (t : list Z) (c : Z) : list Z :=
  if decide (1920 ≤ length (tmove t c))%nat then drop 80 (tmove t c) else tmove t c.

(** What a cell shows: a cell the code has cleared is empty. *)
Definition glyph (cell : Z) : Z := if decide (cell = 0) then 32 else Z.land cell 0xff.

Definition cell (l : list Z) (i : nat) : Z := nth i l 0.
Definition shows (crt t : list Z) : Prop := ∀ i, (i < 1920)%nat → glyph (cell crt i) = nth i t 32.

Record cga_rep (s : screen) (t : list Z) : Prop := {
  cr_len : length (s_crt s) = 2000%nat;
  cr_pos : Z.lor (Z.shiftl (s_hi s) 8) (s_lo s) = Z.of_nat (length t);
  cr_room : (length t < 1920)%nat;
  cr_text : shows (s_crt s) t }.

Lemma cursor_bytes pos :
  0 ≤ pos < 2 ^ 16 → Z.lor (Z.shiftl (u8 (Z.shiftr pos 8)) 8) (u8 pos) = pos.
Proof.
  intros Hp. rewrite Z.shiftr_div_pow2, Z.shiftl_mul_pow2 by lia. unfold u8.
  assert (0 ≤ pos / 2 ^ 8 < 2 ^ 8) as Hq.
  { split; [apply Z.div_pos; lia|apply Z.div_lt_upper_bound; lia]. }
  rewrite (Z.mod_small (pos / 2 ^ 8)) by done. rewrite (Z.div_mod pos (2 ^ 8)) at 3 by lia.
  rewrite (Z.mul_comm (2 ^ 8)). symmetry. rewrite <- (Z.shiftl_mul_pow2 _ 8) by lia.
  apply Z.add_nocarry_lor. apply Z.bits_inj'. intros n Hn. rewrite Z.land_spec, Z.bits_0.
  destruct (decide (n < 8)); [rewrite Z.shiftl_spec_low by lia; done|].
  rewrite (Z.mod_pow2_bits_high pos 8 n) by lia. apply andb_false_r.
Qed.

Lemma cell_insert l i j x : (j < length l)%nat → cell (<[j := x]> l) i = if decide (i = j) then x else cell l i.
Proof.
  intros Hj. unfold cell. rewrite !nth_lookup. case_decide as E; [subst; by rewrite list_lookup_insert_eq|].
  by rewrite list_lookup_insert_ne.
Qed.

Lemma cell_splice l off w i :
  (off + length w ≤ length l)%nat →
  cell (splice l off w) i = if decide (off ≤ i < off + length w)%nat then cell w (i - off) else cell l i.
Proof. intros H. unfold cell. rewrite !nth_lookup, splice_lookup by lia. by case_decide. Qed.

Lemma glyph_char c : glyph (Z.lor (Z.land c 0xff) 0x0700) = Z.land c 0xff.
Proof.
  unfold glyph. rewrite decide_False.
  - rewrite Z.land_lor_distr_l, <- Z.land_assoc. simpl (Z.land 255 255). simpl (Z.land 1792 255). apply Z.lor_0_r.
  - intros E. apply (f_equal (λ x, Z.testbit x 8)) in E. rewrite Z.lor_spec in E. simpl in E.
    by rewrite orb_true_r in E.
Qed.

(** The last part of [cgaputc]: the text may have filled the last row. *)
Lemma cga_scroll crt t :
  length crt = 2000%nat → length t = 1920%nat → shows crt t →
  shows (splice (splice crt 0 (take 1840 (drop 80 crt))) 1840 (replicate 80 0)) (drop 80 t).
Proof.
  intros Hl Ht Hs i Hi.
  assert (length (take 1840 (drop 80 crt)) = 1840%nat) as Hw by (rewrite length_take, length_drop; lia).
  rewrite cell_splice by (rewrite splice_length, Hw, length_replicate by lia; lia).
  rewrite length_replicate. unfold cell at 1. rewrite (nth_lookup (drop 80 t)), lookup_drop, <- nth_lookup.
  case_decide as Hc.
  - rewrite nth_lookup, lookup_replicate_2 by lia. rewrite (nth_overflow t) by lia. done.
  - rewrite cell_splice by (rewrite Hw; lia). rewrite Hw. rewrite decide_True by lia. unfold cell.
    rewrite nth_lookup, lookup_take_lt, lookup_drop by lia. rewrite Nat.sub_0_r. rewrite <- nth_lookup. apply Hs. lia.
Qed.

Lemma tmove_length t c : (length t < 1920)%nat → (length (tmove t c) ≤ 1920)%nat.
Proof.
  intros Ht. unfold tmove. case_decide; [|case_decide].
  - rewrite length_app, length_replicate. pose proof (Nat.div_mod_eq (length t) 80). lia.
  - rewrite length_take. lia.
  - rewrite length_app. simpl. lia.
Qed.

Lemma nth_pad t n i : nth i (t ++ replicate n 32) 32 = nth i t 32.
Proof.
  destruct (decide (i < length t)%nat); [by rewrite app_nth1 by lia|].
  rewrite app_nth2, (nth_overflow t) by lia. destruct (decide (i - length t < n)%nat).
  - by rewrite nth_lookup, lookup_replicate_2 by lia.
  - by rewrite nth_overflow by (rewrite length_replicate; lia).
Qed.

(** The first part: the character is put, or the cursor moves. *)
Lemma cga_move s t c :
  cga_rep s t → ∃ crt,
    (let pos := Z.lor (Z.shiftl (s_hi s) 8) (s_lo s) in
     if decide (c = 10) then (pos + (80 - pos mod 80), s_crt s)
     else if decide (c = BACKSPACE) then (if decide (pos > 0) then pos - 1 else pos, s_crt s)
     else (pos + 1, <[Z.to_nat pos := Z.lor (Z.land c 0xff) 0x0700]> (s_crt s))) =
      (Z.of_nat (length (tmove t c)), crt) ∧
    length crt = 2000%nat ∧
    ∀ i, (i < 1920)%nat → i ≠ length (tmove t c) → glyph (cell crt i) = nth i (tmove t c) 32.
Proof.
  intros [H1 H2 H3 H4]. cbv zeta. rewrite H2, Nat2Z.id. unfold tmove.
  destruct (decide (c = 10)); [|destruct (decide (c = BACKSPACE))].
  - exists (s_crt s). split; [|split; [done|]].
    + f_equal. rewrite length_app, length_replicate. pose proof (Nat.mod_upper_bound (length t) 80 ltac:(lia)).
      rewrite Nat2Z.inj_add, Nat2Z.inj_sub, Nat2Z.inj_mod by lia. lia.
    + intros i Hi _. rewrite nth_pad. by apply H4.
  - exists (s_crt s). split; [|split; [done|]].
    + f_equal. rewrite length_take. case_decide; lia.
    + rewrite length_take. intros i Hi Hne. rewrite H4 by done. destruct (decide (i < length t - 1)%nat).
      * by rewrite !nth_lookup, lookup_take_lt by lia.
      * by rewrite !nth_overflow by (rewrite ?length_take; lia).
  - eexists. split; [f_equal; rewrite length_app; simpl; lia|]. split; [by rewrite length_insert|].
    intros i Hi _. rewrite cell_insert by lia. case_decide as E.
    + subst i. rewrite glyph_char. by rewrite app_nth2, Nat.sub_diag by lia.
    + rewrite H4 by done. destruct (decide (i < length t)%nat); [by rewrite app_nth1 by lia|].
      rewrite (nth_overflow t), (nth_overflow (t ++ _)) by (rewrite ?length_app; simpl; lia). done.
Qed.

Lemma shows_blank crt t :
  length crt = 2000%nat → (length t < 1920)%nat →
  (∀ i, (i < 1920)%nat → i ≠ length t → glyph (cell crt i) = nth i t 32) →
  shows (<[length t := Z.lor 32 0x0700]> crt) t.
Proof.
  intros Hl Ht Hs i Hi. rewrite cell_insert by lia. case_decide; [|by apply Hs].
  subst. by rewrite nth_overflow by lia.
Qed.

Lemma cgaputc_spec s t c : cga_rep s t → ∃ s', cgaputc c s = Some s' ∧ cga_rep s' (tput t c).
Proof.
  intros R. destruct (cga_move s t c R) as (crt & E & Hl & Hs). pose proof (tmove_length t c (cr_room _ _ R)) as Hm.
  unfold cgaputc, tput. cbv zeta in E |- *. rewrite E. clear E. set (t1 := tmove t c) in *.
  rewrite decide_False by lia.
  assert (∀ crt t, length crt = 2000%nat → (length t < 1920)%nat → shows crt t →
    cga_rep (Screen crt (u8 (Z.shiftr (Z.of_nat (length t)) 8)) (u8 (Z.of_nat (length t)))) t) as Hrep.
  { intros crt' t' ? ? ?. split; simpl; try done. apply cursor_bytes. lia. }
  destruct (decide (1920 ≤ length t1)%nat) as [Hf|Hf].
  - rewrite decide_True by (apply Z.div_le_lower_bound; lia).
    eexists. split; [done|]. replace (Z.of_nat (length t1) - 80) with (Z.of_nat (length (drop 80 t1))) by (rewrite length_drop; lia).
    rewrite !Nat2Z.id. assert (length (drop 80 t1) = 1840%nat) as Hd by (rewrite length_drop; lia).
    apply Hrep; [|lia|].
    + rewrite length_insert. rewrite splice_length; rewrite ?splice_length, ?length_take, ?length_drop, ?length_replicate by lia; lia.
    + apply shows_blank; [|lia|].
      { rewrite splice_length; rewrite ?splice_length, ?length_take, ?length_drop, ?length_replicate by lia; lia. }
      intros i Hi _. rewrite Hd. apply (cga_scroll crt t1); [done|lia| |done]. intros j Hj. apply Hs; lia.
  - rewrite decide_False by (intros H; apply (Z.mul_le_mono_nonneg_l _ _ 80) in H; [|lia];
      pose proof (Z.mul_div_le (Z.of_nat (length t1)) 80); lia).
    eexists. split; [done|]. rewrite Nat2Z.id. apply Hrep; [by rewrite length_insert|lia|]. apply shows_blank; [done|lia|done].
Qed.

(** Several characters. *)
Fixpoint cga_run (cs : list Z) (s : screen) : option screen :=
  match cs with
  | [] => Some s
  | c :: cs' => s' ← cgaputc c s; cga_run cs' s'
  end.

(** C31: whatever characters are printed, [cgaputc] never panics and the cells
    of the screen show the text of a scrolling terminal with 24 rows, with the
    cursor at its end. *)
Theorem cga_refines s t cs : cga_rep s t → ∃ s', cga_run cs s = Some s' ∧ cga_rep s' (foldl tput t cs).
Proof.
  revert s t. induction cs as [|c cs IH]; intros s t R; [by exists s|].
  destruct (cgaputc_spec s t c R) as (s1 & E & R1). destruct (IH s1 _ R1) as (s2 & E2 & R2).
  exists s2. split; [|done]. cbn [cga_run]. by rewrite E.
Qed.

Lemma cga_refines_witness :
  ∃ s', cga_run (replicate 30 10 ++ [104; 105; BACKSPACE]) (Screen (replicate 2000 0) 0 0) = Some s' ∧
    cga_rep s' (foldl tput [] (replicate 30 10 ++ [104; 105; BACKSPACE])).
Proof.
  apply (cga_refines _ [] (replicate 30 10 ++ [104; 105; BACKSPACE])).
  split; [exact (length_replicate 2000 0)|reflexivity|simpl; lia|].
  intros i Hi. unfold cell. cbn [s_crt]. rewrite nth_lookup, lookup_replicate_2 by lia. by destruct i.
Defined.
