(* ===== verification/Printf.v ===== *)
(** * Formatted output of user programs (printf.c)

    [printf] as a function from the format, the words of the argument list and memory to
    the bytes it writes, one [write] call for each.  A string argument is read up to its
    NUL: the loop has a bound on the length of the strings. *)

From S2P Require Import Prelude Memory Strings State Spinlock Cons.

Definition udigits : list Z := Eval vm_compute in ascii_codes "0123456789ABCDEF".

(** putc: the byte that reaches the file. *)
Definition putc (c : Z) : list Z := [u8 c].

(** printf.c: printint.  The loop over [buf] from its end prints the digits in order. *)
Definition uprintint (xx base : Z) (sgn : bool) : list Z :=
  let neg := sgn && bool_decide (xx < 0) in
  let x := if neg then u32 (- xx) else u32 xx in
  let buf := digit_loop udigits 32 x base ++ (if neg then [45] else []) in
  concat (map putc (rev buf)).

(** [while( *s != 0){ putc(fd, *s); s++; }] *)
Fixpoint put_string (fuel : nat) (s : cptr) : option (list Z) :=
  match fuel with
  | O => None
  | S f => if decide (s O ≠ 0) then out ← put_string f (advance s 1); Some (putc (s O) ++ out) else Some []
  end.

Lemma land_byte c : 0 ≤ c < 256 → Z.land c 0xff = c.
Proof. intros Hc. change 0xff with (Z.ones 8). rewrite Z.land_ones by lia. apply Z.mod_small. lia. Qed.

Lemma putc_byte c : 0 ≤ c < 256 → putc c = [c].
Proof. intros Hc. unfold putc. f_equal. zlia. Qed.

Lemma put_string_spec s l fuel :
  (∀ i, 0 ≤ s i < 2 ^ 8) → cstring s l → (length l < fuel)%nat → put_string fuel s = Some l.
Proof.
  revert s l. induction fuel as [|f IH]; intros s l Hb [Hl Hz] Hf; [lia|]. cbn [put_string]. destruct l as [|c l].
  - simpl in Hz. by rewrite decide_False by tauto.
  - destruct (Hl O c eq_refl) as [E Hc]. rewrite decide_True by congruence. rewrite (IH (advance s 1) l); [| |split|simpl in Hf; lia].
    + rewrite putc_byte by apply Hb. by rewrite E.
    + intros i. apply Hb.
    + intros i x Hx. apply (Hl (S i) x Hx).
    + exact Hz.
Qed.

Section printf.
(** Memory, the argument words from [&fmt + 1] on, and a bound on strings. *)
Context (m : mem) (ap : nat → Z) (bound : nat).

(** The conversion [c] of argument [a]: what it prints, and the next argument. *)
Definition uconvert (c : Z) (a : nat) : option (list Z * nat) :=
  if decide (c = 100) then Some (uprintint (i32 (ap a)) 10 true, S a)
  else if decide (c = 120 ∨ c = 112) then Some (uprintint (i32 (ap a)) 16 false, S a)
  else if decide (c = 115) then
    out ← put_string bound (if decide (ap a = 0) then at_bytes (ascii_codes "(null)") else at_addr m (ap a));
    Some (out, S a)
  else if decide (c = 99) then Some (putc (ap a), S a)
  else if decide (c = 37) then Some (putc c, a)
  else Some (putc 37 ++ putc c, a).

(** The loop over the format up to its NUL, the end of the list; [state] is whether the
    last character was a percent sign. *)
Fixpoint printf_loop (fmt : list Z) (state : bool) (a : nat) : option (list Z) :=
  match fmt with
  | [] => Some []
  | f :: fmt' =>
      let c := Z.land f 0xff in
      if state then
        '(out, a') ← uconvert c a;
        out' ← printf_loop fmt' false a';
        Some (out ++ out')
      else if decide (c = 37) then printf_loop fmt' true a
      else out ← printf_loop fmt' false a; Some (putc c ++ out)
  end.

Definition printf (fmt : list Z) : option (list Z) := printf_loop fmt false 0.

(** ** The format as a list of items *)

Inductive item := Lit (c : Z) | Conv (c : Z).
Definition item_ok (i : item) : Prop :=
  match i with Lit c => 0 < c < 256 ∧ c ≠ 37 | Conv c => 0 < c < 256 end.
Definition item_text (i : item) : list Z := match i with Lit c => [c] | Conv c => [37; c] end.

Fixpoint render (its : list item) (a : nat) : option (list Z) :=
  match its with
  | [] => Some []
  | Lit c :: its' => out ← render its' a; Some (c :: out)
  | Conv c :: its' => '(out, a') ← uconvert c a; out' ← render its' a'; Some (out ++ out')
  end.

Lemma printf_items its a : Forall item_ok its → printf_loop (concat (map item_text its)) false a = render its a.
Proof.
  intros H. revert a. induction H as [|i its Hi _ IH]; intros a; [done|]. cbn [map concat]. destruct i as [c|c]; cbn [item_text app printf_loop render item_ok] in *.
  - rewrite land_byte by lia. rewrite decide_False by lia. rewrite IH. rewrite putc_byte by lia. done.
  - rewrite (land_byte 37) by lia. rewrite decide_True by done. rewrite land_byte by lia.
    destruct (uconvert c a) as [[out a']|]; [|done]. simpl. by rewrite IH.
Qed.

(** ** What the output shows *)

Definition uses_arg (c : Z) : bool := bool_decide (c ∈ [100; 120; 112; 115; 99]).

(** [out] is a good rendering of argument [a] by the conversion [c]. *)
Record shows (c : Z) (a : nat) (out : list Z) : Prop := {
  sh_int : c = 100 → read_int out = i32 (ap a) ∧ (0 ≤ i32 (ap a) → atoi 11 (at_bytes out) = Some (i32 (ap a)));
  sh_hex : c = 120 ∨ c = 112 → value 16 out = u32 (ap a);
  sh_str : c = 115 → if decide (ap a = 0) then out = ascii_codes "(null)" else cstring (at_addr m (ap a)) out;
  sh_char : c = 99 → out = [u8 (ap a)];
  sh_percent : c = 37 → out = [37];
  sh_other : uses_arg c = false → c ≠ 37 → out = [37; c] }.

Fixpoint printed (its : list item) (a : nat) (out : list Z) : Prop :=
  match its with
  | [] => out = []
  | Lit c :: its' => ∃ out', out = c :: out' ∧ printed its' a out'
  | Conv c :: its' => ∃ o1 o2, out = o1 ++ o2 ∧ shows c a o1 ∧ printed its' (if uses_arg c then S a else a) o2
  end.

(** The arguments of the %s conversions are null or strings that are not too long. *)
Fixpoint args_ok (its : list item) (a : nat) : Prop :=
  match its with
  | [] => True
  | Lit _ :: its' => args_ok its' a
  | Conv c :: its' =>
      (c = 115 → ap a ≠ 0 → ∃ l, cstring (at_addr m (ap a)) l ∧ (length l < bound)%nat) ∧
      args_ok its' (if uses_arg c then S a else a)
  end.

End printf.

(** ** Numbers *)

Lemma udigits_table : digit_table udigits.
Proof.
  intros d Hd. assert (d ∈ seqZ 0 16) as Hin by (apply elem_of_seqZ; lia). clear Hd. revert d Hin.
  rewrite <- Forall_forall. repeat (constructor; [by split|]). constructor.
Qed.

Lemma udigits_byte x base fuel : 2 ≤ base ≤ 16 → Forall (λ c, 0 ≤ c < 256) (digit_loop udigits fuel x base).
Proof.
  intros Hb. revert x. induction fuel as [|f IH]; intros x; cbn [digit_loop]; [constructor|].
  pose proof (Z.mod_pos_bound x base ltac:(lia)). constructor; [|case_decide; [apply IH|constructor]].
  assert (Forall (λ c, 0 ≤ c < 256) udigits) as Hu by (unfold udigits; rewrite !Forall_cons, Forall_nil; lia).
  rewrite nth_lookup. destruct (udigits !! _) as [c|] eqn:E; simpl; [|lia]. rewrite Forall_lookup in Hu. by apply (Hu _ _ E).
Qed.

Lemma putc_all l : Forall (λ c, 0 ≤ c < 256) l → concat (map putc l) = l.
Proof. induction 1 as [|c l Hc _ IH]; [done|]. cbn [map concat]. rewrite (putc_byte c Hc). simpl. by rewrite IH. Qed.

Lemma uprintint_bytes xx base sgn : 2 ≤ base ≤ 16 →
  uprintint xx base sgn = rev (digit_loop udigits 32 (if sgn && bool_decide (xx < 0) then u32 (- xx) else u32 xx) base ++
    (if sgn && bool_decide (xx < 0) then [45] else [])).
Proof.
  intros Hb. unfold uprintint. apply putc_all, Forall_rev, Forall_app. split; [by apply udigits_byte|].
  destruct (sgn && _); repeat constructor; simpl; lia.
Qed.

Lemma uprintint_hex xx : value 16 (uprintint xx 16 false) = u32 xx.
Proof.
  rewrite uprintint_bytes by lia. cbn [andb]. rewrite app_nil_r, value_rev.
  apply (digit_loop_value _ udigits_table 16 ltac:(lia) 32); [lia|apply u32_range].
Qed.

Lemma uprintint_nonneg xx : 0 ≤ xx < 2 ^ 31 →
  ∃ l, uprintint xx 10 true = l ∧ Forall (λ c, 48 ≤ c ≤ 57) l ∧ value 10 l = xx ∧ (length l ≤ 10)%nat.
Proof.
  intros Hx. eexists. split; [done|]. rewrite uprintint_bytes, bool_decide_eq_false_2 by lia. cbn [andb]. rewrite app_nil_r, u32_small by lia.
  split_and!; [apply Forall_rev, decimal_digits, udigits_table| |].
  - rewrite value_rev. apply (digit_loop_value _ udigits_table 10 ltac:(lia) 32); lia.
  - rewrite length_rev. apply (digit_loop_length _ 10 ltac:(lia)). lia.
Qed.

Lemma uprintint_int xx : - 2 ^ 31 ≤ xx < 2 ^ 31 → read_int (uprintint xx 10 true) = xx.
Proof.
  intros Hx. destruct (decide (xx < 0)) as [Hn|Hn].
  - rewrite uprintint_bytes, bool_decide_eq_true_2 by lia. cbn [andb]. rewrite rev_app_distr. cbn [rev app read_int].
    rewrite value_rev, (digit_loop_value _ udigits_table 10 ltac:(lia) 32); [|lia|apply u32_range]. rewrite u32_small; lia.
  - destruct (uprintint_nonneg xx ltac:(lia)) as (l & -> & Hl & Hv & _). by rewrite read_int_digits.
Qed.

(** ** Reading a number back *)

Lemma value_ge base l n : 0 < base → Forall (λ c, 48 ≤ c ≤ 57) l → 0 ≤ n →
  n ≤ foldl (λ n c, n * base + digit_value c) n l.
Proof.
  intros Hb Hl. revert n. induction Hl as [|c l Hc _ IH]; intros n Hn; [simpl; lia|]. cbn [foldl].
  assert (0 ≤ digit_value c) as Hd by (unfold digit_value; case_decide; lia). etrans; [|apply IH]; nia.
Qed.

Lemma atoi_from_digits l p i n fuel :
  Forall (λ c, 48 ≤ c ≤ 57) l → (∀ j c, l !! j = Some c → p (i + j)%nat = c) → p (i + length l)%nat = 0 →
  0 ≤ n → foldl (λ n c, n * 10 + digit_value c) n l < 2 ^ 31 → (length l < fuel)%nat →
  atoi_from fuel p i n = Some (foldl (λ n c, n * 10 + digit_value c) n l).
Proof.
  intros Hl. revert i n fuel. induction Hl as [|c l Hc Hl IH]; intros i n [|fuel] Hp Hz Hn Hlt Hf; try (simpl in Hf; lia); cbn [atoi_from foldl] in *.
  - rewrite Nat.add_0_r in Hz. rewrite Hz. rewrite decide_False; [done|]. change (i8 0) with 0. lia.
  - assert (p i = c) as E by (rewrite <- (Nat.add_0_r i); by apply (Hp O)). rewrite E.
    assert (i8 c = c) as Ei by zlia. rewrite Ei, decide_True by lia.
    assert (digit_value c = c - 48) as Ed by (unfold digit_value; case_decide; lia). rewrite Ed in *.
    pose proof (value_ge 10 l (n * 10 + (c - 48)) ltac:(lia) Hl ltac:(lia)) as Hg.
    replace (i32 (n * 10 + c - 48)) with (n * 10 + (c - 48)) by zlia.
    apply IH; [|by rewrite Nat.add_succ_comm|lia|done|simpl in Hf; lia].
    intros j x Hx. rewrite Nat.add_succ_comm. by apply (Hp (S j)).
Qed.

Lemma atoi_uprintint xx : 0 ≤ xx < 2 ^ 31 → atoi 11 (at_bytes (uprintint xx 10 true)) = Some xx.
Proof.
  intros Hx. destruct (uprintint_nonneg xx Hx) as (l & -> & Hl & Hv & Hn). unfold value in Hv. unfold atoi.
  rewrite (atoi_from_digits l); [by rewrite Hv|done| | |lia|lia|lia]; unfold at_bytes.
  - intros j c Hj. by apply nth_lookup_Some.
  - apply nth_overflow. done.
Qed.

Lemma null_bytes :
  (∀ i, 0 ≤ at_bytes (ascii_codes "(null)") i < 2 ^ 8) ∧ cstring (at_bytes (ascii_codes "(null)")) (ascii_codes "(null)").
Proof.
  split; [intros i; do 7 (destruct i as [|i]; [vm_compute; split; [discriminate|reflexivity]|])|split; [|reflexivity]].
  - unfold at_bytes. rewrite nth_overflow by (simpl; lia). lia.
  - intros i x Hx. split; [by apply nth_lookup_Some|]. do 7 (destruct i as [|i]; [vm_compute in Hx; congruence|]). done.
Qed.

Section printf_correct.
Context (m : mem) (ap : nat → Z) (bound : nat) (Hm : ∀ a, 0 ≤ m a < 2 ^ 8).

Lemma uconvert_spec c a :
  0 < c < 256 → (6 < bound)%nat →
  (c = 115 → ap a ≠ 0 → ∃ l, cstring (at_addr m (ap a)) l ∧ (length l < bound)%nat) →
  ∃ out, uconvert m ap bound c a = Some (out, if uses_arg c then S a else a) ∧ shows m ap c a out.
Proof.
  intros Hc Hb Hs. unfold uconvert. assert (uses_arg c = true ↔ c = 100 ∨ c = 120 ∨ c = 112 ∨ c = 115 ∨ c = 99) as Hu.
  { unfold uses_arg. rewrite bool_decide_eq_true. set_solver. }
  assert (uses_arg c = false ↔ ¬ (c = 100 ∨ c = 120 ∨ c = 112 ∨ c = 115 ∨ c = 99)) as Hu' by (rewrite <- Hu; by destruct (uses_arg c)).
  destruct (uses_arg c) eqn:Eu; [assert (c = 100 ∨ (c = 120 ∨ c = 112) ∨ c = 115 ∨ c = 99) as [->|[Hx|[->| ->]]] by tauto|].
  - rewrite decide_True by done. eexists. split; [done|]. split; try lia; [|congruence]. intros _.
    split; [apply uprintint_int, i32_range|]. intros. apply atoi_uprintint. pose proof (i32_range (ap a)). lia.
  - rewrite decide_False, decide_True by lia. eexists. split; [done|]. split; try lia; [|congruence]. intros _. rewrite uprintint_hex. zlia.
  - do 2 rewrite decide_False by lia. rewrite decide_True by done. destruct (decide (ap a = 0)) as [E0|E0].
    + rewrite (put_string_spec _ (ascii_codes "(null)")); [|apply null_bytes|apply null_bytes|simpl; lia]. eexists. split; [done|].
      split; try lia; [|congruence]. intros _. by rewrite decide_True.
    + destruct (Hs eq_refl E0) as (l & Hl & Hn). rewrite (put_string_spec _ l); [|intros i; apply Hm|done|done]. eexists. split; [done|].
      split; try lia; [|congruence]. intros _. by rewrite decide_False.
  - do 3 rewrite decide_False by lia. rewrite decide_True by done. eexists. split; [done|]. by split; try lia.
  - do 4 rewrite decide_False by tauto. destruct (decide (c = 37)) as [->|Hp]; (eexists; split; [done|]); split; try lia; try tauto; intros; try done.
    cbn [app]. by rewrite !putc_byte by lia.
Qed.

Lemma render_spec its a :
  Forall item_ok its → (6 < bound)%nat → args_ok m ap bound its a →
  ∃ out, render m ap bound its a = Some out ∧ printed m ap its a out.
Proof.
  intros Hi Hb. revert a. induction Hi as [|[c|c] its Hc _ IH]; intros a Ha; cbn [render printed args_ok item_ok] in *.
  - by exists [].
  - destruct (IH a Ha) as (out & -> & Hp). eexists. split; [done|]. by exists out.
  - destruct Ha as [Hs Ha]. destruct (uconvert_spec c a Hc Hb Hs) as (o1 & -> & Ho). simpl.
    destruct (IH _ Ha) as (o2 & -> & Hp). eexists. split; [done|]. by exists o1, o2.
Qed.
End printf_correct.


Definition demo_mem : mem := λ a, if decide (a = 64) then 104 else if decide (a = 65) then 105 else 0.
Definition demo_args (a : nat) : Z := match a with O => 2 ^ 32 - 5 | S O => 64 | _ => 255 end.

(** printf(1, "n=%d %s %x%%\n", -5, "hi", 255) *)
Definition demo_items : list item :=
  [Lit 110; Lit 61; Conv 100; Lit 32; Conv 115; Lit 32; Conv 120; Conv 37; Lit 10].

