(* ===== verification/Mp.v ===== *)
(** * Finding the processors (mp.c, mp.h)

    The tables that the BIOS leaves in memory, as bytes: the floating pointer structure, the
    configuration table and its entries.  [mpinit] sets the kernel's globals that describe
    the machine, a record of their own here: the processors' APIC ids (the first [ncpu]
    entries of [cpus]), [ioapicid] and [lapic], and the writes to the ports of the interrupt
    mode register.  Addresses in the tables do not wrap around.

    Theorems: only tables with the right signature and checksum are used; the entries of a
    table are taken in as they are; an entry of an unknown type makes the loop go on for
    ever. *)

From S2P Require Import Prelude Memory Strings State Spinlock Cons.

Notation NCPU := 8%nat.

Notation sizeof_mp := 16.
Notation sizeof_mpconf := 44.
Notation MPPROC := 0.
Notation MPBUS := 1.
Notation MPIOAPIC := 2.
Notation MPIOINTR := 3.
Notation MPLINTR := 4.

Record mpstate := Mpstate {
  mg_apicids : list Z;
  mg_ioapicid : Z;
  mg_lapic : Z;
  mg_ports : list (Z * Z) }.

Section tables.
(** Memory, at kernel addresses. *)
Variable m : mem.

(** The loop adds in an int; the result is an unsigned char. *)
Fixpoint sum_loop (addr : Z) (len : nat) (s : Z) : Z :=
  match len with O => s | S n => sum_loop (addr + 1) n (i32 (s + m addr)) end.
Definition sum (addr : Z) (len : nat) : Z := u8 (sum_loop addr len 0).

Definition mp_here (p : Z) : bool :=
  bool_decide (memcmp (at_addr m p) (at_bytes (ascii_codes "_MP_")) 4 = 0) && bool_decide (sum p 16 = 0).

(** The loop of [mpsearch1] over [n] places. *)
Fixpoint mpsearch_loop (n : nat) (p : Z) : option Z :=
  match n with
  | O => None
  | S n => if mp_here p then Some p else mpsearch_loop n (p + sizeof_mp)
  end.
Definition mpsearch1 (a len : Z) : option Z := mpsearch_loop (Z.to_nat ((len + 15) / sizeof_mp)) (P2V a).

Definition mpsearch : option Z :=
  let bda := P2V 0x400 in
  let p := Z.shiftl (Z.lor (Z.shiftl (m (bda + 0x0f)) 8) (m (bda + 0x0e))) 4 in
  let base := Z.lor (Z.shiftl (m (bda + 0x14)) 8) (m (bda + 0x13)) * 1024 in
  let first := if decide (p ≠ 0) then mpsearch1 p 1024 else mpsearch1 (base - 1024) 1024 in
  match first with
  | Some mp => Some mp
  | None => mpsearch1 0xf0000 0x10000
  end.

Definition mp_physaddr (mp : Z) : Z := load32 m (mp + 4).
Definition mp_imcrp (mp : Z) : Z := m (mp + 12).
Definition conf_length (conf : Z) : Z := m (conf + 4) + 2 ^ 8 * m (conf + 5).
Definition conf_version (conf : Z) : Z := m (conf + 6).
Definition conf_lapicaddr (conf : Z) : Z := load32 m (conf + 36).

Definition mpconfig : option (Z * Z) :=
  match mpsearch with
  | None => None
  | Some mp =>
      if decide (mp_physaddr mp = 0) then None else
      let conf := P2V (mp_physaddr mp) in
      if decide (memcmp (at_addr m conf) (at_bytes (ascii_codes "PCMP")) 4 ≠ 0) then None else
      if decide (conf_version conf ≠ 1 ∧ conf_version conf ≠ 4) then None else
      if decide (sum conf (Z.to_nat (conf_length conf)) ≠ 0) then None else
      Some (mp, conf)
  end.

(** The loop of [mpinit]; the default case leaves the switch but not the loop. *)
Fixpoint mpinit_loop (fuel : nat) (p e : Z) (ismp : bool) : M mpstate bool :=
  match fuel with
  | O => stopped Spin
  | S f =>
      if decide (p < e) then
        if decide (m p = MPPROC) then
          modify (λ s, if decide (length (mg_apicids s) < NCPU)%nat
                       then Mpstate (mg_apicids s ++ [m (p + 1)]) (mg_ioapicid s) (mg_lapic s) (mg_ports s) else s);;
          mpinit_loop f (p + 20) e ismp
        else if decide (m p = MPIOAPIC) then
          modify (λ s, Mpstate (mg_apicids s) (m (p + 1)) (mg_lapic s) (mg_ports s));;
          mpinit_loop f (p + 8) e ismp
        else if decide (m p = MPBUS ∨ m p = MPIOINTR ∨ m p = MPLINTR) then mpinit_loop f (p + 8) e ismp
        else mpinit_loop f p e false
      else mret ismp
  end.

(** [imcr] is what the data port of the interrupt mode register reads. *)
Definition mpinit (imcr : Z) (fuel : nat) : M mpstate unit :=
  match mpconfig with
  | None => panic "Expect to run on an SMP"
  | Some (mp, conf) =>
      modify (λ s, Mpstate (mg_apicids s) (mg_ioapicid s) (conf_lapicaddr conf) (mg_ports s));;
      ismp ← mpinit_loop fuel (conf + sizeof_mpconf) (conf + conf_length conf) true;
      if negb ismp then panic "Didn't find a suitable machine" else
      when (bool_decide (mp_imcrp mp ≠ 0))
        (modify (λ s, Mpstate (mg_apicids s) (mg_ioapicid s) (mg_lapic s) (mg_ports s ++ [(0x22, 0x70); (0x23, Z.lor imcr 1)])))
  end.
End tables.

(** ** The search *)

(** The first of the places [p], [p + 16], ... that satisfies [mp_here]. *)
Lemma mpsearch_loop_spec m n p :
  match mpsearch_loop m n p with
  | Some q => ∃ i, (i < n)%nat ∧ q = p + 16 * Z.of_nat i ∧ mp_here m q = true ∧
                ∀ j, (j < i)%nat → mp_here m (p + 16 * Z.of_nat j) = false
  | None => ∀ j, (j < n)%nat → mp_here m (p + 16 * Z.of_nat j) = false
  end.
Proof.
  revert p. induction n as [|n IH]; intros p; cbn [mpsearch_loop]; [lia|]. destruct (mp_here m p) eqn:E.
  - exists O. split_and!; [lia|lia|done|lia].
  - specialize (IH (p + 16)). destruct (mpsearch_loop m n (p + 16)) as [q|].
    + destruct IH as (i & Hi & -> & Hq & Hj). exists (S i). split_and!; [lia|lia| |].
      * by replace (p + 16 * Z.of_nat (S i)) with (p + 16 + 16 * Z.of_nat i) by lia.
      * intros [|j] Hlt; [by rewrite Z.mul_0_r, Z.add_0_r|]. replace (p + 16 * Z.of_nat (S j)) with (p + 16 + 16 * Z.of_nat j) by lia. apply Hj. lia.
    + intros [|j] Hlt; [by rewrite Z.mul_0_r, Z.add_0_r|]. replace (p + 16 * Z.of_nat (S j)) with (p + 16 + 16 * Z.of_nat j) by lia. apply IH. lia.
Qed.

Lemma mpsearch1_here m a len q : mpsearch1 m a len = Some q → mp_here m q = true.
Proof. unfold mpsearch1. pose proof (mpsearch_loop_spec m (Z.to_nat ((len + 15) / 16)) (P2V a)) as H. intros E. rewrite E in H. by destruct H as (? & _ & _ & ? & _). Qed.

Lemma mpsearch_here m q : mpsearch m = Some q → mp_here m q = true.
Proof.
  unfold mpsearch. cbv zeta. destruct (if decide _ then _ else _) as [x|] eqn:E; [|by apply mpsearch1_here].
  intros [= <-]. case_decide; by eapply mpsearch1_here.
Qed.

(** ** Entries *)

Inductive mpentry := EProc (apicid : Z) | EIoapic (id : Z) | EOther (type : Z).

Definition entry_size (x : mpentry) : Z := match x with EProc _ => 20 | _ => 8 end.
Definition entry_at (m : mem) (p : Z) (x : mpentry) : Prop :=
  match x with
  | EProc a => m p = MPPROC ∧ m (p + 1) = a
  | EIoapic a => m p = MPIOAPIC ∧ m (p + 1) = a
  | EOther t => m p = t ∧ (t = MPBUS ∨ t = MPIOINTR ∨ t = MPLINTR)
  end.
(** The entries [es] from [p] up to [e]. *)
Fixpoint table (m : mem) (p e : Z) (es : list mpentry) : Prop :=
  match es with
  | [] => p = e
  | x :: es => entry_at m p x ∧ table m (p + entry_size x) e es
  end.

Definition apicids (es : list mpentry) : list Z := omap (λ x, match x with EProc a => Some a | _ => None end) es.
Definition ioapics (es : list mpentry) : list Z := omap (λ x, match x with EIoapic a => Some a | _ => None end) es.

Lemma table_le m p e es : table m p e es → p ≤ e.
Proof. revert p. induction es as [|x es IH]; intros p; simpl; [lia|]. intros [_ H]. apply IH in H. destruct x; simpl in H; lia. Qed.

Lemma last_default {A} (l : list A) a d : List.last (a :: l) d = List.last l a.
Proof. revert a d. induction l as [|x l IH]; intros a d; [done|]. transitivity (List.last (x :: l) d); [done|]. by rewrite !IH. Qed.

(** What the loop makes of a whole table. *)
Definition taken (es : list mpentry) (s : mpstate) : mpstate :=
  Mpstate (take NCPU (mg_apicids s ++ apicids es)) (List.last (ioapics es) (mg_ioapicid s)) (mg_lapic s) (mg_ports s).

Lemma mpinit_loop_table m f p e es b s :
  table m p e es → (length es < f)%nat → (length (mg_apicids s) ≤ NCPU)%nat →
  mpinit_loop m f p e b s = (Ok b, taken es s).
Proof.
  revert p f s. induction es as [|x es IH]; intros p [|f] s Ht Hf Hn; try (simpl in Hf; lia); cbn [mpinit_loop table length] in *.
  - rewrite decide_False by lia. unfold taken. simpl. rewrite app_nil_r, take_ge by done. by destruct s.
  - destruct Ht as [Hx Ht]. pose proof (table_le _ _ _ _ Ht) as Hle. destruct x as [a|a|t]; cbn [entry_size entry_at] in *; rewrite decide_True by lia.
    + destruct Hx as [-> ->]. rewrite decide_True by done. rewrite bind_modify.
      case_decide as Hl; rewrite IH by (try done; try lia; simpl; rewrite length_app; simpl; lia); f_equal; unfold taken; change (apicids (EProc a :: es)) with (a :: apicids es); cbn [mg_apicids mg_ioapicid mg_lapic mg_ports].
      * by rewrite <- app_assoc.
      * assert (length (mg_apicids s) = NCPU) as El by lia. rewrite !take_app_le by lia. done.
    + destruct Hx as [-> ->]. rewrite decide_False, decide_True by done. rewrite bind_modify. rewrite IH by (try done; lia).
      f_equal. unfold taken. change (ioapics (EIoapic a :: es)) with (a :: ioapics es). cbn [mg_apicids mg_ioapicid mg_lapic mg_ports].
      f_equal. symmetry. apply last_default.
    + destruct Hx as [-> Hx]. rewrite decide_False, decide_False, decide_True by (try done; lia). rewrite IH by (try done; lia). done.
Qed.

(** An entry of a type that is not known, behind any other entries. *)
Lemma mpinit_loop_unknown m f p e q es b s :
  table m p q es → q < e → ¬ 0 ≤ m q ≤ 4 → ∃ s', mpinit_loop m f p e b s = (Stop Spin, s').
Proof.
  revert p f s b. induction es as [|x es IH]; intros p f s b Ht Hq Hm; cbn [table] in Ht.
  - subst q. revert s b. induction f as [|f IH]; intros s b; cbn [mpinit_loop]; [by eexists|].
    rewrite decide_True, !decide_False by lia. apply IH.
  - destruct Ht as [Hx Ht]. pose proof (table_le _ _ _ _ Ht) as Hle. destruct f as [|f]; cbn [mpinit_loop]; [by eexists|].
    destruct x as [a|a|t]; cbn [entry_size entry_at] in *; rewrite decide_True by lia; destruct Hx as [-> Hx].
    + rewrite decide_True by done. rewrite bind_modify. by eapply IH.
    + rewrite decide_False, decide_True by done. rewrite bind_modify. by eapply IH.
    + rewrite decide_False, decide_False, decide_True by (try done; lia). by eapply IH.
Qed.

(** The table that [mpconfig] finds is well-formed: signatures, version and checksums. *)
Definition conf_ok (m : mem) (mp conf : Z) : Prop :=
  mp_here m mp = true ∧ mp_physaddr m mp ≠ 0 ∧ conf = P2V (mp_physaddr m mp) ∧
  memcmp (at_addr m conf) (at_bytes (ascii_codes "PCMP")) 4 = 0 ∧
  (conf_version m conf = 1 ∨ conf_version m conf = 4) ∧ sum m conf (Z.to_nat (conf_length m conf)) = 0.

Lemma mpconfig_ok m mp conf : mpconfig m = Some (mp, conf) → conf_ok m mp conf.
Proof.
  unfold mpconfig. destruct (mpsearch m) as [x|] eqn:E; [|done]. repeat case_decide; try done. intros [= <- <-].
  split_and!; try done; first [by apply mpsearch_here|lia|by apply dec_stable].
Qed.

(** C-MP: [mpinit] takes the machine's tables in, or it does not come back.  The table it uses
    has the right signatures and version, and its bytes add up to 0.  When the entries of the
    table are all of known types, with fuel for each of them, [mpinit] returns: the APIC ids
    of the first NCPU processors are recorded in their order, [ioapicid] is the id in the last
    entry of an I/O APIC, and [lapic] the address in the table.  When an entry has another
    type, no number of rounds is enough: the loop looks at that entry for ever, and the panic
    behind it, which is meant for this case, is never reached. *)
Theorem mpinit_correct m imcr mp conf es s :
  mpconfig m = Some (mp, conf) → (length (mg_apicids s) ≤ NCPU)%nat →
  conf_ok m mp conf ∧
  (table m (conf + sizeof_mpconf) (conf + conf_length m conf) es → ∀ fuel, (length es < fuel)%nat →
     ∃ s', mpinit m imcr fuel s = (Ok tt, s') ∧ mg_apicids s' = take NCPU (mg_apicids s ++ apicids es) ∧
       mg_ioapicid s' = List.last (ioapics es) (mg_ioapicid s) ∧ mg_lapic s' = conf_lapicaddr m conf) ∧
  (∀ q, table m (conf + sizeof_mpconf) q es → q < conf + conf_length m conf → ¬ 0 ≤ m q ≤ 4 →
     ∀ fuel, ∃ s', mpinit m imcr fuel s = (Stop Spin, s')).
Proof.
  intros E Hn. split; [by apply mpconfig_ok|]. unfold mpinit. rewrite E. split.
  - intros Ht fuel Hf. rewrite bind_modify. set (s1 := Mpstate _ _ _ _).
    mstep (mpinit_loop_table m fuel _ _ es true s1 Ht Hf Hn). cbn [negb].
    case_bool_decide; cbn [when]; eexists; split; try reflexivity; done.
  - intros q Ht Hq Hm fuel. rewrite bind_modify. destruct (mpinit_loop_unknown m fuel _ _ q es true
      (Mpstate (mg_apicids s) (mg_ioapicid s) (conf_lapicaddr m conf) (mg_ports s)) Ht Hq Hm) as [s' E'].
    exists s'. by rewrite (bind_stop _ _ _ _ _ E').
Qed.

(** Tables of a machine with two processors and an I/O APIC, in the BIOS area, and the same
    with a bad entry. *)
Definition demo_table (t : Z) : list Z :=
  ascii_codes "PCMP" ++ [44 + 20 + 20 + 8; 0; 4] ++ replicate 29 0 ++ [0; 0; 0xe0; 0xfe] ++ replicate 4 0 ++
  [0; 0] ++ replicate 18 0 ++ [0; 1] ++ replicate 18 0 ++ [t; 2] ++ replicate 6 0.
Definition demo_mp : list Z := ascii_codes "_MP_" ++ [0; 0x10; 0x0f; 0; 1; 4].
Definition demo_bios (t : Z) : mem :=
  let tab := demo_table t in
  let fix7 := <[7%nat := u8 (- foldr Z.add 0 tab)]> tab in
  let mp := demo_mp ++ [u8 (- foldr Z.add 0 demo_mp)] ++ replicate 5 0 in
  write_bytes (write_bytes (λ _, 0) (P2V 0xf1000) fix7) (P2V 0xf0020) mp.

Lemma demo_mpconfig t : t = 2 ∨ t = 9 → mpconfig (demo_bios t) = Some (P2V 0xf0020, P2V 0xf1000).
Proof. intros [->| ->]; vm_compute; reflexivity. Qed.

Lemma mpinit_correct_witness :
  (∃ s', mpinit (demo_bios 2) 0 4 (Mpstate [] 0 0 []) = (Ok tt, s') ∧ mg_apicids s' = [0; 1] ∧ mg_ioapicid s' = 2 ∧ mg_lapic s' = 0xfee00000) ∧
  (∀ fuel, ∃ s', mpinit (demo_bios 9) 0 fuel (Mpstate [] 0 0 []) = (Stop Spin, s')).
Proof.
  split.
  - destruct (mpinit_correct (demo_bios 2) 0 _ _ [EProc 0; EProc 1; EIoapic 2] (Mpstate [] 0 0 []) (demo_mpconfig 2 (or_introl eq_refl)))
      as (_ & H & _); [simpl; lia|]. destruct (H ltac:(vm_compute; repeat split) 4%nat ltac:(simpl; lia)) as (s' & H1 & H2 & H3 & H4).
    exists s'. split; [exact H1|]. split; [exact H2|]. split; [exact H3|]. etrans; [exact H4|]. vm_compute. reflexivity.
  - destruct (mpinit_correct (demo_bios 9) 0 _ _ [EProc 0; EProc 1] (Mpstate [] 0 0 []) (demo_mpconfig 9 (or_intror eq_refl)))
      as (_ & _ & H); [simpl; lia|]. apply (H (P2V 0xf1000 + 84)); [vm_compute; repeat split|vm_compute; reflexivity|].
    vm_compute. intros [_ H9]. by apply H9.
Defined.
