(* ===== verification/Sched.v ===== *)
(** * Giving up the processor (proc.c: sched, yield, sleep, wakeup, kill)

    A routine that calls [sched] stops with [Swtch]: the processor is in the
    scheduler, with [ptable.lock] held by it.  What the routine does when the
    process runs again is a definition of its own ([sched_return],
    [yield_return], [sleep_return]); [sched]'s local [intena], which lives on
    the process's kernel stack meanwhile, is its argument. *)

From S2P Require Import Prelude State Spinlock.

Definition sched : K unit :=
  p ← myproc;
  h ← holding L_ptable;
  if negb h then panic "sched ptable.lock" else
  c ← mycpu;
  cp ← the_cpu c;
  if decide (c_ncli cp ≠ 1) then panic "sched locks" else
  match p with
  | None => wild
  | Some p =>
      pr ← the_proc p;
      if decide (p_state pr = RUNNING) then panic "sched running" else
      on ← gets read_if;
      if on : bool then panic "sched interruptible" else
      stopped Swtch
  end.
Definition sched_return (intena : bool) : K unit :=
  c ← mycpu;
  upd_cpu c (λ c, c <| c_intena := intena |>).

(** Use of [myproc()] as a pointer that the code dereferences. *)
Definition curproc : K nat :=
  p ← myproc;
  match p with Some p => mret p | None => wild end.

Definition yield : K unit :=
  acquire L_ptable;;
  p ← curproc;
  upd_proc p (λ p, p <| p_state := RUNNABLE |>);;
  sched.
Definition yield_return (intena : bool) : K unit :=
  sched_return intena;;
  release L_ptable.

Definition sleep (ch : chan) (lk : lockid) : K unit :=
  p ← myproc;
  match p with
  | None => panic "sleep"
  | Some p =>
      when (bool_decide (lk ≠ L_ptable)) (acquire L_ptable;; release lk);;
      upd_proc p (λ p, p <| p_chan := Some ch |> <| p_state := SLEEPING |>);;
      sched
  end.
Definition sleep_return (lk : lockid) (intena : bool) : K unit :=
  sched_return intena;;
  p ← curproc;
  upd_proc p (λ p, p <| p_chan := None |>);;
  when (bool_decide (lk ≠ L_ptable)) (release L_ptable;; acquire lk).

Definition wake (ch : chan) (p : proc) : proc :=
  if decide (p_state p = SLEEPING ∧ p_chan p = Some ch) then p <| p_state := RUNNABLE |> else p.
Definition wakeup1 (ch : chan) : K unit := each (λ p, upd_proc p (wake ch)) (seq 0 NPROC).

Definition wakeup (ch : chan) : K unit :=
  acquire L_ptable;;
  wakeup1 ch;;
  release L_ptable.

Definition kill (pid : Z) : K Z :=
  acquire L_ptable;;
  r ← scan (λ p,
    pr ← the_proc p;
    if decide (p_pid pr = pid) then
      upd_proc p (λ p, p <| p_killed := true |>);;
      (* wake process from sleep if necessary *)
      when (bool_decide (p_state pr = SLEEPING)) (upd_proc p (λ p, p <| p_state := RUNNABLE |>));;
      release L_ptable;;
      mret (inl 0)
    else mret (inr tt)) (seq 0 NPROC);
  match r with
  | Some r => mret r
  | None => release L_ptable;; mret (-1)
  end.

(** ** Loops over the process table *)

Lemma scan_skip {S I A} (body : I → M S (A + unit)) l1 l2 s :
  (∀ i, i ∈ l1 → body i s = (Ok (inr tt), s)) → scan body (l1 ++ l2) s = scan body l2 s.
Proof.
  induction l1 as [|i l1 IH]; intros H; [done|]. simpl.
  mstep (H i ltac:(left)). apply IH. intros j Hj. apply H. by right.
Qed.

Lemma upd_proc_ok i g k : upd_proc i g k = (Ok tt, k <| k_procs ::= alter g i |>).
Proof. done. Qed.

Lemma each_upd_proc g l k :
  each (λ p, upd_proc p g) l k =
  (Ok tt, k <| k_procs ::= λ ps, foldl (λ ps i, alter g i ps) ps l |>).
Proof.
  revert k. induction l as [|i l IH]; intros k; cbn [each foldl].
  - unfold mret, M_ret. by destruct k.
  - mstep (upd_proc_ok i g k). rewrite IH. by unfold upd.
Qed.

Lemma foldl_alter_map {A} (g : A → A) (l : list A) :
  foldl (λ l i, alter g i l) l (seq 0 (length l)) = map g l.
Proof.
  induction l as [|x l IH]; [done|]. cbn [length seq foldl]. change (alter g 0%nat (x :: l)) with (g x :: l).
  change (map g (x :: l)) with (g x :: map g l). rewrite <- IH. rewrite <- fmap_S_seq. generalize (seq 0 (length l)) as is'. clear IH.
  revert l. generalize (g x) as y. intros y l is'. revert l.
  induction is' as [|i is' IH]; intros l; [done|]. cbn. by rewrite <- IH.
Qed.

Lemma each_procs g k :
  length (k_procs k) = NPROC →
  each (λ p, upd_proc p g) (seq 0 NPROC) k = (Ok tt, k <| k_procs ::= map g |>).
Proof. intros Hl. rewrite each_upd_proc. unfold upd. by rewrite <- Hl, foldl_alter_map. Qed.

(** ** Wakeup and kill *)

Lemma wakeup1_spec ch k :
  length (k_procs k) = NPROC → wakeup1 ch k = (Ok tt, k <| k_procs ::= map (wake ch) |>).
Proof. apply each_procs. Qed.

Lemma wakeup_spec ch k c cp :
  cpu_at k c cp → c_ncli cp + 2 < 2 ^ 30 → free L_ptable k → length (k_procs k) = NPROC →
  wakeup ch k = (Ok tt, k <| k_procs ::= map (wake ch) |>).
Proof.
  intros Hc Hb Hf Hl. unfold wakeup.
  mstep (acquire_spec _ _ _ _ Hc Hb Hf).
  mstep (wakeup1_spec ch (locked L_ptable c k) Hl).
  change (locked L_ptable c k <| k_procs ::= map (wake ch) |>)
    with (locked L_ptable c (k <| k_procs ::= map (wake ch) |>)).
  eapply release_spec; [|done|done]. by destruct Hc.
Qed.

(** Entering the scheduler with only [ptable.lock] held. *)
Lemma sched_spec k c cp i pr :
  cpu_at k c cp → c_ncli cp = 0 → c_proc cp = Some i → k_procs k !! i = Some pr → p_state pr ≠ RUNNING →
  sched (locked L_ptable c k) = (Stop Swtch, locked L_ptable c k).
Proof.
  intros Hc Hz Hp Hpr Hst. assert (cpu_at (locked L_ptable c k) c (pushed cp)) as Hl by (apply locked_at; [done|lia]).
  unfold sched. mstep (myproc_spec _ _ _ Hl ltac:(simpl; lia)).
  mstep (holding_spec L_ptable _ _ _ Hl ltac:(simpl; lia)).
  rewrite locked_holder, bool_decide_true by done. cbn [negb].
  mstep (mycpu_at _ _ _ Hl eq_refl).
  mstep (the_cpu_at _ _ _ (ca_cpu _ _ _ Hl)).
  rewrite decide_False by (simpl; rewrite Hz; lia).
  change (c_proc (pushed cp)) with (c_proc cp). rewrite Hp.
  erewrite bind_ok; [|by apply at_index_ok].
  rewrite decide_False by done. rewrite bind_gets, (read_if_at _ _ _ Hl). done.
Qed.

(** Going to sleep with [lk] held: the process is recorded as sleeping on [ch],
    [lk] is free again and only [ptable.lock] is held when the processor enters
    the scheduler. *)
Lemma sleep_spec ch lk k c cp p :
  lk ≠ L_ptable → cpu_at k c cp → c_ncli cp = 0 → c_proc cp = Some p →
  (p < length (k_procs k))%nat → free lk k → free L_ptable k →
  sleep ch lk (locked lk c k) =
  (Stop Swtch, locked L_ptable c
     (k <| k_procs ::= alter (λ p, p <| p_chan := Some ch |> <| p_state := SLEEPING |>) p |>)).
Proof.
  intros Hne Hc Hz Hp Hlen Hf Hfp.
  assert (cpu_at (locked lk c k) c (pushed cp)) as Hl by (apply locked_at; [done|lia]).
  unfold sleep. mstep (myproc_spec _ _ _ Hl ltac:(simpl; lia)).
  change (c_proc (pushed cp)) with (c_proc cp). rewrite Hp.
  rewrite bool_decide_true by done. unfold when. rewrite bind_assoc.
  mstep (acquire_spec _ _ _ _ Hl ltac:(simpl; lia) ltac:(by apply free_locked)).
  change (locked L_ptable c (locked lk c k)) with
    (push c (push c k) <| k_locks := (L_ptable, c) :: (lk, c) :: k_locks k |>).
  erewrite bind_ok; [|eapply release_any; [exact (push_at _ _ _ Hc ltac:(lia))|simpl; lia|]].
  2:{ simpl. rewrite decide_False by done. by rewrite decide_True. }
  assert (unlock lk ((L_ptable, c) :: (lk, c) :: k_locks k) = (L_ptable, c) :: k_locks k) as ->.
  { unfold unlock. rewrite filter_cons_True by (simpl; congruence). f_equal. by apply unlock_locked. }
  mstep (upd_proc_ok _ _ _).
  set (k' := k <| k_procs ::= alter _ p |>).
  change (sched (locked L_ptable c k') = (Stop Swtch, locked L_ptable c k')).
  destruct (lookup_lt_is_Some_2 _ _ Hlen) as [x Hx].
  eapply sched_spec; [by destruct Hc; split|done|done|unfold k', upd; simpl; by rewrite list_lookup_alter_eq, Hx|done].
Qed.

(** Giving up the processor: the process stays runnable. *)
Lemma yield_spec k c cp i pr :
  cpu_at k c cp → c_ncli cp = 0 → c_proc cp = Some i → k_procs k !! i = Some pr → free L_ptable k →
  yield k = (Stop Swtch, locked L_ptable c (k <| k_procs ::= alter (λ p, p <| p_state := RUNNABLE |>) i |>)).
Proof.
  intros Hc Hz Hp Hpr Hf. unfold yield. mstep (acquire_spec L_ptable k c cp Hc ltac:(lia) Hf).
  assert (cpu_at (locked L_ptable c k) c (pushed cp)) as Hl by (apply locked_at; [done|lia]).
  unfold curproc. rewrite bind_assoc. mstep (myproc_spec _ _ _ Hl ltac:(simpl; lia)).
  change (c_proc (pushed cp)) with (c_proc cp). rewrite Hp, bind_ret. mstep (upd_proc_ok _ _ _).
  set (k' := k <| k_procs ::= alter _ i |>).
  change (sched (locked L_ptable c k') = (Stop Swtch, locked L_ptable c k')).
  eapply sched_spec; [by destruct Hc; split|done|done|unfold k', upd; simpl; by rewrite list_lookup_alter_eq, Hpr|done].
Qed.

#[global] Opaque wakeup wakeup1 sleep sched.
