(* ===== verification/Kalloc.v ===== *)
(** * The physical page allocator (kalloc.c)

    The free pages form a linked list through their own first words, so the
    list lives in memory ([k_mem]) and [k_freelist] is its first page, 0 when
    there is none.  The abstract allocator is the list of free pages. *)

From S2P Require Import Prelude Memory Strings State Spinlock.

(** memset(v, 1, PGSIZE): fill with junk to catch dangling references. *)
Definition junk_page (v : Z) (k : kernel) : kernel :=
  k <| k_mem ::= λ m, memset m v 1 PGSIZE |>.
(** r->next = kmem.freelist; kmem.freelist = r; *)
Definition push_page (v : Z) (k : kernel) : kernel :=
  k <| k_mem ::= λ m, store32 m v (k_freelist k) |> <| k_freelist := v |>.
(** kmem.freelist = r->next; *)
Definition pop_page (r : Z) (k : kernel) : kernel :=
  k <| k_freelist := load32 (k_mem k) r |>.

Definition kfree (v : Z) : K unit :=
  bad ← gets (λ k, bool_decide (v mod PGSIZE ≠ 0 ∨ v < img_end (k_img k) ∨ PHYSTOP ≤ V2P v));
  if bad : bool then panic "kfree" else
  modify (junk_page v);;
  use_lock ← gets k_use_lock;
  when use_lock (acquire L_kmem);;
  modify (push_page v);;
  use_lock ← gets k_use_lock;
  when use_lock (release L_kmem).

Definition kalloc : K Z :=
  use_lock ← gets k_use_lock;
  when use_lock (acquire L_kmem);;
  r ← gets k_freelist;
  when (bool_decide (r ≠ 0)) (modify (pop_page r));;
  use_lock ← gets k_use_lock;
  when use_lock (release L_kmem);;
  mret r.

(** The loop of [freerange]; the fuel is enough when the range does not reach
    the end of the address space. *)
Fixpoint freerange_loop (fuel : nat) (p vend : Z) : K unit :=
  if decide (u32 (p + PGSIZE) ≤ vend) then
    match fuel with
    | O => stopped Spin
    | S f => kfree p;; freerange_loop f (u32 (p + PGSIZE)) vend
    end
  else mret tt.
Definition freerange (vstart vend : Z) : K unit :=
  let p := PGROUNDUP vstart in
  freerange_loop (Z.to_nat ((vend - p) / PGSIZE)) p vend.

Definition kinit1 (vstart vend : Z) : K unit :=
  initlock L_kmem;;
  modify (λ k, k <| k_use_lock := false |>);;
  freerange vstart vend.
Definition kinit2 (vstart vend : Z) : K unit :=
  freerange vstart vend;;
  modify (λ k, k <| k_use_lock := true |>).

(** ** The abstract allocator *)

(** A page the allocator can manage: aligned, above the kernel image and below
    the top of physical memory, as a kernel address. *)
Definition page_ok (k : kernel) (p : Z) : Prop :=
  p mod PGSIZE = 0 ∧ img_end (k_img k) ≤ p ∧ KERNBASE ≤ p < KERNBASE + PHYSTOP.

(** The linked list that starts at [a]. *)
Fixpoint chain (m : mem) (a : Z) (ps : list Z) : Prop :=
  match ps with
  | [] => a = 0
  | p :: ps' => a = p ∧ chain m (load32 m p) ps'
  end.

(** [ps] are the free pages. *)
Record kmem_ok (k : kernel) (ps : list Z) : Prop := {
  ko_chain : chain (k_mem k) (k_freelist k) ps;
  ko_pages : Forall (page_ok k) ps;
  ko_nodup : NoDup ps }.

Definition kalloc_abs (ps : list Z) : Z * list Z :=
  match ps with [] => (0, []) | p :: ps' => (p, ps') end.

(** The lock is used and free, or not used yet. *)
Definition kmem_quiet (k : kernel) : Prop :=
  ∃ c cp, cpu_at k c cp ∧ c_ncli cp + 2 < 2 ^ 30 ∧ free L_kmem k.

Lemma page_ok_range k p : page_ok k p → 0 < p < 2 ^ 32 ∧ p mod 4 = 0.
Proof. unfold page_ok, KERNBASE, PHYSTOP, PGSIZE. intros (H1 & _ & H2). zlia. Qed.

Lemma page_disjoint k p q : page_ok k p → page_ok k q → p ≠ q → p + PGSIZE ≤ q ∨ q + PGSIZE ≤ p.
Proof. unfold page_ok, PGSIZE. intros (H1 & _) (H2 & _) Hne. zlia. Qed.

(** Stores outside the free pages do not change the list. *)
Lemma chain_ext m m' a ps :
  (∀ p x, p ∈ ps → p ≤ x < p + 4 → m' x = m x) → chain m a ps → chain m' a ps.
Proof.
  revert a. induction ps as [|p ps IH]; intros a H; simpl; [done|]. intros [-> Hc]. split; [done|].
  rewrite (load32_ext m' m) by (intros; apply H with p; [left|lia]).
  apply IH; [|done]. intros q x Hq. apply H. by right.
Qed.

(** The first word of the page is stored by the chain's link. *)
Lemma mem_same k : k <| k_mem ::= id |> = k.
Proof. by destruct k. Qed.

(** [body] run with the lock when it is used, without it otherwise. *)
Lemma maybe_locked k k' :
  kmem_quiet k → k_cpus k' = k_cpus k → k_lapicid k' = k_lapicid k → k_locks k' = k_locks k →
  k_use_lock k' = k_use_lock k →
  ∃ L, when (k_use_lock k) (acquire L_kmem) k = (Ok tt, L k) ∧
       when (k_use_lock k) (release L_kmem) (L k') = (Ok tt, k') ∧
       (L = id ∨ ∃ c, L = locked L_kmem c).
Proof.
  intros (c & cp & Hc & Hb & Hf) E1 E2 E3 E4. destruct (k_use_lock k).
  - exists (locked L_kmem c). split_and!; [by eapply acquire_spec| |by right; exists c].
    eapply release_spec; [|exact Hb|unfold free in *; by rewrite E3].
    destruct Hc; split; unfold this_cpu in *; by rewrite ?E1, ?E2.
  - exists id. split_and!; [done|done|by left].
Qed.

#[local] Opaque memset store32 load32.

Definition freed (v : Z) (k : kernel) : kernel := push_page v (junk_page v k).

Lemma freed_mem v k x :
  k_mem (freed v k) x =
  if decide (v ≤ x < v + 4) then store32 (λ _, 0) v (k_freelist k) x
  else if decide (v ≤ x < v + PGSIZE) then 1 else k_mem k x.
Proof.
  unfold freed, push_page, junk_page, upd. cbn. case_decide as E1.
  - by apply store32_inside.
  - rewrite store32_outside by lia. rewrite memset_spec by (unfold PGSIZE; lia). by case_decide.
Qed.

Lemma freed_mem_ok v k : mem_ok (k_mem k) → mem_ok (k_mem (freed v k)).
Proof.
  intros Hm x. rewrite freed_mem. repeat case_decide; [|lia|apply Hm]. assert (mem_ok (λ _, 0)) as Hz by done.
  by apply (store32_ok _ v (k_freelist k)) in Hz.
Qed.

Lemma freed_ok k ps v :
  kmem_ok k ps → page_ok k v → v ∉ ps → kmem_ok (freed v k) (v :: ps).
Proof.
  intros [C1 C2 C3] Hv Hn. split.
  - simpl. split; [done|]. unfold freed, push_page, upd. cbn -[junk_page].
    rewrite load32_store32_eq. change (k_freelist (junk_page v k)) with (k_freelist k).
    assert (0 ≤ k_freelist k < 2 ^ 32) as Hfl.
    { destruct ps as [|p ps]; simpl in C1; [lia|]. destruct C1 as [-> _].
      apply Forall_cons in C2 as [Hp _]. pose proof (page_ok_range _ _ Hp). lia. }
    rewrite u32_small by done. eapply chain_ext; [|done]. intros p x Hp Hx.
    rewrite Forall_forall in C2. pose proof (C2 p Hp) as Hpp.
    assert (p ≠ v) as Hne by congruence.
    change (k_mem (freed v k) x = k_mem k x). rewrite freed_mem.
    destruct (page_disjoint k p v Hpp Hv Hne); unfold PGSIZE in *; by rewrite !decide_False by lia.
  - by apply Forall_cons.
  - by apply NoDup_cons.
Qed.

Lemma kmem_quiet_ext k k' :
  kmem_quiet k → k_cpus k' = k_cpus k → k_lapicid k' = k_lapicid k → k_locks k' = k_locks k →
  kmem_quiet k'.
Proof.
  intros (c & cp & [] & Hb & Hf) E1 E2 E3. exists c, cp. unfold free, this_cpu in *.
  split_and!; [split; unfold this_cpu; by rewrite ?E1, ?E2|done|by rewrite E3].
Qed.

Lemma kfree_spec k v : kmem_quiet k → page_ok k v → kfree v k = (Ok tt, freed v k).
Proof.
  intros Hq Hv. unfold kfree. rewrite bind_gets, bool_decide_false.
  2:{ unfold page_ok, V2P, KERNBASE, PHYSTOP in *. rewrite u32_small by lia. lia. }
  rewrite bind_modify, bind_gets.
  destruct (maybe_locked (junk_page v k) (freed v k)) as (L & L1 & L2 & L3); [|done..|].
  { by eapply kmem_quiet_ext. }
  mstep L1. rewrite bind_modify, bind_gets. by destruct L3 as [->|[c ->]].
Qed.

Definition kalloced (ps : list Z) (k : kernel) : kernel :=
  match ps with [] => k | p :: _ => pop_page p k end.

Lemma kalloc_spec k ps :
  kmem_ok k ps → kmem_quiet k →
  kalloc k = (Ok (kalloc_abs ps).1, kalloced ps k) ∧ kmem_ok (kalloced ps k) (kalloc_abs ps).2.
Proof.
  intros [C1 C2 C3] Hq. unfold kalloc. rewrite bind_gets.
  destruct (maybe_locked k (kalloced ps k)) as (L & L1 & L2 & L3); [done|by destruct ps..|].
  mstep L1. rewrite bind_gets.
  assert (k_freelist (L k) = k_freelist k) as -> by (by destruct L3 as [->|[c ->]]).
  assert (when (bool_decide (k_freelist k ≠ 0)) (modify (pop_page (k_freelist k))) (L k) =
          (Ok tt, L (kalloced ps k))) as Hpop.
  { destruct ps as [|p ps]; simpl in C1.
    - by rewrite bool_decide_false by tauto.
    - destruct C1 as [-> _]. apply Forall_cons in C2 as [Hp _].
      rewrite bool_decide_true by (pose proof (page_ok_range _ _ Hp); lia).
      by destruct L3 as [->|[c ->]]. }
  mstep Hpop. rewrite bind_gets.
  assert (k_use_lock (L (kalloced ps k)) = k_use_lock k) as ->.
  { destruct L3 as [->|[c ->]]; by destruct ps. }
  mstep L2. destruct ps as [|p ps]; simpl in *.
  - split; [by rewrite C1|by split].
  - destruct C1 as [-> C1]. split; [done|]. apply Forall_cons in C2 as [_ C2].
    apply NoDup_cons in C3 as [_ C3]. by split.
Qed.

(** ** Initialisation *)

(** The [n] pages from [p] up, the last one first. *)
Fixpoint pages_up (p : Z) (n : nat) : list Z :=
  match n with
  | O => []
  | S n' => pages_up (p + PGSIZE) n' ++ [p]
  end.

Lemma pages_up_in p n q : q ∈ pages_up p n ↔ ∃ i, 0 ≤ i < Z.of_nat n ∧ q = p + PGSIZE * i.
Proof.
  revert p. induction n as [|n IH]; intros p; simpl.
  - split; [by intros ?%not_elem_of_nil|]. intros (i & Hi & _). lia.
  - rewrite elem_of_app, IH, list_elem_of_singleton. split.
    + intros [(i & Hi & ->)| ->]; [exists (i + 1)|exists 0]; split; lia.
    + intros (i & Hi & ->). destruct (decide (i = 0)) as [->|Hne]; [right; lia|].
      left. exists (i - 1). split; lia.
Qed.

Lemma freerange_loop_spec n p vend k ps :
  kmem_ok k ps → kmem_quiet k → p + PGSIZE * Z.of_nat n ≤ vend < p + PGSIZE * (Z.of_nat n + 1) →
  0 ≤ p → vend + PGSIZE < 2 ^ 32 →
  (∀ q, q ∈ pages_up p n → page_ok k q ∧ q ∉ ps) →
  ∃ k', freerange_loop n p vend k = (Ok tt, k') ∧ kmem_ok k' (pages_up p n ++ ps) ∧
    k' = k <| k_mem := k_mem k' |> <| k_freelist := k_freelist k' |> ∧
    (mem_ok (k_mem k) → mem_ok (k_mem k')) ∧
    ∀ x, (∀ q, q ∈ pages_up p n → ¬ q ≤ x < q + PGSIZE) → k_mem k' x = k_mem k x.
Proof.
  revert p k ps. induction n as [|n IH]; intros p k ps Hok Hq Hv Hp Hb Hpages; cbn [freerange_loop].
  { rewrite u32_small by (unfold PGSIZE in *; lia). rewrite decide_False by (unfold PGSIZE in *; lia).
    exists k. split_and!; [done|done|by destruct k|done|done]. }
  rewrite u32_small by (unfold PGSIZE in *; lia). rewrite decide_True by (unfold PGSIZE in *; lia).
  destruct (Hpages p) as [Hpp Hpn]; [apply pages_up_in; exists 0; lia|].
  mstep (kfree_spec k p Hq Hpp).
  destruct (IH (p + PGSIZE) (freed p k) (p :: ps)) as (k' & H1 & H2 & H3 & H4 & H5).
  - by apply freed_ok.
  - by eapply kmem_quiet_ext.
  - lia.
  - unfold PGSIZE; lia.
  - done.
  - intros q Hqq. destruct (Hpages q) as [Hqp Hqn]; [simpl; apply elem_of_app; by left|].
    split; [done|]. apply not_elem_of_cons. split; [|done].
    apply pages_up_in in Hqq as (i & Hi & ->). unfold PGSIZE; lia.
  - exists k'. split_and!; [done| |by rewrite H3|intros Hm; by apply H4, freed_mem_ok|].
    + simpl. by rewrite <- app_assoc.
    + intros x Hx. rewrite H5.
      * rewrite freed_mem. assert (¬ p ≤ x < p + PGSIZE) as Hxp by (apply Hx; simpl; set_solver).
        unfold PGSIZE in *. by rewrite !decide_False by lia.
      * intros q Hqq. apply Hx. simpl. set_solver.
Qed.

(** [freerange] terminates and puts on the free list exactly the whole
    pages that lie between its two addresses, whatever their alignment, when
    these pages are managed and not free yet; nothing but memory and the free
    list changes. *)
Theorem freerange_spec vstart vend k ps :
  kmem_ok k ps → kmem_quiet k → 0 ≤ vstart ≤ vend → vend + 2 * PGSIZE < 2 ^ 32 →
  (∀ q, q mod PGSIZE = 0 → vstart ≤ q → q + PGSIZE ≤ vend → page_ok k q ∧ q ∉ ps) →
  ∃ k' qs, freerange vstart vend k = (Ok tt, k') ∧ kmem_ok k' (qs ++ ps) ∧
    (∀ q, q ∈ qs ↔ q mod PGSIZE = 0 ∧ vstart ≤ q ∧ q + PGSIZE ≤ vend) ∧
    k' = k <| k_mem := k_mem k' |> <| k_freelist := k_freelist k' |> ∧
    (mem_ok (k_mem k) → mem_ok (k_mem k')) ∧
    ∀ x, (∀ q, q ∈ qs → ¬ q ≤ x < q + PGSIZE) → k_mem k' x = k_mem k x.
Proof.
  intros Hok Hq Hs Hb Hpages. unfold freerange.
  rewrite PGROUNDUP_spec by (unfold PGSIZE in *; lia).
  set (p := (vstart + PGSIZE - 1) / PGSIZE * PGSIZE).
  assert (vstart ≤ p < vstart + PGSIZE ∧ p mod PGSIZE = 0) as [Hp Hpa] by (unfold p, PGSIZE; zlia).
  destruct (decide (p ≤ vend)) as [Hpv|Hpv].
  - set (n := Z.to_nat ((vend - p) / PGSIZE)).
    assert (p + PGSIZE * Z.of_nat n ≤ vend < p + PGSIZE * (Z.of_nat n + 1)) as Hn.
    { unfold n. rewrite Z2Nat.id by (unfold PGSIZE in *; zlia). unfold PGSIZE in *. zlia. }
    assert (∀ q, q ∈ pages_up p n ↔ q mod PGSIZE = 0 ∧ vstart ≤ q ∧ q + PGSIZE ≤ vend) as Hin.
    { intros q. rewrite pages_up_in. split.
      - intros (i & Hi & ->). unfold PGSIZE in *. zlia.
      - intros (H1 & H2 & H3). exists ((q - p) / PGSIZE). unfold PGSIZE in *. zlia. }
    destruct (freerange_loop_spec n p vend k ps) as (k' & H1 & H2 & H3 & H4 & H5); [done|done|done|lia|unfold PGSIZE in *; lia| |].
    + intros q (Q1 & Q2 & Q3)%Hin. by apply Hpages.
    + by exists k', (pages_up p n).
  - exists k, []. replace (Z.to_nat _) with O by (unfold PGSIZE in *; zlia). cbn [freerange_loop].
    rewrite u32_small by (unfold PGSIZE in *; lia). rewrite decide_False by (unfold PGSIZE in *; lia).
    split_and!; [done|done| |by destruct k|done|done].
    intros q. split; [by intros ?%not_elem_of_nil|]. unfold PGSIZE in *. zlia.
Qed.

(** ** Refinement *)

Inductive kop := Op_alloc | Op_free (v : Z).

(** The abstract allocator on its list of free pages; [None] is a misuse: a
    page that is free already or is none of the allocator's pages. *)
Definition kop_abs (k : kernel) (o : kop) (ps : list Z) : option (Z * list Z) :=
  match o with
  | Op_alloc => Some (kalloc_abs ps)
  | Op_free v => if decide (page_ok k v ∧ v ∉ ps) then Some (v, v :: ps) else None
  end.
Fixpoint kops_abs (k : kernel) (os : list kop) (ps : list Z) : option (list Z * list Z) :=
  match os with
  | [] => Some ([], ps)
  | o :: os' =>
      '(r, ps1) ← kop_abs k o ps;
      '(rs, ps2) ← kops_abs k os' ps1;
      Some (r :: rs, ps2)
  end.

Definition kop_run (o : kop) : K Z :=
  match o with Op_alloc => kalloc | Op_free v => kfree v;; mret v end.
Fixpoint kops_run (os : list kop) : K (list Z) :=
  match os with
  | [] => mret []
  | o :: os' => r ← kop_run o; rs ← kops_run os'; mret (r :: rs)
  end.

Lemma kop_sim k o ps r ps' :
  kmem_ok k ps → kmem_quiet k → kop_abs k o ps = Some (r, ps') →
  ∃ k', kop_run o k = (Ok r, k') ∧ kmem_ok k' ps' ∧ kmem_quiet k' ∧ k_img k' = k_img k.
Proof.
  intros Hok Hq Ha. destruct o as [|v]; simpl in *.
  - destruct (kalloc_spec k ps Hok Hq) as [H1 H2]. injection Ha as Ha.
    rewrite Ha in H1, H2. exists (kalloced ps k).
    split_and!; [done|done| |by destruct ps]. eapply kmem_quiet_ext; [done|by destruct ps..].
  - case_decide as Hd; [|done]. destruct Hd as [Hv Hn]. injection Ha as <- <-.
    exists (freed v k). mstep (kfree_spec k v Hq Hv).
    split_and!; [done|by apply freed_ok|by eapply kmem_quiet_ext|done].
Qed.

Lemma kop_abs_img k k' o ps : k_img k' = k_img k → kop_abs k' o ps = kop_abs k o ps.
Proof. intros E. unfold kop_abs, page_ok. by rewrite E. Qed.

Lemma kops_abs_img k k' os ps : k_img k' = k_img k → kops_abs k' os ps = kops_abs k os ps.
Proof.
  intros E. revert ps. induction os as [|o os IH]; intros ps; simpl; [done|].
  rewrite (kop_abs_img k k') by done. destruct (kop_abs k o ps) as [[r ps1]|]; simpl; [|done].
  by rewrite IH.
Qed.

(** C10: the allocator refines the list of free pages.  From a state whose
    free list in memory is [ps], every sequence of [kalloc] and [kfree] calls
    that uses pages properly runs without panicking, with or without the lock,
    and returns what the abstract allocator returns: in particular a page is
    handed out only while it is free, 0 exactly when no page is left. *)
Theorem kalloc_refines os k ps rs ps' :
  kmem_ok k ps → kmem_quiet k → kops_abs k os ps = Some (rs, ps') →
  ∃ k', kops_run os k = (Ok rs, k') ∧ kmem_ok k' ps' ∧ kmem_quiet k'.
Proof.
  revert k ps rs. induction os as [|o os IH]; intros k ps rs Hok Hq Ha; simpl in *.
  - injection Ha as <- <-. by exists k.
  - destruct (kop_abs k o ps) as [[r ps1]|] eqn:E1; simplify_eq/=.
    destruct (kops_abs k os ps1) as [[rs' ps2]|] eqn:E2; simplify_eq/=.
    destruct (kop_sim k o ps r ps1 Hok Hq E1) as (k1 & R1 & K1 & Q1 & I1).
    rewrite <- (kops_abs_img k k1) in E2 by done.
    destruct (IH k1 ps1 rs' K1 Q1 E2) as (k2 & R2 & K2 & Q2).
    exists k2. mstep R1. by mstep R2.
Qed.

Definition kalloc_demo : kernel := boot0 <| k_use_lock := true |>.
Definition kalloc_page : Z := KERNBASE + 0x200000.

Lemma kalloc_demo_ok : kmem_ok kalloc_demo [] ∧ kmem_quiet kalloc_demo.
Proof.
  split; [by split; [|constructor..]|]. exists 0%nat, cpu0.
  split_and!; [by apply cpu0_at|simpl; lia|done].
Qed.

Lemma kalloc_refines_witness :
  ∃ k', kops_run [Op_free kalloc_page; Op_alloc; Op_alloc] kalloc_demo =
        (Ok [kalloc_page; kalloc_page; 0], k') ∧ kmem_ok k' [] ∧ kmem_quiet k'.
Proof.
  destruct kalloc_demo_ok as [H1 H2].
  apply (kalloc_refines [Op_free kalloc_page; Op_alloc; Op_alloc] kalloc_demo [] _ [] H1 H2).
  cbn -[decide page_ok]. rewrite decide_True; [done|]. split; [|by apply not_elem_of_nil].
  split_and!; [reflexivity|by vm_compute..].
Defined.

Lemma freerange_spec_witness :
  ∃ k' qs, freerange (kalloc_page + 1) (kalloc_page + 3 * PGSIZE) kalloc_demo = (Ok tt, k') ∧
    kmem_ok k' (qs ++ []) ∧ kalloc_page + PGSIZE ∈ qs ∧ kalloc_page ∉ qs.
Proof.
  destruct kalloc_demo_ok as [H1 H2].
  destruct (freerange_spec (kalloc_page + 1) (kalloc_page + 3 * PGSIZE) kalloc_demo [] H1 H2)
    as (k' & qs & F1 & F2 & F3 & _).
  - unfold kalloc_page, KERNBASE, PGSIZE; lia.
  - unfold kalloc_page, KERNBASE, PGSIZE; lia.
  - intros q Q1 Q2 Q3. split; [|by apply not_elem_of_nil].
    unfold page_ok, kalloc_page, KERNBASE, PHYSTOP, PGSIZE in *. split; [done|].
    change (img_end (k_img kalloc_demo)) with 2148618240. lia.
  - exists k', qs. split_and!; [done|done| |].
    + apply F3. split; [reflexivity|]. unfold PGSIZE; lia.
    + intros (_ & Hx & _)%F3. lia.
Defined.

#[global] Opaque kalloc kfree.
