(* ===== verification/Sleeplock.v ===== *)
(** * Sleep locks (sleeplock.c)

    The sleep locks of the kernel are the ones of the buffers and the inodes.
    [acquiresleep_loop] is the part of [acquiresleep] from the loop on, where a
    process that had to sleep continues. *)

From S2P Require Import Prelude State Spinlock Sched.

Inductive slref := SL_buf (b : nat) | SL_inode (i : nat).

Definition sl_spin (r : slref) : lockid :=
  match r with SL_buf b => L_buf b | SL_inode i => L_inode i end.
Definition sl_chan (r : slref) : chan :=
  match r with SL_buf b => C_buf b | SL_inode i => C_inode i end.
Definition get_sl (r : slref) (k : kernel) : sleeplock :=
  match r with
  | SL_buf b => match k_bufs k !! b with Some x => b_lock x | None => Sleeplock false 0 end
  | SL_inode i => match k_icache k !! i with Some x => i_lock x | None => Sleeplock false 0 end
  end.
Definition put_sl (r : slref) (l : sleeplock) (k : kernel) : kernel :=
  match r with
  | SL_buf b => k <| k_bufs ::= alter (λ x, x <| b_lock := l |>) b |>
  | SL_inode i => k <| k_icache ::= alter (λ x, x <| i_lock := l |>) i |>
  end.

Definition mypid : K Z := p ← curproc; pr ← the_proc p; mret (p_pid pr).

Definition initsleeplock (r : slref) : K unit :=
  initlock (sl_spin r);;
  modify (put_sl r (Sleeplock false 0)).

Definition acquiresleep_loop (r : slref) : K unit :=
  l ← gets (get_sl r);
  if sl_locked l then sleep (sl_chan r) (sl_spin r) else
  pid ← mypid;
  modify (put_sl r (Sleeplock true pid));;
  release (sl_spin r).
Definition acquiresleep (r : slref) : K unit :=
  acquire (sl_spin r);;
  acquiresleep_loop r.
Definition acquiresleep_resume (r : slref) (intena : bool) : K unit :=
  sleep_return (sl_spin r) intena;;
  acquiresleep_loop r.

Definition releasesleep (r : slref) : K unit :=
  acquire (sl_spin r);;
  modify (put_sl r (Sleeplock false 0));;
  wakeup (sl_chan r);;
  release (sl_spin r).

Definition holdingsleep (r : slref) : K bool :=
  acquire (sl_spin r);;
  l ← gets (get_sl r);
  pid ← mypid;
  release (sl_spin r);;
  mret (sl_locked l && bool_decide (sl_pid l = pid)).

(** ** A process in the kernel

    [ctx k pid]: a process with this pid runs on the current processor, at
    interrupt depth 0, and no spin lock is held. *)
Record ctx (k : kernel) (pid : Z) : Prop := {
  ctx_locks : k_locks k = [];
  ctx_procs : length (k_procs k) = NPROC;
  ctx_run : ∃ c cp p pr, cpu_at k c cp ∧ c_ncli cp = 0 ∧ c_proc cp = Some p ∧
    k_procs k !! p = Some pr ∧ p_pid pr = pid }.

Lemma ctx_free k pid lk : ctx k pid → free lk k.
Proof. intros [H _ _]. unfold free. by rewrite H. Qed.

Lemma cpu_at_ext k k' c cp :
  k_cpus k' = k_cpus k → k_lapicid k' = k_lapicid k → cpu_at k c cp → cpu_at k' c cp.
Proof. intros E1 E2 []. split; unfold this_cpu in *; by rewrite ?E1, ?E2. Qed.

Lemma ctx_ext k k' pid :
  ctx k pid → k_cpus k' = k_cpus k → k_lapicid k' = k_lapicid k → k_locks k' = k_locks k →
  k_procs k' = k_procs k → ctx k' pid.
Proof.
  intros [H1 H2 (c & cp & p & pr & Hc & H)] E1 E2 E3 E4.
  split; [congruence|congruence|]. exists c, cp, p, pr. rewrite E4.
  split; [by eapply cpu_at_ext|done].
Qed.

Lemma ctx_wake ch k k' pid :
  ctx k pid → k_cpus k' = k_cpus k → k_lapicid k' = k_lapicid k → k_locks k' = k_locks k →
  k_procs k' = map (wake ch) (k_procs k) → ctx k' pid.
Proof.
  intros [H1 H2 (c & cp & p & pr & Hc & Hz & Hp & Hpr & Hpid)] E1 E2 E3 E4.
  split; [congruence|by rewrite E4, length_map|].
  exists c, cp, p, (wake ch pr). rewrite E4.
  split_and!; [by eapply cpu_at_ext|done|done| |].
  - change (map (wake ch) (k_procs k)) with (wake ch <$> k_procs k). by rewrite list_lookup_fmap, Hpr.
  - unfold wake. case_decide; done.
Qed.

(** The process's pid, read below a lock. *)
Lemma mypid_locked k pid lk c cp :
  ctx k pid → cpu_at k c cp → mypid (locked lk c k) = (Ok pid, locked lk c k).
Proof.
  intros [H1 H2 (c' & cp' & p & pr & Hc & Hz & Hp & Hpr & Hpid)] Hc'.
  assert (c' = c) as -> by (destruct Hc, Hc'; congruence).
  assert (cp' = cp) as -> by (destruct Hc, Hc'; congruence).
  assert (cpu_at (locked lk c k) c (pushed cp)) as Hl by (apply locked_at; [done|lia]).
  unfold mypid, curproc. rewrite bind_assoc. mstep (myproc_spec _ _ _ Hl ltac:(simpl; lia)).
  change (c_proc (pushed cp)) with (c_proc cp). rewrite Hp, bind_ret.
  erewrite bind_ok; [|by apply at_index_ok]. by rewrite Hpid.
Qed.

Lemma ctx_cpu k pid : ctx k pid → ∃ c cp, cpu_at k c cp ∧ c_ncli cp = 0.
Proof. intros [_ _ (c & cp & p & pr & Hc & Hz & _)]. by exists c, cp. Qed.

(** Waking sleepers below a lock. *)
Lemma wakeup_locked lk ch k pid c cp :
  ctx k pid → cpu_at k c cp → c_ncli cp = 0 → lk ≠ L_ptable →
  wakeup ch (locked lk c k) = (Ok tt, locked lk c (k <| k_procs ::= map (wake ch) |>)).
Proof.
  intros Hx Hc Hz Hne. pose proof (ctx_procs _ _ Hx) as Hn.
  erewrite wakeup_spec; [done|apply locked_at; [done|lia]|simpl; lia| |done].
  apply free_locked; [done|by eapply ctx_free].
Qed.

Lemma acquiresleep_spec r k pid :
  ctx k pid → sl_locked (get_sl r k) = false →
  acquiresleep r k = (Ok tt, put_sl r (Sleeplock true pid) k).
Proof.
  intros Hx Hu. destruct (ctx_cpu _ _ Hx) as (c & cp & Hc & Hz).
  unfold acquiresleep, acquiresleep_loop.
  mstep (acquire_spec (sl_spin r) k c cp Hc ltac:(lia) (ctx_free _ _ _ Hx)). rewrite bind_gets.
  assert (get_sl r (locked (sl_spin r) c k) = get_sl r k) as -> by (by destruct r).
  rewrite Hu. mstep (mypid_locked _ _ _ _ _ Hx Hc). rewrite bind_modify.
  replace (put_sl r (Sleeplock true pid) (locked (sl_spin r) c k))
    with (locked (sl_spin r) c (put_sl r (Sleeplock true pid) k)) by (by destruct r).
  eapply release_spec; [|by rewrite Hz|].
  - eapply cpu_at_ext; [| |done]; by destruct r.
  - eapply ctx_free, ctx_ext; [done|by destruct r..].
Qed.

(** A lock that is held puts the process to sleep on it. *)
Lemma acquiresleep_busy r k pid :
  ctx k pid → sl_locked (get_sl r k) = true →
  ∃ k', acquiresleep r k = (Stop Swtch, k') ∧
  ∃ p pr, k_procs k !! p = Some pr ∧ p_pid pr = pid ∧
    k_procs k' = alter (λ p, p <| p_chan := Some (sl_chan r) |> <| p_state := SLEEPING |>) p (k_procs k).
Proof.
  intros Hx Hu. pose proof Hx as [H1 H2 (c & cp & p & pr & Hc & Hz & Hp & Hpr & Hpid)].
  unfold acquiresleep, acquiresleep_loop.
  mstep (acquire_spec (sl_spin r) k c cp Hc ltac:(lia) (ctx_free _ _ _ Hx)). rewrite bind_gets.
  assert (get_sl r (locked (sl_spin r) c k) = get_sl r k) as -> by (by destruct r).
  rewrite Hu. rewrite (sleep_spec (sl_chan r) (sl_spin r) k c cp p);
    [|by destruct r|done|done|done|by apply lookup_lt_Some in Hpr|by eapply ctx_free..].
  eexists. split; [done|]. by exists p, pr.
Qed.

Lemma releasesleep_spec r k pid :
  ctx k pid →
  releasesleep r k =
  (Ok tt, put_sl r (Sleeplock false 0) k <| k_procs ::= map (wake (sl_chan r)) |>).
Proof.
  intros Hx. pose proof (ctx_procs _ _ Hx) as Hn. destruct (ctx_cpu _ _ Hx) as (c & cp & Hc & Hz).
  unfold releasesleep.
  mstep (acquire_spec (sl_spin r) k c cp Hc ltac:(lia) (ctx_free _ _ _ Hx)). rewrite bind_modify.
  set (k1 := put_sl r (Sleeplock false 0) k).
  replace (put_sl r (Sleeplock false 0) (locked (sl_spin r) c k))
    with (locked (sl_spin r) c k1) by (by destruct r).
  assert (cpu_at k1 c cp) as Hc1 by (eapply cpu_at_ext; [| |done]; by destruct r).
  assert (ctx k1 pid) as Hx1 by (eapply ctx_ext; [done|by destruct r..]).
  mstep (wakeup_locked (sl_spin r) (sl_chan r) k1 pid c cp Hx1 Hc1 Hz ltac:(by destruct r)).
  eapply release_spec; [eapply (cpu_at_ext k1); [done|done|exact Hc1]|by rewrite Hz|].
  by eapply ctx_free, (ctx_wake (sl_chan r) k1).
Qed.

Lemma holdingsleep_spec r k pid :
  ctx k pid →
  holdingsleep r k =
  (Ok (sl_locked (get_sl r k) && bool_decide (sl_pid (get_sl r k) = pid)), k).
Proof.
  intros Hx. destruct (ctx_cpu _ _ Hx) as (c & cp & Hc & Hz). unfold holdingsleep.
  mstep (acquire_spec (sl_spin r) k c cp Hc ltac:(lia) (ctx_free _ _ _ Hx)). rewrite bind_gets.
  assert (get_sl r (locked (sl_spin r) c k) = get_sl r k) as -> by (by destruct r).
  mstep (mypid_locked _ _ _ _ _ Hx Hc).
  by mstep (release_spec _ _ _ _ Hc ltac:(lia) (ctx_free _ _ _ Hx)).
Qed.

#[global] Opaque acquiresleep releasesleep holdingsleep mypid.
