(* ===== verification/BufList.v ===== *)
(** * The doubly linked list of the buffer cache

    [dll bs l]: the [prev] and [next] fields of the cache [bs] thread the
    buffers [l] behind the head, in both directions.  Taking a buffer out and
    linking it behind the head again, the way [brelse] does it with six
    assignments, moves it to the front of [l]. *)

From S2P Require Import Prelude State.

Section dll.
Implicit Types (bs : list buf) (l : list nat) (a b e : nat).

Definition nx bs a : option nat := b_next <$> bs !! a.
Definition pv bs a : option nat := b_prev <$> bs !! a.

(** The neighbours along the path from [a] through [l] to [e]: the pairs inside
    [a :: l], the last node of [a :: l], the first node of [l ++ [e]], and the
    pairs inside [l ++ [e]]. *)
Fixpoint seg a l e : list (nat * nat) :=
  match l with
  | [] => [(a, e)]
  | x :: l' => (a, x) :: seg x l' e
  end.
Fixpoint init_seg a l : list (nat * nat) :=
  match l with
  | [] => []
  | x :: l' => (a, x) :: init_seg x l'
  end.
Fixpoint last_node a l : nat := match l with [] => a | x :: l' => last_node x l' end.
Definition first_node l e : nat := match l with [] => e | x :: _ => x end.
Definition tail_seg l e : list (nat * nat) := match l with [] => [] | x :: l' => seg x l' e end.

Definition linked bs (s : list (nat * nat)) : Prop :=
  ∀ x y, (x, y) ∈ s → nx bs x = Some y ∧ pv bs y = Some x.
Definition dll bs l : Prop := linked bs (seg NBUF l NBUF).

Lemma seg_app a l1 l2 e :
  seg a (l1 ++ l2) e = init_seg a l1 ++ (last_node a l1, first_node l2 e) :: tail_seg l2 e.
Proof.
  revert a. induction l1 as [|x l1 IH]; intros a; simpl.
  - destruct l2; done.
  - by rewrite IH.
Qed.

Lemma seg_middle a l1 b l2 e :
  seg a (l1 ++ b :: l2) e =
  init_seg a l1 ++ (last_node a l1, b) :: (b, first_node l2 e) :: tail_seg l2 e.
Proof. rewrite seg_app. simpl. f_equal. f_equal. destruct l2; done. Qed.

Lemma last_node_in a l : last_node a l ∈ a :: l.
Proof.
  revert a. induction l as [|x l IH]; intros a; simpl; [left|]. right. apply IH.
Qed.

Lemma init_seg_in a l x y :
  NoDup (a :: l) → (x, y) ∈ init_seg a l → x ∈ a :: l ∧ x ≠ last_node a l ∧ y ∈ l.
Proof.
  revert a. induction l as [|z l IH]; intros a Hnd; simpl; [by intros ?%not_elem_of_nil|].
  apply NoDup_cons in Hnd as [Ha Hnd]. intros [[= -> ->]|H]%elem_of_cons.
  - split_and!; [left| |left]. intros E. apply Ha. rewrite E. apply last_node_in.
  - destruct (IH z Hnd H) as (H1 & H2 & H3). split_and!; [by right|done|by right].
Qed.

Lemma seg_in a l e x y : (x, y) ∈ seg a l e → x ∈ a :: l ∧ y ∈ l ++ [e].
Proof.
  revert a. induction l as [|z l IH]; intros a; simpl.
  - intros [= -> ->]%list_elem_of_singleton. split; left.
  - intros [[= -> ->]|H]%elem_of_cons; [split; left|].
    destruct (IH z H) as [H1 H2]. split; by right.
Qed.

Lemma tail_seg_in l e x y :
  NoDup l → e ∉ l → (x, y) ∈ tail_seg l e → x ∈ l ∧ y ≠ first_node l e.
Proof.
  intros Hnd He. destruct l as [|z l]; simpl; [by intros ?%not_elem_of_nil|]. intros H.
  apply NoDup_cons in Hnd as [Hz Hnd]. destruct (seg_in _ _ _ _ _ H) as [H1 H2]. split; [done|].
  intros ->. apply elem_of_app in H2 as [H2|H2%list_elem_of_singleton]; [done|].
  subst. apply He. left.
Qed.

Lemma nx_alter bs f i a :
  (∀ x, b_next (f x) = b_next x) → nx (alter f i bs) a = nx bs a.
Proof.
  intros Hf. unfold nx. destruct (decide (i = a)) as [->|Hne].
  - rewrite list_lookup_alter_eq. destruct (bs !! a); simpl; [|done]. by rewrite Hf.
  - by rewrite list_lookup_alter_ne.
Qed.

Lemma pv_alter bs f i a :
  (∀ x, b_prev (f x) = b_prev x) → pv (alter f i bs) a = pv bs a.
Proof.
  intros Hf. unfold pv. destruct (decide (i = a)) as [->|Hne].
  - rewrite list_lookup_alter_eq. destruct (bs !! a); simpl; [|done]. by rewrite Hf.
  - by rewrite list_lookup_alter_ne.
Qed.

Definition set_next i v bs : list buf := alter (λ x, x <| b_next := v |>) i bs.
Definition set_prev i v bs : list buf := alter (λ x, x <| b_prev := v |>) i bs.

Lemma nx_set_next bs i v a :
  (i < length bs)%nat → nx (set_next i v bs) a = if decide (a = i) then Some v else nx bs a.
Proof.
  intros Hi. unfold nx, set_next. case_decide as E.
  - subst. rewrite list_lookup_alter_eq. destruct (lookup_lt_is_Some_2 _ _ Hi) as [x ->]. done.
  - by rewrite list_lookup_alter_ne.
Qed.
Lemma pv_set_prev bs i v a :
  (i < length bs)%nat → pv (set_prev i v bs) a = if decide (a = i) then Some v else pv bs a.
Proof.
  intros Hi. unfold pv, set_prev. case_decide as E.
  - subst. rewrite list_lookup_alter_eq. destruct (lookup_lt_is_Some_2 _ _ Hi) as [x ->]. done.
  - by rewrite list_lookup_alter_ne.
Qed.
Lemma nx_set_prev bs i v a : nx (set_prev i v bs) a = nx bs a.
Proof. by apply nx_alter. Qed.
Lemma pv_set_next bs i v a : pv (set_next i v bs) a = pv bs a.
Proof. by apply pv_alter. Qed.

(** The assignments of [brelse] on the array. *)
Definition out bs p n : list buf := set_next p n (set_prev n p bs).
Definition front bs b f : list buf :=
  set_next NBUF b (set_prev f b (set_prev b NBUF (set_next b f bs))).

Lemma length_set_next i v bs : length (set_next i v bs) = length bs.
Proof. apply length_alter. Qed.
Lemma length_set_prev i v bs : length (set_prev i v bs) = length bs.
Proof. apply length_alter. Qed.

Lemma dll_out bs l1 b l2 :
  dll bs (l1 ++ b :: l2) → NoDup (NBUF :: l1 ++ b :: l2) →
  (∀ x, x ∈ NBUF :: l1 ++ b :: l2 → (x < length bs)%nat) →
  let p := last_node NBUF l1 in let n := first_node l2 NBUF in
  nx bs b = Some n ∧ pv bs b = Some p ∧ dll (out bs p n) (l1 ++ l2).
Proof.
  intros Hd Hnd Hlt p n. unfold dll in Hd. rewrite seg_middle in Hd.
  assert (p ∈ NBUF :: l1) as Hp by apply last_node_in.
  assert (n = NBUF ∨ n ∈ l2) as Hn by (unfold n; destruct l2; [by left|right; left]).
  assert (NoDup (NBUF :: l1)) as N1.
  { change (NBUF :: l1 ++ b :: l2) with ((NBUF :: l1) ++ b :: l2) in Hnd. by apply NoDup_app in Hnd as [? _]. }
  assert (∀ x, x ∈ NBUF :: l1 → x ∉ b :: l2) as N2.
  { change (NBUF :: l1 ++ b :: l2) with ((NBUF :: l1) ++ b :: l2) in Hnd. by apply NoDup_app in Hnd as (_ & ? & _). }
  assert (NoDup (b :: l2)) as N3.
  { change (NBUF :: l1 ++ b :: l2) with ((NBUF :: l1) ++ b :: l2) in Hnd. by apply NoDup_app in Hnd as (_ & _ & ?). }
  apply NoDup_cons in N3 as [Nb N3].
  assert ((p < length bs)%nat) as Lp.
  { apply Hlt. change (p ∈ (NBUF :: l1) ++ b :: l2). apply elem_of_app. by left. }
  assert ((n < length bs)%nat) as Ln.
  { apply Hlt. destruct Hn as [->|Hn]; [left|right; apply elem_of_app; right; by right]. }
  split_and!.
  - apply (Hd b n). apply elem_of_app. right. right. left.
  - apply (Hd p b). apply elem_of_app. right. left.
  - unfold dll, out. rewrite seg_app. intros x y Hxy.
    rewrite nx_set_next by (by rewrite length_set_prev). rewrite nx_set_prev, pv_set_next, pv_set_prev by done.
    apply elem_of_app in Hxy as [Hxy|[[= -> ->]|Hxy]%elem_of_cons].
    + destruct (init_seg_in _ _ _ _ N1 Hxy) as (X1 & X2 & X3).
      rewrite decide_False by done. rewrite decide_False.
      * apply Hd. apply elem_of_app. by left.
      * intros ->. apply NoDup_cons in N1 as [N0 N1]. destruct Hn as [E|Hn]; [congruence|].
        apply (N2 n); right; done.
    + by rewrite !decide_True.
    + assert (NBUF ∉ l2) as Nh by (intros H; apply (N2 NBUF); [left|by right]).
      destruct (tail_seg_in _ _ _ _ N3 Nh Hxy) as (X1 & X2).
      rewrite (decide_False (P := x = p)) by (intros ->; apply (N2 p); [done|by right]).
      rewrite decide_False by done. apply Hd. apply elem_of_app. right. right. by right.
Qed.

Lemma dll_front bs l b :
  dll bs l → NoDup (NBUF :: l) → b ≠ NBUF → b ∉ l →
  (∀ x, x ∈ NBUF :: b :: l → (x < length bs)%nat) →
  let f := first_node l NBUF in
  nx bs NBUF = Some f ∧ dll (front bs b f) (b :: l).
Proof.
  intros Hd Hnd Hb Hbl Hlt f. unfold dll in *. change l with ([] ++ l) in Hd. rewrite seg_app in Hd. simpl in Hd.
  apply NoDup_cons in Hnd as [Hh Hnd].
  assert (f = NBUF ∨ f ∈ l) as Hf by (unfold f; destruct l; [by left|right; left]).
  assert (f ≠ b) as Hfb by (intros ->; destruct Hf; done).
  assert ((f < length bs)%nat) as Lf by (apply Hlt; destruct Hf as [->|?]; [left|right; by right]).
  assert ((b < length bs)%nat) as Lb by (apply Hlt; right; left).
  assert ((NBUF < length bs)%nat) as Lh by (apply Hlt; left).
  split; [apply (Hd NBUF f); left|].
  unfold front. intros x y Hxy.
  rewrite nx_set_next by (by rewrite !length_set_prev, length_set_next).
  rewrite pv_set_next, !nx_set_prev, nx_set_next by done.
  rewrite pv_set_prev by (by rewrite length_set_prev, length_set_next).
  rewrite pv_set_prev by (by rewrite length_set_next). rewrite pv_set_next.
  change (b :: l) with ([b] ++ l) in Hxy. rewrite seg_app in Hxy. simpl in Hxy. fold f in Hxy.
  apply elem_of_cons in Hxy as [[= -> ->]|[[= -> ->]|Hxy]%elem_of_cons].
  - rewrite (decide_True (P := NBUF = NBUF)), (decide_False (P := b = f)) by congruence.
    by rewrite (decide_True (P := b = b)).
  - rewrite (decide_False (P := b = NBUF)) by done.
    by rewrite (decide_True (P := b = b)), (decide_True (P := f = f)) by done.
  - destruct (tail_seg_in _ _ _ _ Hnd Hh Hxy) as (X1 & X2).
    assert (x ≠ NBUF ∧ x ≠ b) as [Y1 Y2] by (split; intros ->; done).
    rewrite (decide_False (P := x = NBUF)), (decide_False (P := x = b)) by done.
    rewrite (decide_False (P := y = f)) by done.
    assert (y ≠ b) as Y3.
    { intros ->. destruct l as [|z l]; simpl in Hxy; [by apply not_elem_of_nil in Hxy|].
      destruct (seg_in _ _ _ _ _ Hxy) as [_ H]. apply elem_of_app in H as [H|H%list_elem_of_singleton]; [|done].
      apply Hbl. by right. }
    rewrite (decide_False (P := y = b)) by done. apply Hd. by right.
Qed.

(** Other fields do not matter. *)
Lemma dll_ext bs bs' l :
  (∀ i, nx bs' i = nx bs i) → (∀ i, pv bs' i = pv bs i) → dll bs l → dll bs' l.
Proof. intros H1 H2 Hd x y Hxy. rewrite H1, H2. by apply Hd. Qed.
End dll.
