(* ===== verification/Bio.v ===== *)
(** * The buffer cache (bio.c) over the memory disk (memide.c)

    The cache is the array [k_bufs]: entries 0..29 are the buffers and entry 30
    ([bhead]) is the head of the doubly linked list that keeps them in order of
    last use, head.next first.  A disk block is 512 bytes; the disk is the list
    of its blocks.  A power failure can only come at a disk write, and a write
    of one block happens or does not. *)

From S2P Require Import Prelude Memory State Spinlock Sched Sleeplock BufList.

Notation bhead := NBUF.

(** ** memide.c *)

Definition disk_write (b : nat) (d : list Z) : K unit :=
  w ← gets k_power;
  match w with
  | Some O => stopped PowerOff
  | _ =>
      modify (λ k, k <| k_disk ::= <[b := d]> |>
                     <| k_power ::= λ w, match w with Some (S n) => Some n | _ => w end |>)
  end.

Definition iderw (b : nat) : K unit :=
  h ← holdingsleep (SL_buf b);
  if negb h then panic "iderw: buf not locked" else
  x ← the_buf b;
  if b_valid x && negb (b_dirty x) then panic "iderw: nothing to do" else
  if decide (b_dev x ≠ 1) then panic "iderw: request not for disk 1" else
  disksize ← gets (λ k, Z.of_nat (length (k_disk k)));
  if decide (disksize ≤ b_blockno x) then panic "iderw: block out of range" else
  (if b_dirty x then
     upd_buf b (λ x, x <| b_dirty := false |>);;
     disk_write (Z.to_nat (b_blockno x)) (b_data x)
   else
     d ← at_index k_disk (Z.to_nat (b_blockno x));
     upd_buf b (λ x, x <| b_data := d |>));;
  upd_buf b (λ x, x <| b_valid := true |>).

(** ** bio.c *)

(** Insert [b] behind the head: the last four assignments of [brelse], which
    [binit] makes too. *)
Definition link_front (b : nat) : K unit :=
  h ← the_buf bhead;
  upd_buf b (λ x, x <| b_next := b_next h |>);;
  upd_buf b (λ x, x <| b_prev := bhead |>);;
  h ← the_buf bhead;
  upd_buf (b_next h) (λ x, x <| b_prev := b |>);;
  upd_buf bhead (λ x, x <| b_next := b |>).
Definition link_out (b : nat) : K unit :=
  x ← the_buf b;
  upd_buf (b_next x) (λ y, y <| b_prev := b_prev x |>);;
  x ← the_buf b;
  upd_buf (b_prev x) (λ y, y <| b_next := b_next x |>).

Definition binit : K unit :=
  initlock L_bcache;;
  upd_buf bhead (λ x, x <| b_prev := bhead |>);;
  upd_buf bhead (λ x, x <| b_next := bhead |>);;
  each (λ b,
    h ← the_buf bhead;
    upd_buf b (λ x, x <| b_next := b_next h |>);;
    upd_buf b (λ x, x <| b_prev := bhead |>);;
    initsleeplock (SL_buf b);;
    h ← the_buf bhead;
    upd_buf (b_next h) (λ x, x <| b_prev := b |>);;
    upd_buf bhead (λ x, x <| b_next := b |>)) (seq 0 NBUF).

(** The two searches of [bget]; [None] is a list longer than the fuel. *)
Fixpoint find_cached (fuel : nat) (bs : list buf) (b : nat) (dev blockno : Z) : option (option nat) :=
  if decide (b = bhead) then Some None else
  match fuel, bs !! b with
  | S f, Some x =>
      if decide (b_dev x = dev ∧ b_blockno x = blockno) then Some (Some b)
      else find_cached f bs (b_next x) dev blockno
  | _, _ => None
  end.
Fixpoint find_unused (fuel : nat) (bs : list buf) (b : nat) : option (option nat) :=
  if decide (b = bhead) then Some None else
  match fuel, bs !! b with
  | S f, Some x =>
      if decide (b_refcnt x = 0 ∧ b_dirty x = false) then Some (Some b)
      else find_unused f bs (b_prev x)
  | _, _ => None
  end.

Definition bget (dev blockno : Z) : K nat :=
  acquire L_bcache;;
  h ← the_buf bhead;
  r ← gets (λ k, find_cached NBUF (k_bufs k) (b_next h) dev blockno);
  match r with
  | None => stopped Spin
  | Some (Some b) =>
      upd_buf b (λ x, x <| b_refcnt ::= λ n, u32 (n + 1) |>);;
      release L_bcache;;
      acquiresleep (SL_buf b);;
      mret b
  | Some None =>
      h ← the_buf bhead;
      r ← gets (λ k, find_unused NBUF (k_bufs k) (b_prev h));
      match r with
      | None => stopped Spin
      | Some (Some b) =>
          upd_buf b (λ x, x <| b_dev := dev |> <| b_blockno := blockno |>
                            <| b_valid := false |> <| b_dirty := false |> <| b_refcnt := 1 |>);;
          release L_bcache;;
          acquiresleep (SL_buf b);;
          mret b
      | Some None => panic "bget: no buffers"
      end
  end.

Definition bread (dev blockno : Z) : K nat :=
  b ← bget dev blockno;
  x ← the_buf b;
  when (negb (b_valid x)) (iderw b);;
  mret b.

Definition bwrite (b : nat) : K unit :=
  h ← holdingsleep (SL_buf b);
  if negb h then panic "bwrite" else
  upd_buf b (λ x, x <| b_dirty := true |>);;
  iderw b.

Definition brelse (b : nat) : K unit :=
  h ← holdingsleep (SL_buf b);
  if negb h then panic "brelse" else
  releasesleep (SL_buf b);;
  acquire L_bcache;;
  upd_buf b (λ x, x <| b_refcnt ::= λ n, u32 (n - 1) |>);;
  x ← the_buf b;
  when (bool_decide (b_refcnt x = 0)) (link_out b;; link_front b);;
  release L_bcache.

(** Use of [b->data]. *)
Definition bdata (b : nat) : K (list Z) := x ← the_buf b; mret (b_data x).
Definition set_bdata (b : nat) (d : list Z) : K unit := upd_buf b (λ x, x <| b_data := d |>).

(** ** Walking the list *)

Definition holds_block (bs : list buf) (dev blockno : Z) (b : nat) : Prop :=
  ∃ x, bs !! b = Some x ∧ b_dev x = dev ∧ b_blockno x = blockno.
Definition is_unused (bs : list buf) (b : nat) : Prop :=
  ∃ x, bs !! b = Some x ∧ b_refcnt x = 0 ∧ b_dirty x = false.

Lemma find_cached_spec bs dev blockno l fuel :
  linked bs (tail_seg l bhead) → bhead ∉ l → (∀ b, b ∈ l → (b < length bs)%nat) →
  (length l ≤ fuel)%nat →
  (∃ b, find_cached fuel bs (first_node l bhead) dev blockno = Some (Some b) ∧
        b ∈ l ∧ holds_block bs dev blockno b) ∨
  (find_cached fuel bs (first_node l bhead) dev blockno = Some None ∧
   ∀ b, b ∈ l → ¬ holds_block bs dev blockno b).
Proof.
  revert fuel. induction l as [|b l IH]; intros fuel Hl Hh Hlt Hf; simpl.
  { right. split; [by destruct fuel|by intros b ?%not_elem_of_nil]. }
  apply not_elem_of_cons in Hh as [Hbh Hh].
  destruct fuel as [|fuel]; simpl in Hf; [lia|]. simpl. rewrite decide_False by congruence.
  destruct (lookup_lt_is_Some_2 bs b) as [x Hx]; [apply Hlt; left|]. rewrite Hx.
  case_decide as E; [left; exists b; split_and!; [done|left|by exists x]|].
  assert (b_next x = first_node l bhead) as Hn.
  { destruct (Hl b (first_node l bhead)) as [Hn _]; [destruct l; left|].
    unfold nx in Hn. rewrite Hx in Hn. by injection Hn. }
  rewrite Hn. destruct (IH fuel) as [(c & H1 & H2 & H3)|[H1 H2]]; [|done| |lia| |].
  - intros y z Hyz. apply Hl. destruct l; [by apply not_elem_of_nil in Hyz|]. simpl. by right.
  - intros c Hc. apply Hlt. by right.
  - left. exists c. split_and!; [done|by right|done].
  - right. split; [done|]. intros c [->|Hc]%elem_of_cons; [|by apply H2].
    intros (y & Hy & Hd & Hb). simplify_eq. tauto.
Qed.

Lemma last_node_snoc a l b : last_node a (l ++ [b]) = b.
Proof. revert a. induction l as [|x l IH]; intros a; simpl; [done|apply IH]. Qed.

Lemma find_unused_spec bs l fuel :
  linked bs (init_seg bhead l) → bhead ∉ l → (∀ b, b ∈ l → (b < length bs)%nat) →
  (length l ≤ fuel)%nat →
  (∃ b, find_unused fuel bs (last_node bhead l) = Some (Some b) ∧ b ∈ l ∧ is_unused bs b) ∨
  (find_unused fuel bs (last_node bhead l) = Some None ∧ ∀ b, b ∈ l → ¬ is_unused bs b).
Proof.
  revert fuel. induction l as [|b l IH] using rev_ind; intros fuel Hl Hh Hlt Hf.
  { right. split; [by destruct fuel|by intros b ?%not_elem_of_nil]. }
  rewrite last_node_snoc. rewrite length_app in Hf. simpl in Hf.
  assert (b ≠ bhead) as Hbh by (intros ->; apply Hh, elem_of_app; right; left).
  destruct fuel as [|fuel]; [lia|]. simpl. rewrite decide_False by done.
  destruct (lookup_lt_is_Some_2 bs b) as [x Hx]; [apply Hlt, elem_of_app; right; left|]. rewrite Hx.
  case_decide as E; [left; exists b; split_and!; [done|apply elem_of_app; right; left|by exists x]|].
  assert (∀ a l', init_seg a (l' ++ [b]) = init_seg a l' ++ [(last_node a l', b)]) as Hi.
  { intros a l'. revert a. induction l' as [|z l' IH']; intros a; simpl; [done|]. by rewrite IH'. }
  rewrite Hi in Hl.
  assert (b_prev x = last_node bhead l) as Hp.
  { destruct (Hl (last_node bhead l) b) as [_ Hp]; [apply elem_of_app; right; left|].
    unfold pv in Hp. rewrite Hx in Hp. by injection Hp. }
  rewrite Hp. destruct (IH fuel) as [(c & H1 & H2 & H3)|[H1 H2]]; [| | |lia| |].
  - intros y z Hyz. apply Hl, elem_of_app. by left.
  - intros Hc. apply Hh, elem_of_app. by left.
  - intros c Hc. apply Hlt, elem_of_app. by left.
  - left. exists c. split_and!; [done|apply elem_of_app; by left|done].
  - right. split; [done|]. intros c [Hc|Hc]%elem_of_app; [by apply H2|].
    apply list_elem_of_singleton in Hc as ->. intros (y & Hy & Hr & Hd). simplify_eq. tauto.
Qed.

(** ** What the cache represents

    [V] is the logical content of the disk: a block's cached copy if there is
    one, the block on the disk otherwise.  [D] are the pinned (dirty) blocks, [H]
    the buffers in use, each with its block. *)
Record brep (pid : Z) (bs : list buf) (disk : list (list Z))
    (V : Z → list Z) (D : list Z) (H : list (nat * Z)) : Prop := {
  br_len : length bs = S NBUF;
  br_order : ∃ l, dll bs l ∧ l ≡ₚ seq 0 NBUF;
  br_uniq : ∀ i j x y, (i < NBUF)%nat → (j < NBUF)%nat → bs !! i = Some x → bs !! j = Some y →
    b_dev x = 1 → b_dev y = 1 → b_blockno x = b_blockno y → i = j;
  br_cached : ∀ i x, (i < NBUF)%nat → bs !! i = Some x → b_dev x = 1 →
    b_valid x = true ∧ 0 ≤ b_blockno x < Z.of_nat (length disk) ∧ b_data x = V (b_blockno x);
  br_other : ∀ i x, (i < NBUF)%nat → bs !! i = Some x → b_dev x ≠ 1 → b_dirty x = false;
  br_free : ∀ i x, (i < NBUF)%nat → bs !! i = Some x → i ∉ H.*1 →
    b_refcnt x = 0 ∧ sl_locked (b_lock x) = false;
  br_held : ∀ i b, (i, b) ∈ H → (i < NBUF)%nat ∧ ∃ x, bs !! i = Some x ∧ b_refcnt x = 1 ∧
    b_lock x = Sleeplock true pid ∧ b_dev x = 1 ∧ b_blockno x = b;
  br_clean : ∀ i x, (i < NBUF)%nat → bs !! i = Some x → b_dev x = 1 → b_dirty x = false →
    i ∉ H.*1 → disk !! Z.to_nat (b_blockno x) = Some (V (b_blockno x));
  br_dirty : ∀ i x, (i < NBUF)%nat → bs !! i = Some x → b_dev x = 1 →
    (b_dirty x = true ↔ b_blockno x ∈ D);
  br_pinned : ∀ b, b ∈ D → ∃ i, (i < NBUF)%nat ∧ holds_block bs 1 b i;
  br_disk : ∀ b, 0 ≤ b < Z.of_nat (length disk) → (∀ i, (i < NBUF)%nat → ¬ holds_block bs 1 b i) →
    disk !! Z.to_nat b = Some (V b);
  br_nodup : NoDup H.*1;
  br_nodupD : NoDup D }.

(** ** Changes of one buffer *)

Lemma alter_Some {A} (f : A → A) (l : list A) (i j : nat) y :
  alter f i l !! j = Some y → (j = i ∧ ∃ x, l !! i = Some x ∧ y = f x) ∨ (j ≠ i ∧ l !! j = Some y).
Proof.
  destruct (decide (i = j)) as [->|Hne].
  - rewrite list_lookup_alter_eq. destruct (l !! j) as [x|]; naive_solver.
  - rewrite list_lookup_alter_ne by done. naive_solver.
Qed.

Ltac alter_cases :=
  repeat match goal with
  | H : alter _ _ _ !! _ = Some _ |- _ =>
      apply alter_Some in H; destruct H as [(? & ? & ? & ?)|[? H]]; subst
  end.

Lemma holds_alter f bs i dev b j :
  (∀ x, b_dev (f x) = b_dev x ∧ b_blockno (f x) = b_blockno x) →
  holds_block (alter f i bs) dev b j ↔ holds_block bs dev b j.
Proof.
  intros Hf. unfold holds_block. destruct (decide (i = j)) as [->|Hne].
  - rewrite list_lookup_alter_eq. destruct (bs !! j) as [x|] eqn:E; simpl; [|done].
    destruct (Hf x) as [E1 E2]. split; intros (y & Hy & H1 & H2); simplify_eq/=.
    + exists x. by rewrite <- E1, <- E2.
    + exists (f y). by rewrite E1, E2.
  - by rewrite list_lookup_alter_ne.
Qed.

Section brep.
Context (pid : Z).
Implicit Types (bs : list buf) (disk : list (list Z)) (V : Z → list Z) (D : list Z).

Lemma dll_alter f i bs :
  (∀ x, b_next (f x) = b_next x ∧ b_prev (f x) = b_prev x) →
  (∃ l, dll bs l ∧ l ≡ₚ seq 0 NBUF) → ∃ l, dll (alter f i bs) l ∧ l ≡ₚ seq 0 NBUF.
Proof.
  intros Hf (l & Hd & Hl). exists l. split; [|done]. eapply dll_ext; [| |done].
  - intros j. apply nx_alter. apply Hf.
  - intros j. apply pv_alter. apply Hf.
Qed.

(** A cached, free buffer is taken. *)
Definition take_buf (x : buf) : buf := x <| b_refcnt := 1 |> <| b_lock := Sleeplock true pid |>.

Lemma brep_take bs disk V D H i b :
  brep pid bs disk V D H → (i < NBUF)%nat → holds_block bs 1 b i → i ∉ H.*1 →
  brep pid (alter take_buf i bs) disk V D ((i, b) :: H).
Proof.
  intros [] Hi (x0 & Hx0 & Hdev & Hblk) Hn. split.
  - by rewrite length_alter.
  - by apply dll_alter.
  - intros j1 j2 x y L1 L2 E1 E2 D1 D2 Eb. alter_cases; simpl in *; eauto.
  - intros j x L E Dx. alter_cases; simpl in *; eauto.
  - intros j x L E Dx. alter_cases; simpl in *; eauto.
  - intros j x L E Hj. simpl in Hj. apply not_elem_of_cons in Hj as [Hj1 Hj2].
    alter_cases; [done|eauto].
  - intros j c [[= -> ->]|Hj]%elem_of_cons.
    + split; [done|]. exists (take_buf x0). rewrite list_lookup_alter_eq, Hx0. done.
    + destruct (br_held0 j c Hj) as (L & x & E & R). split; [done|]. exists x.
      rewrite list_lookup_alter_ne; [done|]. intros ->. apply Hn. apply list_elem_of_fmap. by exists (j, c).
  - intros j x L E Dx Dr Hj. simpl in Hj. apply not_elem_of_cons in Hj as [Hj1 Hj2].
    alter_cases; simpl in *; eauto.
  - intros j x L E Dx. alter_cases; simpl in *; eauto.
  - intros c Hc. destruct (br_pinned0 c Hc) as (j & L & Hj). exists j. split; [done|]. by apply holds_alter.
  - intros c Hc Hno. apply br_disk0; [done|]. intros j L Hj. apply (Hno j L). by apply holds_alter.
  - simpl. by apply NoDup_cons.
  - done.
Qed.

(** An unused buffer is recycled for a block that is not cached. *)
Definition recycle_buf (b : Z) (d : list Z) (x : buf) : buf :=
  x <| b_dev := 1 |> <| b_blockno := b |> <| b_valid := true |> <| b_dirty := false |>
    <| b_refcnt := 1 |> <| b_lock := Sleeplock true pid |> <| b_data := d |>.

Lemma holds_recycle bs i b d c j :
  (∀ k, (k < NBUF)%nat → ¬ holds_block bs 1 b k) → (j < NBUF)%nat →
  holds_block (alter (recycle_buf b d) i bs) 1 c j →
  (j = i ∧ c = b) ∨ (j ≠ i ∧ c ≠ b ∧ holds_block bs 1 c j).
Proof.
  intros Hno L (x & E & H1 & H2). alter_cases; simpl in *; [by left|right].
  split_and!; [done| |by exists x]. intros <-. apply (Hno j L). by exists x.
Qed.

Lemma brep_recycle bs disk V D H i b :
  brep pid bs disk V D H → (i < NBUF)%nat → is_unused bs i → i ∉ H.*1 →
  (∀ k, (k < NBUF)%nat → ¬ holds_block bs 1 b k) → 0 ≤ b < Z.of_nat (length disk) →
  brep pid (alter (recycle_buf b (V b)) i bs) disk V D ((i, b) :: H).
Proof.
  intros [] Hi (x0 & Hx0 & Hr & Hdr) Hn Hno Hb.
  assert (∀ j x, (j < NBUF)%nat → bs !! j = Some x → b_dev x = 1 → b_blockno x ≠ b) as Hnb.
  { intros j x L E Dx <-. apply (Hno j L). by exists x. }
  split.
  - by rewrite length_alter.
  - by apply dll_alter.
  - intros j1 j2 x y L1 L2 E1 E2 D1 D2 Eb.
    alter_cases; simpl in *; solve [done | by eauto | by destruct (Hnb j1 x) | by destruct (Hnb j2 y)].
  - intros j x L E Dx. alter_cases; simpl in *; eauto.
  - intros j x L E Dx. alter_cases; simpl in *; eauto.
  - intros j x L E Hj. simpl in Hj. apply not_elem_of_cons in Hj as [Hj1 Hj2].
    alter_cases; [done|eauto].
  - intros j c [[= -> ->]|Hj]%elem_of_cons.
    + split; [done|]. exists (recycle_buf b (V b) x0). rewrite list_lookup_alter_eq, Hx0. done.
    + destruct (br_held0 j c Hj) as (L & x & E & R). split; [done|]. exists x.
      rewrite list_lookup_alter_ne; [done|]. intros ->. apply Hn. apply list_elem_of_fmap. by exists (j, c).
  - intros j x L E Dx Dr Hj. simpl in Hj. apply not_elem_of_cons in Hj as [Hj1 Hj2].
    alter_cases; simpl in *; eauto.
  - intros j x L E Dx. alter_cases; simpl in *; [|eauto]. split; [done|].
    intros Hbd. destruct (br_pinned0 b Hbd) as (k & L' & Hk). by destruct (Hno k L').
  - intros c Hc. destruct (br_pinned0 c Hc) as (j & L & x & E & Dx & Bx).
    exists j. split; [done|]. exists x. rewrite list_lookup_alter_ne; [done|]. intros <-.
    assert (x = x0) as -> by congruence.
    assert (b_dirty x0 = true) as Hd by (apply (br_dirty0 i); [done..|by rewrite Bx]). congruence.
  - intros c Hc Hc2. destruct (decide (b_dev x0 = 1 ∧ b_blockno x0 = c)) as [[Dx <-]|Hd].
    + by apply (br_clean0 i).
    + apply br_disk0; [done|]. intros j L (x & E & Dx & Bx). apply (Hc2 j L). exists x.
      rewrite list_lookup_alter_ne; [done|]. intros <-. simplify_eq. tauto.
  - simpl. by apply NoDup_cons.
  - done.
Qed.

(** The data of a held buffer is replaced. *)
Definition fupd V (b : Z) (d : list Z) : Z → list Z := λ c, if decide (c = b) then d else V c.

Lemma brep_set bs disk V D H i b d :
  brep pid bs disk V D H → (i, b) ∈ H →
  brep pid (alter (λ x, x <| b_data := d |>) i bs) disk (fupd V b d) D H.
Proof.
  intros [] Hin. destruct (br_held0 i b Hin) as (Hi & x0 & Hx0 & Hrf & Hlk & Hdv & Hbl).
  assert (i ∈ H.*1) as Hi1 by (apply list_elem_of_fmap; by exists (i, b)).
  assert (∀ j x, (j < NBUF)%nat → bs !! j = Some x → b_dev x = 1 → j ≠ i → b_blockno x ≠ b) as Hnb.
  { intros j x L E Dx Hne <-. apply Hne. by eapply br_uniq0. }
  assert (∀ c, ¬ (c = b) → fupd V b d c = V c) as HV by (intros; unfold fupd; by rewrite decide_False).
  split.
  - by rewrite length_alter.
  - by apply dll_alter.
  - intros j1 j2 x y L1 L2 E1 E2 D1 D2 Eb. alter_cases; simpl in *; eauto.
  - intros j x L E Dx. alter_cases; simplify_eq/=.
    + destruct (br_cached0 i x0 Hi Hx0 Hdv) as (C1 & C2 & C3).
      split_and!; [done|lia..|]. unfold fupd. by rewrite decide_True.
    + rewrite HV by eauto. eauto.
  - intros j x L E Dx. alter_cases; simpl in *; eauto.
  - intros j x L E Hj. alter_cases; simpl in *; eauto.
  - intros j c Hj. destruct (br_held0 j c Hj) as (L & x & E & R). split; [done|].
    destruct (decide (i = j)) as [->|Hne].
    + exists (x <| b_data := d |>). by rewrite list_lookup_alter_eq, E.
    + exists x. by rewrite list_lookup_alter_ne.
  - intros j x L E Dx Dr Hj. alter_cases; [done|]. rewrite HV by eauto. eauto.
  - intros j x L E Dx. alter_cases; simpl in *; eauto.
  - intros c Hc. destruct (br_pinned0 c Hc) as (j & L & Hj). exists j. split; [done|]. by apply holds_alter.
  - intros c Hc Hno. rewrite HV.
    + apply br_disk0; [done|]. intros j L Hj. apply (Hno j L). by apply holds_alter.
    + intros ->. apply (Hno i Hi). apply holds_alter; [done|]. by exists x0.
  - done.
  - done.
Qed.

(** A held buffer is pinned: [log_write] sets B_DIRTY. *)
Definition pin (b : Z) D : list Z := if decide (b ∈ D) then D else D ++ [b].

Lemma pin_in b D c : c ∈ pin b D ↔ c = b ∨ c ∈ D.
Proof.
  unfold pin. case_decide; [naive_solver|]. rewrite elem_of_app, list_elem_of_singleton. tauto.
Qed.

Lemma pin_nodup b D : NoDup D → NoDup (pin b D).
Proof.
  intros Hd. unfold pin. case_decide as E; [done|]. apply NoDup_app. split_and!; [done| |apply NoDup_singleton].
  intros x Hx ->%list_elem_of_singleton. done.
Qed.

Lemma brep_pin bs disk V D H i b :
  brep pid bs disk V D H → (i, b) ∈ H →
  brep pid (alter (λ x, x <| b_dirty := true |>) i bs) disk V (pin b D) H.
Proof.
  intros [] Hin. destruct (br_held0 i b Hin) as (Hi & x0 & Hx0 & Hrf & Hlk & Hdv & Hbl).
  split.
  - by rewrite length_alter.
  - by apply dll_alter.
  - intros j1 j2 x y L1 L2 E1 E2 D1 D2 Eb. alter_cases; simpl in *; eauto.
  - intros j x L E Dx. alter_cases; simpl in *; eauto.
  - intros j x L E Dx. alter_cases; simplify_eq/=; eauto.
  - intros j x L E Hj. alter_cases; simpl in *; eauto.
  - intros j c Hj. destruct (br_held0 j c Hj) as (L & x & E & R). split; [done|].
    destruct (decide (i = j)) as [->|Hne].
    + exists (x <| b_dirty := true |>). by rewrite list_lookup_alter_eq, E.
    + exists x. by rewrite list_lookup_alter_ne.
  - intros j x L E Dx Dr Hj. alter_cases; simpl in *; [done|]. eauto.
  - intros j x L E Dx. rewrite pin_in.
    destruct (decide (j = i)) as [->|Hne].
    + rewrite list_lookup_alter_eq, Hx0 in E. injection E as <-. simpl. rewrite Hbl. naive_solver.
    + rewrite list_lookup_alter_ne in E by done. rewrite (br_dirty0 j x L E Dx).
      split; [by right|]. intros [Hb|Hb]; [|done]. destruct Hne. eapply br_uniq0; [done|done|done|done|done|done|congruence].
  - intros c [->|Hc]%pin_in.
    + exists i. split; [done|]. apply holds_alter; [done|]. by exists x0.
    + destruct (br_pinned0 c Hc) as (j & L & Hj). exists j. split; [done|]. by apply holds_alter.
  - intros c Hc Hno. apply br_disk0; [done|]. intros j L Hj. apply (Hno j L). by apply holds_alter.
  - done.
  - by apply pin_nodup.
Qed.

(** A held buffer is written to the disk: B_DIRTY is cleared. *)
Lemma brep_write bs disk V D H i b :
  brep pid bs disk V D H → (i, b) ∈ H →
  brep pid (alter (λ x, x <| b_dirty := false |> <| b_valid := true |>) i bs)
    (<[Z.to_nat b := V b]> disk) V (filter (.≠ b) D) H.
Proof.
  intros [] Hin. destruct (br_held0 i b Hin) as (Hi & x0 & Hx0 & Hrf & Hlk & Hdv & Hbl).
  assert (i ∈ H.*1) as Hi1 by (apply list_elem_of_fmap; by exists (i, b)).
  destruct (br_cached0 i x0 Hi Hx0 Hdv) as (_ & Hb & _).
  assert (∀ j x, (j < NBUF)%nat → bs !! j = Some x → b_dev x = 1 → j ≠ i → b_blockno x ≠ b) as Hnb.
  { intros j x L E Dx Hne <-. apply Hne. by eapply br_uniq0. }
  split.
  - by rewrite length_alter.
  - by apply dll_alter.
  - intros j1 j2 x y L1 L2 E1 E2 D1 D2 Eb. alter_cases; simpl in *; eauto.
  - intros j x L E Dx. rewrite length_insert. alter_cases; simplify_eq/=; [|eauto].
    destruct (br_cached0 i x0 Hi Hx0 Hdv) as (_ & ? & ?). done.
  - intros j x L E Dx. alter_cases; simpl in *; eauto.
  - intros j x L E Hj. alter_cases; simpl in *; eauto.
  - intros j c Hj. destruct (br_held0 j c Hj) as (L & x & E & R). split; [done|].
    destruct (decide (i = j)) as [->|Hne].
    + exists (x <| b_dirty := false |> <| b_valid := true |>). by rewrite list_lookup_alter_eq, E.
    + exists x. by rewrite list_lookup_alter_ne.
  - intros j x L E Dx Dr Hj. alter_cases; [done|].
    destruct (br_cached0 j x L E Dx) as (_ & ? & _). specialize (Hnb j x L E Dx ltac:(done)).
    rewrite list_lookup_insert_ne by lia. eauto.
  - intros j x L E Dx. rewrite list_elem_of_filter. destruct (decide (j = i)) as [->|Hne].
    + rewrite list_lookup_alter_eq, Hx0 in E. injection E as <-. simpl. rewrite Hbl. naive_solver.
    + rewrite list_lookup_alter_ne in E by done. rewrite (br_dirty0 j x L E Dx).
      specialize (Hnb j x L E Dx Hne). naive_solver.
  - intros c [Hcb Hc]%list_elem_of_filter. destruct (br_pinned0 c Hc) as (j & L & Hj).
    exists j. split; [done|]. by apply holds_alter.
  - intros c Hc Hno. rewrite length_insert in Hc. destruct (decide (c = b)) as [->|Hne].
    + rewrite list_lookup_insert_eq by lia. done.
    + rewrite list_lookup_insert_ne by lia. apply br_disk0; [done|].
      intros j L Hj. apply (Hno j L). by apply holds_alter.
  - done.
  - by apply NoDup_filter.
Qed.

(** A buffer is given back; its data is pinned or on the disk. *)
Definition drop_buf (x : buf) : buf := x <| b_lock := Sleeplock false 0 |> <| b_refcnt := 0 |>.
Definition unheld (i : nat) (H : list (nat * Z)) : list (nat * Z) := filter (λ h, h.1 ≠ i) H.

Lemma unheld_in i H j c : (j, c) ∈ unheld i H ↔ j ≠ i ∧ (j, c) ∈ H.
Proof. unfold unheld. rewrite list_elem_of_filter. done. Qed.

Lemma unheld_fst i H j : j ∈ (unheld i H).*1 ↔ j ≠ i ∧ j ∈ H.*1.
Proof.
  rewrite !list_elem_of_fmap. split.
  - intros ([j' c] & -> & [Hj Hin]%unheld_in). split; [done|]. by exists (j', c).
  - intros (Hne & [j' c] & -> & Hin). exists (j', c). split; [done|]. by apply unheld_in.
Qed.

Lemma unheld_nodup i H : NoDup H.*1 → NoDup (unheld i H).*1.
Proof.
  induction H as [|[j c] H IH]; intros Hnd; [done|]. simpl in Hnd. apply NoDup_cons in Hnd as [H1 H2].
  unfold unheld. rewrite filter_cons. case_decide; [|by apply IH]. simpl. apply NoDup_cons.
  split; [|by apply IH]. intros Hj. apply H1. by apply unheld_fst in Hj as [_ ?].
Qed.

Lemma brep_drop bs disk V D H i b :
  brep pid bs disk V D H → (i, b) ∈ H → b ∈ D ∨ disk !! Z.to_nat b = Some (V b) →
  brep pid (alter drop_buf i bs) disk V D (unheld i H).
Proof.
  intros [] Hin Hs. destruct (br_held0 i b Hin) as (Hi & x0 & Hx0 & Hrf & Hlk & Hdv & Hbl).
  split.
  - by rewrite length_alter.
  - by apply dll_alter.
  - intros j1 j2 x y L1 L2 E1 E2 D1 D2 Eb. alter_cases; simpl in *; eauto.
  - intros j x L E Dx. alter_cases; simpl in *; eauto.
  - intros j x L E Dx. alter_cases; simpl in *; eauto.
  - intros j x L E Hj. alter_cases; [done|]. apply (br_free0 j); [done|done|].
    intros Hjj. apply Hj. by apply unheld_fst.
  - intros j c [Hne Hj]%unheld_in. destruct (br_held0 j c Hj) as (L & x & E & R). split; [done|].
    exists x. by rewrite list_lookup_alter_ne.
  - intros j x L E Dx Dr Hj. alter_cases; simplify_eq/=.
    + destruct Hs as [Hs|Hs]; [|done].
      assert (b_dirty x0 = true) by (apply (br_dirty0 i); done). congruence.
    + apply (br_clean0 j); try done. intros Hjj. apply Hj. by apply unheld_fst.
  - intros j x L E Dx. alter_cases; simpl in *; eauto.
  - intros c Hc. destruct (br_pinned0 c Hc) as (j & L & Hj). exists j. split; [done|]. by apply holds_alter.
  - intros c Hc Hno. apply br_disk0; [done|]. intros j L Hj. apply (Hno j L). by apply holds_alter.
  - by apply unheld_nodup.
  - done.
Qed.
End brep.

(** ** Relinking *)

Definition core (x : buf) : buf := x <| b_prev := O |> <| b_next := O |>.

Lemma core_lookup bs bs' i y :
  map core bs' = map core bs → bs' !! i = Some y → ∃ x, bs !! i = Some x ∧ core x = core y.
Proof.
  intros Hm Hy. assert ((core <$> bs') !! i = (core <$> bs) !! i) as E
    by (change (map core bs' !! i = map core bs !! i); by rewrite Hm).
  rewrite !list_lookup_fmap, Hy in E. destruct (bs !! i) as [x|]; [|done].
  change (Some (core y) = Some (core x)) in E. exists x. split; [done|]. congruence.
Qed.

Lemma core_alter (f : buf → buf) i bs :
  (∀ x, core (f x) = core x) → map core (alter f i bs) = map core bs.
Proof.
  intros Hf. apply list_eq. intros j.
  change (map core (alter f i bs)) with (core <$> alter f i bs). change (map core bs) with (core <$> bs).
  rewrite !list_lookup_fmap. destruct (decide (i = j)) as [->|Hne].
  - rewrite list_lookup_alter_eq. destruct (bs !! j); simpl; [|done]. by rewrite Hf.
  - by rewrite list_lookup_alter_ne.
Qed.

Lemma brep_relink pid bs bs' disk V D H :
  brep pid bs disk V D H → map core bs' = map core bs →
  (∃ l, dll bs' l ∧ l ≡ₚ seq 0 NBUF) → brep pid bs' disk V D H.
Proof.
  intros [] Hm Hl.
  assert (∀ i y, bs' !! i = Some y → ∃ x, bs !! i = Some x ∧ core x = core y) as Hc
    by (intros; by eapply core_lookup).
  assert (∀ i y, bs !! i = Some y → ∃ x, bs' !! i = Some x ∧ core x = core y) as Hc'
    by (intros; by eapply core_lookup).
  assert (∀ x y, core x = core y → b_valid x = b_valid y ∧ b_dirty x = b_dirty y ∧ b_dev x = b_dev y ∧
    b_blockno x = b_blockno y ∧ b_lock x = b_lock y ∧ b_refcnt x = b_refcnt y ∧ b_data x = b_data y) as Hf.
  { intros [] []. unfold core, upd. simpl. intros [=]. done. }
  assert (∀ dev b i, holds_block bs' dev b i ↔ holds_block bs dev b i) as Hh.
  { intros dev b i. split; intros (y & E & D1 & D2).
    - destruct (Hc i y E) as (x & E' & (_ & _ & F1 & F2 & _)%Hf). exists x. by rewrite F1, F2.
    - destruct (Hc' i y E) as (x & E' & (_ & _ & F1 & F2 & _)%Hf). exists x. by rewrite F1, F2. }
  split; try done.
  - rewrite <- br_len0, <- (length_map core bs'), <- (length_map core bs). by f_equal.
  - intros i j x y L1 L2 E1 E2. destruct (Hc i x E1) as (x' & E1' & (_ & _ & <- & <- & _)%Hf).
    destruct (Hc j y E2) as (y' & E2' & (_ & _ & <- & <- & _)%Hf). eauto.
  - intros i x L E. destruct (Hc i x E) as (x' & E' & (<- & _ & <- & <- & _ & _ & <-)%Hf). eauto.
  - intros i x L E. destruct (Hc i x E) as (x' & E' & (_ & <- & <- & _)%Hf). eauto.
  - intros i x L E. destruct (Hc i x E) as (x' & E' & (_ & _ & _ & _ & <- & <- & _)%Hf). eauto.
  - intros i b Hib. destruct (br_held0 i b Hib) as (L & x & E & R). split; [done|].
    destruct (Hc' i x E) as (x' & E' & (_ & _ & F1 & F2 & F3 & F4 & _)%Hf). exists x'.
    by rewrite F1, F2, F3, F4.
  - intros i x L E. destruct (Hc i x E) as (x' & E' & (_ & <- & <- & <- & _)%Hf). eauto.
  - intros i x L E. destruct (Hc i x E) as (x' & E' & (_ & <- & <- & <- & _)%Hf). eauto.
  - intros b Hb. destruct (br_pinned0 b Hb) as (i & L & Hi). exists i. by rewrite Hh.
  - intros b Hb Hno. apply br_disk0; [done|]. intros i L. rewrite <- Hh. by apply Hno.
Qed.

Lemma order_facts l :
  l ≡ₚ seq 0 NBUF → NoDup (bhead :: l) ∧ length l = NBUF ∧ (∀ x, x ∈ l ↔ (x < NBUF)%nat).
Proof.
  intros Hl.
  assert (∀ x, x ∈ l ↔ (x < NBUF)%nat) as Hin.
  { intros x. rewrite Hl, elem_of_seq. lia. }
  split_and!; [|by rewrite Hl, length_seq|done]. apply NoDup_cons. split.
  - rewrite Hin. lia.
  - rewrite Hl. apply NoDup_seq.
Qed.

Lemma the_buf_ok i x k : k_bufs k !! i = Some x → the_buf i k = (Ok x, k).
Proof. intros H. by apply at_index_ok. Qed.
Lemma upd_buf_ok i f k : upd_buf i f k = (Ok tt, k <| k_bufs := alter f i (k_bufs k) |>).
Proof. done. Qed.

Lemma link_out_spec b p n k :
  nx (k_bufs k) b = Some n → pv (k_bufs k) b = Some p →
  link_out b k = (Ok tt, k <| k_bufs := out (k_bufs k) p n |>).
Proof.
  unfold nx, pv. destruct (k_bufs k !! b) as [x|] eqn:E; [|done]. intros [= Hn] [= Hp].
  unfold link_out. mstep (the_buf_ok b x k E). mstep (upd_buf_ok _ _ _).
  set (k1 := k <| k_bufs := _ |>).
  destruct (lookup_lt_is_Some_2 (k_bufs k1) b) as [y Hy].
  { unfold k1, upd. simpl. rewrite length_alter. by apply lookup_lt_Some in E. }
  mstep (the_buf_ok b y k1 Hy). rewrite upd_buf_ok. unfold k1, upd in *. simpl in *.
  assert (b_next y = b_next x ∧ (b_next x = b → b_prev y = b_prev x) ∧ (b_next x ≠ b → b_prev y = b_prev x))
    as (F1 & F2 & F3).
  { destruct (decide (b_next x = b)) as [Eb|Eb].
    - rewrite Eb, list_lookup_alter_eq, E in Hy. injection Hy as <-. done.
    - rewrite list_lookup_alter_ne in Hy by done. simplify_eq. done. }
  assert (b_prev y = b_prev x) as F4 by (destruct (decide (b_next x = b)); auto).
  rewrite F1, F4. subst. done.
Qed.

Lemma link_front_spec b f k :
  b ≠ bhead → nx (k_bufs k) bhead = Some f → (b < length (k_bufs k))%nat →
  link_front b k = (Ok tt, k <| k_bufs := front (k_bufs k) b f |>).
Proof.
  unfold nx. intros Hb. destruct (k_bufs k !! bhead) as [h|] eqn:E; [|done]. intros [= Hf] Hlt.
  unfold link_front. mstep (the_buf_ok bhead h k E). mstep (upd_buf_ok _ _ _). mstep (upd_buf_ok _ _ _).
  erewrite bind_ok; [|apply (the_buf_ok bhead h); unfold upd; simpl; by rewrite !list_lookup_alter_ne].
  mstep (upd_buf_ok _ _ _). rewrite upd_buf_ok. unfold upd. simpl. by subst.
Qed.

(** ** The routines *)

Definition spend (w : option nat) : option nat := match w with Some (S n) => Some n | _ => w end.

Lemma bufs_twice k bs bs' : k <| k_bufs := bs |> <| k_bufs := bs' |> = k <| k_bufs := bs' |>.
Proof. done. Qed.

Lemma holdingsleep_buf i x k pid :
  ctx k pid → k_bufs k !! i = Some x → b_lock x = Sleeplock true pid →
  holdingsleep (SL_buf i) k = (Ok true, k).
Proof.
  intros Hx E L. rewrite (holdingsleep_spec _ _ _ Hx). simpl. rewrite E, L. simpl.
  by rewrite bool_decide_true.
Qed.

Lemma iderw_read i x d k pid :
  ctx k pid → k_bufs k !! i = Some x → b_lock x = Sleeplock true pid → b_dev x = 1 →
  b_valid x = false → b_dirty x = false → 0 ≤ b_blockno x < Z.of_nat (length (k_disk k)) →
  k_disk k !! Z.to_nat (b_blockno x) = Some d →
  iderw i k =
  (Ok tt, k <| k_bufs := alter (λ x, x <| b_data := d |> <| b_valid := true |>) i (k_bufs k) |>).
Proof.
  intros Hx E L Hdev Hv Hd Hb Hdisk. unfold iderw. mstep (holdingsleep_buf i x k pid Hx E L). cbn [negb].
  mstep (the_buf_ok i x k E). rewrite Hv, Hd. cbn [andb]. rewrite decide_False by lia. rewrite bind_gets.
  rewrite decide_False by lia. rewrite bind_assoc.
  mstep (at_index_ok k_disk _ d k Hdisk). mstep (upd_buf_ok _ _ _). rewrite upd_buf_ok.
  unfold upd. simpl. by rewrite alter_comp.
Qed.

Lemma disk_write_ok b d k :
  k_power k ≠ Some O →
  disk_write b d k = (Ok tt, k <| k_disk := <[b := d]> (k_disk k) |> <| k_power := spend (k_power k) |>).
Proof.
  intros Hp. unfold disk_write. rewrite bind_gets. unfold modify, spend.
  destruct (k_power k) as [[|n]|] eqn:E; [done| |]; unfold upd; simpl; by rewrite E.
Qed.

Lemma disk_write_off b d k :
  k_power k = Some O → disk_write b d k = (Stop PowerOff, k).
Proof. intros Hp. unfold disk_write. rewrite bind_gets. by rewrite Hp. Qed.

Lemma iderw_write i x k pid :
  ctx k pid → k_bufs k !! i = Some x → b_lock x = Sleeplock true pid → b_dev x = 1 →
  b_dirty x = true → 0 ≤ b_blockno x < Z.of_nat (length (k_disk k)) →
  k_power k ≠ Some O →
  iderw i k =
  (Ok tt, k <| k_bufs := alter (λ x, x <| b_dirty := false |> <| b_valid := true |>) i (k_bufs k) |>
            <| k_disk := <[Z.to_nat (b_blockno x) := b_data x]> (k_disk k) |>
            <| k_power := spend (k_power k) |>).
Proof.
  intros Hx E L Hdev Hd Hb Hp. unfold iderw. mstep (holdingsleep_buf i x k pid Hx E L). cbn [negb].
  mstep (the_buf_ok i x k E). rewrite Hd. rewrite andb_false_r. rewrite decide_False by lia. rewrite bind_gets.
  rewrite decide_False by lia. rewrite bind_assoc. mstep (upd_buf_ok _ _ _).
  erewrite bind_ok; [|by apply disk_write_ok]. rewrite upd_buf_ok. unfold upd. simpl. by rewrite alter_comp.
Qed.

Lemma iderw_off i x k pid :
  ctx k pid → k_bufs k !! i = Some x → b_lock x = Sleeplock true pid → b_dev x = 1 →
  b_dirty x = true → 0 ≤ b_blockno x < Z.of_nat (length (k_disk k)) →
  k_power k = Some O →
  iderw i k = (Stop PowerOff, k <| k_bufs := alter (λ x, x <| b_dirty := false |>) i (k_bufs k) |>).
Proof.
  intros Hx E L Hdev Hd Hb Hp. unfold iderw. mstep (holdingsleep_buf i x k pid Hx E L). cbn [negb].
  mstep (the_buf_ok i x k E). rewrite Hd, andb_false_r, decide_False by lia. rewrite bind_gets.
  rewrite decide_False by lia. rewrite bind_assoc. mstep (upd_buf_ok _ _ _).
  erewrite bind_stop; [done|]. by apply disk_write_off.
Qed.

(** [bget]: room means that the block is pinned or that some buffer is neither
    in use nor pinned. *)
Definition room (b : Z) (D : list Z) (H : list (nat * Z)) : Prop :=
  b ∈ D ∨ (length H + length D < NBUF)%nat.

#[global] Instance is_unused_dec bs b : Decision (is_unused bs b).
Proof.
  unfold is_unused. destruct (bs !! b) as [x|]; [|right; naive_solver].
  destruct (decide (b_refcnt x = 0 ∧ b_dirty x = false)); [left; by exists x|right; naive_solver].
Defined.

#[global] Instance holds_block_dec bs dev blk b : Decision (holds_block bs dev blk b).
Proof.
  unfold holds_block. destruct (bs !! b) as [x|]; [|right; naive_solver].
  destruct (decide (b_dev x = dev ∧ b_blockno x = blk)); [left; by exists x|right; naive_solver].
Defined.

Lemma unused_exists pid bs disk V D H :
  brep pid bs disk V D H → (length H + length D < NBUF)%nat →
  ∃ i, (i < NBUF)%nat ∧ is_unused bs i.
Proof.
  intros B Hlt. destruct (decide (Exists (is_unused bs) (seq 0 NBUF))) as [He|Hn].
  { apply Exists_exists in He as (i & Hi%elem_of_seq & Hu). exists i. split; [lia|done]. }
  exfalso. apply not_Exists_Forall in Hn; [|apply _]. rewrite Forall_forall in Hn.
  assert (∀ i x, (i < NBUF)%nat → bs !! i = Some x → i ∉ H.*1 → b_dev x = 1 ∧ b_blockno x ∈ D) as Hd.
  { intros i x Hi E Hni. destruct (br_free _ _ _ _ _ _ B i x Hi E Hni) as [Hr _].
    assert (b_dirty x = true) as Hdx.
    { destruct (b_dirty x) eqn:Hdx; [done|]. exfalso. apply (Hn i); [apply elem_of_seq; lia|]. by exists x. }
    assert (b_dev x = 1) as Hdev.
    { destruct (decide (b_dev x = 1)); [done|].
      pose proof (br_other _ _ _ _ _ _ B i x Hi E ltac:(done)). congruence. }
    split; [done|]. by apply (br_dirty _ _ _ _ _ _ B i x). }
  set (g := λ i, match bs !! i with
                 | Some x => if decide (i ∈ H.*1) then inl i else inr (b_blockno x)
                 | None => inl i end : nat + Z).
  pose proof (br_len _ _ _ _ _ _ B) as Hlen.
  assert (map g (seq 0 NBUF) ⊆+ (inl <$> H.*1) ++ (inr <$> D)) as Hsub.
  { apply NoDup_submseteq.
    - apply NoDup_fmap_2_strong; [|apply NoDup_seq]. intros i j Hi%elem_of_seq Hj%elem_of_seq Hg.
      destruct (lookup_lt_is_Some_2 bs i) as [x Ex]; [lia|]. destruct (lookup_lt_is_Some_2 bs j) as [y Ey]; [lia|].
      unfold g in Hg. rewrite Ex, Ey in Hg. repeat case_decide; simplify_eq; [done|].
      destruct (Hd i x) as [Dx _]; [lia|done|done|]. destruct (Hd j y) as [Dy _]; [lia|done|done|].
      eapply (br_uniq _ _ _ _ _ _ B i j x y); try done; lia.
    - intros z (i & -> & Hi%elem_of_seq)%list_elem_of_fmap. apply elem_of_app.
      destruct (lookup_lt_is_Some_2 bs i) as [x Ex]; [lia|]. unfold g. rewrite Ex. case_decide as E.
      + left. apply list_elem_of_fmap. by exists i.
      + right. apply list_elem_of_fmap. exists (b_blockno x). split; [done|]. apply (Hd i x); [lia|done|done]. }
  apply submseteq_length in Hsub. rewrite length_map, length_seq, length_app, !length_fmap in Hsub. lia.
Qed.

(** The sleep lock of a buffer that is not in use is free. *)
Lemma put_buf_lock i l k :
  put_sl (SL_buf i) l k = k <| k_bufs := alter (λ x, x <| b_lock := l |>) i (k_bufs k) |>.
Proof. done. Qed.

Lemma ctx_bufs k pid bs : ctx k pid → ctx (k <| k_bufs := bs |>) pid.
Proof. intros H. by eapply ctx_ext. Qed.

(** The part of [bget] that both branches end with. *)
Lemma bget_finish i f x k c cp pid :
  ctx k pid → cpu_at k c cp → c_ncli cp = 0 → k_bufs k !! i = Some x →
  sl_locked (b_lock (f x)) = false →
  (upd_buf i f;; release L_bcache;; acquiresleep (SL_buf i);; mret i) (locked L_bcache c k) =
  (Ok i, k <| k_bufs := alter (λ x, f x <| b_lock := Sleeplock true pid |>) i (k_bufs k) |>).
Proof.
  intros Hx Hc Hz E Hl. mstep (upd_buf_ok _ _ _).
  change (locked L_bcache c k <| k_bufs := _ |>) with (locked L_bcache c (k <| k_bufs := alter f i (k_bufs k) |>)).
  set (k1 := k <| k_bufs := alter f i (k_bufs k) |>).
  assert (ctx k1 pid) as Hx1 by (by apply ctx_bufs).
  assert (cpu_at k1 c cp) as Hc1 by (by eapply (cpu_at_ext k)).
  mstep (release_spec L_bcache k1 c cp Hc1 ltac:(lia) (ctx_free _ _ _ Hx1)).
  erewrite bind_ok; [|eapply acquiresleep_spec; [exact Hx1|]].
  - unfold mret, M_ret. f_equal. rewrite put_buf_lock. unfold k1, upd. simpl. by rewrite alter_comp.
  - simpl. unfold k1, upd. simpl. by rewrite list_lookup_alter_eq, E.
Qed.

Section specs.
Context (pid : Z).
Implicit Types (k : kernel) (V : Z → list Z) (D : list Z) (H : list (nat * Z)).

Notation krep k := (brep pid (k_bufs k) (k_disk k)).

(** The searches of [bget] on a represented cache. *)
Lemma search_cached k V D H b h :
  krep k V D H → k_bufs k !! bhead = Some h →
  (∃ i, find_cached NBUF (k_bufs k) (b_next h) 1 b = Some (Some i) ∧ (i < NBUF)%nat ∧
        holds_block (k_bufs k) 1 b i) ∨
  (find_cached NBUF (k_bufs k) (b_next h) 1 b = Some None ∧
   ∀ i, (i < NBUF)%nat → ¬ holds_block (k_bufs k) 1 b i).
Proof.
  intros B Hh. destruct (br_order _ _ _ _ _ _ B) as (l & Hd & Hl).
  destruct (order_facts l Hl) as (Hnd & Hlen & Hin). apply NoDup_cons in Hnd as [Hnh Hnd].
  pose proof (br_len _ _ _ _ _ _ B) as HL. unfold dll in Hd. change l with ([] ++ l) in Hd.
  rewrite seg_app in Hd. simpl in Hd.
  assert (b_next h = first_node l bhead) as ->.
  { destruct (Hd bhead (first_node l bhead)) as [Hn _]; [left|]. unfold nx in Hn. rewrite Hh in Hn. by injection Hn. }
  destruct (find_cached_spec (k_bufs k) 1 b l NBUF) as [(i & F1 & F2 & F3)|[F1 F2]].
  - intros x y Hxy. apply Hd. by right.
  - done.
  - intros i Hi%Hin. lia.
  - lia.
  - left. exists i. split_and!; [done|by apply Hin|done].
  - right. split; [done|]. intros i Hi. apply F2. by apply Hin.
Qed.

Lemma search_unused k V D H h :
  krep k V D H → k_bufs k !! bhead = Some h → (length H + length D < NBUF)%nat →
  ∃ i, find_unused NBUF (k_bufs k) (b_prev h) = Some (Some i) ∧ (i < NBUF)%nat ∧
       is_unused (k_bufs k) i.
Proof.
  intros B Hh Hr. destruct (br_order _ _ _ _ _ _ B) as (l & Hd & Hl).
  destruct (order_facts l Hl) as (Hnd & Hlen & Hin). apply NoDup_cons in Hnd as [Hnh Hnd].
  pose proof (br_len _ _ _ _ _ _ B) as HL. unfold dll in Hd. rewrite <- (app_nil_r l) in Hd.
  rewrite seg_app in Hd. simpl in Hd.
  assert (b_prev h = last_node bhead l) as ->.
  { destruct (Hd (last_node bhead l) bhead) as [_ Hn]; [apply elem_of_app; right; left|].
    unfold pv in Hn. rewrite Hh in Hn. by injection Hn. }
  destruct (find_unused_spec (k_bufs k) l NBUF) as [(i & F1 & F2 & F3)|[F1 F2]].
  - intros x y Hxy. apply Hd, elem_of_app. by left.
  - done.
  - intros i Hi%Hin. lia.
  - lia.
  - exists i. split_and!; [done|by apply Hin|done].
  - destruct (unused_exists _ _ _ _ _ _ B Hr) as (i & Hi & Hu). destruct (F2 i); [by apply Hin|done].
Qed.

Lemma bread_spec k V D H b :
  ctx k pid → krep k V D H → 0 ≤ b < Z.of_nat (length (k_disk k)) →
  b ∉ H.*2 → room b D H →
  ∃ i bs', bread 1 b k = (Ok i, k <| k_bufs := bs' |>) ∧ i ∉ H.*1 ∧
    brep pid bs' (k_disk k) V D ((i, b) :: H).
Proof.
  intros Hx B Hb Hnh Hr. destruct (ctx_cpu _ _ Hx) as (c & cp & Hc & Hz).
  pose proof (br_len _ _ _ _ _ _ B) as HL.
  destruct (lookup_lt_is_Some_2 (k_bufs k) bhead) as [h Hh]; [lia|].
  unfold bread, bget.
  rewrite bind_assoc. mstep (acquire_spec L_bcache k c cp Hc ltac:(lia) (ctx_free _ _ _ Hx)).
  rewrite bind_assoc. mstep (the_buf_ok bhead h (locked L_bcache c k) Hh).
  rewrite bind_assoc, bind_gets. change (k_bufs (locked L_bcache c k)) with (k_bufs k).
  destruct (search_cached k V D H b h B Hh) as [(i & F1 & Hi & Hhb)|[F1 Hno]]; rewrite F1.
  - pose proof Hhb as (x & E & Hdev & Hbl).
    assert (i ∉ H.*1) as Hni.
    { intros ([j c'] & -> & Hj)%list_elem_of_fmap. apply Hnh. apply list_elem_of_fmap. exists (j, c').
      destruct (br_held _ _ _ _ _ _ B j c' Hj) as (_ & y & Ey & _ & _ & _ & Hby). simpl in *. split; [congruence|done]. }
    destruct (br_free _ _ _ _ _ _ B i x Hi E Hni) as [Hrf Hlk].
    destruct (br_cached _ _ _ _ _ _ B i x Hi E Hdev) as (Hv & _ & _).
    erewrite bind_ok; [|by eapply bget_finish].
    set (g := λ x, x <| b_refcnt ::= λ n, u32 (n + 1) |> <| b_lock := Sleeplock true pid |>).
    erewrite bind_ok; [|apply (the_buf_ok i (g x)); unfold upd; simpl; by rewrite list_lookup_alter_eq, E].
    change (b_valid (g x)) with (b_valid x). rewrite Hv. cbn [negb]. unfold when.
    exists i, (alter (take_buf pid) i (k_bufs k)). split_and!; [|done|by apply brep_take].
    rewrite bind_ret. unfold mret, M_ret. f_equal.
    assert (alter g i (k_bufs k) = alter (take_buf pid) i (k_bufs k)) as Eg.
    { eapply alter_at; [done|]. unfold g, take_buf, upd. simpl. by rewrite Hrf. }
    unfold upd at 1 4. unfold g in Eg. by rewrite Eg.
  - assert (length H + length D < NBUF)%nat as Hroom.
    { destruct Hr as [Hbd|Hr]; [|done]. destruct (br_pinned _ _ _ _ _ _ B b Hbd) as (i & Hi & Hhi).
      by destruct (Hno i Hi). }
    rewrite bind_assoc. mstep (the_buf_ok bhead h (locked L_bcache c k) Hh).
    rewrite bind_assoc, bind_gets. change (k_bufs (locked L_bcache c k)) with (k_bufs k).
    destruct (search_unused k V D H h B Hh Hroom) as (i & F2 & Hi & Hu). rewrite F2.
    pose proof Hu as (x & E & Hrf & Hdt).
    assert (i ∉ H.*1) as Hni.
    { intros ([j c'] & -> & Hj)%list_elem_of_fmap.
      destruct (br_held _ _ _ _ _ _ B j c' Hj) as (_ & y & Ey & Hr1 & _). simpl in *. congruence. }
    destruct (br_free _ _ _ _ _ _ B i x Hi E Hni) as [_ Hlk].
    erewrite bind_ok; [|by eapply bget_finish].
    set (g := λ x, x <| b_dev := 1 |> <| b_blockno := b |> <| b_valid := false |> <| b_dirty := false |>
                     <| b_refcnt := 1 |> <| b_lock := Sleeplock true pid |>).
    set (k1 := k <| k_bufs := alter g i (k_bufs k) |>).
    assert (k_bufs k1 !! i = Some (g x)) as E1 by (unfold k1, upd; simpl; by rewrite list_lookup_alter_eq, E).
    mstep (the_buf_ok i (g x) k1 E1). change (b_valid (g x)) with false. cbn [negb]. unfold when.
    assert (k_disk k !! Z.to_nat b = Some (V b)) as Hdb by (by apply (br_disk _ _ _ _ _ _ B)).
    erewrite bind_ok; [|eapply (iderw_read i (g x) (V b) k1 pid); try done; by apply ctx_bufs].
    exists i, (alter (recycle_buf pid b (V b)) i (k_bufs k)).
    split_and!; [|done|by eapply brep_recycle].
    unfold mret, M_ret. f_equal. unfold k1, upd. simpl. by rewrite alter_comp.
Qed.

Lemma bdata_spec k V D H i b :
  krep k V D H → (i, b) ∈ H → bdata i k = (Ok (V b), k).
Proof.
  intros B Hin. destruct (br_held _ _ _ _ _ _ B i b Hin) as (Hi & x & E & _ & _ & Hdev & Hbl).
  destruct (br_cached _ _ _ _ _ _ B i x Hi E Hdev) as (_ & _ & Hd).
  unfold bdata. mstep (the_buf_ok i x k E). by rewrite Hd, Hbl.
Qed.

Lemma set_bdata_spec k V D H i b d :
  krep k V D H → (i, b) ∈ H →
  ∃ bs', set_bdata i d k = (Ok tt, k <| k_bufs := bs' |>) ∧
    brep pid bs' (k_disk k) (fupd V b d) D H.
Proof. intros B Hin. eexists. split; [done|]. by apply brep_set. Qed.

(** A write of a held buffer reaches the disk, or the power fails before it. *)
Lemma bwrite_spec k V D H i b :
  ctx k pid → krep k V D H → (i, b) ∈ H →
  if decide (k_power k = Some O)
  then ∃ bs', bwrite i k = (Stop PowerOff, k <| k_bufs := bs' |>)
  else ∃ bs', bwrite i k =
    (Ok tt, k <| k_bufs := bs' |> <| k_disk := <[Z.to_nat b := V b]> (k_disk k) |>
              <| k_power := spend (k_power k) |>) ∧
    brep pid bs' (<[Z.to_nat b := V b]> (k_disk k)) V (filter (.≠ b) D) H.
Proof.
  intros Hx B Hin. destruct (br_held _ _ _ _ _ _ B i b Hin) as (Hi & x & E & _ & Hlk & Hdev & Hbl).
  destruct (br_cached _ _ _ _ _ _ B i x Hi E Hdev) as (_ & Hb & Hd).
  unfold bwrite. mstep (holdingsleep_buf i x k pid Hx E Hlk). cbn [negb]. mstep (upd_buf_ok _ _ _).
  set (g := λ x, x <| b_dirty := true |>). set (k1 := k <| k_bufs := alter g i (k_bufs k) |>).
  assert (k_bufs k1 !! i = Some (g x)) as E1 by (unfold k1, upd; simpl; by rewrite list_lookup_alter_eq, E).
  assert (ctx k1 pid) as Hx1 by (by apply ctx_bufs). case_decide as Hp.
  - rewrite (iderw_off i (g x) k1 pid); [|done..]. eexists. unfold k1. by rewrite bufs_twice.
  - rewrite (iderw_write i (g x) k1 pid); [|done..].
    exists (alter (λ x, x <| b_dirty := false |> <| b_valid := true |>) i (k_bufs k)).
    split; [|by apply brep_write]. f_equal. change (b_blockno (g x)) with (b_blockno x).
    change (b_data (g x)) with (b_data x). rewrite Hd, Hbl. unfold k1, upd. simpl. rewrite alter_comp. done.
Qed.

(** Moving a buffer to the front of the list. *)
Lemma relink_spec k V D H i :
  krep k V D H → (i < NBUF)%nat →
  ∃ bs', (link_out i;; link_front i) k = (Ok tt, k <| k_bufs := bs' |>) ∧
    brep pid bs' (k_disk k) V D H.
Proof.
  intros B Hi. destruct (br_order _ _ _ _ _ _ B) as (l & Hd & Hl).
  destruct (order_facts l Hl) as (Hnd & Hlen & Hmem). pose proof (br_len _ _ _ _ _ _ B) as HL.
  destruct (list_elem_of_split l i) as (l1 & l2 & ->); [by apply Hmem|].
  assert (∀ y, y ∈ bhead :: l1 ++ i :: l2 → (y < length (k_bufs k))%nat) as Hlt.
  { intros y [->|Hy%Hmem]%elem_of_cons; lia. }
  destruct (dll_out (k_bufs k) l1 i l2 Hd Hnd Hlt) as (N1 & N2 & N3).
  set (p := last_node bhead l1) in *. set (n := first_node l2 bhead) in *.
  mstep (link_out_spec i p n k N1 N2). set (bs1 := out (k_bufs k) p n) in *.
  assert (length bs1 = length (k_bufs k)) as HL1 by (unfold bs1, out; by rewrite length_set_next, length_set_prev).
  assert (NoDup (bhead :: l1 ++ l2) ∧ i ∉ l1 ++ l2) as [Hnd2 Hil].
  { clear -Hnd. apply NoDup_cons in Hnd as [H1 H2]. apply NoDup_app in H2 as (N1 & N2 & N3).
    apply NoDup_cons in N3 as [N4 N3]. split.
    - apply NoDup_cons. split.
      + intros [|]%elem_of_app; apply H1, elem_of_app; [by left|right; by right].
      + apply NoDup_app. split_and!; [done| |done]. intros x Hx Hx2. apply (N2 x Hx). by right.
    - intros [Hx|Hx]%elem_of_app; [apply (N2 i Hx); left|done]. }
  destruct (dll_front bs1 (l1 ++ l2) i N3 Hnd2) as (F1 & F2); [lia|done| |].
  { intros y Hy. rewrite HL1. apply Hlt. rewrite !elem_of_cons, elem_of_app in *. rewrite elem_of_cons. tauto. }
  exists (front bs1 i (first_node (l1 ++ l2) bhead)). split; [rewrite (link_front_spec i (first_node (l1 ++ l2) bhead)); [|lia|done|simpl; lia]; done|].
  eapply brep_relink; [done| |].
  - unfold bs1, front, out, set_next, set_prev. by repeat (rewrite core_alter; [|intros; reflexivity]).
  - eexists. split; [exact F2|]. rewrite <- Hl. by rewrite Permutation_middle.
Qed.

Lemma brelse_spec k V D H i b :
  ctx k pid → krep k V D H → (i, b) ∈ H →
  b ∈ D ∨ k_disk k !! Z.to_nat b = Some (V b) →
  ∃ bs', brelse i k = (Ok tt, k <| k_bufs := bs' |> <| k_procs ::= map (wake (C_buf i)) |>) ∧
    brep pid bs' (k_disk k) V D (unheld i H).
Proof.
  intros Hx B Hin Hs. destruct (br_held _ _ _ _ _ _ B i b Hin) as (Hi & x & E & Hrf & Hlk & Hdev & Hbl).
  pose proof (brep_drop _ _ _ _ _ _ _ _ B Hin Hs) as B1. destruct (ctx_cpu _ _ Hx) as (c & cp & Hc & Hz).
  unfold brelse. mstep (holdingsleep_buf i x k pid Hx E Hlk). cbn [negb].
  mstep (releasesleep_spec (SL_buf i) k pid Hx). rewrite put_buf_lock. simpl sl_chan.
  set (k1 := k <| k_bufs := _ |> <| k_procs ::= _ |>).
  assert (ctx k1 pid) as Hx1 by (by eapply (ctx_wake (C_buf i) k)).
  assert (cpu_at k1 c cp) as Hc1 by (by eapply (cpu_at_ext k)).
  mstep (acquire_spec L_bcache k1 c cp Hc1 ltac:(lia) (ctx_free _ _ _ Hx1)). mstep (upd_buf_ok _ _ _).
  set (bs1 := alter drop_buf i (k_bufs k)) in *.
  assert (alter (λ x, x <| b_refcnt ::= λ n, u32 (n - 1) |>) i (k_bufs (locked L_bcache c k1)) = bs1) as ->.
  { unfold k1, upd. simpl. rewrite alter_comp. eapply alter_at; [done|].
    unfold drop_buf, upd. simpl. by rewrite Hrf. }
  set (k2 := k <| k_bufs := bs1 |> <| k_procs ::= map (wake (C_buf i)) |>).
  change (locked L_bcache c k1 <| k_bufs := bs1 |>) with (locked L_bcache c k2).
  assert (bs1 !! i = Some (drop_buf x)) as E1 by (unfold bs1; by rewrite list_lookup_alter_eq, E).
  mstep (the_buf_ok i (drop_buf x) (locked L_bcache c k2) E1). rewrite bool_decide_true by done. unfold when.
  destruct (relink_spec (locked L_bcache c k2) V D (unheld i H) i) as (bs' & R1 & R2); [done|done|].
  mstep R1. exists bs'. split; [|done].
  assert (ctx (k2 <| k_bufs := bs' |>) pid) as Hx2 by (by eapply (ctx_ext k1)).
  assert (cpu_at (k2 <| k_bufs := bs' |>) c cp) as Hc2 by (by eapply (cpu_at_ext k1)).
  exact (release_spec L_bcache (k2 <| k_bufs := bs' |>) c cp Hc2 ltac:(lia) (ctx_free _ _ _ Hx2)).
Qed.
End specs.

#[global] Opaque bread bwrite brelse bdata set_bdata.

(** ** The cache after [binit] *)

Definition binit_bufs : list buf := Eval vm_compute in k_bufs (binit boot0).2.
Definition binit_order : list nat := Eval vm_compute in reverse (seq 0 NBUF).

Lemma binit_spec k :
  k_bufs k = replicate (S NBUF) buf0 → k_locks k = [] →
  binit k = (Ok tt, k <| k_bufs := binit_bufs |>).
Proof.
  destruct k; simpl. intros -> ->. reflexivity.
Qed.

(** [linked] on a concrete cache, decided. *)
Definition linkedb (bs : list buf) (s : list (nat * nat)) : bool :=
  forallb (λ p, bool_decide (nx bs p.1 = Some p.2) && bool_decide (pv bs p.2 = Some p.1)) s.
Lemma linkedb_ok bs s : linkedb bs s = true → linked bs s.
Proof.
  unfold linkedb. rewrite forallb_forall. intros H x y Hxy. apply list_elem_of_In in Hxy.
  specialize (H _ Hxy). apply andb_true_iff in H as [H1 H2]. simpl in *.
  by apply bool_decide_eq_true in H1, H2.
Qed.

(** Right after [binit] the logical disk is the disk. *)
Definition disk_view (disk : list (list Z)) (b : Z) : list Z := default [] (disk !! Z.to_nat b).

Lemma binit_rep pid disk : brep pid binit_bufs disk (disk_view disk) [] [].
Proof.
  assert (∀ i x, (i < NBUF)%nat → binit_bufs !! i = Some x →
    b_dev x = 0 ∧ b_dirty x = false ∧ b_refcnt x = 0 ∧ sl_locked (b_lock x) = false) as Hall.
  { intros i x Hi Hx. apply list_elem_of_lookup_2 in Hx.
    assert (Forall (λ x, b_dev x = 0 ∧ b_dirty x = false ∧ b_refcnt x = 0 ∧ sl_locked (b_lock x) = false)
      binit_bufs) as HF by (repeat constructor). rewrite Forall_forall in HF. by apply HF. }
  split.
  - done.
  - exists binit_order. split; [apply linkedb_ok; vm_compute; reflexivity|].
    change binit_order with (reverse (seq 0 NBUF)). apply reverse_Permutation.
  - intros i j x y L1 L2 E1 E2 D1. destruct (Hall i x L1 E1) as [Hd _]. lia.
  - intros i x L E D1. destruct (Hall i x L E) as [Hd _]. lia.
  - intros i x L E _. by apply (Hall i).
  - intros i x L E _. by apply (Hall i).
  - by intros i b ?%not_elem_of_nil.
  - intros i x L E D1. destruct (Hall i x L E) as [Hd _]. lia.
  - intros i x L E D1. destruct (Hall i x L E) as [Hd _]. lia.
  - by intros b ?%not_elem_of_nil.
  - intros b Hb _. unfold disk_view. destruct (lookup_lt_is_Some_2 disk (Z.to_nat b)) as [d Hd]; [lia|].
    by rewrite Hd.
  - constructor.
  - constructor.
Qed.

(** ** Refinement: reads and writes through the cache *)

Inductive bop := B_read (b : Z) | B_write (b : Z) (d : list Z).
Definition bop_block (o : bop) : Z := match o with B_read b => b | B_write b _ => b end.

(** On an array of blocks. *)
Definition bop_abs (o : bop) (disk : list (list Z)) : list Z * list (list Z) :=
  match o with
  | B_read b => (disk_view disk b, disk)
  | B_write b d => (d, <[Z.to_nat b := d]> disk)
  end.
Fixpoint bops_abs (os : list bop) (disk : list (list Z)) : list (list Z) * list (list Z) :=
  match os with
  | [] => ([], disk)
  | o :: os' =>
      let '(r, disk1) := bop_abs o disk in
      let '(rs, disk2) := bops_abs os' disk1 in (r :: rs, disk2)
  end.

(** The way the kernel reads and writes a block. *)
Definition bop_run (o : bop) : K (list Z) :=
  match o with
  | B_read b => i ← bread 1 b; d ← bdata i; brelse i;; mret d
  | B_write b d => i ← bread 1 b; set_bdata i d;; bwrite i;; brelse i;; mret d
  end.
Fixpoint bops_run (os : list bop) : K (list (list Z)) :=
  match os with
  | [] => mret []
  | o :: os' => r ← bop_run o; rs ← bops_run os'; mret (r :: rs)
  end.

(** The cache holds nothing that is not on the disk. *)
Definition coherent (pid : Z) (k : kernel) : Prop :=
  ctx k pid ∧ k_power k = None ∧ ∃ V, brep pid (k_bufs k) (k_disk k) V [] [].

Lemma coherent_view pid bs disk V b :
  brep pid bs disk V [] [] → 0 ≤ b < Z.of_nat (length disk) → disk !! Z.to_nat b = Some (V b).
Proof.
  intros B Hb. destruct (decide (Exists (holds_block bs 1 b) (seq 0 NBUF))) as [He|Hn].
  - apply Exists_exists in He as (i & Hi%elem_of_seq & x & E & Dx & <-).
    apply (br_clean _ _ _ _ _ _ B i x); [lia|done|done| |by apply not_elem_of_nil].
    destruct (b_dirty x) eqn:Hd; [|done]. apply (br_dirty _ _ _ _ _ _ B i x) in Hd; [|lia|done|done].
    by apply not_elem_of_nil in Hd.
  - apply (br_disk _ _ _ _ _ _ B b Hb). intros i Hi Hh. apply Hn, Exists_exists.
    exists i. split; [apply elem_of_seq; lia|done].
Qed.

Lemma bop_sim pid k o :
  coherent pid k → 0 ≤ bop_block o < Z.of_nat (length (k_disk k)) →
  ∃ k', bop_run o k = (Ok (bop_abs o (k_disk k)).1, k') ∧ coherent pid k' ∧
        k_disk k' = (bop_abs o (k_disk k)).2.
Proof.
  intros (Hx & Hp & V & B) Hb.
  destruct (bread_spec pid k V [] [] (bop_block o) Hx B Hb) as (i & bs1 & R1 & Hni & B1);
    [by apply not_elem_of_nil|right; unfold NBUF; simpl; lia|].
  set (k1 := k <| k_bufs := bs1 |>) in *. assert (ctx k1 pid) as Hx1 by (by apply ctx_bufs).
  assert ((i, bop_block o) ∈ [(i, bop_block o)]) as Hin by left.
  destruct o as [b|b d]; simpl in *; mstep R1.
  - mstep (bdata_spec pid k1 V [] [(i, b)] i b B1 Hin).
    destruct (brelse_spec pid k1 V [] [(i, b)] i b Hx1 B1 Hin) as (bs2 & R2 & B2).
    { right. by eapply coherent_view. }
    mstep R2.
    assert (disk_view (k_disk k) b = V b) as -> by (unfold disk_view; by rewrite (coherent_view _ _ _ _ _ B Hb)).
    eexists. split_and!; [done|split_and!|done].
    + by eapply (ctx_wake (C_buf i) k1).
    + done.
    + exists V. unfold unheld in B2. by rewrite filter_cons_False in B2 by (simpl; tauto).
  - destruct (set_bdata_spec pid k1 V [] [(i, b)] i b d B1 Hin) as (bs2 & R2 & B2). mstep R2.
    set (k2 := k1 <| k_bufs := bs2 |>) in *. assert (ctx k2 pid) as Hx2 by (by apply ctx_bufs).
    pose proof (bwrite_spec pid k2 (fupd V b d) [] [(i, b)] i b Hx2 B2 Hin) as W.
    rewrite decide_False in W by (simpl; by rewrite Hp). destruct W as (bs3 & R3 & B3). mstep R3.
    assert (fupd V b d b = d) as Ev by (unfold fupd; by rewrite decide_True).
    rewrite Ev in *. set (k3 := k2 <| k_bufs := bs3 |> <| k_disk := _ |> <| k_power := _ |>) in *.
    assert (ctx k3 pid) as Hx3 by (by eapply (ctx_ext k2)).
    destruct (brelse_spec pid k3 (fupd V b d) [] [(i, b)] i b Hx3 B3 Hin) as (bs4 & R4 & B4).
    { right. rewrite Ev. change (k_disk k3) with (<[Z.to_nat b := d]> (k_disk k)).
      apply list_lookup_insert_eq. lia. }
    mstep R4. eexists. split_and!; [done|split_and!|done].
    + by eapply (ctx_wake (C_buf i) k3).
    + unfold k3, upd. simpl. by rewrite Hp.
    + eexists. unfold unheld in B4. by rewrite filter_cons_False in B4 by (simpl; tauto).
Qed.

(** C3: the buffer cache is transparent.  From a state in which nothing
    is held and nothing is dirty, any sequence of block reads and writes made
    through [bread], [bwrite] and [brelse] runs without panicking, evictions
    included, and returns and leaves on the disk what the same sequence does on
    a plain array of blocks. *)
Theorem bcache_refines pid os k :
  coherent pid k → Forall (λ o, 0 ≤ bop_block o < Z.of_nat (length (k_disk k))) os →
  ∃ k', bops_run os k = (Ok (bops_abs os (k_disk k)).1, k') ∧ coherent pid k' ∧
        k_disk k' = (bops_abs os (k_disk k)).2.
Proof.
  revert k. induction os as [|o os IH]; intros k Hc Hf; simpl; [by exists k|].
  apply Forall_cons in Hf as [Hb Hf]. destruct (bop_sim pid k o Hc Hb) as (k1 & R1 & C1 & D1).
  assert (length (k_disk k1) = length (k_disk k)) as HL.
  { rewrite D1. destruct o; simpl; [done|]. apply length_insert. }
  destruct (IH k1 C1) as (k2 & R2 & C2 & D2); [by rewrite HL|].
  exists k2. mstep R1. mstep R2. destruct (bop_abs o (k_disk k)) as [r disk1]; simpl in *. subst disk1.
  by destruct (bops_abs os (k_disk k1)).
Qed.

(** A process running on one processor, for concrete runs. *)
Definition running0 (disk : list (list Z)) : kernel :=
  boot img0 [cpu0 <| c_proc := Some O |>] (λ _, 0) disk
    <| k_procs ::= <[O := proc0 <| p_pid := 1 |> <| p_state := RUNNING |>]> |>
    <| k_bufs := binit_bufs |>.

Lemma running0_ctx disk : ctx (running0 disk) 1.
Proof.
  split; [done|done|]. exists O, (cpu0 <| c_proc := Some O |>), O, (proc0 <| p_pid := 1 |> <| p_state := RUNNING |>).
  split_and!; [|done..]. split; try done; simpl; lia.
Qed.

Lemma bcache_refines_witness :
  ∃ k', bops_run [B_write 1 [7]; B_read 1; B_read 0] (running0 [[1]; [2]]) = (Ok [[7]; [7]; [1]], k') ∧
        coherent 1 k' ∧ k_disk k' = [[1]; [7]].
Proof.
  apply (bcache_refines 1 [B_write 1 [7]; B_read 1; B_read 0] (running0 [[1]; [2]])).
  - split_and!; [apply running0_ctx|done|]. eexists. apply binit_rep.
  - repeat constructor; simpl; lia.
Defined.
