(* ===== verification/Ide.v ===== *)
(** The IDE disk driver (ide.c).

    The driver runs on a pair of the kernel's state and its own variables: the
    queue of requests (the buffers, linked by [qnext]), [havedisk1], and the
    device behind the I/O ports.  The device is any type with the four port
    instructions ([ide_device]); the theorems ask for the behaviour of an ATA
    disk with programmed I/O that the driver relies on ([ide_laws]), and a disk
    that has it is given at the end ([pio]).

    [iderw] stops where the caller goes to sleep; [iderw_resume] is what it does
    when it runs again.

    Theorem: whatever the order in which processes make requests, interrupts
    come and the rest of the kernel runs, the driver serves the requests in the
    order of their arrival, each as the disk in memory (memide.c) does at once. *)

From S2P Require Import Prelude State Spinlock Sched Sleeplock Bio.

Notation FSSIZE := 1000.
Notation SECTOR_SIZE := 512.
Notation IDE_BSY := 0x80.
Notation IDE_DRDY := 0x40.
Notation IDE_DF := 0x20.
Notation IDE_ERR := 0x01.
Notation IDE_CMD_READ := 0x20.
Notation IDE_CMD_WRITE := 0x30.
Notation IDE_CMD_RDMUL := 0xc4.
Notation IDE_CMD_WRMUL := 0xc5.

(** The port instructions; [insl] and [outsl] move a sector. *)
Class ide_device (D : Type) := {
  inb : Z → D → Z * D;
  outb : Z → Z → D → D;
  insl : Z → D → list Z * D;
  outsl : Z → list Z → D → D }.

Record ide (D : Type) := Ide {
  ide_k : kernel;
  ide_queue : option nat;
  ide_qnext : list (option nat);
  ide_havedisk1 : bool;
  ide_dev : D }.
Arguments Ide {_}.
Arguments ide_k {_}.
Arguments ide_queue {_}.
Arguments ide_qnext {_}.
Arguments ide_havedisk1 {_}.
Arguments ide_dev {_}.

Section driver.
Context {D : Type} `{ide_device D}.
(** A bound on the polls of the status register in [idewait]. *)
Variable fuel : nat.
#[local] Notation I := (M (ide D)).

Definition with_k (k : kernel) (s : ide D) : ide D := Ide k (ide_queue s) (ide_qnext s) (ide_havedisk1 s) (ide_dev s).
Definition with_queue (q : option nat) (s : ide D) : ide D := Ide (ide_k s) q (ide_qnext s) (ide_havedisk1 s) (ide_dev s).
Definition with_qnext (l : list (option nat)) (s : ide D) : ide D := Ide (ide_k s) (ide_queue s) l (ide_havedisk1 s) (ide_dev s).
Definition with_havedisk1 (b : bool) (s : ide D) : ide D := Ide (ide_k s) (ide_queue s) (ide_qnext s) b (ide_dev s).
Definition with_dev (d : D) (s : ide D) : ide D := Ide (ide_k s) (ide_queue s) (ide_qnext s) (ide_havedisk1 s) d.

Definition lift {A} (m : K A) : I A := λ s, let '(r, k) := m (ide_k s) in (r, with_k k s).
Definition port_in (p : Z) : I Z := λ s, let '(v, d) := inb p (ide_dev s) in (Ok v, with_dev d s).
Definition port_out (p v : Z) : I unit := modify (λ s, with_dev (outb p (u8 v) (ide_dev s)) s).
Definition port_insl (p : Z) : I (list Z) := λ s, let '(l, d) := insl p (ide_dev s) in (Ok l, with_dev d s).
Definition port_outsl (p : Z) (l : list Z) : I unit := modify (λ s, with_dev (outsl p l (ide_dev s)) s).

Fixpoint idewait_loop (f : nat) (checkerr : bool) : I Z :=
  match f with
  | O => stopped Spin
  | S f =>
      r ← port_in 0x1f7;
      if decide (Z.land r (Z.lor IDE_BSY IDE_DRDY) ≠ IDE_DRDY) then idewait_loop f checkerr
      else if checkerr && bool_decide (Z.land r (Z.lor IDE_DF IDE_ERR) ≠ 0) then mret (-1)
      else mret 0
  end.
Definition idewait (checkerr : bool) : I Z := idewait_loop fuel checkerr.

(** [ioapicenable] is the interrupt controller's. *)
Fixpoint probe_disk1 (n : nat) : I unit :=
  match n with
  | O => mret tt
  | S n =>
      r ← port_in 0x1f7;
      if decide (r ≠ 0) then modify (with_havedisk1 true) else probe_disk1 n
  end.
Definition ideinit (ioapicenable : I unit) : I unit :=
  lift (initlock L_ide);;
  ioapicenable;;
  idewait false;;
  port_out 0x1f6 (Z.lor 0xe0 (Z.shiftl 1 4));;
  probe_disk1 1000;;
  port_out 0x1f6 (Z.lor 0xe0 (Z.shiftl 0 4)).

Definition idestart (b : option nat) : I unit :=
  match b with
  | None => panic "idestart"
  | Some b =>
      x ← lift (the_buf b);
      if decide (FSSIZE ≤ b_blockno x) then panic "incorrect blockno" else
      let sector_per_block := BSIZE / SECTOR_SIZE in
      let sector := i32 (b_blockno x * sector_per_block) in
      let read_cmd := if decide (sector_per_block = 1) then IDE_CMD_READ else IDE_CMD_RDMUL in
      let write_cmd := if decide (sector_per_block = 1) then IDE_CMD_WRITE else IDE_CMD_WRMUL in
      if decide (7 < sector_per_block) then panic "idestart" else
      idewait false;;
      port_out 0x3f6 0;;
      port_out 0x1f2 sector_per_block;;
      port_out 0x1f3 (Z.land sector 0xff);;
      port_out 0x1f4 (Z.land (Z.shiftr sector 8) 0xff);;
      port_out 0x1f5 (Z.land (Z.shiftr sector 16) 0xff);;
      port_out 0x1f6 (Z.lor (Z.lor 0xe0 (Z.shiftl (Z.land (b_dev x) 1) 4)) (Z.land (Z.shiftr sector 24) 0x0f));;
      if b_dirty x then
        port_out 0x1f7 write_cmd;;
        port_outsl 0x1f0 (b_data x)
      else port_out 0x1f7 read_cmd
  end.

Definition ideintr : I unit :=
  lift (acquire L_ide);;
  q ← gets ide_queue;
  match q with
  | None => lift (release L_ide)
  | Some b =>
      nx ← gets (λ s, ide_qnext s !! b);
      modify (with_queue (default None nx));;
      x ← lift (the_buf b);
      (if b_dirty x then mret tt
       else
         r ← idewait true;
         if decide (0 ≤ r) then (d ← port_insl 0x1f0; lift (upd_buf b (λ x, x <| b_data := d |>))) else mret tt);;
      lift (upd_buf b (λ x, x <| b_valid := true |>));;
      lift (upd_buf b (λ x, x <| b_dirty := false |>));;
      lift (wakeup (C_buf b));;
      q ← gets ide_queue;
      (if decide (q ≠ None) then idestart q else mret tt);;
      lift (release L_ide)
  end.

(** The pointer [pp]: [None] is [&idequeue], [Some i] the address of buffer [i]'s [qnext]. *)
Definition deref (pp : option nat) (s : ide D) : option nat :=
  match pp with None => ide_queue s | Some i => default None (ide_qnext s !! i) end.
Definition assign (pp : option nat) (b : nat) (s : ide D) : ide D :=
  match pp with None => with_queue (Some b) s | Some i => with_qnext (<[i := Some b]> (ide_qnext s)) s end.

Fixpoint queue_end (f : nat) (pp : option nat) (s : ide D) : option (option nat) :=
  match f with
  | O => None
  | S f => match deref pp s with None => Some pp | Some i => queue_end f (Some i) s end
  end.

Definition iderw_wait (b : nat) : I unit :=
  x ← lift (the_buf b);
  if b_valid x && negb (b_dirty x) then lift (release L_ide) else lift (sleep (C_buf b) L_ide).

Definition iderw (b : nat) : I unit :=
  h ← lift (holdingsleep (SL_buf b));
  if negb h then panic "iderw: buf not locked" else
  x ← lift (the_buf b);
  if b_valid x && negb (b_dirty x) then panic "iderw: nothing to do" else
  havedisk1 ← gets ide_havedisk1;
  if bool_decide (b_dev x ≠ 0) && negb havedisk1 then panic "iderw: ide disk 1 not present" else
  lift (acquire L_ide);;
  modify (λ s, with_qnext (<[b := None]> (ide_qnext s)) s);;
  pp ← gets (λ s, queue_end (S (length (ide_qnext s))) None s);
  match pp with
  | None => stopped Spin
  | Some pp =>
      modify (assign pp b);;
      q ← gets ide_queue;
      when (bool_decide (q = Some b)) (idestart (Some b));;
      iderw_wait b
  end.

Definition iderw_resume (b : nat) (intena : bool) : I unit :=
  lift (sleep_return L_ide intena);;
  iderw_wait b.
End driver.

(** ** The device *)

Inductive phase := Idle | Reading (dv lba : Z) | Wanting (dv lba : Z).

(** The registers hold a drive and a sector number of 28 bits. *)
Definition lba_of (r : Z → Z) : Z :=
  r 0x1f3 + Z.shiftl (r 0x1f4) 8 + Z.shiftl (r 0x1f5) 16 + Z.shiftl (Z.land (r 0x1f6) 0x0f) 24.
Definition drive_of (r : Z → Z) : Z := Z.land (Z.shiftr (r 0x1f6) 4) 1.

Notation task_ports := [0x3f6; 0x1f2; 0x1f3; 0x1f4; 0x1f5; 0x1f6].

(** What a sector holds, after one was written. *)
Definition put_sector (c : Z → Z → list Z) (dv l : Z) (bs : list Z) : Z → Z → list Z :=
  λ dv' l', if decide (dv' = dv ∧ l' = l) then bs else c dv' l'.

(** A healthy ATA disk with programmed I/O: it is busy for some time after a command,
    and otherwise ready and without an error; it takes its parameters when it is ready;
    a read command makes the sector available and a write command makes it take the
    next sector written to its data port.  (The driver sends the data without waiting
    for the disk to ask for them.) *)
Class ide_laws (D : Type) `{ide_device D} := {
  contents : D → Z → Z → list Z;
  regs : D → Z → Z;
  phase_of : D → phase;
  delay : D → nat;
  contents_length d dv l : length (contents d dv l) = 512%nat;
  status_law d r d' : inb 0x1f7 d = (r, d') →
    (∀ dv l, contents d' dv l = contents d dv l) ∧ phase_of d' = phase_of d ∧
    (delay d = O → delay d' = O ∧ Z.land r (Z.lor IDE_BSY IDE_DRDY) = IDE_DRDY ∧ Z.land r (Z.lor IDE_DF IDE_ERR) = 0) ∧
    (∀ n, delay d = S n → delay d' = n ∧ Z.land r (Z.lor IDE_BSY IDE_DRDY) ≠ IDE_DRDY);
  task_law d p v : delay d = O → phase_of d = Idle → p ∈ task_ports →
    (∀ dv l, contents (outb p v d) dv l = contents d dv l) ∧ phase_of (outb p v d) = Idle ∧ delay (outb p v d) = O ∧
    regs (outb p v d) p = v ∧ (∀ q, q ≠ p → regs (outb p v d) q = regs d q);
  read_law d : delay d = O → phase_of d = Idle → regs d 0x1f2 = 1 →
    (∀ dv l, contents (outb 0x1f7 IDE_CMD_READ d) dv l = contents d dv l) ∧
    phase_of (outb 0x1f7 IDE_CMD_READ d) = Reading (drive_of (regs d)) (lba_of (regs d));
  write_law d : delay d = O → phase_of d = Idle → regs d 0x1f2 = 1 →
    (∀ dv l, contents (outb 0x1f7 IDE_CMD_WRITE d) dv l = contents d dv l) ∧
    phase_of (outb 0x1f7 IDE_CMD_WRITE d) = Wanting (drive_of (regs d)) (lba_of (regs d));
  data_in_law d dv l : delay d = O → phase_of d = Reading dv l →
    ∃ d', insl 0x1f0 d = (contents d dv l, d') ∧ phase_of d' = Idle ∧ (∀ dv l, contents d' dv l = contents d dv l);
  data_out_law d dv l bs : phase_of d = Wanting dv l → length bs = 512%nat →
    phase_of (outsl 0x1f0 bs d) = Idle ∧
    (∀ dv' l', contents (outsl 0x1f0 bs d) dv' l' = put_sector (contents d) dv l bs dv' l') }.

(** ** What the requests should do *)

(** A request served at once, as memide.c does: what the buffer holds then, and the disk. *)
Definition serve (c : Z → Z → list Z) (x : buf) : list Z * (Z → Z → list Z) :=
  let dv := Z.land (b_dev x) 1 in
  if b_dirty x then (b_data x, put_sector c dv (b_blockno x) (b_data x)) else (c dv (b_blockno x), c).

Fixpoint replay (c : Z → Z → list Z) (rs : list (nat * buf)) : list (nat * list Z) * (Z → Z → list Z) :=
  match rs with
  | [] => ([], c)
  | (b, x) :: rs => let '(d, c') := serve c x in let '(outs, c'') := replay c' rs in ((b, d) :: outs, c'')
  end.

(** ** Runs of the driver *)

Section runs.
Context {D : Type} {HD : ide_device D} {HL : ide_laws D}.
Variable fuel : nat.
Hypothesis delay_fuel : ∀ d : D, (delay d < fuel)%nat.

Fixpoint chase (f : nat) (qn : list (option nat)) (q : option nat) : list nat :=
  match f, q with
  | S f, Some b => b :: chase f qn (default None (qn !! b))
  | _, _ => []
  end.
Definition queue_list (s : ide D) : list nat := chase (length (ide_qnext s)) (ide_qnext s) (ide_queue s).

Inductive event := Submit (b : nat) (x : buf) | Complete (b : nat) (d : list Z) | Tau.

(** A buffer that holds a block number of the file system and a block. *)
Definition buf_wf (x : buf) : Prop := 0 ≤ b_blockno x < FSSIZE ∧ length (b_data x) = 512%nat.

(** The part of a buffer that a request is about. *)
Definition same_request (x y : buf) : Prop :=
  b_valid x = b_valid y ∧ b_dirty x = b_dirty y ∧ b_dev x = b_dev y ∧ b_blockno x = b_blockno y ∧ b_data x = b_data y.

(** A process makes a request and sleeps; an interrupt comes; the rest of the kernel
    runs, which leaves the buffers of the queue alone: they are locked. *)
Inductive istep : ide D → event → ide D → Prop :=
| is_submit s b x pid s' :
    ctx (ide_k s) pid → k_bufs (ide_k s) !! b = Some x → buf_wf x → b ∉ queue_list s →
    iderw fuel b s = (Stop Swtch, s') → istep s (Submit b x) s'
| is_complete s b x' pid s' :
    ctx (ide_k s) pid → ide_queue s = Some b → ideintr fuel s = (Ok tt, s') →
    k_bufs (ide_k s') !! b = Some x' → istep s (Complete b (b_data x')) s'
| is_spurious s pid s' :
    ctx (ide_k s) pid → ide_queue s = None → ideintr fuel s = (Ok tt, s') → istep s Tau s'
| is_kernel s k' :
    length (k_bufs k') = length (k_bufs (ide_k s)) →
    (∀ b x, b ∈ queue_list s → k_bufs (ide_k s) !! b = Some x →
      ∃ y, k_bufs k' !! b = Some y ∧ same_request x y) →
    istep s Tau (with_k k' s).

Inductive isteps : ide D → list event → ide D → Prop :=
| isteps_nil s : isteps s [] s
| isteps_snoc s evs s1 e s2 : isteps s evs s1 → istep s1 e s2 → isteps s (evs ++ [e]) s2.

Definition submissions (evs : list event) : list (nat * buf) :=
  omap (λ e, match e with Submit b x => Some (b, x) | _ => None end) evs.
Definition completions (evs : list event) : list (nat * list Z) :=
  omap (λ e, match e with Complete b d => Some (b, d) | _ => None end) evs.

(** The queue is empty and the disk waits for commands. *)
Definition idle (s : ide D) : Prop :=
  ide_queue s = None ∧ phase_of (ide_dev s) = Idle ∧ length (ide_qnext s) = length (k_bufs (ide_k s)).

Implicit Types (s : ide D) (d : D).

Definition same_disk d d' : Prop := (∀ dv l, contents d' dv l = contents d dv l) ∧ phase_of d' = phase_of d.

Lemma with_k_id s : with_k (ide_k s) s = s.
Proof. by destruct s. Qed.

Lemma lift_ok {A} (m : K A) s a k : m (ide_k s) = (Ok a, k) → lift m s = (Ok a, with_k k s).
Proof. unfold lift. by intros ->. Qed.

Lemma lift_stop {A} (m : K A) s e k : m (ide_k s) = (Stop e, k) → lift m s = (Stop e, with_k k s).
Proof. unfold lift. by intros ->. Qed.

Lemma lift_pure {A} (m : K A) s a : m (ide_k s) = (Ok a, ide_k s) → lift m s = (Ok a, s).
Proof. intros E. by rewrite (lift_ok _ _ _ _ E), with_k_id. Qed.

(** [idewait] ends with the disk ready. *)
Lemma idewait_ok ce s :
  ∃ d', idewait fuel ce s = (Ok 0, with_dev d' s) ∧ same_disk (ide_dev s) d' ∧ delay d' = O.
Proof.
  unfold idewait. pose proof (delay_fuel (ide_dev s)) as Hd. revert s Hd.
  generalize fuel as f. intros f. induction f as [|f IH]; intros s Hd; [lia|]. cbn [idewait_loop].
  destruct (inb 0x1f7 (ide_dev s)) as [r d'] eqn:E.
  rewrite (bind_ok _ _ _ r (with_dev d' s)) by (unfold port_in; by rewrite E).
  destruct (status_law _ _ _ E) as (Hc & Hp & HZ & HS). destruct (delay (ide_dev s)) as [|m] eqn:Em.
  - destruct (HZ eq_refl) as (Hd' & Hr & He). rewrite decide_False by tauto. rewrite bool_decide_false by tauto.
    rewrite andb_false_r. exists d'. by split_and!.
  - destruct (HS m eq_refl) as (Hd' & Hr). rewrite decide_True by done.
    destruct (IH (with_dev d' s)) as (d2 & Hrun & [Hc2 Hp2] & Hz); [simpl; lia|].
    exists d2. split; [exact Hrun|]. split; [|done]. simpl in *. split; [|congruence].
    intros dv l. by rewrite Hc2.
Qed.

Lemma lba_split b : 0 ≤ b < FSSIZE →
  u8 (Z.land b 0xff) + Z.shiftl (u8 (Z.land (Z.shiftr b 8) 0xff)) 8 + Z.shiftl (u8 (Z.land (Z.shiftr b 16) 0xff)) 16 = b ∧
  Z.shiftr b 24 = 0.
Proof.
  intros Hb. change 0xff with (Z.ones 8). rewrite !Z.land_ones, !Z.shiftr_div_pow2, !Z.shiftl_mul_pow2 by lia.
  unfold u8. zlia.
Qed.

Lemma drive_split dv : let r := u8 (Z.lor (Z.lor 0xe0 (Z.shiftl (Z.land dv 1) 4)) (Z.land 0 0x0f)) in
  Z.land r 0x0f = 0 ∧ Z.land (Z.shiftr r 4) 1 = Z.land dv 1.
Proof.
  assert (Z.land dv 1 = 0 ∨ Z.land dv 1 = 1) as [-> | ->]; [|by vm_compute..].
  assert (Z.land dv 1 = dv mod 2) as -> by exact (Z.land_ones dv 1 ltac:(lia)).
  pose proof (Z.mod_pos_bound dv 2). lia.
Qed.

(** The disk after a request for [x] has been started. *)
Definition started d (x : buf) d' : Prop :=
  let dv := Z.land (b_dev x) 1 in
  if b_dirty x then
    phase_of d' = Idle ∧ ∀ dv' l, contents d' dv' l = put_sector (contents d) dv (b_blockno x) (b_data x) dv' l
  else phase_of d' = Reading dv (b_blockno x) ∧ ∀ dv' l, contents d' dv' l = contents d dv' l.

(** The task registers as [idestart] writes them. *)
Definition set_task (b dv : Z) d : D :=
  outb 0x1f6 (u8 (Z.lor (Z.lor 0xe0 (Z.shiftl (Z.land dv 1) 4)) (Z.land (Z.shiftr b 24) 0x0f)))
    (outb 0x1f5 (u8 (Z.land (Z.shiftr b 16) 0xff)) (outb 0x1f4 (u8 (Z.land (Z.shiftr b 8) 0xff))
      (outb 0x1f3 (u8 (Z.land b 0xff)) (outb 0x1f2 (u8 1) (outb 0x3f6 (u8 0) d))))).

Lemma set_task_spec b dv d :
  0 ≤ b < FSSIZE → delay d = O → phase_of d = Idle →
  let d' := set_task b dv d in
  delay d' = O ∧ phase_of d' = Idle ∧ (∀ dv' l, contents d' dv' l = contents d dv' l) ∧
  regs d' 0x1f2 = 1 ∧ lba_of (regs d') = b ∧ drive_of (regs d') = Z.land dv 1.
Proof.
  intros Hb Hd Hp. cbn zeta. unfold set_task.
  destruct (lba_split b Hb) as [Hl ->]. destruct (drive_split dv) as [Hlo Hdr].
  set (v6 := u8 (Z.lor (Z.lor 0xe0 _) _)) in *.
  destruct (task_law d 0x3f6 (u8 0) Hd Hp ltac:(set_solver)) as (C1 & P1 & D1 & R1 & O1).
  destruct (task_law _ 0x1f2 (u8 1) D1 P1 ltac:(set_solver)) as (C2 & P2 & D2 & R2 & O2).
  destruct (task_law _ 0x1f3 (u8 (Z.land b 0xff)) D2 P2 ltac:(set_solver)) as (C3 & P3 & D3 & R3 & O3).
  destruct (task_law _ 0x1f4 (u8 (Z.land (Z.shiftr b 8) 0xff)) D3 P3 ltac:(set_solver)) as (C4 & P4 & D4 & R4 & O4).
  destruct (task_law _ 0x1f5 (u8 (Z.land (Z.shiftr b 16) 0xff)) D4 P4 ltac:(set_solver)) as (C5 & P5 & D5 & R5 & O5).
  destruct (task_law _ 0x1f6 v6 D5 P5 ltac:(set_solver)) as (C6 & P6 & D6 & R6 & O6).
  split_and!; [done|done| | | |].
  - intros dv' l. by rewrite C6, C5, C4, C3, C2, C1.
  - by rewrite O6, O5, O4, O3, R2 by done.
  - unfold lba_of. rewrite R6. rewrite !O6 by done. rewrite R5, (O5 0x1f4), R4, (O5 0x1f3), (O4 0x1f3), R3 by done.
    rewrite Hlo. change (Z.shiftl 0 24) with 0. lia.
  - unfold drive_of. by rewrite R6, Hdr.
Qed.

Lemma idestart_ok b x s :
  k_bufs (ide_k s) !! b = Some x → buf_wf x → phase_of (ide_dev s) = Idle →
  ∃ d', idestart fuel (Some b) s = (Ok tt, with_dev d' s) ∧ started (ide_dev s) x d'.
Proof.
  intros Hx [Hb Hlen] Hp. unfold idestart.
  rewrite (bind_ok _ _ _ x s) by (apply lift_pure; by apply the_buf_ok). rewrite decide_False by lia.
  change (BSIZE / SECTOR_SIZE) with 1. cbn zeta. rewrite decide_False by lia.
  assert (Es : i32 (b_blockno x * 1) = b_blockno x) by (rewrite Z.mul_1_r; unfold i32; zlia). rewrite Es.
  destruct (idewait_ok false s) as (d0 & Hw & [Hc0 Hp0] & Hd0). mstep Hw.
  rewrite Hp in Hp0. destruct (set_task_spec (b_blockno x) (b_dev x) d0 Hb Hd0 Hp0) as (D6 & P6 & C6 & R2 & Hlba & Hdrv).
  cbn zeta in *. unfold port_out. rewrite !bind_modify. cbn [ide_dev with_dev ide_k ide_queue ide_qnext ide_havedisk1].
  change (u8 0x20) with 0x20. unfold started.
  destruct (b_dirty x) eqn:Ed.
  - destruct (write_law _ D6 P6 R2) as [C7 P7]. rewrite Hlba, Hdrv in P7.
    destruct (data_out_law _ _ _ (b_data x) P7 Hlen) as [P8 C8].
    eexists. split; [reflexivity|]. split; [exact P8|]. intros dv' l. etrans; [exact (C8 dv' l)|].
    unfold put_sector. case_decide; [done|]. by rewrite C7, C6, Hc0.
  - destruct (read_law _ D6 P6 R2) as [C7 P7]. rewrite Hlba, Hdrv in P7.
    eexists. split; [reflexivity|]. split; [exact P7|]. intros dv' l. etrans; [exact (C7 dv' l)|]. by rewrite C6, Hc0.
Qed.

(** ** The queue *)

Record q_inv s (q : list nat) : Prop := {
  qi_len : length (ide_qnext s) = length (k_bufs (ide_k s));
  qi_head : ide_queue s = head q;
  qi_next : ∀ i b, q !! i = Some b → ide_qnext s !! b = Some (q !! S i);
  qi_nodup : NoDup q }.

Lemma q_inv_bound s q b : q_inv s q → b ∈ q → (b < length (ide_qnext s))%nat.
Proof. intros [_ _ Hn _] [i Hi]%list_elem_of_lookup. apply lookup_lt_is_Some_1. rewrite (Hn _ _ Hi). by eexists. Qed.

Lemma q_inv_short s q : q_inv s q → (length q ≤ length (ide_qnext s))%nat.
Proof.
  intros Hq. rewrite <- (length_seq (length (ide_qnext s)) 0). apply submseteq_length, NoDup_submseteq; [apply Hq|].
  intros b Hb. apply elem_of_seq. pose proof (q_inv_bound _ _ _ Hq Hb). lia.
Qed.

Lemma chase_drop s q i f :
  q_inv s q → (length q - i ≤ f)%nat → chase f (ide_qnext s) (q !! i) = drop i q.
Proof.
  intros Hq. revert i. induction f as [|f IH]; intros i Hf.
  - destruct (q !! i) eqn:E; [apply lookup_lt_Some in E; lia|]. simpl. apply lookup_ge_None in E. by rewrite drop_ge.
  - destruct (q !! i) as [b|] eqn:E; simpl.
    + rewrite (drop_S _ _ _ E). f_equal. rewrite (qi_next _ _ Hq _ _ E). simpl. apply IH. lia.
    + apply lookup_ge_None in E. by rewrite drop_ge.
Qed.

Lemma queue_list_ok s q : q_inv s q → queue_list s = q.
Proof.
  intros Hq. unfold queue_list. rewrite (qi_head _ _ Hq). pose proof (q_inv_short _ _ Hq).
  rewrite <- (drop_0 q) at 2. rewrite <- (chase_drop s q 0 (length (ide_qnext s)) Hq) by lia. by destruct q.
Qed.

(** The walk to the last pointer of the queue. *)
Lemma queue_end_walk s q f i pp :
  q_inv s q → (length q - i < f)%nat → deref pp s = q !! i → (q !! i = None → pp = last q) →
  queue_end f pp s = Some (last q).
Proof.
  intros Hq. revert i pp. induction f as [|f IH]; intros i pp Hf Hd Hl; [lia|]. simpl. rewrite Hd.
  destruct (q !! i) as [b|] eqn:E; [|by rewrite Hl].
  pose proof (lookup_lt_Some _ _ _ E). apply (IH (S i)); [lia|simpl; by rewrite (qi_next _ _ Hq _ _ E)|].
  intros HN%lookup_ge_None. rewrite last_lookup. rewrite <- E. f_equal. lia.
Qed.

Lemma queue_end_ok s q : q_inv s q → queue_end (S (length (ide_qnext s))) None s = Some (last q).
Proof.
  intros Hq. apply (queue_end_walk s q _ 0 None Hq); [pose proof (q_inv_short _ _ Hq); lia| |by destruct q].
  simpl. rewrite (qi_head _ _ Hq). by destruct q.
Qed.

Lemma q_inv_clear s q b :
  q_inv s q → b ∉ q → q_inv (with_qnext (<[b := None]> (ide_qnext s)) s) q.
Proof.
  intros [H1 H2 H3 H4] Hb. split; [simpl; by rewrite length_insert|done| |done].
  intros i b' Hi. simpl. rewrite list_lookup_insert_ne; [by apply H3|].
  intros ->. apply Hb. by eapply list_elem_of_lookup_2.
Qed.

(** [b] at the end of the queue. *)
Lemma q_inv_append s q b :
  q_inv s q → b ∉ q → ide_qnext s !! b = Some None → q_inv (assign (last q) b s) (q ++ [b]).
Proof.
  intros Hq Hb Hn. pose proof Hq as [H1 H2 H3 H4].
  assert (HND : NoDup (q ++ [b])) by (apply NoDup_app; split_and!; [done|set_solver|apply NoDup_singleton]).
  destruct (last q) as [e|] eqn:E.
  - pose proof (last_Some_elem_of _ _ E) as He. apply last_Some in E as [q' ->].
    split; [simpl; by rewrite length_insert| |intros i b' Hi|done].
    + simpl. rewrite H2. by destruct q'.
    + simpl. apply lookup_app_Some in Hi as [Hi|[Hlen Hi]].
      * destruct (decide (b' = e)) as [->|Hne].
        -- assert (i = length q') as ->.
           { eapply NoDup_lookup; [exact H4|exact Hi|]. by apply list_lookup_middle. }
           rewrite list_lookup_insert_eq by (eapply q_inv_bound; [done|set_solver]). f_equal.
           rewrite lookup_app_r; rewrite length_app; simpl; [|lia]. by replace (_ - _)%nat with 0%nat by lia.
        -- rewrite list_lookup_insert_ne by done. rewrite (H3 _ _ Hi). f_equal.
           pose proof (lookup_lt_Some _ _ _ Hi) as Hlt. rewrite length_app in Hlt. simpl in Hlt.
           rewrite (lookup_app_l (q' ++ [e]) [b]); [done|]. rewrite length_app. simpl.
           destruct (decide (i = length q')) as [->|]; [|lia]. rewrite list_lookup_middle in Hi by done. congruence.
      * pose proof Hi as Hi'. apply list_lookup_singleton_Some in Hi as [Hz <-]. rewrite list_lookup_insert_ne by set_solver. rewrite Hn. f_equal.
        rewrite lookup_ge_None_2; [done|]. rewrite length_app. simpl. lia.
  - apply last_None in E as ->. split; [done|done|intros i b' Hi|done]. simpl in *.
    apply list_lookup_singleton_Some in Hi as [-> <-]. done.
Qed.

Lemma q_inv_pop s b q : q_inv s (b :: q) → q_inv (with_queue (default None (ide_qnext s !! b)) s) q.
Proof.
  intros [H1 H2 H3 H4]. split; [done| |intros i b' Hi|by inversion H4].
  - simpl. rewrite (H3 0%nat b eq_refl). by destruct q.
  - by apply (H3 (S i)).
Qed.

Lemma q_inv_ext s s' q :
  q_inv s q → ide_queue s' = ide_queue s → ide_qnext s' = ide_qnext s →
  length (k_bufs (ide_k s')) = length (k_bufs (ide_k s)) → q_inv s' q.
Proof. intros [H1 H2 H3 H4] E1 E2 E3. split; try done; rewrite ?E1, ?E2, ?E3; done. Qed.

(** ** The invariant *)

(** The buffer of a request, as it was when the request was made. *)
Definition waits s (r : nat * buf) : Prop :=
  buf_wf r.2 ∧ b_valid r.2 && negb (b_dirty r.2) = false ∧
  ∃ y, k_bufs (ide_k s) !! r.1 = Some y ∧ same_request r.2 y.

(** The disk works on the first request, from the contents [c]. *)
Definition serves d (c : Z → Z → list Z) (pend : list (nat * buf)) : Prop :=
  match pend with
  | [] => phase_of d = Idle ∧ ∀ dv l, contents d dv l = c dv l
  | (_, x) :: _ =>
      phase_of d = (if b_dirty x then Idle else Reading (Z.land (b_dev x) 1) (b_blockno x)) ∧
      ∀ dv l, contents d dv l = (serve c x).2 dv l
  end.

Record ide_inv s (c : Z → Z → list Z) (pend : list (nat * buf)) : Prop := {
  ii_queue : q_inv s pend.*1;
  ii_waits : Forall (waits s) pend;
  ii_dev : serves (ide_dev s) c pend }.

Lemma waits_ext s s' r :
  (∀ x, k_bufs (ide_k s) !! r.1 = Some x → ∃ y, k_bufs (ide_k s') !! r.1 = Some y ∧ same_request x y) → waits s r → waits s' r.
Proof.
  intros H (Hwf & Hn & y & Hy & Hs). destruct (H y Hy) as (z & Hz & Hs'). split_and!; [done|done|].
  exists z. split; [done|]. unfold same_request in *. intuition congruence.
Qed.

Lemma same_request_refl x : same_request x x.
Proof. done. Qed.

Lemma waits_same s s' r : k_bufs (ide_k s') = k_bufs (ide_k s) → waits s r → waits s' r.
Proof. intros E. apply waits_ext. intros x Hx. exists x. by rewrite E. Qed.

Lemma started_serves d c x b pend d' :
  phase_of d = Idle → (∀ dv l, contents d dv l = c dv l) → started d x d' → serves d' c ((b, x) :: pend).
Proof.
  intros Hp Hc Hs. unfold started, serves, serve in *. destruct (b_dirty x); destruct Hs as [Hp' Hc']; (split; [done|]);
    intros dv l; rewrite Hc'; simpl; [|done]. unfold put_sector. by case_decide.
Qed.

Lemma started_same d x y d' : same_request x y → started d y d' → started d x d'.
Proof. intros (_ & E1 & E2 & E3 & E4). unfold started. by rewrite E1, E2, E3, E4. Qed.

(** ** Requests *)

(** The state in which [iderw] looks at the flags of the new request. *)
Lemma iderw_queued b x s c pend :
  ide_inv s c pend → b ∉ pend.*1 → k_bufs (ide_k s) !! b = Some x → buf_wf x → b_valid x && negb (b_dirty x) = false →
  ∃ s', ide_inv s' c (pend ++ [(b, x)]) ∧ ide_k s' = ide_k s ∧
    ∀ A (g : M (ide D) A),
      (modify (λ s, with_qnext (<[b := None]> (ide_qnext s)) s);;
       pp ← gets (λ s, queue_end (S (length (ide_qnext s))) None s);
       match pp with
       | None => stopped Spin
       | Some pp =>
           modify (assign pp b);;
           q ← gets ide_queue;
           when (bool_decide (q = Some b)) (idestart fuel (Some b));;
           g
       end) s = g s'.
Proof.
  intros [Hq Hw Hd] Hb Hx Hwf Hn. set (s1 := with_qnext (<[b := None]> (ide_qnext s)) s).
  assert (Hq1 : q_inv s1 pend.*1) by (by apply q_inv_clear).
  assert (Hbn : ide_qnext s1 !! b = Some None).
  { apply list_lookup_insert_eq. rewrite (qi_len _ _ Hq). by eapply lookup_lt_Some. }
  pose proof (q_inv_append s1 _ b Hq1 Hb Hbn) as Hq2. set (s2 := assign (last pend.*1) b s1) in *.
  assert (Hk : ide_k s2 = ide_k s) by (unfold s2; by destruct (last pend.*1)).
  assert (Hdev : ide_dev s2 = ide_dev s) by (unfold s2; by destruct (last pend.*1)).
  assert (Hws : Forall (waits s2) (pend ++ [(b, x)])).
  { apply Forall_app. split.
    - eapply Forall_impl; [exact Hw|]. intros r. apply waits_same. by rewrite Hk.
    - apply Forall_singleton. split_and!; [done|done|]. exists x. by rewrite Hk. }
  assert (Hq2' : q_inv s2 (pend ++ [(b, x)]).*1) by (by rewrite fmap_app).
  destruct pend as [|[b0 x0] pend].
  - destruct Hd as [Hp Hc]. destruct (idestart_ok b x s2) as (d' & Hrun & Hst); [by rewrite Hk|done|by rewrite Hdev|].
    rewrite Hdev in Hst. exists (with_dev d' s2). split; [split|split; [done|]].
    + by eapply q_inv_ext.
    + eapply Forall_impl; [exact Hws|]. intros r. by apply waits_same.
    + by eapply started_serves.
    + intros A g. rewrite bind_modify. fold s1. rewrite bind_gets, (queue_end_ok _ _ Hq1), bind_modify. fold s2.
      rewrite bind_gets. assert (ide_queue s2 = Some b) as -> by apply (qi_head _ _ Hq2).
      rewrite bool_decide_true by done. cbn [when]. by rewrite (bind_ok _ _ _ _ _ Hrun).
  - exists s2. split; [split|split; [done|]].
    + done.
    + done.
    + rewrite Hdev. exact Hd.
    + intros A g. rewrite bind_modify. fold s1. rewrite bind_gets, (queue_end_ok _ _ Hq1), bind_modify. fold s2.
      rewrite bind_gets. assert (ide_queue s2 = Some b0) as -> by apply (qi_head _ _ Hq2).
      rewrite bool_decide_false by (simpl in Hb; set_solver). done.
Qed.

(** The kernel with the request's caller asleep, in the scheduler. *)
Definition asleep (k : kernel) (b : nat) (k' : kernel) : Prop :=
  ∃ c p, k' = locked L_ptable c (k <| k_procs ::= alter (λ p, p <| p_chan := Some (C_buf b) |> <| p_state := SLEEPING |>) p |>).

(** [iderw] may go to sleep. *)
Definition may_request s (pid : Z) (b : nat) (x : buf) : Prop :=
  b_lock x = Sleeplock true pid ∧ b_valid x && negb (b_dirty x) = false ∧ (b_dev x = 0 ∨ ide_havedisk1 s = true).

Lemma iderw_head b x s pid :
  ctx (ide_k s) pid → k_bufs (ide_k s) !! b = Some x →
  may_request s pid b x ∧ (∃ c cp, cpu_at (ide_k s) c cp ∧ c_ncli cp = 0 ∧
    iderw fuel b s =
    (modify (λ s, with_qnext (<[b := None]> (ide_qnext s)) s);;
     pp ← gets (λ s, queue_end (S (length (ide_qnext s))) None s);
     match pp with
     | None => stopped Spin
     | Some pp =>
         modify (assign pp b);;
         q ← gets ide_queue;
         when (bool_decide (q = Some b)) (idestart fuel (Some b));;
         iderw_wait b
     end) (with_k (locked L_ide c (ide_k s)) s)) ∨
  ¬ may_request s pid b x ∧ ∃ msg, iderw fuel b s = (Stop (Panicked msg), s).
Proof.
  intros Hx Eb. unfold iderw, may_request.
  rewrite (bind_ok _ _ _ _ _ (lift_pure _ _ _ (holdingsleep_spec (SL_buf b) _ _ Hx))).
  assert (get_sl (SL_buf b) (ide_k s) = b_lock x) as -> by (simpl; by rewrite Eb).
  destruct (b_lock x) as [l p] eqn:El. cbn [sl_locked sl_pid].
  destruct (l && bool_decide (p = pid)) eqn:Eh; cbn [negb].
  2: { right. split; [|by eexists]. intros ([= -> ->] & _). by rewrite bool_decide_true in Eh. }
  apply andb_true_iff in Eh as [-> ->%bool_decide_eq_true].
  rewrite (bind_ok _ _ _ x s) by (apply lift_pure; by apply the_buf_ok).
  destruct (b_valid x && negb (b_dirty x)) eqn:Ev; [right; split; [naive_solver|by eexists]|].
  rewrite bind_gets. destruct (bool_decide (b_dev x ≠ 0) && negb (ide_havedisk1 s)) eqn:Edev.
  { right. split; [|by eexists]. apply andb_true_iff in Edev as [Edev%bool_decide_eq_true Eh].
    intros (_ & _ & [?|E]); [done|]. by rewrite E in Eh. }
  left. split.
  { split_and!; [done|done|]. apply andb_false_iff in Edev as [E%bool_decide_eq_false|E]; [left|right].
    - by apply dec_stable.
    - by destruct (ide_havedisk1 s). }
  destruct (ctx_cpu _ _ Hx) as (c & cp & Hc & Hz). exists c, cp. split_and!; [done|done|].
  by rewrite (bind_ok _ _ _ _ _ (lift_ok _ _ _ _ (acquire_spec L_ide _ _ _ Hc ltac:(lia) (ctx_free _ _ _ Hx)))).
Qed.

Lemma ide_inv_kernel s c pend k :
  k_bufs k = k_bufs (ide_k s) → ide_inv s c pend → ide_inv (with_k k s) c pend.
Proof.
  intros E [Hq Hw Hd]. split; [|eapply Forall_impl; [exact Hw|]; intros r; by apply waits_same|done].
  eapply q_inv_ext; [exact Hq|done|done|simpl; by rewrite E].
Qed.

(** A request that is well made is queued, and its caller sleeps. *)
Lemma iderw_ok b x s pid c pend :
  ide_inv s c pend → ctx (ide_k s) pid → k_bufs (ide_k s) !! b = Some x → buf_wf x → b ∉ pend.*1 →
  may_request s pid b x →
  ∃ s', iderw fuel b s = (Stop Swtch, s') ∧ ide_inv s' c (pend ++ [(b, x)]) ∧ asleep (ide_k s) b (ide_k s').
Proof.
  intros Hinv Hx Eb Hwf Hb Hm. destruct (iderw_head b x s pid Hx Eb) as [[_ (cc & cp & Hc & Hz & ->)]|[Hn _]]; [|done].
  set (k1 := locked L_ide cc (ide_k s)).
  destruct (iderw_queued b x (with_k k1 s) c pend) as (s2 & Hinv2 & Hk2 & Hrun);
    [by apply ide_inv_kernel|done|done|done|apply Hm|].
  rewrite Hrun. unfold iderw_wait. simpl in Hk2.
  assert (Eb2 : k_bufs (ide_k s2) !! b = Some x) by (by rewrite Hk2).
  rewrite (bind_ok _ _ _ _ _ (lift_pure _ _ _ (the_buf_ok _ _ _ Eb2))).
  destruct Hm as (_ & -> & _). pose proof Hx as [_ Hlen (c' & cp' & p & pr & Hc' & Hz' & Hp & Hpr & _)].
  assert (Hs : sleep (C_buf b) L_ide (ide_k s2) = (Stop Swtch, locked L_ptable c'
     (ide_k s <| k_procs ::= alter (λ p, p <| p_chan := Some (C_buf b) |> <| p_state := SLEEPING |>) p |>))).
  { rewrite Hk2. unfold k1. assert (cc = c') as -> by (pose proof (ca_this _ _ _ Hc); pose proof (ca_this _ _ _ Hc'); congruence).
    eapply sleep_spec; [done|done|done|done|by eapply lookup_lt_Some|by eapply ctx_free|by eapply ctx_free]. }
  eexists. split; [by apply lift_stop|]. split; [|by exists c', p].
  apply ide_inv_kernel; [simpl; by rewrite Hk2|done].
Qed.

(** ** Interrupts *)

(** The buffer after its request has been served. *)
Definition done_buf (dat : list Z) (x : buf) : buf := x <| b_data := dat |> <| b_valid := true |> <| b_dirty := false |>.

(** The data of a read come in when the disk is ready; a write has been sent already. *)
Lemma take_data b x y s c pend :
  serves (ide_dev s) c ((b, x) :: pend) → k_bufs (ide_k s) !! b = Some y → same_request x y →
  ∃ d', phase_of d' = Idle ∧ (∀ dv l, contents d' dv l = (serve c x).2 dv l) ∧
    ∀ g : M (ide D) unit,
      ((if b_dirty y then mret tt
        else
          r ← idewait fuel true;
          if decide (0 ≤ r) then (d ← port_insl 0x1f0; lift (upd_buf b (λ x, x <| b_data := d |>))) else mret tt);;
       lift (upd_buf b (λ x, x <| b_valid := true |>));;
       lift (upd_buf b (λ x, x <| b_dirty := false |>));;
       g) s =
      g (with_dev d' (with_k (ide_k s <| k_bufs := alter (done_buf (serve c x).1) b (k_bufs (ide_k s)) |>) s)).
Proof.
  intros [Hp Hc] Ey (_ & Ed & _ & _ & Edat). unfold serve in *. rewrite <- Ed. destruct (b_dirty x); cbn [fst snd] in *.
  - exists (ide_dev s). split_and!; [done|done|]. intros g. rewrite bind_ret. unfold lift, mbind, M_bind. cbn.
    f_equal. unfold with_k, with_dev. simpl. f_equal. unfold upd. simpl. f_equal.
    rewrite alter_comp. apply list_alter_ext; [|done]. intros z Hz. assert (z = y) as -> by congruence.
    unfold done_buf, upd. simpl. by rewrite Edat; destruct y.
  - destruct (idewait_ok true s) as (d1 & Hw & [Hc1 Hp1] & Hz). rewrite Hp in Hp1.
    destruct (data_in_law d1 _ _ Hz Hp1) as (d2 & Hin & Hp2 & Hc2). exists d2. split_and!; [done| |].
    { intros dv l. by rewrite Hc2, Hc1. }
    intros g. rewrite bind_assoc. mstep Hw. rewrite decide_True by lia. rewrite bind_assoc.
    rewrite (bind_ok _ _ _ (contents d1 (Z.land (b_dev x) 1) (b_blockno x)) (with_dev d2 s)).
    2: { unfold port_insl. simpl. by rewrite Hin. }
    unfold lift, mbind, M_bind. cbn. f_equal. unfold with_k, with_dev. simpl. f_equal. unfold upd. simpl. f_equal.
    rewrite !alter_comp. apply list_alter_ext; [|done]. intros z Hz'. unfold done_buf, upd. simpl. by rewrite Hc1, Hc.
Qed.

(** The kernel after the request for [b] has been finished and its caller woken. *)
Definition finished (b : nat) (dat : list Z) (k : kernel) : kernel :=
  k <| k_bufs := alter (done_buf dat) b (k_bufs k) |> <| k_procs ::= map (wake (C_buf b)) |>.

(** The driver goes on with the next request, if there is one. *)
Lemma start_next s c pend :
  q_inv s pend.*1 → Forall (waits s) pend → phase_of (ide_dev s) = Idle → (∀ dv l, contents (ide_dev s) dv l = c dv l) →
  ∃ d', ide_inv (with_dev d' s) c pend ∧
    ∀ g : M (ide D) unit,
      (q ← gets ide_queue; (if decide (q ≠ None) then idestart fuel q else mret tt);; g) s = g (with_dev d' s).
Proof.
  intros Hq Hw Hp Hc. destruct pend as [|[b x] pend].
  - assert (E : with_dev (ide_dev s) s = s) by (by destruct s). exists (ide_dev s). rewrite E. split; [by split|].
    intros g. rewrite bind_gets. by rewrite (qi_head _ _ Hq).
  - inversion Hw as [|?? (Hwf & Hn & y & Ey & Hs) _]. subst. cbn [fst snd] in *.
    assert (Hwf' : buf_wf y) by (destruct Hs as (_ & _ & _ & E1 & E2); unfold buf_wf; by rewrite <- E1, <- E2).
    destruct (idestart_ok b y s Ey Hwf' Hp) as (d' & Hrun & Hst). exists d'. split.
    + split; [by eapply q_inv_ext|eapply Forall_impl; [exact Hw|]; intros r; by apply waits_same|].
      eapply started_serves; [done|done|by eapply started_same].
    + intros g. rewrite bind_gets. rewrite (qi_head _ _ Hq). simpl head. rewrite decide_True by done.
      by rewrite (bind_ok _ _ _ _ _ Hrun).
Qed.

Lemma waits_finished s b dat k' r :
  k_bufs k' = alter (done_buf dat) b (k_bufs (ide_k s)) → r.1 ≠ b → waits s r → waits (with_k k' s) r.
Proof.
  intros E Hne. apply waits_ext. intros x Hx. exists x. simpl. rewrite E, list_lookup_alter_ne by done. done.
Qed.

Lemma ideintr_ok s c pend pid :
  ide_inv s c pend → ctx (ide_k s) pid →
  ∃ s', ideintr fuel s = (Ok tt, s') ∧
    match pend with
    | [] => s' = s
    | (b, x) :: pend' => ide_inv s' (serve c x).2 pend' ∧ ide_k s' = finished b (serve c x).1 (ide_k s)
    end.
Proof.
  intros [Hq Hw Hd] Hx. destruct (ctx_cpu _ _ Hx) as (cc & cp & Hc & Hz). unfold ideintr.
  rewrite (bind_ok _ _ _ _ _ (lift_ok _ _ _ _ (acquire_spec L_ide _ _ _ Hc ltac:(lia) (ctx_free _ _ _ Hx)))).
  rewrite bind_gets. cbn [ide_queue with_k]. rewrite (qi_head _ _ Hq).
  destruct pend as [|[b x] pend]; cbn [fmap list_fmap head fst].
  { exists s. split; [|done]. rewrite (lift_ok _ _ tt (ide_k s)).
    - by destruct s.
    - eapply release_spec; [done|lia|by eapply ctx_free]. }
  inversion Hw as [|?? (Hwf & Hn & y & Ey & Hsr) Hw']. subst. cbn [fst snd] in *.
  rewrite bind_gets, bind_modify. cbn [ide_qnext with_k].
  set (s1 := with_queue (default None (ide_qnext s !! b)) s).
  change (with_queue _ (with_k (locked L_ide cc (ide_k s)) s)) with (with_k (locked L_ide cc (ide_k s)) s1).
  set (s2 := with_k (locked L_ide cc (ide_k s)) s1).
  rewrite (bind_ok _ _ _ _ _ (lift_pure _ s2 _ (the_buf_ok _ _ (ide_k s2) Ey))).
  destruct (take_data b x y s2 c pend Hd Ey Hsr) as (d' & Hp' & Hc' & Hrun). rewrite Hrun. clear Hrun.
  set (k3 := ide_k s <| k_bufs := alter (done_buf (serve c x).1) b (k_bufs (ide_k s)) |>).
  assert (Hx3 : ctx k3 pid) by (by eapply ctx_ext).
  set (k4 := finished b (serve c x).1 (ide_k s)). set (s4 := with_dev d' (with_k (locked L_ide cc k4) s1)).
  set (s3 := with_dev d' (with_k (locked L_ide cc k3) s1)).
  assert (Hwk : lift (wakeup (C_buf b)) s3 = (Ok tt, s4)).
  { unfold lift. cbn [ide_k s3 with_dev with_k].
    by rewrite (wakeup_locked L_ide (C_buf b) k3 pid cc cp Hx3 ltac:(by eapply (cpu_at_ext (ide_k s))) Hz ltac:(done)). }
  change (with_dev d' (with_k (ide_k s2 <| k_bufs := _ |>) s2)) with s3. mstep Hwk.
  assert (Hl4 : length (k_bufs k4) = length (k_bufs (ide_k s))) by (apply length_alter).
  destruct (start_next s4 (serve c x).2 pend) as (d5 & Hinv & Hrun).
  { eapply q_inv_ext; [exact (q_inv_pop _ _ _ Hq)|done|done|exact Hl4]. }
  { pose proof (qi_nodup _ _ Hq) as Hnd. simpl in Hnd. apply NoDup_cons in Hnd as [Hnd _].
    apply Forall_forall. intros r Hr. eapply (waits_finished (with_dev d' s1)); [done| |].
    - intros E. apply Hnd. rewrite <- E. by apply list_elem_of_fmap_2.
    - eapply (waits_same s); [done|]. by eapply (proj1 (Forall_forall _ _) Hw'). }
  { done. }
  { done. }
  exists (with_k k4 (with_dev d5 s4)). split.
  - etrans; [apply Hrun|]. apply lift_ok. simpl.
    eapply (release_spec L_ide k4 cc cp); [by eapply (cpu_at_ext (ide_k s))|lia|by eapply (ctx_free (ide_k s))].
  - split; [by apply ide_inv_kernel|done].
Qed.

(** ** All runs *)

Lemma replay_app c rs rs' :
  replay c (rs ++ rs') =
  ((replay c rs).1 ++ (replay (replay c rs).2 rs').1, (replay (replay c rs).2 rs').2).
Proof.
  revert c. induction rs as [|[b x] rs IH]; intros c; simpl; [by destruct (replay c rs')|].
  destruct (serve c x) as [o c']. rewrite IH. by destruct (replay c' rs) as [outs c''].
Qed.

Definition run_inv (c0 : Z → Z → list Z) (evs : list event) s : Prop :=
  ∃ done pend, submissions evs = done ++ pend ∧ completions evs = (replay c0 done).1 ∧ ide_inv s (replay c0 done).2 pend.

Lemma idle_inv s : idle s → ide_inv s (contents (ide_dev s)) [].
Proof. intros (H1 & H2 & H3). split; [split; [done|done|done|constructor]|done|done]. Qed.

Lemma step_inv c0 evs s e s' : run_inv c0 evs s → istep s e s' → run_inv c0 (evs ++ [e]) s'.
Proof.
  intros (dn & pend & Hs & Hc & Hinv) Hstep. unfold run_inv, submissions, completions in *. rewrite !omap_app, Hs, Hc.
  pose proof (queue_list_ok _ _ (ii_queue _ _ _ Hinv)) as Hql.
  destruct Hstep as [s b x pid s' Hx Eb Hwf Hb Hrun|s b x' pid s' Hx Hq Hrun Ex'|s pid s' Hx Hq Hrun|s k' Hl Hk]; simpl.
  - rewrite app_nil_r. rewrite Hql in Hb.
    destruct (iderw_head b x s pid Hx Eb) as [[Hm _]|[_ [msg E]]]; [|rewrite E in Hrun; done].
    destruct (iderw_ok b x s pid _ pend Hinv Hx Eb Hwf Hb Hm) as (s2 & E & Hinv2 & _). rewrite E in Hrun. simplify_eq.
    exists dn, (pend ++ [(b, x)]). by rewrite app_assoc.
  - rewrite app_nil_r. destruct (ideintr_ok s _ pend pid Hinv Hx) as (s2 & E & Hpost). rewrite E in Hrun. simplify_eq.
    rewrite (qi_head _ _ (ii_queue _ _ _ Hinv)) in Hq. destruct pend as [|[b0 x] pend]; [done|]. simpl in Hq. simplify_eq.
    destruct Hpost as [Hinv2 Hk2]. inversion_clear Hinv as [_ Hw _]. inversion_clear Hw as [|?? (_ & _ & y & Ey & _) _].
    exists (dn ++ [(b, x)]), pend. rewrite replay_app. cbn [fst snd replay].
    destruct (serve (replay c0 dn).2 x) as [o c'] eqn:Es. cbn [fst snd] in *.
    split_and!; [by rewrite <- app_assoc| |done]. f_equal. f_equal. f_equal.
    rewrite Hk2 in Ex'. unfold finished, upd in Ex'. simpl in Ex'. rewrite list_lookup_alter_eq in Ex'. simpl in Ey.
    rewrite Ey in Ex'. simpl in Ex'. by simplify_eq.
  - rewrite !app_nil_r. destruct (ideintr_ok s _ pend pid Hinv Hx) as (s2 & E & Hpost). rewrite E in Hrun. simplify_eq.
    rewrite (qi_head _ _ (ii_queue _ _ _ Hinv)) in Hq. destruct pend as [|[b0 x] pend]; [|done]. simplify_eq.
    by exists dn, [].
  - rewrite !app_nil_r. exists dn, pend. split_and!; [done|done|]. destruct Hinv as [Hq Hw Hd]. split; [by eapply q_inv_ext| |done].
    apply Forall_forall. intros r Hr. pose proof (proj1 (Forall_forall _ _) Hw r Hr) as Hwr.
    eapply waits_ext; [|exact Hwr]. intros x Hx. apply (Hk r.1 x); [|done]. rewrite Hql. by apply list_elem_of_fmap_2.
Qed.

Lemma run_inv_all s0 evs s : idle s0 → isteps s0 evs s → run_inv (contents (ide_dev s0)) evs s.
Proof.
  intros Hi. induction 1 as [s|s evs s1 e s2 _ IH Hstep]; [|by eapply step_inv; [apply IH|]].
  exists [], []. split_and!; [done|done|]. by apply idle_inv.
Qed.

End runs.

(** The disk in memory serves a request at once, and as [serve] says. *)
Definition mem_contents (k : kernel) : Z → Z → list Z := λ _ l, default [] (k_disk k !! Z.to_nat l).

Lemma memide_serves b x k pid :
  ctx k pid → k_bufs k !! b = Some x → may_request (Ide k None [] true tt) pid b x → b_dev x = 1 →
  0 ≤ b_blockno x < Z.of_nat (length (k_disk k)) → k_power k = None →
  ∃ k' x', Bio.iderw b k = (Ok tt, k') ∧ k_bufs k' !! b = Some x' ∧
    b_data x' = (serve (mem_contents k) x).1 ∧ b_valid x' = true ∧ b_dirty x' = false ∧
    ∀ l, 0 ≤ l → mem_contents k' 1 l = (serve (mem_contents k) x).2 1 l.
Proof.
  intros Hx Eb (Hl & Hn & _) Hdev Hr Hp. unfold serve. destruct (b_dirty x) eqn:Ed.
  - eexists _, _. split_and!; [eapply iderw_write; [done|done|done|done|done|done|by rewrite Hp]|..].
    + simpl. rewrite list_lookup_alter_eq, Eb. done.
    + done.
    + done.
    + done.
    + intros l Hl0. unfold mem_contents, put_sector, upd. simpl. rewrite Hdev. change (Z.land 1 1) with 1.
      case_decide as E.
      * destruct E as [_ ->]. rewrite list_lookup_insert_eq by lia. done.
      * rewrite list_lookup_insert_ne; [done|]. intros E'. apply E. split; [done|]. lia.
  - rewrite andb_true_r in Hn.
    destruct (lookup_lt_is_Some_2 (k_disk k) (Z.to_nat (b_blockno x))) as [dat Hdat]; [lia|].
    eexists _, _. split_and!; [eapply iderw_read; [done|done|done|done|done|done|done|exact Hdat]|..].
    + simpl. rewrite list_lookup_alter_eq, Eb. done.
    + unfold mem_contents, upd. simpl. by rewrite Hdat.
    + done.
    + done.
    + done.
Qed.

(** ** A disk *)

(** Registers, sectors and phase; after a read command it is busy for one poll.  With
    [err] it ends every command with an error. *)
Record pio (err : bool) := Pio {
  pio_regs : Z → Z;
  pio_sectors : Z → Z → list Z;
  pio_phase : phase;
  pio_busy : bool }.
Arguments Pio {_}.
Arguments pio_regs {_}.
Arguments pio_sectors {_}.
Arguments pio_phase {_}.
Arguments pio_busy {_}.

Definition pio_read {err} (d : pio err) (dv l : Z) : list Z := resize 512 0 (pio_sectors d dv l).

#[global] Instance pio_device err : ide_device (pio err) := {
  inb p d :=
    if decide (p = 0x1f7) then
      if pio_busy d then (0x80, Pio (pio_regs d) (pio_sectors d) (pio_phase d) false)
      else (if err then 0x41 else 0x40, d)
    else (pio_regs d p, d);
  outb p v d :=
    if decide (p = 0x1f7) then
      if decide (v = IDE_CMD_READ) then
        Pio (pio_regs d) (pio_sectors d) (Reading (drive_of (pio_regs d)) (lba_of (pio_regs d))) true
      else if decide (v = IDE_CMD_WRITE) then
        Pio (pio_regs d) (pio_sectors d) (Wanting (drive_of (pio_regs d)) (lba_of (pio_regs d))) false
      else d
    else Pio (λ q, if decide (q = p) then v else pio_regs d q) (pio_sectors d) (pio_phase d) (pio_busy d);
  insl p d :=
    match pio_phase d with
    | Reading dv l => (pio_read d dv l, Pio (pio_regs d) (pio_sectors d) Idle (pio_busy d))
    | _ => ([], d)
    end;
  outsl p bs d :=
    match pio_phase d with
    | Wanting dv l => Pio (pio_regs d) (put_sector (pio_sectors d) dv l bs) Idle (pio_busy d)
    | _ => d
    end }.

#[global, refine] Instance pio_laws : ide_laws (pio false) := {
  contents := pio_read;
  regs := pio_regs;
  phase_of := pio_phase;
  delay d := if pio_busy d then 1%nat else 0%nat }.
Proof.
  - intros d dv l. apply length_resize.
  - intros d r d' E. simpl in E. destruct (pio_busy d) eqn:Eb; simplify_eq; split_and!; try done.
    + intros n [= <-]. done.
    + intros _. by rewrite Eb.
  - intros d p v Hd Hp Ht. simpl. rewrite decide_False by (intros ->; set_solver). simpl. split_and!; try done.
    + by rewrite decide_True.
    + intros q Hq. by rewrite decide_False.
  - done.
  - done.
  - intros d dv l _ Hp. simpl. rewrite Hp. eexists. split; [done|]. done.
  - intros d dv l bs Hp Hlen. simpl. rewrite Hp. split; [done|]. intros dv' l'. unfold pio_read, put_sector. simpl.
    case_decide; [by apply resize_all_alt|done].
Defined.

Definition pio0 err : pio err := Pio (λ _, 0) (λ dv l, [dv; l]) Idle false.

(** A locked buffer for block 5 of disk 1. *)
Definition demo_ide_buf : buf :=
  buf0 <| b_dev := 1 |> <| b_blockno := 5 |> <| b_lock := Sleeplock true 1 |> <| b_data := replicate 512 9 |>.
Definition demo_ide_k : kernel := running0 [] <| k_bufs ::= <[3%nat := demo_ide_buf]> |>.
Definition demo_ide err : ide (pio err) := Ide demo_ide_k None (replicate 31 None) true (pio0 err).

Lemma demo_ide_ctx : ctx demo_ide_k 1.
Proof. eapply (ctx_ext (running0 [])); [apply running0_ctx|done..]. Qed.

Lemma pio_fuel (d : pio false) : (delay d < 2)%nat.
Proof. simpl. destruct (pio_busy d); lia. Qed.

(** A read request, and its interrupt. *)
Lemma demo_ide_run :
  ∃ s, isteps 2 (demo_ide false) [Submit 3 demo_ide_buf; Tau; Complete 3 (resize 512 0 [1; 5])] s ∧ ide_queue s = None.
Proof.
  pose proof (idle_inv (demo_ide false) ltac:(by split_and!)) as Hinv.
  assert (Hwf : buf_wf demo_ide_buf) by (split; [by simpl|reflexivity]).
  destruct (iderw_ok 2 pio_fuel 3 demo_ide_buf (demo_ide false) 1 _ [] Hinv demo_ide_ctx eq_refl Hwf ltac:(by apply not_elem_of_nil)
    ltac:(by split_and!; [..|right])) as (s1 & Hrun & Hinv1 & (cc & p & Hk1)).
  pose proof (is_submit 2 (demo_ide false) 3 demo_ide_buf 1 s1 demo_ide_ctx eq_refl Hwf ltac:(by apply not_elem_of_nil) Hrun) as Hst1.
  assert (Hb1 : k_bufs demo_ide_k = k_bufs (ide_k s1)) by (by rewrite Hk1).
  assert (Hst2 : istep 2 s1 Tau (with_k demo_ide_k s1)).
  { apply is_kernel; [by rewrite Hb1|]. intros b x _ Hx. exists x. rewrite Hb1. split; [exact Hx|apply same_request_refl]. }
  pose proof (ide_inv_kernel _ _ _ _ Hb1 Hinv1) as Hinv2.
  destruct (ideintr_ok 2 pio_fuel _ _ _ 1 Hinv2 demo_ide_ctx) as (s3 & Hrun3 & Hinv3 & Hk3).
  assert (Hst3 : istep 2 (with_k demo_ide_k s1) (Complete 3 (resize 512 0 [1; 5])) s3).
  { eapply (is_complete 2 _ 3%nat (done_buf (resize 512 0 [1; 5]) demo_ide_buf) 1);
      [exact demo_ide_ctx|exact (qi_head _ _ (ii_queue _ _ _ Hinv2))|exact Hrun3|]. by rewrite Hk3. }
  exists s3. split; [|exact (qi_head _ _ (ii_queue _ _ _ Hinv3))].
  apply (isteps_snoc 2 _ [Submit 3 demo_ide_buf; Tau] (with_k demo_ide_k s1)); [|exact Hst3].
  apply (isteps_snoc 2 _ [Submit 3 demo_ide_buf] s1); [|exact Hst2].
  apply (isteps_snoc 2 _ [] (demo_ide false)); [apply isteps_nil|exact Hst1].
Qed.


(** A disk that fails: the interrupt of a read marks the buffer valid all the same, with
    the data it had before. *)
Example read_error_is_valid :
  let s := Ide demo_ide_k (Some 3%nat) (replicate 31 None) true (Pio (err := true) (λ _, 0) (λ dv l, [dv; l]) (Reading 1 5) false) in
  match ideintr 2 s with
  | (Ok _, s') => k_bufs (ide_k s') !! 3%nat = Some (demo_ide_buf <| b_valid := true |>)
  | _ => False
  end.
Proof. vm_compute. reflexivity. Qed.
