(* ===== verification/Log.v ===== *)
(** * The write-ahead log (log.c)

    A file system call makes its writes between [begin_op] and [end_op];
    [log_write] records the block number and pins the buffer, and the last
    [end_op] commits: it copies the pinned blocks to the log, writes the header
    block (the commit point), copies them to their places and clears the header.
    [begin_op_loop] is where a process that had to wait continues. *)

From S2P Require Import Prelude Memory State Spinlock Sched Sleeplock BufList Bio.

Definition upd_log (f : log → log) : K unit := modify (λ k, k <| k_log ::= f |>).

(** log.lh.block[i] = v, an array of LOGSIZE ints. *)
Definition set_block (i : Z) (v : Z) : K unit :=
  if decide (0 ≤ i < LOGSIZE)
  then upd_log (λ l, l <| lg_block ::= <[Z.to_nat i := v]> |>)
  else wild.
Definition get_block (i : Z) : K Z :=
  if decide (0 ≤ i) then at_index (λ k, lg_block (k_log k)) (Z.to_nat i) else wild.

(** struct superblock at the start of block 1 (fs.c: readsb). *)
Definition decode_sb (d : list Z) : superblock :=
  Superblock (get32 d 0) (get32 d 4) (get32 d 8) (get32 d 12) (get32 d 16) (get32 d 20) (get32 d 24).
Definition readsb (dev : Z) : K superblock :=
  bp ← bread dev 1;
  d ← bdata bp;
  brelse bp;;
  mret (decode_sb d).

(** The header block: the count, then the block numbers, as 4-byte ints. *)
Definition hdr_n (d : list Z) : Z := i32 (get32 d 0).
Definition hdr_block (d : list Z) (i : Z) : Z := i32 (get32 d (4 + 4 * Z.to_nat i)).

Definition read_head : K unit :=
  l ← gets k_log;
  b ← bread (lg_dev l) (lg_start l);
  lh ← bdata b;
  upd_log (λ l, l <| lg_n := hdr_n lh |>);;
  each (λ i, set_block i (hdr_block lh i)) (seqZ 0 (hdr_n lh));;
  brelse b.

Definition write_head : K unit :=
  l ← gets k_log;
  b ← bread (lg_dev l) (lg_start l);
  hb ← bdata b;
  set_bdata b (put32 hb 0 (lg_n l));;
  each (λ i,
    v ← get_block i;
    hb ← bdata b;
    set_bdata b (put32 hb (4 + 4 * Z.to_nat i) v)) (seqZ 0 (lg_n l));;
  bwrite b;;
  brelse b.

(** One iteration of the loop of [install_trans]: a block goes from its slot in
    the log to its place. *)
Definition install_body (tail : Z) : K unit :=
  l ← gets k_log;
  lbuf ← bread (lg_dev l) (lg_start l + tail + 1);
  bn ← get_block tail;
  dbuf ← bread (lg_dev l) bn;
  d ← bdata lbuf;
  set_bdata dbuf d;;
  bwrite dbuf;;
  brelse lbuf;;
  brelse dbuf.
Definition install_trans : K unit :=
  n ← gets (λ k, lg_n (k_log k));
  each install_body (seqZ 0 n).

Definition recover_from_log : K unit :=
  read_head;;
  install_trans;;
  upd_log (λ l, l <| lg_n := 0 |>);;
  write_head.

Definition initlog (dev : Z) : K unit :=
  (* sizeof(struct logheader) is 124 and less than BSIZE *)
  initlock L_log;;
  sb ← readsb dev;
  upd_log (λ l, l <| lg_start := i32 (sb_logstart sb) |> <| lg_size := i32 (sb_nlog sb) |>
                  <| lg_dev := dev |>);;
  recover_from_log.

Definition begin_op_loop : K unit :=
  l ← gets k_log;
  if lg_committing l then sleep C_log L_log else
  if decide (lg_n l + (lg_outstanding l + 1) * MAXOPBLOCKS > LOGSIZE) then sleep C_log L_log else
  upd_log (λ l, l <| lg_outstanding ::= λ n, n + 1 |>);;
  release L_log.
Definition begin_op : K unit :=
  acquire L_log;;
  begin_op_loop.
Definition begin_op_resume (intena : bool) : K unit :=
  sleep_return L_log intena;;
  begin_op_loop.

(** One iteration of the loop of [write_log]: a block goes from the cache to its
    slot in the log. *)
Definition write_log_body (tail : Z) : K unit :=
  l ← gets k_log;
  to ← bread (lg_dev l) (lg_start l + tail + 1);
  bn ← get_block tail;
  from ← bread (lg_dev l) bn;
  d ← bdata from;
  set_bdata to d;;
  bwrite to;;
  brelse from;;
  brelse to.
Definition write_log : K unit :=
  n ← gets (λ k, lg_n (k_log k));
  each write_log_body (seqZ 0 n).

Definition commit : K unit :=
  n ← gets (λ k, lg_n (k_log k));
  when (bool_decide (n > 0))
    (write_log;;
     write_head;;
     install_trans;;
     upd_log (λ l, l <| lg_n := 0 |>);;
     write_head).

Definition end_op : K unit :=
  acquire L_log;;
  upd_log (λ l, l <| lg_outstanding ::= λ n, n - 1 |>);;
  l ← gets k_log;
  if lg_committing l then panic "log.committing" else
  let do_commit := bool_decide (lg_outstanding l = 0) in
  (if do_commit then upd_log (λ l, l <| lg_committing := true |>) else wakeup C_log);;
  release L_log;;
  when do_commit
    (commit;;
     acquire L_log;;
     upd_log (λ l, l <| lg_committing := false |>);;
     wakeup C_log;;
     release L_log).

(** The search of [log_write]: the position of the block in the transaction, or
    the number of blocks in it. *)
Fixpoint log_index (b : Z) (bs : list Z) (i : nat) (n : nat) {struct n} : nat :=
  match n, bs with
  | S n', x :: bs' => if decide (x = b) then i else log_index b bs' (S i) n'
  | _, _ => i
  end.

Definition log_write (b : nat) : K unit :=
  l ← gets k_log;
  if decide (LOGSIZE ≤ lg_n l ∨ lg_size l - 1 ≤ lg_n l) then panic "too big a transaction" else
  if decide (lg_outstanding l < 1) then panic "log_write outside of trans" else
  acquire L_log;;
  x ← the_buf b;
  i ← gets (λ k, Z.of_nat (log_index (b_blockno x) (lg_block (k_log k)) 0 (Z.to_nat (lg_n (k_log k)))));
  set_block i (b_blockno x);;
  l ← gets k_log;
  when (bool_decide (i = lg_n l)) (upd_log (λ l, l <| lg_n ::= λ n, n + 1 |>));;
  upd_buf b (λ x, x <| b_dirty := true |>);;
  release L_log.

(** ** The block layer as the code above it sees it

    [fss pid k0 k l disk V D H]: process [pid] runs in the kernel state [k],
    which differs from [k0] only in the file system's state and in sleeping
    processes that have been woken; the log structure is [l]; [disk], [V], [D]
    and [H] are as in [brep]. *)

Definition woken (ps ps' : list proc) : Prop :=
  Forall2 (λ p p', p' = p ∨ (p_state p = SLEEPING ∧ p' = p <| p_state := RUNNABLE |>)) ps ps'.

(** The fields that the file system does not change. *)
Definition rest (k : kernel) : kernel :=
  k <| k_bufs := [] |> <| k_disk := [] |> <| k_power := None |> <| k_log := log0 |>
    <| k_procs := [] |>.
Definition frame (k0 k : kernel) : Prop := rest k = rest k0 ∧ woken (k_procs k0) (k_procs k).

Lemma woken_refl ps : woken ps ps.
Proof. apply Forall2_same_length_lookup. split; [done|]. naive_solver. Qed.

Lemma woken_wake ch ps : woken ps (map (wake ch) ps).
Proof.
  induction ps as [|p ps IH]; simpl; constructor; [|done].
  unfold wake. case_decide as E; [right; naive_solver|by left].
Qed.

Lemma woken_trans ps1 ps2 ps3 : woken ps1 ps2 → woken ps2 ps3 → woken ps1 ps3.
Proof.
  intros H. revert ps3. induction H as [|p q ps qs Hp H IH]; intros ps3 H3.
  - inversion H3. constructor.
  - apply Forall2_cons_inv_l in H3 as (r & rs & Hr & H3 & ->). constructor; [|by apply IH].
    destruct Hp as [->|[Hs ->]]; [done|]. right. split; [done|].
    destruct Hr as [->|[Hs' _]]; [done|]. done.
Qed.

Lemma frame_refl k : frame k k.
Proof. split; [done|apply woken_refl]. Qed.

Lemma frame_trans k1 k2 k3 : frame k1 k2 → frame k2 k3 → frame k1 k3.
Proof. intros [E1 W1] [E2 W2]. split; [congruence|by eapply woken_trans]. Qed.

Lemma frame_step k0 k k' :
  frame k0 k → rest k' = rest k → k_procs k' = k_procs k → frame k0 k'.
Proof. intros [E W] E1 E2. split; [congruence|by rewrite E2]. Qed.

Section layer.
Context (pid : Z).

Record fss (k0 k : kernel) (l : log) (disk : list (list Z)) (V : Z → list Z) (D : list Z)
    (H : list (nat * Z)) : Prop := {
  fs_frame : frame k0 k;
  fs_ctx : ctx k pid;
  fs_log : k_log k = l;
  fs_disk : k_disk k = disk;
  fs_rep : brep pid (k_bufs k) disk V D H }.

Context (k0 : kernel).
Implicit Types (C : kernel → Prop).

Lemma fss_bufs k l disk V D H bs V' D' H' :
  fss k0 k l disk V D H → brep pid bs disk V' D' H' → fss k0 (k <| k_bufs := bs |>) l disk V' D' H'.
Proof.
  intros [F X <- <- R] R'. split; [by eapply frame_step|by apply ctx_bufs|done|done|done].
Qed.

Lemma e_bread k l disk V D H b C :
  fss k0 k l disk V D H → 0 ≤ b < Z.of_nat (length disk) → b ∉ H.*2 → room b D H →
  ensures (bread 1 b k) (λ i k', i ∉ H.*1 ∧ fss k0 k' l disk V D ((i, b) :: H)) C.
Proof.
  intros S Hb Hn Hr. pose proof S as [F X E1 E2 R]. subst disk.
  destruct (bread_spec pid k V D H b X R Hb Hn Hr) as (i & bs & E & Hi & B).
  rewrite E. split; [done|]. by eapply fss_bufs.
Qed.

Lemma e_bdata k l disk V D H i b C :
  fss k0 k l disk V D H → (i, b) ∈ H →
  ensures (bdata i k) (λ d k', d = V b ∧ fss k0 k' l disk V D H) C.
Proof.
  intros S Hin. pose proof S as [F X E1 E2 R]. subst disk.
  by rewrite (bdata_spec pid k V D H i b R Hin).
Qed.

Lemma e_set k l disk V D H i b d C :
  fss k0 k l disk V D H → (i, b) ∈ H →
  ensures (set_bdata i d k) (λ _ k', fss k0 k' l disk (fupd V b d) D H) C.
Proof.
  intros S Hin. pose proof S as [F X E1 E2 R]. subst disk.
  destruct (set_bdata_spec pid k V D H i b d R Hin) as (bs & E & B). rewrite E. by eapply fss_bufs.
Qed.

Lemma e_bwrite k l disk V D H i b :
  fss k0 k l disk V D H → (i, b) ∈ H →
  ensures (bwrite i k)
    (λ _ k', fss k0 k' l (<[Z.to_nat b := V b]> disk) V (filter (.≠ b) D) H)
    (λ k', k_disk k' = disk).
Proof.
  intros S Hin. pose proof S as [F X E1 E2 R]. subst disk.
  pose proof (bwrite_spec pid k V D H i b X R Hin) as W. case_decide as Hp.
  - destruct W as (bs & ->). done.
  - destruct W as (bs & -> & B). split; [by eapply frame_step|by eapply (ctx_ext k)|done|done|done].
Qed.

Lemma e_brelse k l disk V D H i b C :
  fss k0 k l disk V D H → (i, b) ∈ H → b ∈ D ∨ disk !! Z.to_nat b = Some (V b) →
  ensures (brelse i k) (λ _ k', fss k0 k' l disk V D (unheld i H)) C.
Proof.
  intros S Hin Hs. pose proof S as [F X E1 E2 R]. subst disk.
  destruct (brelse_spec pid k V D H i b X R Hin Hs) as (bs & -> & B).
  split; [|by eapply (ctx_wake (C_buf i) k)|done|done|done].
  destruct F as [F W]. split; [by rewrite <- F|]. simpl.
  eapply woken_trans; [done|]. apply woken_wake.
Qed.
End layer.

(** A block that is neither pinned nor held is on the disk. *)
Lemma brep_synced pid bs disk V D H b :
  brep pid bs disk V D H → b ∉ D → b ∉ H.*2 → 0 ≤ b < Z.of_nat (length disk) →
  disk !! Z.to_nat b = Some (V b).
Proof.
  intros B Hd Hh Hb. destruct (decide (Exists (holds_block bs 1 b) (seq 0 NBUF))) as [He|Hn].
  - apply Exists_exists in He as (i & Hi%elem_of_seq & x & E & Dx & Bx).
    assert (disk !! Z.to_nat (b_blockno x) = Some (V (b_blockno x))) as Hc; [|by rewrite Bx in Hc].
    apply (br_clean _ _ _ _ _ _ B i x); [lia|done|done| |].
    + destruct (b_dirty x) eqn:Hdx; [|done]. apply (br_dirty _ _ _ _ _ _ B i x) in Hdx; [|lia|done|done].
      rewrite Bx in Hdx. done.
    + intros ([j c] & -> & Hj)%list_elem_of_fmap. apply Hh, list_elem_of_fmap. exists (j, c). simpl in *.
      destruct (br_held _ _ _ _ _ _ B j c Hj) as (_ & y & Ey & _ & _ & _ & By). split; [congruence|done].
  - apply (br_disk _ _ _ _ _ _ B b Hb). intros i Hi Hh'. apply Hn, Exists_exists.
    exists i. split; [apply elem_of_seq; lia|done].
Qed.

(** ** The log on the disk *)

(** The log's blocks: the header and the slots behind it. *)
Definition log_area (l : log) (b : Z) : Prop := lg_start l ≤ b < lg_start l + lg_size l.
#[global] Instance log_area_dec l b : Decision (log_area l b).
Proof. unfold log_area. apply _. Defined.

Definition slot (l : log) (t : nat) : Z := lg_start l + Z.of_nat t + 1.

(** The transaction [D] that a header block records. *)
Definition hdr_list (d : list Z) : list Z := map (hdr_block d) (seqZ 0 (hdr_n d)).

(** Where the log is on a disk of [N] blocks. *)
Record log_geom (l : log) (N : Z) : Prop := {
  lg_dev1 : lg_dev l = 1;
  lg_pos : 0 ≤ lg_start l;
  lg_size_pos : 0 < lg_size l;
  lg_fits : lg_start l + lg_size l ≤ N;
  lg_small : N < 2 ^ 31;
  lg_len : length (lg_block l) = 30%nat }.

(** A transaction: distinct blocks outside the log, few enough for the log; the
    superblock is never written. *)
Record trans_ok (l : log) (N : Z) (D : list Z) : Prop := {
  tr_nodup : NoDup D;
  tr_home : ∀ b, b ∈ D → 0 ≤ b < N ∧ ¬ log_area l b;
  tr_len : Z.of_nat (length D) < lg_size l ∧ (length D < 30)%nat;
  tr_sb : 1 ∉ D }.

(** The log structure records the transaction [D]. *)
Definition log_has (l : log) (D : list Z) : Prop :=
  lg_n l = Z.of_nat (length D) ∧ take (length D) (lg_block l) = D.

Definition blocks_ok (N : Z) (disk : list (list Z)) : Prop :=
  Z.of_nat (length disk) = N ∧ Forall (λ d, length d = 512%nat) disk.

(** Outside the log the disk holds [V]. *)
Definition holds (l : log) (N : Z) (disk : list (list Z)) (V : Z → list Z) : Prop :=
  ∀ b, 0 ≤ b < N → ¬ log_area l b → disk !! Z.to_nat b = Some (V b).

(** A disk with the content [V] and no committed transaction, and one with a
    committed transaction that is not or not completely installed. *)
Definition clean (l : log) (N : Z) (disk : list (list Z)) (V : Z → list Z) : Prop :=
  blocks_ok N disk ∧ hdr_n (disk_view disk (lg_start l)) = 0 ∧ holds l N disk V.
Definition logged (l : log) (N : Z) (D : list Z) (disk : list (list Z)) (V : Z → list Z) : Prop :=
  blocks_ok N disk ∧ hdr_list (disk_view disk (lg_start l)) = D ∧ hdr_n (disk_view disk (lg_start l)) = Z.of_nat (length D) ∧
  (∀ t b, D !! t = Some b → disk !! Z.to_nat (slot l t) = Some (V b)) ∧
  (∀ b, 0 ≤ b < N → ¬ log_area l b → b ∉ D → disk !! Z.to_nat b = Some (V b)).

Lemma blocks_ok_insert N disk b d :
  blocks_ok N disk → length d = 512%nat → blocks_ok N (<[b := d]> disk).
Proof. intros [H1 H2] Hd. split; [by rewrite length_insert|by apply Forall_insert]. Qed.

Lemma disk_view_ne disk b c d :
  0 ≤ b → 0 ≤ c → b ≠ c → disk_view (<[Z.to_nat b := d]> disk) c = disk_view disk c.
Proof. intros H1 H2 H3. unfold disk_view. by rewrite list_lookup_insert_ne by lia. Qed.
Lemma disk_view_eq disk b d :
  0 ≤ b < Z.of_nat (length disk) → disk_view (<[Z.to_nat b := d]> disk) b = d.
Proof. intros H. unfold disk_view. by rewrite list_lookup_insert_eq by lia. Qed.

Lemma slot_facts l N D t :
  log_geom l N → trans_ok l N D → (t < length D)%nat →
  0 ≤ slot l t < N ∧ log_area l (slot l t) ∧ slot l t ∉ D ∧ slot l t ≠ lg_start l.
Proof.
  intros [G1 G2 G3 G4 G5 G6] [T1 T2 T3 _] Ht. unfold slot, log_area in *.
  split_and!; try lia. intros [_ Hn]%T2. lia.
Qed.

Lemma filter_ne_id b (D : list Z) : b ∉ D → filter (.≠ b) D = D.
Proof.
  induction D as [|x D IH]; intros Hn; [done|]. apply not_elem_of_cons in Hn as [H1 H2].
  rewrite filter_cons_True by done. by rewrite IH.
Qed.

Lemma unheld_head i b H : i ∉ H.*1 → unheld i ((i, b) :: H) = H.
Proof.
  intros Hn. unfold unheld. rewrite filter_cons_False by (simpl; tauto).
  induction H as [|[j c] H IH]; [done|]. apply not_elem_of_cons in Hn as [H1 H2].
  rewrite filter_cons_True by (simpl in *; congruence). by rewrite IH.
Qed.

Lemma unheld_second i b j c : i ≠ j → unheld j [(i, b); (j, c)] = [(i, b)].
Proof.
  intros Hn. unfold unheld. rewrite filter_cons_True by done. by rewrite filter_cons_False by (simpl; tauto).
Qed.

Lemma get_block_spec l D t b k :
  k_log k = l → log_has l D → D !! t = Some b → get_block (Z.of_nat t) k = (Ok b, k).
Proof.
  intros El [Hn Ht] Hb. unfold get_block. rewrite decide_True by lia. rewrite Nat2Z.id.
  apply at_index_ok. rewrite El. pose proof (lookup_lt_Some _ _ _ Hb).
  rewrite <- Ht in Hb. by rewrite lookup_take_lt in Hb by lia.
Qed.

Lemma brep_ext pid bs disk V V' D H :
  (∀ b, V' b = V b) → brep pid bs disk V D H → brep pid bs disk V' D H.
Proof.
  intros HV []. split; try done.
  - intros i x L E Dx. rewrite HV. eauto.
  - intros i x L E Dx Dr Hn. rewrite HV. eauto.
  - intros b Hb Hn. rewrite HV. eauto.
Qed.

Lemma fss_ext pid k0 k l disk V V' D H :
  (∀ b, V' b = V b) → fss pid k0 k l disk V D H → fss pid k0 k l disk V' D H.
Proof. intros HV []. split; try done. by eapply brep_ext. Qed.

Lemma fupd_eq V b d : fupd V b d b = d.
Proof. unfold fupd. by rewrite decide_True. Qed.
Lemma fupd_ne V b c d : c ≠ b → fupd V b d c = V c.
Proof. intros. unfold fupd. by rewrite decide_False. Qed.
Lemma fupd_twice V b d d' c : fupd (fupd V b d) b d' c = fupd V b d' c.
Proof. unfold fupd. by case_decide. Qed.

Lemma view_len N disk (V : Z → list Z) b :
  blocks_ok N disk → disk !! Z.to_nat b = Some (V b) → length (V b) = 512%nat.
Proof. intros [_ H2] Hd. rewrite Forall_lookup in H2. by eapply H2. Qed.

Lemma seqZ_lookup_nat n t i : seqZ 0 (Z.of_nat n) !! t = Some i → i = Z.of_nat t ∧ (t < n)%nat.
Proof. rewrite lookup_seqZ. lia. Qed.

(** The header block: the loop of [write_head] stores the entries. *)
Lemma hdr_list_intro hd n (L : list Z) :
  n = Z.of_nat (length L) → (length L < 30)%nat → get32 hd 0 = u32 n →
  (∀ t b, L !! t = Some b → get32 hd (4 + 4 * t) = u32 b) → (∀ b, b ∈ L → 0 ≤ b < 2 ^ 31) →
  hdr_n hd = n ∧ hdr_list hd = L.
Proof.
  intros -> HL H0 Hb Hr.
  assert (hdr_n hd = Z.of_nat (length L)) as Hn by (unfold hdr_n; rewrite H0; zlia).
  split; [done|]. unfold hdr_list. rewrite Hn. apply list_eq. intros t.
  change (map (hdr_block hd) (seqZ 0 (Z.of_nat (length L)))) with (hdr_block hd <$> seqZ 0 (Z.of_nat (length L))).
  rewrite list_lookup_fmap. destruct (L !! t) as [b|] eqn:E.
  - pose proof (lookup_lt_Some _ _ _ E). rewrite lookup_seqZ_lt by lia. simpl. f_equal.
    unfold hdr_block. rewrite Z.add_0_l, Nat2Z.id.
    change (S (S (S (S (t + (t + (t + (t + 0))))))))%nat with (4 + 4 * t)%nat. rewrite (Hb t b E).
    pose proof (Hr b (list_elem_of_lookup_2 _ _ _ E)). zlia.
  - apply lookup_ge_None in E. by rewrite lookup_seqZ_ge by lia.
Qed.

Lemma write_head_spec pid k0 N k l' disk V Dp (L : list Z) :
  log_geom l' N → log_has l' L → (length L < 30)%nat → (∀ b, b ∈ L → 0 ≤ b < 2 ^ 31) →
  fss pid k0 k l' disk V Dp [] → blocks_ok N disk → lg_start l' ∉ Dp → (length Dp < 30)%nat →
  ensures (write_head k)
    (λ _ k', ∃ hd, length hd = 512%nat ∧ hdr_n hd = Z.of_nat (length L) ∧ hdr_list hd = L ∧
       fss pid k0 k' l' (<[Z.to_nat (lg_start l') := hd]> disk) (fupd V (lg_start l') hd) Dp [])
    (λ k', k_disk k' = disk).
Proof.
  intros G Hh HL Hr S HB Hns Hroom. pose proof G as [G1 G2 G3 G4 G5 G6]. pose proof HB as [HN HF].
  set (s := lg_start l') in *.
  assert (disk !! Z.to_nat s = Some (V s)) as Hsync.
  { eapply brep_synced; [exact (fs_rep _ _ _ _ _ _ _ _ S)|done|by apply not_elem_of_nil|lia]. }
  assert (length (V s) = 512%nat) as HVs by (by eapply view_len).
  unfold write_head. rewrite bind_gets, (fs_log _ _ _ _ _ _ _ _ S), G1. fold s.
  eapply ensures_bind; [eapply e_bread; [exact S|lia|by apply not_elem_of_nil|right; unfold NBUF; simpl; lia]|].
  intros i k1 [_ S1]. eapply ensures_bind; [eapply e_bdata; [exact S1|left]|]. intros d k2 [-> S2].
  destruct Hh as [Hn Htk]. rewrite Hn.
  eapply ensures_bind; [eapply e_set; [exact S2|left]|]. intros [] k3 S3.
  set (Inv := λ n k', ∃ hd, length hd = 512%nat ∧ get32 hd 0 = u32 (Z.of_nat (length L)) ∧
    (∀ t b, (t < n)%nat → L !! t = Some b → get32 hd (4 + 4 * t) = u32 b) ∧
    fss pid k0 k' l' disk (fupd V s hd) Dp [(i, s)]).
  eapply (ensures_bind _ _ _ (λ _ k', Inv (length (seqZ 0 (Z.of_nat (length L)))) k')).
  { apply ensures_each.
    - eexists. split_and!; [| | |exact S3].
      + by rewrite length_put32.
      + rewrite get32_put32_eq by lia. done.
      + intros t b Hlt. lia.
    - intros t j k' (-> & Ht)%seqZ_lookup_nat (hd & E1 & E2 & E3 & S').
      destruct (lookup_lt_is_Some_2 L t Ht) as [b Hb].
      mstep (get_block_spec l' L t b k' (fs_log _ _ _ _ _ _ _ _ S') ltac:(by split) Hb).
      eapply ensures_bind; [eapply e_bdata; [exact S'|left]|]. intros d' k4 [-> S4].
      assert (fupd V s hd s = hd) as -> by (unfold fupd; by rewrite decide_True).
      eapply ensures_mono; [eapply e_set; [exact S4|left]| |intros ? HC; exact HC].
      intros [] k5 S5. rewrite Nat2Z.id in S5. exists (put32 hd (4 + 4 * t) b). split_and!.
      + by rewrite length_put32.
      + rewrite get32_put32_ne by lia. done.
      + intros t' b' Ht' Hb'. destruct (decide (t' = t)) as [->|Hne].
        * simplify_eq. by rewrite get32_put32_eq by lia.
        * rewrite get32_put32_ne by lia. apply E3; [lia|done].
      + eapply fss_ext; [|exact S5]. intros c. by rewrite fupd_twice. }
  intros [] k6 (hd & E1 & E2 & E3 & S6). rewrite length_seqZ, Nat2Z.id in E3.
  destruct (hdr_list_intro hd (Z.of_nat (length L)) L) as [F1 F2]; [done|done|done| |done|].
  { intros t b Hb. apply E3; [|done]. by apply lookup_lt_Some in Hb. }
  eapply ensures_bind; [eapply e_bwrite; [exact S6|left]|]. intros [] k7 S7.
  rewrite fupd_eq, filter_ne_id in S7 by done.
  eapply (ensures_mono _ _ _ (λ _, False)); [eapply e_brelse; [exact S7|left|right]| |done].
  - rewrite fupd_eq, list_lookup_insert_eq by lia. done.
  - intros [] k8 S8. rewrite unheld_head in S8 by (simpl; apply not_elem_of_nil). by exists hd.
Qed.

Section commit.
Context (pid : Z) (k0 : kernel) (l : log) (N : Z) (HG : log_geom l N).
Context (D : list Z) (HT : trans_ok l N D).
Notation st := (fss pid k0).

Lemma write_log_step k disk V t b :
  log_has l D → st k l disk V D [] → Z.of_nat (length disk) = N → D !! t = Some b →
  ensures (write_log_body (Z.of_nat t) k)
    (λ _ k', st k' l (<[Z.to_nat (slot l t) := V b]> disk) (fupd V (slot l t) (V b)) D [])
    (λ k', k_disk k' = disk).
Proof.
  intros Hh S HN Hb. pose proof (lookup_lt_Some _ _ _ Hb) as Ht.
  destruct (slot_facts l N D t HG HT Ht) as (Hs1 & Hs2 & Hs3 & Hs4).
  destruct (tr_home _ _ _ HT b) as [Hb1 Hb2]; [by apply list_elem_of_lookup_2 in Hb|].
  assert (b ≠ slot l t) as Hne by (intros ->; done).
  unfold write_log_body. rewrite bind_gets, (fs_log _ _ _ _ _ _ _ _ S), (lg_dev1 _ _ HG).
  fold (slot l t).
  eapply ensures_bind; [eapply e_bread; [exact S|lia|by apply not_elem_of_nil|]|].
  { right. pose proof (tr_len _ _ _ HT). unfold NBUF. simpl. lia. }
  intros i k1 [_ S1]. mstep (get_block_spec l D t b k1 (fs_log _ _ _ _ _ _ _ _ S1) Hh Hb).
  eapply ensures_bind; [eapply e_bread; [exact S1|lia| |]|].
  { simpl. apply not_elem_of_cons. split; [done|apply not_elem_of_nil]. }
  { left. by apply list_elem_of_lookup_2 in Hb. }
  intros j k2 [Hj S2]. simpl in Hj. apply not_elem_of_cons in Hj as [Hj _].
  eapply ensures_bind; [eapply e_bdata; [exact S2|left]|]. intros d k3 [-> S3].
  eapply ensures_bind; [eapply e_set; [exact S3|right; left]|]. intros [] k4 S4.
  eapply ensures_bind; [eapply e_bwrite; [exact S4|right; left]|]. intros [] k5 S5.
  rewrite filter_ne_id in S5 by done.
  assert (fupd V (slot l t) (V b) (slot l t) = V b) as Ev by (unfold fupd; by rewrite decide_True).
  rewrite Ev in S5.
  eapply ensures_bind; [eapply e_brelse; [exact S5|left|left; by apply list_elem_of_lookup_2 in Hb]|].
  intros [] k6 S6. rewrite unheld_head in S6 by (simpl; set_solver).
  eapply (ensures_mono _ _ _ (λ _, False)); [eapply e_brelse; [exact S6|left|right]| |done].
  - rewrite Ev, list_lookup_insert_eq by lia. done.
  - intros [] k7 S7. by rewrite unheld_head in S7 by (simpl; apply not_elem_of_nil).
Qed.

(** A change of the disk inside the slots of the log only. *)
Definition same_home (disk disk' : list (list Z)) : Prop :=
  blocks_ok N disk' ∧
  ∀ b, 0 ≤ b → ¬ log_area l b ∨ b = lg_start l → disk' !! Z.to_nat b = disk !! Z.to_nat b.

Lemma same_home_clean disk disk' V0 : clean l N disk V0 → same_home disk disk' → clean l N disk' V0.
Proof.
  intros (C1 & C2 & C3) [S1 S2]. pose proof (lg_pos _ _ HG). split_and!; [done| |].
  - unfold disk_view in *. rewrite S2 by (auto; lia). done.
  - intros b Hb Hn. rewrite S2 by (auto; lia). by apply C3.
Qed.

Lemma write_log_spec k disk V :
  log_has l D → st k l disk V D [] → blocks_ok N disk → (∀ b, b ∈ D → length (V b) = 512%nat) →
  ensures (write_log k)
    (λ _ k', ∃ disk' V', st k' l disk' V' D [] ∧ same_home disk disk' ∧
       (∀ b, ¬ log_area l b → V' b = V b) ∧
       (∀ t b, D !! t = Some b → disk' !! Z.to_nat (slot l t) = Some (V b)))
    (λ k', same_home disk (k_disk k')).
Proof.
  intros Hh S HB HV. unfold write_log. rewrite bind_gets, (fs_log _ _ _ _ _ _ _ _ S).
  destruct Hh as [Hn Htk]. rewrite Hn.
  set (Inv := λ n k', ∃ disk' V', st k' l disk' V' D [] ∧ same_home disk disk' ∧
       (∀ b, ¬ log_area l b → V' b = V b) ∧
       (∀ t b, (t < n)%nat → D !! t = Some b → disk' !! Z.to_nat (slot l t) = Some (V b))).
  eapply (ensures_mono _ (λ _ k', Inv (length (seqZ 0 (Z.of_nat (length D)))) k') _
    (λ k', same_home disk (k_disk k'))); [| |done].
  { apply ensures_each.
    - exists disk, V. split_and!; [done|by split|done|]. intros t b Hlt. lia.
    - intros t i k' (-> & Ht)%seqZ_lookup_nat (disk1 & V1 & S1 & SH1 & EV & Hs).
      destruct (lookup_lt_is_Some_2 D t Ht) as [b Hb].
      pose proof SH1 as [[HN1 HF1] HS1].
      destruct (slot_facts l N D t HG HT Ht) as (Hs1 & Hs2 & Hs3 & Hs4).
      pose proof (list_elem_of_lookup_2 _ _ _ Hb) as HbD.
      assert (V1 b = V b) as Eb by (apply EV; by apply (tr_home _ _ _ HT)).
      eapply ensures_mono; [eapply (write_log_step k' disk1 V1 t b); [by split|done|done|done]| |].
      + intros [] k2 S2. rewrite Eb in S2. eexists _, _. split_and!; [exact S2| | |].
        * split; [apply blocks_ok_insert; [by split|by apply HV]|].
          intros c Hc Hl. assert (slot l t ≠ c) by (destruct Hl as [Hl| ->]; [intros <-; done|done]).
          rewrite list_lookup_insert_ne by lia. by apply HS1.
        * intros c Hc. unfold fupd. rewrite decide_False by (intros ->; done). by apply EV.
        * intros t' b' Ht' Hb'. destruct (decide (t' = t)) as [->|Hne].
          -- simplify_eq. by rewrite list_lookup_insert_eq by lia.
          -- pose proof (lg_pos _ _ HG).
             rewrite list_lookup_insert_ne by (unfold slot in *; lia). apply Hs; [lia|done].
      + intros k2 ->. done. }
  intros _ k' (disk' & V' & S' & H1 & H2 & H3). exists disk', V'. split_and!; [done|done|done|].
  intros t b Hb. apply H3; [|done]. rewrite length_seqZ, Nat2Z.id. by apply lookup_lt_Some in Hb.
Qed.

(** One block goes from its slot to its place. *)
Lemma install_step k l' disk V Dp t b :
  log_geom l' N → lg_start l' = lg_start l → lg_size l' = lg_size l →
  log_has l' D → st k l' disk V Dp [] → Z.of_nat (length disk) = N → D !! t = Some b →
  slot l t ∉ Dp → (length Dp < 30)%nat → (b ∈ Dp ∨ (length Dp + 1 < 30)%nat) →
  ensures (install_body (Z.of_nat t) k)
    (λ _ k', st k' l' (<[Z.to_nat b := V (slot l t)]> disk) (fupd V b (V (slot l t))) (filter (.≠ b) Dp) [])
    (λ k', k_disk k' = disk).
Proof.
  intros G Es Ez Hh S HN Hb Hsd Hr1 Hr2. pose proof (lookup_lt_Some _ _ _ Hb) as Ht.
  destruct (slot_facts l N D t HG HT Ht) as (Hs1 & Hs2 & Hs3 & Hs4).
  pose proof (list_elem_of_lookup_2 _ _ _ Hb) as HbD.
  destruct (tr_home _ _ _ HT b HbD) as [Hb1 Hb2].
  assert (b ≠ slot l t) as Hne by (intros ->; done).
  unfold install_body. rewrite bind_gets, (fs_log _ _ _ _ _ _ _ _ S), (lg_dev1 _ _ G), Es. fold (slot l t).
  assert (disk !! Z.to_nat (slot l t) = Some (V (slot l t))) as Hsync.
  { eapply brep_synced; [exact (fs_rep _ _ _ _ _ _ _ _ S)|done|by apply not_elem_of_nil|lia]. }
  eapply ensures_bind; [eapply e_bread; [exact S|lia|by apply not_elem_of_nil|right; unfold NBUF; simpl; lia]|].
  intros i k1 [_ S1]. mstep (get_block_spec l' D t b k1 (fs_log _ _ _ _ _ _ _ _ S1) Hh Hb).
  eapply ensures_bind; [eapply e_bread; [exact S1|lia| |]|].
  { simpl. apply not_elem_of_cons. split; [done|apply not_elem_of_nil]. }
  { destruct Hr2 as [?|?]; [by left|right; unfold NBUF; simpl; lia]. }
  intros j k2 [Hj S2]. simpl in Hj. apply not_elem_of_cons in Hj as [Hj _].
  eapply ensures_bind; [eapply e_bdata; [exact S2|right; left]|]. intros d k3 [-> S3].
  eapply ensures_bind; [eapply e_set; [exact S3|left]|]. intros [] k4 S4.
  eapply ensures_bind; [eapply e_bwrite; [exact S4|left]|]. intros [] k5 S5. rewrite fupd_eq in S5.
  eapply ensures_bind; [eapply e_brelse; [exact S5|right; left|right]|].
  { rewrite fupd_ne by done. by rewrite list_lookup_insert_ne by lia. }
  intros [] k6 S6. rewrite unheld_second in S6 by done.
  eapply (ensures_mono _ _ _ (λ _, False)); [eapply e_brelse; [exact S6|left|right]| |done].
  - rewrite fupd_eq, list_lookup_insert_eq by lia. done.
  - intros [] k7 S7. by rewrite unheld_head in S7 by (simpl; apply not_elem_of_nil).
Qed.
End commit.

Section install.
Context (pid : Z) (k0 : kernel) (l : log) (N : Z) (HG : log_geom l N).
Context (D : list Z) (HT : trans_ok l N D).
Notation st := (fss pid k0).

(** The pinned blocks while the transaction is being installed: at first all
    of it (in a commit) or nothing (in a recovery). *)
Definition pins_ok (t : nat) (Dp : list Z) : Prop :=
  (length Dp < 30)%nat ∧ (∀ b, b ∈ Dp → ∃ s, (t ≤ s)%nat ∧ D !! s = Some b) ∧
  (Dp = [] ∨ ∀ s b, (t ≤ s)%nat → D !! s = Some b → b ∈ Dp).

Lemma pins_step t b Dp :
  pins_ok t Dp → D !! t = Some b → pins_ok (S t) (filter (.≠ b) Dp).
Proof.
  intros (P1 & P2 & P3) Hb. split_and!.
  - pose proof (length_filter (.≠ b) Dp). lia.
  - intros c [Hc1 Hc2]%list_elem_of_filter. destruct (P2 c Hc2) as (s & Hs & Hsc).
    exists s. split; [|done]. destruct (decide (s = t)) as [->|]; [congruence|lia].
  - destruct P3 as [->|P3]; [by left|]. right. intros s c Hs Hc. apply list_elem_of_filter.
    split; [|apply (P3 s); [lia|done]]. intros ->.
    pose proof (tr_nodup _ _ _ HT) as Hnd. rewrite NoDup_alt in Hnd. specialize (Hnd s t b Hc Hb). lia.
Qed.

(** A disk on which the first [t] blocks of the logged transaction are in place. *)
Definition installed (t : nat) (disk : list (list Z)) (V : Z → list Z) : Prop :=
  logged l N D disk V ∧ ∀ s b, (s < t)%nat → D !! s = Some b → disk !! Z.to_nat b = Some (V b).

Lemma installed_step t disk V b :
  installed t disk V → D !! t = Some b → length (V b) = 512%nat →
  installed (S t) (<[Z.to_nat b := V b]> disk) V.
Proof.
  intros [(L1 & L2 & L3 & L4 & L5) I] Hb HV. pose proof (list_elem_of_lookup_2 _ _ _ Hb) as HbD.
  destruct (tr_home _ _ _ HT b HbD) as [Hb1 Hb2]. pose proof HG as [G1 G2 G3 G4 G5 G6].
  assert (b ≠ lg_start l) as Hbs by (intros ->; apply Hb2; unfold log_area; lia).
  assert (∀ c, 0 ≤ c → b ≠ c → <[Z.to_nat b := V b]> disk !! Z.to_nat c = disk !! Z.to_nat c) as Hne.
  { intros c Hc Hbc. by rewrite list_lookup_insert_ne by lia. }
  destruct L1 as [HN HF]. split.
  - unfold logged. rewrite disk_view_ne by lia. split_and!; [|done|done| |].
    + apply blocks_ok_insert; [by split|done].
    + intros s c Hc. destruct (slot_facts l N D s HG HT) as (S1 & S2 & _); [by apply lookup_lt_Some in Hc|].
      rewrite Hne; [by apply L4|lia|intros ->; done].
    + intros c Hc Hn Hd. rewrite Hne; [by apply L5|lia|intros ->; done].
  - intros s c Hs Hc. destruct (decide (c = b)) as [->|Hcb].
    + by rewrite list_lookup_insert_eq by lia.
    + pose proof (tr_home _ _ _ HT c (list_elem_of_lookup_2 _ _ _ Hc)) as [Hc1 _].
      rewrite Hne by (lia || done). apply (I s); [|done].
      destruct (decide (s = t)) as [->|]; [congruence|lia].
Qed.

Lemma installed_all disk V : installed (length D) disk V → holds l N disk V.
Proof.
  intros [(L1 & L2 & L3 & L4 & L5) I] b Hb Hn. destruct (decide (b ∈ D)) as [Hd|Hd]; [|by apply L5].
  apply list_elem_of_lookup in Hd as [s Hs]. apply (I s); [|done]. by apply lookup_lt_Some in Hs.
Qed.

Lemma install_trans_spec k l' disk W V Dp :
  log_geom l' N → lg_start l' = lg_start l → lg_size l' = lg_size l → log_has l' D →
  st k l' disk W Dp [] → pins_ok 0 Dp → logged l N D disk V → (∀ b, b ∈ D → length (V b) = 512%nat) →
  ensures (install_trans k)
    (λ _ k', ∃ disk' W', st k' l' disk' W' [] [] ∧ installed (length D) disk' V)
    (λ k', logged l N D (k_disk k') V).
Proof.
  intros G Es Ez Hh S HP HL HV. unfold install_trans. rewrite bind_gets, (fs_log _ _ _ _ _ _ _ _ S).
  destruct Hh as [Hn Htk]. rewrite Hn.
  set (Inv := λ t k', ∃ disk' W' Dp', st k' l' disk' W' Dp' [] ∧ pins_ok t Dp' ∧ installed t disk' V).
  eapply (ensures_mono _ (λ _ k', Inv (length (seqZ 0 (Z.of_nat (length D)))) k') _
    (λ k', logged l N D (k_disk k') V)); [| |done].
  { apply ensures_each.
    - exists disk, W, Dp. split_and!; [done|done|]. split; [done|]. intros s b Hs. lia.
    - intros t i k' (-> & Ht)%seqZ_lookup_nat (disk1 & W1 & Dp1 & S1 & P1 & I1).
      destruct (lookup_lt_is_Some_2 D t Ht) as [b Hb].
      pose proof (list_elem_of_lookup_2 _ _ _ Hb) as HbD.
      destruct (slot_facts l N D t HG HT Ht) as (Hs1 & Hs2 & Hs3 & Hs4).
      pose proof I1 as [((HN & HF) & L2 & L3 & L4 & L5) II].
      assert (slot l t ∉ Dp1) as Hsd.
      { intros Hin. destruct P1 as (_ & P1 & _). destruct (P1 _ Hin) as (s & _ & Hs).
        apply list_elem_of_lookup_2 in Hs. done. }
      assert (W1 (slot l t) = V b) as EW.
      { assert (disk1 !! Z.to_nat (slot l t) = Some (W1 (slot l t))) as E1.
        { eapply brep_synced; [exact (fs_rep _ _ _ _ _ _ _ _ S1)|done|by apply not_elem_of_nil|lia]. }
        rewrite (L4 t b Hb) in E1. congruence. }
      eapply ensures_mono; [eapply (install_step pid k0 l N HG D HT k' l' disk1 W1 Dp1 t b)| |]; try done.
      + apply P1.
      + destruct P1 as (P1 & _ & [->|P3]); [right; simpl; lia|left]. by apply (P3 t).
      + intros [] k2 S2. rewrite EW in S2. eexists _, _, _. split_and!; [exact S2|by apply pins_step|].
        apply installed_step; [done|done|by apply HV].
      + intros k2 ->. apply I1. }
  intros _ k' (disk' & W' & Dp' & S' & P' & I'). rewrite length_seqZ, Nat2Z.id in P', I'.
  exists disk', W'. split; [|done].
  assert (Dp' = []) as ->; [|done]. destruct P' as (_ & P' & _). destruct Dp' as [|b Dp']; [done|].
  destruct (P' b) as (s & Hs & Hsb); [left|]. apply lookup_lt_Some in Hsb. lia.
Qed.

(** Clearing the header ends the transaction. *)
Lemma clear_head_spec k l' disk W V :
  log_geom l' N → lg_start l' = lg_start l → lg_size l' = lg_size l → lg_n l' = 0 →
  st k l' disk W [] [] → blocks_ok N disk → holds l N disk V →
  ensures (write_head k)
    (λ _ k', ∃ disk' W', st k' l' disk' W' [] [] ∧ clean l N disk' V)
    (λ k', k_disk k' = disk).
Proof.
  intros G Es Ez Hn S HB HH. pose proof G as [G1 G2 G3 G4 G5 G6]. destruct HB as [HN HF].
  eapply ensures_mono; [eapply (write_head_spec pid k0 N k l' disk W [] [])| |intros ? HC; exact HC]; try done.
  - simpl. lia.
  - by intros b ?%not_elem_of_nil.
  - by apply not_elem_of_nil.
  - simpl. lia.
  - intros [] k' (hd & E1 & E2 & E3 & S'). eexists _, _. split; [exact S'|]. split_and!.
    + by apply blocks_ok_insert.
    + rewrite <- Es. by rewrite disk_view_eq by lia.
    + intros b Hb Hna. rewrite list_lookup_insert_ne; [by apply HH|].
      intros Eb. apply Hna. unfold log_area. rewrite <- Es, <- Ez. lia.
Qed.
End install.

(** ** Commit *)

Lemma geom_ext l l' N :
  log_geom l N → lg_dev l' = lg_dev l → lg_start l' = lg_start l → lg_size l' = lg_size l →
  length (lg_block l') = length (lg_block l) → log_geom l' N.
Proof. intros [] E1 E2 E3 E4. split; congruence. Qed.

Lemma fss_upd_log pid k0 k l disk V D H f :
  fss pid k0 k l disk V D H → fss pid k0 (k <| k_log ::= f |>) (f l) disk V D H.
Proof.
  intros [F X E1 E2 R]. split; [by eapply frame_step|by eapply (ctx_ext k)| |done|done].
  unfold upd. simpl. by rewrite E1.
Qed.

(** The state after a commit that was not interrupted. *)
Definition committed (pid : Z) (k0 k : kernel) (l : log) (N : Z) (V : Z → list Z) : Prop :=
  ∃ disk' W, fss pid k0 k (l <| lg_n := 0 |>) disk' W [] [] ∧ clean l N disk' V.

Lemma commit_spec pid k0 k l N D disk V V0 :
  log_geom l N → trans_ok l N D → log_has l D → fss pid k0 k l disk V D [] →
  clean l N disk V0 → (∀ b, b ∈ D → length (V b) = 512%nat) →
  ensures (commit k)
    (λ _ k', committed pid k0 k' l N V)
    (λ k', clean l N (k_disk k') V0 ∨ logged l N D (k_disk k') V).
Proof.
  intros HG HT Hh S HC HV. unfold commit. rewrite bind_gets, (fs_log _ _ _ _ _ _ _ _ S).
  pose proof Hh as [Hn Htk]. pose proof HC as (HB & Hh0 & HH0). pose proof HB as [HN HF].
  pose proof HG as [G1 G2 G3 G4 G5 G6].
  (* blocks outside the log that are not in the transaction *)
  assert (∀ b, 0 ≤ b < N → b ∉ D → disk !! Z.to_nat b = Some (V b)) as Hsync.
  { intros b Hb Hd. eapply brep_synced; [exact (fs_rep _ _ _ _ _ _ _ _ S)|done|by apply not_elem_of_nil|lia]. }
  destruct D as [|b0 D0] eqn:ED.
  { rewrite bool_decide_false by (rewrite Hn; simpl; lia). unfold when.
    exists disk, V. split.
    - replace (l <| lg_n := 0 |>) with l; [done|]. simpl in Hn. clear -Hn. destruct l; unfold upd; simpl in *. by subst.
    - split_and!; [done|done|]. intros b Hb Hna. apply Hsync; [done|by apply not_elem_of_nil]. }
  rewrite <- ED in *. rewrite bool_decide_true by (rewrite Hn, ED; simpl; lia). unfold when. clear ED b0 D0.
  eapply ensures_bind.
  { eapply ensures_mono; [by eapply (write_log_spec pid k0 l N HG D HT)|intros ? ? HQ; exact HQ|].
    intros k' HS. left. by eapply same_home_clean. }
  intros [] k1 (disk1 & V1 & S1 & HS1 & EV1 & Hsl).
  pose proof (same_home_clean l N HG disk disk1 V0 HC HS1) as HC1. pose proof HS1 as [HB1 HS1'].
  pose proof HB1 as [HN1 HF1].
  assert (lg_start l ∉ D) as Hsd.
  { intros [_ Ha]%(tr_home _ _ _ HT). apply Ha. unfold log_area. lia. }
  destruct (tr_len _ _ _ HT) as [HL1 HL2].
  eapply ensures_bind.
  { eapply ensures_mono; [eapply write_head_spec; try done|intros ? ? HQ; exact HQ|].
    - intros b Hb. destruct (tr_home _ _ _ HT b Hb). lia.
    - intros k' ->. by left. }
  intros [] k2 (hd & E1 & E2 & E3 & S2).
  set (disk2 := <[Z.to_nat (lg_start l) := hd]> disk1) in *.
  assert (logged l N D disk2 V) as HLg.
  { unfold logged, disk2. rewrite disk_view_eq by lia. split_and!; [by apply blocks_ok_insert|done|done| |].
    - intros t b Hb. destruct (slot_facts l N D t HG HT) as (T1 & T2 & T3 & T4); [by apply lookup_lt_Some in Hb|].
      rewrite list_lookup_insert_ne by lia. by apply Hsl.
    - intros b Hb Hna Hd. assert (b ≠ lg_start l) by (intros ->; apply Hna; unfold log_area; lia).
      rewrite list_lookup_insert_ne by lia. rewrite HS1' by (auto; lia). by apply Hsync. }
  eapply ensures_bind.
  { eapply ensures_mono; [eapply (install_trans_spec pid k0 l N HG D HT k2 l disk2); try done|intros ? ? HQ; exact HQ|].
    - split_and!; [done| |].
      + intros b [s Hs]%list_elem_of_lookup. exists s. split; [lia|done].
      + right. intros s b _ Hb. by apply list_elem_of_lookup_2 in Hb.
    - intros k' HL. by right. }
  intros [] k3 (disk3 & W3 & S3 & I3). unfold upd_log. rewrite bind_modify.
  apply (fss_upd_log _ _ _ _ _ _ _ _ (λ l, l <| lg_n := 0 |>)) in S3.
  eapply ensures_mono; [eapply clear_head_spec with (l' := l <| lg_n := 0 |>) (V := V); try done| |].
  - apply I3.
  - by eapply installed_all.
  - intros [] k4 (disk4 & W4 & S4 & C4). by exists disk4, W4.
  - intros k' ->. right. apply I3.
Qed.

(** ** Recovery *)

Definition recoverable (l : log) (N : Z) (disk : list (list Z)) (V : Z → list Z) : Prop :=
  ∃ D, trans_ok l N D ∧ logged l N D disk V.

Lemma clean_recoverable l N disk V : log_geom l N → clean l N disk V → recoverable l N disk V.
Proof.
  intros [G1 G2 G3 G4 G5 G6] (C1 & C2 & C3). exists []. split.
  - split; [constructor|by intros b ?%not_elem_of_nil|simpl; lia|by apply not_elem_of_nil].
  - split_and!; [done| |done|by intros t b|].
    + unfold hdr_list. by rewrite C2.
    + intros b Hb Hn _. by apply C3.
Qed.

Definition same_geom (l l' : log) : Prop :=
  lg_dev l' = lg_dev l ∧ lg_start l' = lg_start l ∧ lg_size l' = lg_size l ∧
  length (lg_block l') = length (lg_block l).

Lemma same_geom_ok l l' N : same_geom l l' → log_geom l N → log_geom l' N.
Proof. intros (E1 & E2 & E3 & E4) HG. by eapply geom_ext. Qed.

Lemma same_geom_clean l l' N disk V : same_geom l l' → clean l N disk V → clean l' N disk V.
Proof.
  intros (E1 & E2 & E3 & E4) (C1 & C2 & C3). split_and!; [done|by rewrite E2|].
  intros b Hb Hn. apply C3; [done|]. unfold log_area in *. by rewrite E2, E3 in Hn.
Qed.

Lemma same_geom_logged l l' N D disk V : same_geom l l' → logged l N D disk V → logged l' N D disk V.
Proof.
  intros (E1 & E2 & E3 & E4) (L1 & L2 & L3 & L4 & L5). unfold logged, slot, log_area in *. rewrite E2, E3. done.
Qed.

Lemma same_geom_trans l l' N D : same_geom l l' → trans_ok l N D → trans_ok l' N D.
Proof.
  intros (E1 & E2 & E3 & E4) [T1 T2 T3 T4]. split; [done| |by rewrite E3|done].
  intros b Hb. unfold log_area in *. rewrite E2, E3. by apply T2.
Qed.

Lemma same_geom_sym l l' : same_geom l l' → same_geom l' l.
Proof. intros (E1 & E2 & E3 & E4). by split_and!. Qed.

Lemma hdr_block_list hd D t b :
  hdr_list hd = D → hdr_n hd = Z.of_nat (length D) → D !! t = Some b → hdr_block hd (Z.of_nat t) = b.
Proof.
  intros Hl Hn Hb. pose proof (lookup_lt_Some _ _ _ Hb). rewrite <- Hl in Hb. unfold hdr_list in Hb.
  change (map (hdr_block hd) (seqZ 0 (hdr_n hd))) with (hdr_block hd <$> seqZ 0 (hdr_n hd)) in Hb.
  rewrite list_lookup_fmap, lookup_seqZ_lt in Hb by lia. by injection Hb.
Qed.

Section recovery.
Context (pid : Z) (k0 : kernel) (N : Z).
Notation st := (fss pid k0).

Lemma read_head_spec k l disk W D C :
  log_geom l N → st k l disk W [] [] → blocks_ok N disk →
  hdr_list (disk_view disk (lg_start l)) = D →
  hdr_n (disk_view disk (lg_start l)) = Z.of_nat (length D) → (length D < 30)%nat →
  ensures (read_head k) (λ _ k', ∃ l', same_geom l l' ∧ log_has l' D ∧ st k' l' disk W [] []) C.
Proof.
  intros HG S [HN HF] HD Hn HL. pose proof HG as [G1 G2 G3 G4 G5 G6].
  assert (disk !! Z.to_nat (lg_start l) = Some (W (lg_start l))) as Hsync.
  { eapply brep_synced; [exact (fs_rep _ _ _ _ _ _ _ _ S)| |by apply not_elem_of_nil|lia]. apply not_elem_of_nil. }
  unfold disk_view in HD, Hn. rewrite Hsync in HD, Hn. simpl in HD, Hn.
  unfold read_head. rewrite bind_gets, (fs_log _ _ _ _ _ _ _ _ S), G1.
  eapply ensures_bind; [eapply e_bread; [exact S|lia|by apply not_elem_of_nil|right; unfold NBUF; simpl; lia]|].
  intros i k1 [_ S1]. eapply ensures_bind; [eapply e_bdata; [exact S1|left]|]. intros d k2 [-> S2].
  set (hd := W (lg_start l)) in *. unfold upd_log at 1. rewrite bind_modify, Hn.
  apply (fss_upd_log _ _ _ _ _ _ _ _ (λ l, l <| lg_n := Z.of_nat (length D) |>)) in S2.
  set (Inv := λ t k', ∃ l', same_geom l l' ∧ lg_n l' = Z.of_nat (length D) ∧
    take t (lg_block l') = take t D ∧ st k' l' disk W [] [(i, lg_start l)]).
  eapply (ensures_bind _ _ _ (λ _ k', Inv (length (seqZ 0 (Z.of_nat (length D)))) k')).
  { apply ensures_each.
    - eexists. split_and!; [..|exact S2]; done.
    - intros t j k' (-> & Ht)%seqZ_lookup_nat (l' & GG & E1 & E2 & S').
      destruct (lookup_lt_is_Some_2 D t Ht) as [b Hb].
      rewrite (hdr_block_list hd D t b HD Hn Hb). unfold set_block.
      rewrite decide_True by (unfold LOGSIZE, MAXOPBLOCKS; lia). rewrite Nat2Z.id.
      assert ((t < length (lg_block l'))%nat) as Htl by (destruct GG as (_ & _ & _ & ->); lia).
      exists (l' <| lg_block ::= <[t := b]> |>). split_and!.
      + destruct GG as (A1 & A2 & A3 & A4). split_and!; [done..|]. unfold upd. simpl. by rewrite length_insert.
      + done.
      + unfold upd. simpl. rewrite (take_S_r D t b Hb), (take_S_r _ t b) by (by rewrite list_lookup_insert_eq).
        by rewrite take_insert_ge, E2 by lia.
      + by apply (fss_upd_log _ _ _ _ _ _ _ _ (λ l, l <| lg_block ::= <[t := b]> |>)) in S'. }
  intros [] k3 (l' & GG & E1 & E2 & S3). rewrite length_seqZ, Nat2Z.id in E2.
  eapply (ensures_mono _ _ _ (λ _, False)); [eapply e_brelse; [exact S3|left|by right]| |done].
  intros [] k4 S4. rewrite unheld_head in S4 by (simpl; apply not_elem_of_nil).
  exists l'. split_and!; [done| |done]. split; [done|]. by rewrite E2, take_ge.
Qed.

Lemma recover_spec k l disk W V :
  log_geom l N → st k l disk W [] [] → recoverable l N disk V →
  ensures (recover_from_log k)
    (λ _ k', clean l N (k_disk k') V ∧ ∃ l' W', same_geom l l' ∧ lg_n l' = 0 ∧
       st k' l' (k_disk k') W' [] [])
    (λ k', recoverable l N (k_disk k') V).
Proof.
  intros HG S (D & HT & HL). pose proof HL as (HB & L2 & L3 & L4 & L5). pose proof HB as [HN HF].
  destruct (tr_len _ _ _ HT) as [HL1 HL2].
  assert (∀ b, b ∈ D → length (V b) = 512%nat) as HV.
  { intros b [t Hb]%list_elem_of_lookup. rewrite Forall_lookup in HF. eapply HF, L4, Hb. }
  unfold recover_from_log. eapply ensures_bind; [by eapply read_head_spec|].
  intros [] k1 (l1 & GG & Hh & S1). pose proof (same_geom_ok _ _ _ GG HG) as HG1.
  pose proof (same_geom_logged _ _ _ _ _ _ GG HL) as HLg1. pose proof (same_geom_trans _ _ _ _ GG HT) as HT1.
  eapply ensures_bind.
  { eapply ensures_mono; [eapply (install_trans_spec pid k0 l1 N HG1 D HT1 k1 l1 disk W V); try done|intros ? ? HQ; exact HQ|].
    - split_and!; [simpl; lia|by intros b ?%not_elem_of_nil|by left].
    - intros k' Hk. exists D. split; [done|]. by eapply same_geom_logged, Hk; apply same_geom_sym. }
  intros [] k2 (disk2 & W2 & S2 & I2). unfold upd_log. rewrite bind_modify.
  apply (fss_upd_log _ _ _ _ _ _ _ _ (λ l, l <| lg_n := 0 |>)) in S2.
  eapply ensures_mono; [eapply clear_head_spec with (l := l1) (l' := l1 <| lg_n := 0 |>) (N := N) (V := V); try done| |].
  - by eapply (geom_ext l1).
  - apply I2.
  - by eapply installed_all.
  - intros [] k3 (disk3 & W3 & S3 & C3). rewrite (fs_disk _ _ _ _ _ _ _ _ S3). split.
    + eapply same_geom_clean; [|exact C3]. by apply same_geom_sym.
    + exists (l1 <| lg_n := 0 |>), W3. done.
  - intros k' ->. exists D. split; [done|]. eapply same_geom_logged; [by apply same_geom_sym|]. apply I2.
Qed.
End recovery.

(** ** Power failures and restarts *)

(** A kernel that has been booted up to the point where [forkret] calls
    [initlog]: a process runs, the cache is as [binit] left it. *)
Definition booted (pid : Z) (k : kernel) : Prop :=
  ctx k pid ∧ k_bufs k = binit_bufs ∧ length (lg_block (k_log k)) = 30%nat.

(** The disk says where the log is. *)
Definition sb_for (l : log) (V : Z → list Z) : Prop :=
  i32 (sb_logstart (decode_sb (V 1))) = lg_start l ∧ i32 (sb_nlog (decode_sb (V 1))) = lg_size l ∧
  ¬ log_area l 1.

(** A disk goes through any number of restarts whose recovery is cut off by a
    power failure, and then one that is not. *)
Inductive restarts (pid : Z) : list (list Z) → list (list Z) → Prop :=
| restart_done k k' :
    booted pid k → initlog 1 k = (Ok tt, k') → restarts pid (k_disk k) (k_disk k')
| restart_again k k' d :
    booted pid k → initlog 1 k = (Stop PowerOff, k') → restarts pid (k_disk k') d →
    restarts pid (k_disk k) d.

Lemma booted_fss pid k :
  booted pid k → fss pid k k (k_log k) (k_disk k) (disk_view (k_disk k)) [] [].
Proof.
  intros (X & B & _). split; [apply frame_refl|done|done|done|]. rewrite B. apply binit_rep.
Qed.

Lemma initlock_none lk k : k_locks k = [] → initlock lk k = (Ok tt, k).
Proof. intros E. unfold initlock, modify, upd. destruct k; simpl in *. by subst. Qed.

Lemma initlog_spec pid k l N V :
  log_geom l N → booted pid k → sb_for l V → 1 < N → recoverable l N (k_disk k) V →
  ensures (initlog 1 k)
    (λ _ k', clean l N (k_disk k') V)
    (λ k', recoverable l N (k_disk k') V).
Proof.
  intros HG HB (B1 & B2 & B3) HN1 (D & HT & HL). pose proof (booted_fss pid k HB) as S. destruct HB as (X & _ & HLen).
  pose proof HL as ((HN & HF) & _ & _ & _ & L5). pose proof HG as [G1 G2 G3 G4 G5 G6].
  unfold initlog. mstep (initlock_none L_log k (ctx_locks _ _ X)). unfold readsb. rewrite !bind_assoc.
  eapply ensures_bind; [eapply e_bread; [exact S|lia|by apply not_elem_of_nil|right; unfold NBUF; simpl; lia]|].
  intros i k1 [_ S1]. rewrite bind_assoc. eapply ensures_bind; [eapply e_bdata; [exact S1|left]|].
  intros d k2 [-> S2]. rewrite bind_assoc.
  assert (k_disk k !! Z.to_nat 1 = Some (V 1)) as H1 by (apply L5; [lia|done|by apply (tr_sb _ _ _ HT)]).
  assert (disk_view (k_disk k) 1 = V 1) as Ev by (unfold disk_view; by rewrite H1).
  eapply ensures_bind; [eapply e_brelse; [exact S2|left|right; by rewrite Ev]|].
  intros [] k3 S3. rewrite unheld_head in S3 by (simpl; apply not_elem_of_nil).
  rewrite bind_ret, Ev. unfold upd_log at 1. rewrite bind_modify.
  set (f := λ l, l <| lg_start := i32 (sb_logstart (decode_sb (V 1))) |>
                   <| lg_size := i32 (sb_nlog (decode_sb (V 1))) |> <| lg_dev := 1 |>).
  apply (fss_upd_log _ _ _ _ _ _ _ _ f) in S3. set (l1 := f (k_log k)) in S3.
  assert (same_geom l l1) as GG.
  { unfold same_geom, l1, f, upd. cbn [lg_dev lg_start lg_size lg_block]. split_and!; congruence. }
  eapply ensures_mono; [eapply (recover_spec pid k N _ l1); [by eapply same_geom_ok|exact S3|]| |].
  - exists D. split; [by eapply same_geom_trans|by eapply same_geom_logged].
  - intros [] k4 [C4 _]. by eapply same_geom_clean, C4; apply same_geom_sym.
  - intros k4 (D4 & T4 & L4). apply same_geom_sym in GG. exists D4.
    split; [by eapply same_geom_trans|by eapply same_geom_logged].
Qed.

Lemma restarts_spec pid l N V d d' :
  log_geom l N → sb_for l V → 1 < N → restarts pid d d' → recoverable l N d V → clean l N d' V.
Proof.
  intros HG HS HN Hr. induction Hr as [k k' HB Hi|k k' d HB Hi Hr IH]; intros HR;
    pose proof (initlog_spec pid k l N V HG HB HS HN HR) as E; rewrite Hi in E; [exact E|].
  apply IH. exact E.
Qed.

(** C2: commits are atomic with respect to power failures.  Let the disk hold
    [V0] with no transaction in the log, and the cache the content [V] that
    differs from [V0] in the pinned blocks [D] recorded in the log structure.
    Then [commit] never panics.  If it returns, the disk holds [V] and the log
    is empty.  If the power fails at any of its disk writes, then after any
    number of restarts, each but the last cut off by another power failure
    during recovery, the disk holds all of [V0] or all of [V], and the log is
    empty. *)
Theorem commit_crash_safe pid k0 k l N D disk V V0 :
  log_geom l N → trans_ok l N D → log_has l D → fss pid k0 k l disk V D [] →
  clean l N disk V0 → (∀ b, b ∈ D → length (V b) = 512%nat) → sb_for l V0 → 1 < N →
  (∃ k', commit k = (Ok tt, k') ∧ clean l N (k_disk k') V) ∨
  (∃ k', commit k = (Stop PowerOff, k') ∧
     ∀ d, restarts pid (k_disk k') d → clean l N d V0 ∨ clean l N d V).
Proof.
  intros HG HT Hh S HC HV HSB HN.
  assert (sb_for l V) as HSV.
  { destruct HSB as (B1 & B2 & B3). assert (V 1 = V0 1) as E; [|by unfold sb_for; rewrite E].
    pose proof HC as ((HL & _) & _ & HH).
    assert (disk !! Z.to_nat 1 = Some (V 1)) as E1.
    { eapply brep_synced; [exact (fs_rep _ _ _ _ _ _ _ _ S)|by apply (tr_sb _ _ _ HT)|by apply not_elem_of_nil|lia]. }
    rewrite (HH 1) in E1 by (lia || done). congruence. }
  pose proof (commit_spec pid k0 k l N D disk V V0 HG HT Hh S HC HV) as E.
  destruct (commit k) as [[[]|[]] k']; try done.
  - left. exists k'. split; [done|]. destruct E as (d & W & S' & C').
    by rewrite (fs_disk _ _ _ _ _ _ _ _ S').
  - right. exists k'. split; [done|]. intros d Hr. simpl in E. destruct E as [E|E].
    + left. eapply restarts_spec; try done. by apply clean_recoverable.
    + right. eapply restarts_spec; try done. by exists D.
Qed.

(** A disk of 6 blocks, the log in blocks 2 to 4, and block 5 modified in the
    cache and recorded in the log. *)
Definition demo_disk : list (list Z) :=
  [replicate 512 0; put32 (put32 (replicate 512 0) 12 3) 16 2; replicate 512 0; replicate 512 0;
   replicate 512 0; replicate 512 0].
Definition demo_log : log := Log 2 3 0 true 1 1 (5 :: replicate 29 0).
Definition demo_bufs : list buf :=
  alter drop_buf 0%nat (alter (λ x, x <| b_dirty := true |>) 0%nat
    (alter (λ x, x <| b_data := replicate 512 1 |>) 0%nat
      (alter (recycle_buf 1 5 (replicate 512 0)) 0%nat binit_bufs))).
Definition demo_view : Z → list Z := fupd (disk_view demo_disk) 5 (replicate 512 1).
Definition demo_commit (w : option nat) : kernel :=
  running0 demo_disk <| k_bufs := demo_bufs |> <| k_log := demo_log |> <| k_power := w |>.

Lemma demo_rep : brep 1 demo_bufs demo_disk demo_view [5] [].
Proof.
  assert (brep 1 (alter (recycle_buf 1 5 (disk_view demo_disk 5)) 0%nat binit_bufs) demo_disk
    (disk_view demo_disk) [] [(O, 5)]) as B1.
  { eapply brep_recycle; [apply binit_rep|unfold NBUF; lia| |by apply not_elem_of_nil| |simpl; lia].
    - by eexists.
    - intros j Hj (x & E & Dx & _).
      pose proof (br_cached _ _ _ _ _ _ (binit_rep 1 []) j x Hj E Dx). simpl in *. lia. }
  apply (brep_set _ _ _ _ _ _ 0%nat 5 (replicate 512 1)) in B1; [|left].
  apply (brep_pin _ _ _ _ _ _ 0%nat 5) in B1; [|left].
  apply (brep_drop _ _ _ _ _ _ 0%nat 5) in B1; [|left|left; by left]. exact B1.
Qed.

Lemma commit_crash_safe_witness :
  ∃ k', commit (demo_commit (Some 2%nat)) = (Stop PowerOff, k') ∧
    ∀ d, restarts 1 (k_disk k') d →
      clean demo_log 6 d (disk_view demo_disk) ∨ clean demo_log 6 d demo_view.
Proof.
  destruct (commit_crash_safe 1 (demo_commit (Some 2%nat)) (demo_commit (Some 2%nat)) demo_log 6 [5] demo_disk
    demo_view (disk_view demo_disk)) as [(k' & E & _)|H]; [..|exact H].
  - split; simpl; lia.
  - split; [apply NoDup_singleton| |simpl; lia|].
    + intros b ->%list_elem_of_singleton. unfold log_area. simpl. lia.
    + by intros ?%list_elem_of_singleton.
  - done.
  - split; [apply frame_refl| |done|done|exact demo_rep]. by eapply (ctx_ext (running0 demo_disk) _ 1 (running0_ctx _)).
  - split_and!; [split; [done|by repeat constructor]|reflexivity|].
    intros b Hb Hn. unfold disk_view.
    destruct (lookup_lt_is_Some_2 demo_disk (Z.to_nat b)) as [x Hx]; [simpl; lia|]. by rewrite Hx.
  - intros b ->%list_elem_of_singleton. reflexivity.
  - split_and!; [reflexivity|reflexivity|]. unfold log_area. simpl. lia.
  - lia.
  - exfalso. assert ((commit (demo_commit (Some 2%nat))).1 = Stop PowerOff) as E2 by (vm_compute; reflexivity).
    by rewrite E in E2.
Defined.

(** ** Recording a write *)

Lemma log_index_spec b bs n i :
  (n ≤ length bs)%nat →
  (b ∉ take n bs ∧ log_index b bs i n = (i + n)%nat) ∨
  (∃ j, (j < n)%nat ∧ bs !! j = Some b ∧ log_index b bs i n = (i + j)%nat).
Proof.
  revert bs i. induction n as [|n IH]; intros bs i Hn; simpl.
  - left. split; [apply not_elem_of_nil|]. destruct bs; lia.
  - destruct bs as [|x bs]; simpl in *; [lia|]. case_decide as E.
    + right. exists O. split_and!; [lia|by rewrite E|lia].
    + destruct (IH bs (S i)) as [[H1 H2]|(j & H1 & H2 & H3)]; [lia| |].
      * left. rewrite not_elem_of_cons. split; [split; [congruence|done]|lia].
      * right. exists (S j). split_and!; [lia|done|lia].
Qed.

Definition after_log_write (b : Z) (l : log) (D : list Z) : log :=
  if decide (b ∈ D) then l
  else l <| lg_block ::= <[length D := b]> |> <| lg_n := Z.of_nat (S (length D)) |>.

Lemma after_log_write_has b l D :
  log_has l D → length (lg_block l) = 30%nat → (length D < 30)%nat →
  log_has (after_log_write b l D) (pin b D) ∧ same_geom l (after_log_write b l D).
Proof.
  intros [Hn Ht] HL Hlt. unfold after_log_write, pin. case_decide as E; [done|]. split; [split|].
  - rewrite length_app. simpl. f_equal. lia.
  - rewrite length_app. simpl. rewrite Nat.add_1_r.
    rewrite (take_S_r _ _ b) by (rewrite list_lookup_insert_eq by lia; done).
    by rewrite take_insert_ge, Ht by lia.
  - split_and!; [done..|]. unfold upd. simpl. by rewrite length_insert.
Qed.

Lemma log_same k l : k_log k = l → k <| k_log := l |> = k.
Proof. intros <-. by destruct k. Qed.

Lemma ctx_cpu_log k pid c cp f :
  cpu_at k c cp → ctx k pid → cpu_at (k <| k_log ::= f |>) c cp ∧ ctx (k <| k_log ::= f |>) pid.
Proof. intros H1 H2. split; [by eapply (cpu_at_ext k)|by eapply (ctx_ext k)]. Qed.

Section writes.
Context (pid : Z) (k0 : kernel).
Notation st := (fss pid k0).

Lemma e_log_write k l disk V D H i b C :
  st k l disk V D H → (i, b) ∈ H → log_has l D → length (lg_block l) = 30%nat →
  Z.of_nat (length D) < lg_size l - 1 → (length D < 30)%nat → 1 ≤ lg_outstanding l →
  ensures (log_write i k)
    (λ _ k', st k' (after_log_write b l D) disk V (pin b D) H) C.
Proof.
  intros S Hin Hh HL Hs Hlt Ho. pose proof S as [F X E1 E2 R]. subst disk.
  destruct (br_held _ _ _ _ _ _ R i b Hin) as (Hi & x & E & _ & _ & _ & Hb).
  destruct (ctx_cpu _ _ X) as (c & cp & Hc & Hz). pose proof Hh as [Hn Ht].
  unfold log_write. rewrite bind_gets, E1, Hn.
  rewrite decide_False by (unfold LOGSIZE, MAXOPBLOCKS; lia). rewrite decide_False by lia.
  mstep (acquire_spec L_log k c cp Hc ltac:(lia) (ctx_free _ _ _ X)).
  mstep (the_buf_ok i x (locked L_log c k) E). rewrite bind_gets.
  change (k_log (locked L_log c k)) with (k_log k). rewrite E1, Hb, Hn, Nat2Z.id.
  set (l' := after_log_write b l D).
  assert (∃ j, Z.of_nat (log_index b (lg_block l) 0 (length D)) = j ∧ 0 ≤ j < LOGSIZE ∧
    (j = Z.of_nat (length D) ↔ b ∉ D) ∧ <[Z.to_nat j := b]> (lg_block l) = lg_block l') as (j & Ej & Hj & Hjn & Hjl).
  { eexists. split; [done|]. unfold LOGSIZE, MAXOPBLOCKS, l', after_log_write.
    destruct (log_index_spec b (lg_block l) (length D) 0) as [[H1 H2]|(j & H1 & H2 & H3)]; [lia| |].
    - rewrite H2, Ht in *. rewrite decide_False by done. split_and!; [lia|lia|done|]. by rewrite Nat2Z.id.
    - rewrite H3. assert (b ∈ D) as HbD.
      { rewrite <- Ht. apply list_elem_of_lookup. exists j. by rewrite lookup_take_lt by lia. }
      rewrite decide_True by done. split_and!; [lia|lia|split; [lia|done]|].
      rewrite Nat2Z.id. by apply list_insert_id. }
  rewrite Ej. unfold set_block. rewrite decide_True by done. unfold upd_log. rewrite bind_modify, bind_gets.
  set (k1 := k <| k_log := l' |>).
  erewrite bind_ok; [|instantiate (1 := locked L_log c k1); instantiate (1 := tt)].
  2:{ unfold l', after_log_write, upd in *. simpl. rewrite E1. destruct (decide (b ∈ D)) as [HbD|HbD].
      - rewrite bool_decide_false by (simpl; rewrite Hn, Hjn; tauto). simpl.
        unfold mret, M_ret. f_equal. unfold k1, locked, push, upd. destruct k; simpl in *. subst.
        rewrite Hjl. by destruct l.
      - rewrite bool_decide_true by (simpl; rewrite Hn, Hjn; done). simpl. unfold modify. f_equal.
        unfold k1, locked, push, upd. destruct k; simpl in *. subst. rewrite Hjl, Hn. simpl.
        f_equal. f_equal. lia. }
  mstep (upd_buf_ok _ _ _). set (bs' := alter (λ x, x <| b_dirty := true |>) i (k_bufs k)).
  change (locked L_log c k1 <| k_bufs := _ |>) with (locked L_log c (k1 <| k_bufs := bs' |>)).
  assert (ctx (k1 <| k_bufs := bs' |>) pid) as X1 by (by eapply (ctx_ext k)).
  rewrite (release_spec L_log (k1 <| k_bufs := bs' |>) c cp); [| |lia|by eapply ctx_free].
  2:{ by eapply (cpu_at_ext k). }
  split; [by eapply frame_step|done|done|done|]. by apply brep_pin.
Qed.
End writes.

(** ** Transactions *)

Lemma upd_log_ok f k : upd_log f k = (Ok tt, k <| k_log ::= f |>).
Proof. done. Qed.

Section transactions.
Context (pid : Z) (k0 : kernel).
Notation st := (fss pid k0).

Lemma fss_cpu k l disk V D H :
  st k l disk V D H → ∃ c cp, cpu_at k c cp ∧ c_ncli cp = 0 ∧ free L_log k ∧ free L_ptable k.
Proof.
  intros [F X _ _ _]. destruct (ctx_cpu _ _ X) as (c & cp & Hc & Hz). exists c, cp.
  split_and!; [done|done|by eapply ctx_free..].
Qed.

(** A change of the log structure and a wakeup under the log's lock. *)
Lemma log_section k l disk V D H f ch (wk : bool) c cp :
  st k l disk V D H → cpu_at k c cp → c_ncli cp = 0 →
  ∃ k', (upd_log f;; when wk (wakeup ch);; release L_log) (locked L_log c k) = (Ok tt, k') ∧
    st k' (f l) disk V D H ∧ k_power k' = k_power k ∧ k_icache k' = k_icache k.
Proof.
  intros S Hc Hz. pose proof (fss_upd_log _ _ _ _ _ _ _ _ f S) as S1.
  set (k1 := k <| k_log ::= f |>) in *. pose proof (fs_ctx _ _ _ _ _ _ _ _ S1) as X1.
  assert (cpu_at k1 c cp) as Hc1 by (by eapply (cpu_at_ext k)).
  unfold upd_log. rewrite bind_modify.
  change (locked L_log c k <| k_log ::= f |>) with (locked L_log c k1). destruct wk; unfold when.
  - erewrite bind_ok; [|eapply wakeup_spec; [apply locked_at; [done|lia]|simpl; lia| |]].
    + change (locked L_log c k1 <| k_procs ::= map (wake ch) |>)
        with (locked L_log c (k1 <| k_procs ::= map (wake ch) |>)).
      assert (ctx (k1 <| k_procs ::= map (wake ch) |>) pid) as X2 by (by eapply (ctx_wake ch k1)).
      exists (k1 <| k_procs ::= map (wake ch) |>). split_and!; [|split| |]; try done.
      * eapply release_spec; [by eapply (cpu_at_ext k1)|lia|by eapply ctx_free].
      * destruct (fs_frame _ _ _ _ _ _ _ _ S1) as [F W]. split; [by rewrite <- F|].
        eapply woken_trans; [done|]. apply woken_wake.
      * apply (fs_log _ _ _ _ _ _ _ _ S1).
      * apply (fs_disk _ _ _ _ _ _ _ _ S1).
      * apply (fs_rep _ _ _ _ _ _ _ _ S1).
    + apply free_locked; [done|by eapply ctx_free].
    + apply (ctx_procs _ _ X1).
  - rewrite bind_ret. exists k1. split_and!; [|done|done|done].
    eapply release_spec; [done|lia|by eapply ctx_free].
Qed.

Lemma e_begin_op k l disk V D H C :
  st k l disk V D H → lg_committing l = false →
  lg_n l + (lg_outstanding l + 1) * MAXOPBLOCKS ≤ LOGSIZE →
  ensures (begin_op k) (λ _ k', st k' (l <| lg_outstanding ::= λ n, n + 1 |>) disk V D H ∧ k_power k' = k_power k) C.
Proof.
  intros S Hcm Hsp. destruct (fss_cpu _ _ _ _ _ _ S) as (c & cp & Hc & Hz & F1 & F2).
  unfold begin_op, begin_op_loop. mstep (acquire_spec L_log k c cp Hc ltac:(lia) F1). rewrite bind_gets.
  change (k_log (locked L_log c k)) with (k_log k). rewrite (fs_log _ _ _ _ _ _ _ _ S), Hcm.
  rewrite decide_False by lia.
  destruct (log_section k l disk V D H (λ l, l <| lg_outstanding ::= λ n, n + 1 |>) C_log false c cp S Hc Hz)
    as (k' & E & S' & Ep & _). unfold upd_log, when in E. rewrite bind_modify, bind_ret in E.
  unfold upd_log. by rewrite bind_modify, E.
Qed.

(** When the log is committing or could run out of space, the process sleeps. *)
Lemma begin_op_waits k l disk V D H :
  st k l disk V D H → lg_committing l = true ∨ lg_n l + (lg_outstanding l + 1) * MAXOPBLOCKS > LOGSIZE →
  (begin_op k).1 = Stop Swtch.
Proof.
  intros S Hw. pose proof (fs_ctx _ _ _ _ _ _ _ _ S) as X.
  pose proof X as [_ Hlen (c & cp & p & pr & Hc & Hz & Hp & Hpr & _)].
  unfold begin_op, begin_op_loop. mstep (acquire_spec L_log k c cp Hc ltac:(lia) (ctx_free _ _ _ X)). rewrite bind_gets.
  change (k_log (locked L_log c k)) with (k_log k). rewrite (fs_log _ _ _ _ _ _ _ _ S).
  pose proof (sleep_spec C_log L_log k c cp p ltac:(done) Hc Hz Hp (lookup_lt_Some _ _ _ Hpr)
    (ctx_free _ _ _ X) (ctx_free _ _ _ X)) as E.
  destruct (lg_committing l) eqn:Hcm; [by rewrite E|]. destruct Hw as [Hw|Hw]; [done|].
  rewrite decide_True by done. by rewrite E.
Qed.

Lemma e_end_op_last k l N disk V D V0 :
  log_geom l N → trans_ok l N D → log_has l D → st k l disk V D [] → clean l N disk V0 →
  (∀ b, b ∈ D → length (V b) = 512%nat) → lg_outstanding l = 1 → lg_committing l = false →
  ensures (end_op k)
    (λ _ k', ∃ disk' W, clean l N disk' V ∧
       st k' (l <| lg_outstanding := 0 |> <| lg_n := 0 |>) disk' W [] [])
    (λ k', clean l N (k_disk k') V0 ∨ logged l N D (k_disk k') V).
Proof.
  intros HG HT Hh S HC HV Ho Hcm. destruct (fss_cpu _ _ _ _ _ _ S) as (c & cp & Hc & Hz & F1 & F2).
  unfold end_op. mstep (acquire_spec L_log k c cp Hc ltac:(lia) F1). mstep (upd_log_ok _ _). rewrite bind_gets.
  assert (k_log (locked L_log c k <| k_log ::= λ l, l <| lg_outstanding ::= λ n, n - 1 |> |>) =
    l <| lg_outstanding := 0 |>) as ->.
  { unfold locked, push, upd. simpl. rewrite (fs_log _ _ _ _ _ _ _ _ S). by rewrite Ho. }
  change (lg_committing (l <| lg_outstanding := 0 |>)) with (lg_committing l). rewrite Hcm.
  cbv zeta. rewrite bool_decide_true by done. cbv iota.
  set (l1 := l <| lg_outstanding := 0 |> <| lg_committing := true |>).
  destruct (log_section k l disk V D [] (λ _, l1) C_log false c cp S Hc Hz) as (k1 & E1 & S1 & _ & _).
  assert ((upd_log (λ l, l <| lg_committing := true |>);; release L_log)
    (locked L_log c k <| k_log ::= λ l, l <| lg_outstanding ::= λ n, n - 1 |> |>) = (Ok tt, k1)) as E1'.
  { rewrite <- E1. unfold upd_log. rewrite !bind_modify. unfold when. rewrite bind_ret. f_equal.
    unfold locked, push, upd. simpl. rewrite (fs_log _ _ _ _ _ _ _ _ S). unfold l1, upd. simpl. by rewrite Ho. }
  rewrite <- bind_assoc. mstep E1'. unfold when at 1.
  assert (same_geom l l1) as GG by done.
  eapply ensures_bind.
  { eapply ensures_mono; [eapply (commit_spec pid k0 k1 l1 N D disk V V0)|intros ? ? HQ; exact HQ|].
    - by eapply same_geom_ok.
    - by eapply same_geom_trans.
    - done.
    - done.
    - by eapply same_geom_clean.
    - done.
    - intros k' [Hk|Hk]; [left; by eapply same_geom_clean, Hk|right; by eapply same_geom_logged, Hk]. }
  intros [] k2 (disk2 & W2 & S2 & C2). destruct (fss_cpu _ _ _ _ _ _ S2) as (c2 & cp2 & Hc2 & Hz2 & F3 & F4).
  mstep (acquire_spec L_log k2 c2 cp2 Hc2 ltac:(lia) F3).
  destruct (log_section k2 _ disk2 W2 [] [] (λ l, l <| lg_committing := false |>) C_log true c2 cp2 S2 Hc2 Hz2)
    as (k3 & E3 & S3 & _ & _). unfold when in E3. rewrite E3. exists disk2, W2. split.
  - by eapply same_geom_clean, C2.
  - replace (l <| lg_outstanding := 0 |> <| lg_n := 0 |>)
      with (l1 <| lg_n := 0 |> <| lg_committing := false |>); [done|].
    unfold l1, upd. destruct l; simpl in *. by subst.
Qed.
End transactions.

(** The writes of a file system call. *)
Definition write_block (w : Z * list Z) : K unit :=
  i ← bread 1 w.1;
  set_bdata i w.2;;
  log_write i;;
  brelse i.
Definition fs_call (ws : list (Z * list Z)) : K unit :=
  begin_op;;
  each write_block ws;;
  end_op.

(** Their effect. *)
Definition apply_writes (V : Z → list Z) (ws : list (Z * list Z)) : Z → list Z :=
  foldl (λ V w, fupd V w.1 w.2) V ws.

Definition writes_ok (l : log) (N : Z) (ws : list (Z * list Z)) : Prop :=
  Forall (λ w, 0 ≤ w.1 < N ∧ ¬ log_area l w.1 ∧ w.1 ≠ 1 ∧ length w.2 = 512%nat) ws.

Lemma apply_snoc V ws w : apply_writes V (ws ++ [w]) = fupd (apply_writes V ws) w.1 w.2.
Proof. unfold apply_writes. by rewrite foldl_app. Qed.

Lemma apply_len V ws b :
  Forall (λ w, length w.2 = 512%nat) ws → b ∈ ws.*1 → length (apply_writes V ws b) = 512%nat.
Proof.
  induction ws as [|w ws IH] using rev_ind; intros Hf Hb; [by apply not_elem_of_nil in Hb|].
  apply Forall_app in Hf as [Hf Hw]. inversion_clear Hw as [|? ? Hw1 _]. rewrite apply_snoc.
  destruct (decide (b = w.1)) as [->|Hne]; [rewrite fupd_eq; exact Hw1|]. rewrite fupd_ne by done. apply IH; [done|].
  rewrite fmap_app, elem_of_app in Hb. destruct Hb as [?|Hb]; [done|].
  simpl in Hb. apply list_elem_of_singleton in Hb. done.
Qed.

Lemma pin_length b D : (length (pin b D) ≤ S (length D))%nat.
Proof. unfold pin. case_decide; [lia|]. rewrite length_app. simpl. lia. Qed.

Lemma write_block_spec pid k0 k l N disk V D w C :
  log_geom l N → fss pid k0 k l disk V D [] → log_has l D → Z.of_nat (length disk) = N → 0 ≤ w.1 < N →
  Z.of_nat (length D) < lg_size l - 1 → (length D < 29)%nat → 1 ≤ lg_outstanding l →
  ensures (write_block w k)
    (λ _ k', fss pid k0 k' (after_log_write w.1 l D) disk (fupd V w.1 w.2) (pin w.1 D) []) C.
Proof.
  intros HG S Hh HN Hb H1 H2 H3. unfold write_block.
  eapply ensures_bind; [eapply e_bread; [exact S|lia|by apply not_elem_of_nil|right; unfold NBUF; simpl; lia]|].
  intros i k1 [_ S1]. eapply ensures_bind; [eapply e_set; [exact S1|left]|]. intros [] k2 S2.
  eapply ensures_bind; [eapply e_log_write; [exact S2|left|done|apply HG|done|lia|done]|]. intros [] k3 S3.
  eapply (ensures_mono _ _ _ (λ _, False)); [eapply e_brelse; [exact S3|left|left; apply pin_in; by left]| |done].
  intros [] k4 S4. by rewrite unheld_head in S4 by (simpl; apply not_elem_of_nil).
Qed.

Lemma writes_spec pid k0 k l N disk V0 ws C :
  log_geom l N → fss pid k0 k l disk V0 [] [] → lg_n l = 0 → lg_outstanding l = 1 → lg_committing l = false →
  Z.of_nat (length disk) = N → writes_ok l N ws →
  (length ws ≤ 10)%nat → 10 < lg_size l - 1 →
  ensures (each write_block ws k)
    (λ _ k', ∃ l' D, fss pid k0 k' l' disk (apply_writes V0 ws) D [] ∧ log_has l' D ∧ same_geom l l' ∧
       trans_ok l N D ∧ (∀ b, b ∈ D → b ∈ ws.*1) ∧ lg_outstanding l' = 1 ∧ lg_committing l' = false) C.
Proof.
  intros HG S Hn Ho Hcm HN Hw Hlen Hsz.
  set (Inv := λ n k', ∃ l' D, fss pid k0 k' l' disk (apply_writes V0 (take n ws)) D [] ∧ log_has l' D ∧
    same_geom l l' ∧ NoDup D ∧ (∀ b, b ∈ D → b ∈ (take n ws).*1) ∧ (length D ≤ n)%nat ∧
    lg_outstanding l' = 1 ∧ lg_committing l' = false).
  eapply (ensures_mono _ (λ _ k', Inv (length ws) k') _ C); [| |done].
  { apply ensures_each.
    - exists l, []. split_and!; try done; try (by constructor); by intros b ?%not_elem_of_nil.
    - intros n w k' Hwn (l' & D & S' & Hh & GG & Hnd & Hin & Hl & Ho' & Hc').
      pose proof (lookup_lt_Some _ _ _ Hwn) as Hlt. pose proof (same_geom_ok _ _ _ GG HG) as HG'.
      unfold writes_ok in Hw. rewrite Forall_lookup in Hw. destruct (Hw n w Hwn) as (W1 & W2 & W3 & W4).
      pose proof GG as (_ & _ & Ez & _).
      eapply ensures_mono; [eapply (write_block_spec pid k0 k' l' N); try done; lia| |intros ? HC; exact HC].
      intros [] k2 S2. destruct (after_log_write_has w.1 l' D Hh) as [H1 H2]; [apply HG'|lia|].
      exists (after_log_write w.1 l' D), (pin w.1 D). rewrite (take_S_r ws n w Hwn), apply_snoc.
      split_and!; [done|done| |by apply pin_nodup| | | |].
      + destruct GG as (A1 & A2 & A3 & A4), H2 as (B1 & B2 & B3 & B4). split_and!; congruence.
      + intros b [->|Hb]%pin_in; rewrite fmap_app, elem_of_app; [right; simpl; left|left; by apply Hin].
      + pose proof (pin_length w.1 D). lia.
      + unfold after_log_write. by case_decide.
      + unfold after_log_write. by case_decide. }
  intros [] k' (l' & D & S' & Hh & GG & Hnd & Hin & Hl & Ho' & Hc'). rewrite take_ge in S', Hin by done.
  exists l', D. split_and!; try done. split; [done| |lia|].
  - intros b Hb. apply Hin, list_elem_of_fmap in Hb as (w & -> & Hwi).
    unfold writes_ok in Hw. rewrite Forall_forall in Hw. destruct (Hw w Hwi) as (W1 & W2 & _). done.
  - intros Hb. apply Hin, list_elem_of_fmap in Hb as (w & E & Hwi).
    unfold writes_ok in Hw. rewrite Forall_forall in Hw. destruct (Hw w Hwi) as (_ & _ & W3 & _). done.
Qed.

(** C1: a file system call that makes up to MAXOPBLOCKS block writes through
    [begin_op], [log_write] and [end_op], started while no other call is active,
    never panics; if it returns, the disk holds the old content with exactly its
    writes applied, and if the power fails anywhere in it the disk holds, after
    the restarts, either the old content or the content with all of its writes. *)
Theorem fs_call_atomic pid k l N V0 ws :
  log_geom l N → 10 < lg_size l - 1 → fss pid k k l (k_disk k) V0 [] [] →
  lg_n l = 0 → lg_outstanding l = 0 → lg_committing l = false →
  clean l N (k_disk k) V0 → sb_for l V0 → 1 < N → writes_ok l N ws → (length ws ≤ 10)%nat →
  (∃ k', fs_call ws k = (Ok tt, k') ∧ clean l N (k_disk k') (apply_writes V0 ws)) ∨
  (∃ k', fs_call ws k = (Stop PowerOff, k') ∧
     ∀ d, restarts pid (k_disk k') d → clean l N d V0 ∨ clean l N d (apply_writes V0 ws)).
Proof.
  intros HG Hsz S Hn Ho Hcm HC HSB HN1 Hw Hlen. set (V := apply_writes V0 ws).
  set (l1 := l <| lg_outstanding := 1 |>). assert (same_geom l l1) as G1 by done.
  pose proof HC as ((HN & HF) & _ & HH).
  assert (ensures (fs_call ws k) (λ _ k', clean l N (k_disk k') V)
    (λ k', clean l N (k_disk k') V0 ∨ recoverable l N (k_disk k') V)) as E.
  { unfold fs_call. eapply ensures_bind.
    { eapply e_begin_op; [exact S|done|]. rewrite Hn, Ho. unfold MAXOPBLOCKS, LOGSIZE, MAXOPBLOCKS. lia. }
    intros [] k1 [S1 _]. replace (l <| lg_outstanding ::= λ n, n + 1 |>) with l1 in S1.
    2:{ unfold l1, upd. by rewrite Ho. }
    eapply ensures_bind.
    { eapply (writes_spec pid k k1 l1 N _ V0 ws); try done. by eapply same_geom_ok. }
    intros [] k2 (l2 & D & S2 & Hh & G2 & HT & Hin & Ho2 & Hc2).
    assert (same_geom l l2) as G3 by (destruct G1 as (?&?&?&?), G2 as (?&?&?&?); split_and!; congruence).
    eapply ensures_mono; [eapply (e_end_op_last pid k k2 l2 N (k_disk k) V D V0); try done| |].
    - by eapply same_geom_ok.
    - by eapply (same_geom_trans l1).
    - by eapply same_geom_clean.
    - intros b Hb. apply apply_len; [|by apply Hin].
      unfold writes_ok in Hw. eapply Forall_impl; [exact Hw|]. by intros w (_ & _ & _ & ?).
    - intros [] k3 (d & W & C3 & S3). rewrite (fs_disk _ _ _ _ _ _ _ _ S3).
      by eapply same_geom_clean, C3; apply same_geom_sym.
    - intros k3 [C3|L3]; [left; eapply same_geom_clean, C3; by apply same_geom_sym|].
      right. exists D. split; [by eapply (same_geom_trans l1), HT|]. eapply same_geom_logged, L3. by apply same_geom_sym. }
  assert (sb_for l V) as HSV.
  { assert (∀ us, (∀ w, w ∈ us → w.1 ≠ 1) → apply_writes V0 us 1 = V0 1) as Hap.
    { intros us. induction us as [|w us IH] using rev_ind; intros Hu; [done|]. rewrite apply_snoc.
      rewrite fupd_ne; [|intros H1; apply (Hu w); [apply elem_of_app; right; left|done]]. apply IH.
      intros w' Hw'. apply Hu, elem_of_app. by left. }
    unfold sb_for, V. rewrite Hap; [done|]. unfold writes_ok in Hw. rewrite Forall_forall in Hw.
    intros w (_ & _ & ? & _)%Hw. done. }
  destruct (fs_call ws k) as [[[]|[]] k']; try done.
  - left. by exists k'.
  - right. exists k'. split; [done|]. intros d Hr. simpl in E. destruct E as [E|E].
    + left. eapply restarts_spec; try done. by apply clean_recoverable.
    + right. by eapply restarts_spec.
Qed.

(** A disk of sixteen blocks, with its log in blocks 2 to 13. *)
Definition call_disk : list (list Z) :=
  [replicate 512 0; put32 (put32 (replicate 512 0) 12 12) 16 2] ++ replicate 14 (replicate 512 0).
Definition call_log : log := Log 2 12 0 false 1 0 (replicate 30 0).
Definition call_state (w : option nat) : kernel :=
  running0 call_disk <| k_log := call_log |> <| k_power := w |>.

Lemma fs_call_atomic_witness :
  ∃ k', fs_call [(14, replicate 512 7); (15, replicate 512 9)] (call_state (Some 4%nat)) = (Stop PowerOff, k') ∧
    ∀ d, restarts 1 (k_disk k') d →
      clean call_log 16 d (disk_view call_disk) ∨
      clean call_log 16 d (apply_writes (disk_view call_disk) [(14, replicate 512 7); (15, replicate 512 9)]).
Proof.
  destruct (fs_call_atomic 1 (call_state (Some 4%nat)) call_log 16 (disk_view call_disk)
    [(14, replicate 512 7); (15, replicate 512 9)]) as [(k' & E & _)|H]; [..|exact H].
  - split; simpl; lia.
  - simpl. lia.
  - split; [apply frame_refl| |done|done|exact (binit_rep 1 call_disk)].
    by eapply (ctx_ext (running0 call_disk) _ 1 (running0_ctx _)).
  - done.
  - done.
  - done.
  - split_and!; [split; [done|by repeat constructor]|reflexivity|].
    intros b Hb Hn. unfold disk_view.
    destruct (lookup_lt_is_Some_2 call_disk (Z.to_nat b)) as [x Hx]; [simpl; lia|]. by rewrite Hx.
  - split_and!; [reflexivity|reflexivity|]. unfold log_area. simpl. lia.
  - lia.
  - repeat constructor; unfold log_area; simpl; lia.
  - simpl. lia.
  - exfalso. assert ((fs_call [(14, replicate 512 7); (15, replicate 512 9)] (call_state (Some 4%nat))).1
      = Stop PowerOff) as E2 by (vm_compute; reflexivity). by rewrite E in E2.
Defined.

(** ** The reservation and the limit *)

(** Run [m] as process [i] of the only CPU. *)
Definition run_as {A} (i : nat) (m : K A) : K A :=
  modify (λ k, k <| k_cpus ::= alter (λ c, c <| c_proc := Some i |>) 0%nat |>);; m.

(** Three processes in the middle of system calls, each about to write ten blocks
    ([MAXOPBLOCKS]) of a file system whose log has [LOGSIZE] blocks, as mkfs makes it. *)
Definition full_disk : list (list Z) := replicate 80 (replicate 512 0).
Definition full_state : kernel :=
  running0 full_disk
    <| k_procs ::= λ ps, <[1%nat := proc0 <| p_pid := 2 |> <| p_state := RUNNABLE |>]>
                        (<[2%nat := proc0 <| p_pid := 3 |> <| p_state := RUNNABLE |>]> ps) |>
    <| k_log := Log 2 LOGSIZE 0 false 1 0 (replicate 30 0) |>.
Definition ten_writes (b : Z) : K unit := each (λ i, write_block (b + i, replicate 512 1)) (seqZ 0 MAXOPBLOCKS).

