(* ===== verification/Tx.v ===== *)
(** * Inside a transaction

    What the code between [begin_op] and [end_op] relies on and keeps: [tx]
    describes the state of the block layer in the middle of a transaction by the
    content [V] of the blocks as the code sees it, the blocks [D] written so far
    and the buffers [H] held, and the lemmas below give the effect of the block
    operations on it. *)

From S2P Require Import Prelude Memory State Spinlock Sched Sleeplock BufList Bio Log.

Section tx.
Context (pid : Z) (l0 : log) (disk : list (list Z)).
Implicit Types (k : kernel) (V : Z → list Z) (D : list Z) (H : list (nat * Z)) (C : kernel → Prop).

(** The number of blocks of the disk, and the blocks a transaction may write. *)
Notation N := (Z.of_nat (length disk)).
Definition home (b : Z) : Prop := 0 < b < N ∧ ¬ log_area l0 b ∧ b ≠ 1.
#[global] Instance home_dec b : Decision (home b).
Proof. unfold home. apply _. Defined.

Lemma home_range b : home b → 0 ≤ b < N.
Proof. intros [? _]. lia. Qed.

(** The log as [begin_op] has left it. *)
Record log_open : Prop := {
  lo_geom : log_geom l0 N;
  lo_size : LOGSIZE ≤ lg_size l0;
  lo_out : 1 ≤ lg_outstanding l0 }.

Record tx k0 k V D H : Prop := {
  tx_fss : ∃ l, fss pid k0 k l disk V D H ∧ log_has l D ∧ same_geom l0 l ∧
    lg_outstanding l = lg_outstanding l0 ∧ lg_committing l = lg_committing l0;
  tx_home : ∀ b, b ∈ D → home b;
  tx_len : ∀ b, 0 ≤ b < N → length (V b) = 512%nat;
  tx_sync : ∀ b, 0 ≤ b < N → b ∈ D ∨ disk !! Z.to_nat b = Some (V b) }.

Lemma tx_held k0 k V D H i b : tx k0 k V D H → (i, b) ∈ H → 0 ≤ b < N.
Proof.
  intros [(l & S & _) _ _ _] Hin. pose proof (fs_rep _ _ _ _ _ _ _ _ S) as B.
  destruct (br_held _ _ _ _ _ _ B i b Hin) as (Hi & x & E & _ & _ & Dx & <-).
  by apply (br_cached _ _ _ _ _ _ B i x).
Qed.

Lemma tx_bread k0 k V D H b C :
  tx k0 k V D H → 0 ≤ b < N → b ∉ H.*2 → (length H + length D < NBUF)%nat →
  ensures (bread 1 b k) (λ i k', i ∉ H.*1 ∧ tx k0 k' V D ((i, b) :: H)) C.
Proof.
  intros [(l & S & HL) T2 T3 T4] Hb Hn Hr.
  eapply (ensures_mono _ _ _ (λ _, False)); [eapply e_bread; [exact S|done|done|by right]| |done].
  intros i k' [Hi S']. split; [done|]. split; [|done..]. by exists l.
Qed.

Lemma tx_bdata k0 k V D H i b C :
  tx k0 k V D H → (i, b) ∈ H → ensures (bdata i k) (λ d k', d = V b ∧ tx k0 k' V D H) C.
Proof.
  intros [(l & S & HL) T2 T3 T4] Hin.
  eapply (ensures_mono _ _ _ (λ _, False)); [by eapply e_bdata| |done].
  intros d k' [-> S']. split; [done|]. split; [|done..]. by exists l.
Qed.

Lemma tx_brelse k0 k V D H i b C :
  tx k0 k V D ((i, b) :: H) → i ∉ H.*1 →
  ensures (brelse i k) (λ _ k', tx k0 k' V D H) C.
Proof.
  intros T Hi. pose proof T as [(l & S & HL) T2 T3 T4].
  eapply (ensures_mono _ _ _ (λ _, False)).
  - eapply e_brelse; [exact S|left|]. eapply T4, tx_held; [exact T|left].
  - intros [] k' S'. rewrite unheld_head in S' by done. split; [|done..]. by exists l.
  - done.
Qed.

(** A modified buffer goes into the transaction. *)
Lemma tx_update {A} k0 k V D H i b d (f : K A) Q C :
  log_open → tx k0 k V D H → (i, b) ∈ H → length d = 512%nat → home b → (length D < 29)%nat →
  (∀ k', tx k0 k' (fupd V b d) (pin b D) H → ensures (f k') Q C) →
  ensures ((set_bdata i d;; log_write i;; f) k) Q C.
Proof.
  intros LO [(l & S & Hh & GG & Ho & Hc) T2 T3 T4] Hin Hd Hb HD Hf.
  pose proof LO as [HG Hsz Hout]. pose proof (same_geom_ok _ _ _ GG HG) as HG'.
  pose proof GG as (_ & _ & Ez & _). unfold LOGSIZE, MAXOPBLOCKS in Hsz.
  eapply ensures_bind; [by eapply e_set|]. intros [] k1 S1.
  eapply ensures_bind; [eapply e_log_write; [exact S1|exact Hin|done|apply HG'|lia|lia|lia]|].
  intros [] k2 S2. apply Hf. destruct (after_log_write_has b l D Hh) as [H1 H2]; [apply HG'|lia|].
  split.
  - exists (after_log_write b l D). split; [done|]. split; [done|]. split.
    + destruct GG as (A1 & A2 & A3 & A4), H2 as (B1 & B2 & B3 & B4). split_and!; congruence.
    + unfold after_log_write. by case_decide.
  - intros c [->|Hc']%pin_in; auto.
  - intros c Hc'. destruct (decide (c = b)) as [->|Hne]; [by rewrite fupd_eq|]. rewrite fupd_ne by done. auto.
  - intros c Hc'. destruct (decide (c = b)) as [->|Hne]; [left; apply pin_in; by left|].
    rewrite fupd_ne by done. destruct (T4 c Hc') as [?|?]; [left; apply pin_in; by right|by right].
Qed.

Lemma tx_sb k0 k V D H : tx k0 k V D H → k_sb k = k_sb k0.
Proof.
  intros [(l & S & _) _ _ _]. destruct (fs_frame _ _ _ _ _ _ _ _ S) as [F _].
  by apply (f_equal k_sb) in F.
Qed.

Lemma tx_icache k0 k V D H : tx k0 k V D H → k_icache k = k_icache k0.
Proof.
  intros [(l & S & _) _ _ _]. destruct (fs_frame _ _ _ _ _ _ _ _ S) as [F _].
  by apply (f_equal k_icache) in F.
Qed.

(** A change of the inode cache does not touch the block layer. *)
Lemma tx_upd_inode k0 k V D H (f : list inode → list inode) :
  tx k0 k V D H → tx (k0 <| k_icache ::= f |>) (k <| k_icache ::= f |>) V D H.
Proof.
  intros [(l & [F X E1 E2 R] & HL) T2 T3 T4]. split; [|done..]. exists l. split; [|done]. split; try done.
  - destruct F as [F W]. split; [|done]. pose proof (f_equal (λ k, k <| k_icache ::= f |>) F) as F'. exact F'.
  - by eapply (ctx_ext k).
Qed.

Lemma tx_set_sb k0 k V D H sb : tx k0 k V D H → tx (k0 <| k_sb := sb |>) (k <| k_sb := sb |>) V D H.
Proof.
  intros [(l & [F X E1 E2 R] & HL) T2 T3 T4]. split; [|done..]. exists l. split; [|done]. split; try done.
  - destruct F as [F W]. split; [|done]. exact (f_equal (λ k, k <| k_sb := sb |>) F).
  - by eapply (ctx_ext k).
Qed.

Lemma tx_nodup k0 k V D H : tx k0 k V D H → NoDup D.
Proof. intros [(l & S & _) _ _ _]. apply (br_nodupD _ _ _ _ _ _ (fs_rep _ _ _ _ _ _ _ _ S)). Qed.
End tx.
