(* ===== verification/Fs.v ===== *)
(** * The file system (fs.c)

    Blocks, inodes, file contents, directories and path names.  An inode pointer
    is an index into the inode cache, a C string the list of its characters
    before the NUL.  [readi] returns the bytes it copies out with its result,
    [writei] takes the bytes it copies in; the caller moves them from and to
    memory.  The device switch table is an interface ([DevSw]), which the
    console implements. *)

From S2P Require Import Prelude Memory Strings State Spinlock Cons Sched Sleeplock BufList Bio Log.

(** ** Blocks *)

Definition set_sb (sb : superblock) : K unit := modify (λ k, k <| k_sb := sb |>).

(** Bitmap bits per block and the bitmap block of [b]. *)
Definition BPB : Z := BSIZE * 8.
Definition BBLOCK (b : Z) (sb : superblock) : Z := b / BPB + sb_bmapstart sb.

Definition bzero (dev bno : Z) : K unit :=
  bp ← bread dev bno;
  set_bdata bp (replicate 512 0);;
  log_write bp;;
  brelse bp.

(** bp->data[bi/8] & m, with m = 1 << (bi % 8). *)
Definition bit_mask (bi : Z) : Z := Z.shiftl 1 (bi mod 8).
Definition bit_used (d : list Z) (bi : Z) : bool :=
  negb (Z.land (byte_at d (Z.to_nat (bi / 8))) (bit_mask bi) =? 0).
Definition set_bit (d : list Z) (bi : Z) : list Z :=
  <[Z.to_nat (bi / 8) := Z.lor (byte_at d (Z.to_nat (bi / 8))) (bit_mask bi)]> d.
Definition clear_bit (d : list Z) (bi : Z) : list Z :=
  <[Z.to_nat (bi / 8) := Z.land (byte_at d (Z.to_nat (bi / 8))) (Z.lnot (bit_mask bi))]> d.

(** The inner loop of [balloc]: the first free bit among the [n] bits from [bi]. *)
Fixpoint find_free (d : list Z) (bi : Z) (n : nat) : option Z :=
  match n with
  | O => None
  | S n' => if bit_used d bi then find_free d (bi + 1) n' else Some bi
  end.

(** One iteration of the outer loop of [balloc]. *)
Definition balloc_body (dev : Z) (sb : superblock) (b : Z) : K (Z + unit) :=
  bp ← bread dev (BBLOCK b sb);
  d ← bdata bp;
  match find_free d 0 (Z.to_nat (BPB `min` (sb_size sb - b))) with
  | Some bi =>
      set_bdata bp (set_bit d bi);;
      log_write bp;;
      brelse bp;;
      bzero dev (b + bi);;
      mret (inl (b + bi))
  | None => brelse bp;; mret (inr tt)
  end.
Definition balloc (dev : Z) : K Z :=
  sb ← gets k_sb;
  r ← scan (λ i, balloc_body dev sb (i * BPB)) (seqZ 0 ((sb_size sb + BPB - 1) / BPB));
  match r with Some b => mret b | None => panic "balloc: out of blocks" end.

Definition bfree (dev b : Z) : K unit :=
  sb ← readsb dev;
  set_sb sb;;
  bp ← bread dev (BBLOCK b sb);
  d ← bdata bp;
  if negb (bit_used d (b mod BPB)) then panic "freeing free block" else
  set_bdata bp (clear_bit d (b mod BPB));;
  log_write bp;;
  brelse bp.

(** ** Inodes *)

Definition iinit (dev : Z) : K unit :=
  initlock L_icache;;
  each (λ i, initsleeplock (SL_inode i)) (seq 0 NINODE);;
  sb ← readsb dev;
  set_sb sb;;
  cprintf ("sb: size %d nblocks %d ninodes %d nlog %d logstart %d inodestart %d bmap start %d" +:+ nl)
    (map PInt [sb_size sb; sb_nblocks sb; sb_ninodes sb; sb_nlog sb; sb_logstart sb;
               sb_inodestart sb; sb_bmapstart sb]).

(** struct dinode, 64 bytes: four shorts, the size and 13 block addresses. *)
Record dinode := Dinode {
  di_type : Z;
  di_major : Z;
  di_minor : Z;
  di_nlink : Z;
  di_size : Z;
  di_addrs : list Z }.
Definition IPB : Z := BSIZE / 64.
Definition IBLOCK (i : Z) (sb : superblock) : Z := i / IPB + sb_inodestart sb.
Definition dinode_off (inum : Z) : nat := (64 * Z.to_nat (inum mod IPB))%nat.
Definition get_dinode (d : list Z) (o : nat) : dinode :=
  Dinode (i16 (get16 d o)) (i16 (get16 d (o + 2))) (i16 (get16 d (o + 4))) (i16 (get16 d (o + 6)))
    (get32 d (o + 8)) (map (λ i, get32 d (o + 12 + 4 * i)) (seq 0 13)).
Definition put_addrs (d : list Z) (o : nat) (a : list Z) : list Z :=
  foldl (λ d i, put32 d (o + 12 + 4 * i) (nth i a 0)) d (seq 0 13).
Definition put_dinode (d : list Z) (o : nat) (di : dinode) : list Z :=
  put_addrs
    (put32 (put16 (put16 (put16 (put16 d o (di_type di)) (o + 2) (di_major di)) (o + 4) (di_minor di))
       (o + 6) (di_nlink di)) (o + 8) (di_size di))
    o (di_addrs di).

(** The on-disk part of a cached inode. *)
Definition dinode_of (x : inode) : dinode :=
  Dinode (i_type x) (i_major x) (i_minor x) (i_nlink x) (i_size x) (i_addrs x).
Definition load_dinode (di : dinode) (x : inode) : inode :=
  x <| i_type := di_type di |> <| i_major := di_major di |> <| i_minor := di_minor di |>
    <| i_nlink := di_nlink di |> <| i_size := di_size di |> <| i_addrs := di_addrs di |>.

Definition iupdate (ip : nat) : K unit :=
  x ← the_inode ip;
  sb ← gets k_sb;
  bp ← bread (i_dev x) (IBLOCK (i_inum x) sb);
  d ← bdata bp;
  set_bdata bp (put_dinode d (dinode_off (i_inum x)) (dinode_of x));;
  log_write bp;;
  brelse bp.

(** The scan of [iget]: an entry for the inode, or the first empty entry. *)
Fixpoint find_inode (dev inum : Z) (l : list inode) (i : nat) (empty : option nat) : nat + option nat :=
  match l with
  | [] => inr empty
  | x :: l' =>
      if bool_decide (i_ref x > 0 ∧ i_dev x = dev ∧ i_inum x = inum) then inl i
      else find_inode dev inum l' (S i)
             (match empty with
              | None => if bool_decide (i_ref x = 0) then Some i else None
              | Some _ => empty
              end)
  end.
Definition iget (dev inum : Z) : K nat :=
  acquire L_icache;;
  l ← gets k_icache;
  match find_inode dev inum l 0 None with
  | inl i =>
      upd_inode i (λ x, x <| i_ref ::= λ n, n + 1 |>);;
      release L_icache;;
      mret i
  | inr None => panic "iget: no inodes"
  | inr (Some i) =>
      upd_inode i (λ x, x <| i_dev := dev |> <| i_inum := inum |> <| i_ref := 1 |> <| i_valid := false |>);;
      release L_icache;;
      mret i
  end.

(** One iteration of the loop of [ialloc]. *)
Definition ialloc_body (dev type : Z) (sb : superblock) (inum : Z) : K (nat + unit) :=
  bp ← bread dev (IBLOCK inum sb);
  d ← bdata bp;
  if decide (di_type (get_dinode d (dinode_off inum)) = 0) then
    set_bdata bp (put_dinode d (dinode_off inum) (Dinode type 0 0 0 0 (replicate 13 0)));;
    log_write bp;;
    brelse bp;;
    ip ← iget dev inum;
    mret (inl ip)
  else brelse bp;; mret (inr tt).
Definition ialloc (dev type : Z) : K nat :=
  sb ← gets k_sb;
  r ← scan (ialloc_body dev type sb) (seqZ 1 (sb_ninodes sb - 1));
  match r with Some ip => mret ip | None => panic "ialloc: no inodes" end.

Definition idup (ip : nat) : K nat :=
  acquire L_icache;;
  upd_inode ip (λ x, x <| i_ref ::= λ n, n + 1 |>);;
  release L_icache;;
  mret ip.

Definition ilock (ip : nat) : K unit :=
  x ← the_inode ip;
  if decide (i_ref x < 1) then panic "ilock" else
  acquiresleep (SL_inode ip);;
  x ← the_inode ip;
  when (negb (i_valid x))
    (sb ← gets k_sb;
     bp ← bread (i_dev x) (IBLOCK (i_inum x) sb);
     d ← bdata bp;
     upd_inode ip (load_dinode (get_dinode d (dinode_off (i_inum x))));;
     brelse bp;;
     upd_inode ip (λ x, x <| i_valid := true |>);;
     x ← the_inode ip;
     if decide (i_type x = 0) then panic "ilock: no type" else mret tt).

Definition iunlock (ip : nat) : K unit :=
  h ← holdingsleep (SL_inode ip);
  x ← the_inode ip;
  if negb h || bool_decide (i_ref x < 1) then panic "iunlock" else
  releasesleep (SL_inode ip).

(** ** File contents *)

Definition set_addr (ip : nat) (i : Z) (a : Z) : K unit :=
  upd_inode ip (λ x, x <| i_addrs ::= <[Z.to_nat i := a]> |>).

(** ip->addrs[i], allocated if it is zero. *)
Definition addr_or_alloc (ip : nat) (i : Z) : K Z :=
  x ← the_inode ip;
  let addr := nth (Z.to_nat i) (i_addrs x) 0 in
  if decide (addr = 0) then
    a ← balloc (i_dev x);
    set_addr ip i a;;
    mret a
  else mret addr.

Definition bmap (ip : nat) (bn : Z) : K Z :=
  if decide (bn < NDIRECT) then addr_or_alloc ip bn else
  let bn := bn - NDIRECT in
  if decide (bn < NINDIRECT) then
    ind ← addr_or_alloc ip NDIRECT;
    x ← the_inode ip;
    bp ← bread (i_dev x) ind;
    d ← bdata bp;
    addr ← (if decide (get32 d (4 * Z.to_nat bn) = 0) then
              a ← balloc (i_dev x);
              d ← bdata bp;
              set_bdata bp (put32 d (4 * Z.to_nat bn) a);;
              log_write bp;;
              mret a
            else mret (get32 d (4 * Z.to_nat bn)));
    brelse bp;;
    mret addr
  else panic "bmap: out of range".

(** The body of the first loop of [itrunc], and of the one over the indirect block. *)
Definition trunc_direct (ip : nat) (i : Z) : K unit :=
  x ← the_inode ip;
  when (bool_decide (nth (Z.to_nat i) (i_addrs x) 0 ≠ 0))
    (bfree (i_dev x) (nth (Z.to_nat i) (i_addrs x) 0);;
     set_addr ip i 0).
Definition trunc_indirect (ip : nat) (bp : nat) (j : Z) : K unit :=
  x ← the_inode ip;
  a ← bdata bp;
  when (bool_decide (get32 a (4 * Z.to_nat j) ≠ 0)) (bfree (i_dev x) (get32 a (4 * Z.to_nat j))).
Definition itrunc (ip : nat) : K unit :=
  each (trunc_direct ip) (seqZ 0 NDIRECT);;
  x ← the_inode ip;
  let ind := nth (Z.to_nat NDIRECT) (i_addrs x) 0 in
  when (bool_decide (ind ≠ 0))
    (bp ← bread (i_dev x) ind;
     each (trunc_indirect ip bp) (seqZ 0 NINDIRECT);;
     brelse bp;;
     bfree (i_dev x) ind;;
     set_addr ip NDIRECT 0);;
  upd_inode ip (λ x, x <| i_size := 0 |>);;
  iupdate ip.

Definition iput (ip : nat) : K unit :=
  acquiresleep (SL_inode ip);;
  x ← the_inode ip;
  when (i_valid x && bool_decide (i_nlink x = 0))
    (acquire L_icache;;
     x ← the_inode ip;
     let r := i_ref x in
     release L_icache;;
     when (bool_decide (r = 1))
       (itrunc ip;;
        upd_inode ip (λ x, x <| i_type := 0 |>);;
        iupdate ip;;
        upd_inode ip (λ x, x <| i_valid := false |>)));;
  releasesleep (SL_inode ip);;
  acquire L_icache;;
  upd_inode ip (λ x, x <| i_ref ::= λ n, n - 1 |>);;
  release L_icache.

Definition iunlockput (ip : nat) : K unit := iunlock ip;; iput ip.

Record stat := Stat { st_type : Z; st_dev : Z; st_ino : Z; st_nlink : Z; st_size : Z }.
Definition stati (ip : nat) : K stat :=
  x ← the_inode ip;
  mret (Stat (i_type x) (i32 (i_dev x)) (i_inum x) (i_nlink x) (i_size x)).

(** devsw[major].read and .write: the inode and a byte count, or the bytes. *)
Class DevSw := {
  dev_read : Z → option (nat → Z → K (Z * list Z));
  dev_write : Z → option (nat → list Z → K Z) }.

(** The loops of [readi] and [writei]: [tot] of [n] bytes are done, [off] is the
    current offset. *)
Fixpoint readi_loop (fuel : nat) (ip : nat) (off n tot : Z) (acc : list Z) : K (list Z) :=
  match fuel with
  | O => stopped Spin
  | S f =>
      if decide (tot < n) then
        a ← bmap ip (off / BSIZE);
        x ← the_inode ip;
        bp ← bread (i_dev x) a;
        d ← bdata bp;
        let m := (n - tot) `min` (BSIZE - off mod BSIZE) in
        brelse bp;;
        readi_loop f ip (off + m) n (tot + m)
          (acc ++ take (Z.to_nat m) (drop (Z.to_nat (off mod BSIZE)) d))
      else mret acc
  end.
Fixpoint writei_loop (fuel : nat) (ip : nat) (src : list Z) (off n tot : Z) : K Z :=
  match fuel with
  | O => stopped Spin
  | S f =>
      if decide (tot < n) then
        a ← bmap ip (off / BSIZE);
        x ← the_inode ip;
        bp ← bread (i_dev x) a;
        d ← bdata bp;
        let o := Z.to_nat (off mod BSIZE) in
        let m := (n - tot) `min` (BSIZE - off mod BSIZE) in
        set_bdata bp (take o d ++ take (Z.to_nat m) src ++ drop (o + Z.to_nat m) d);;
        log_write bp;;
        brelse bp;;
        writei_loop f ip (drop (Z.to_nat m) src) (off + m) n (tot + m)
      else mret off
  end.
(** Enough for one iteration per block that [n] bytes touch. *)
Definition blocks_fuel (n : Z) : nat := Z.to_nat (n / BSIZE + 3).

Section contents.
Context `{DevSw}.

Definition readi (ip : nat) (off n : Z) : K (Z * list Z) :=
  x ← the_inode ip;
  if decide (i_type x = T_DEV) then
    if decide (i_major x < 0 ∨ NDEV ≤ i_major x) then mret (-1, []) else
    match dev_read (i_major x) with
    | None => mret (-1, [])
    | Some f => f ip n
    end
  else
  if decide (off > i_size x ∨ u32 (off + n) < off) then mret (-1, []) else
  let n := if decide (off + n > i_size x) then i_size x - off else n in
  bs ← readi_loop (blocks_fuel n) ip off n 0 [];
  mret (i32 n, bs).

Definition writei (ip : nat) (src : list Z) (off n : Z) : K Z :=
  x ← the_inode ip;
  if decide (i_type x = T_DEV) then
    if decide (i_major x < 0 ∨ NDEV ≤ i_major x) then mret (-1) else
    match dev_write (i_major x) with
    | None => mret (-1)
    | Some f => f ip (take (Z.to_nat n) src)
    end
  else
  if decide (off > i_size x ∨ u32 (off + n) < off) then mret (-1) else
  if decide (off + n > MAXFILE * BSIZE) then mret (-1) else
  off' ← writei_loop (blocks_fuel n) ip src off n 0;
  x ← the_inode ip;
  when (bool_decide (n > 0 ∧ off' > i_size x))
    (upd_inode ip (λ x, x <| i_size := off' |>);; iupdate ip);;
  mret (i32 n).

(** ** Directories *)

Definition namecmp (s t : list Z) : Z := strncmp (at_bytes s) (at_bytes t) DIRSIZ.

(** struct dirent, 16 bytes: the inode number and the name. *)
Definition de_inum (de : list Z) : Z := get16 de 0.
Definition de_name (de : list Z) : list Z := drop 2 de.
Definition dirent_bytes (inum : Z) (name : list Z) : list Z :=
  put16 (replicate 2 0) 0 inum ++ strncpy_bytes (at_bytes name) DIRSIZ.

(** The offsets 0, 16, ... below [size]. *)
Definition dirent_offs (size : Z) : list Z := map (λ i, 16 * i) (seqZ 0 ((size + 15) / 16)).

Definition dirlookup_body (dp : nat) (name : list Z) (off : Z) : K ((nat * Z) + unit) :=
  '(r, de) ← readi dp off 16;
  if decide (r ≠ 16) then panic "dirlookup read" else
  if decide (de_inum de = 0) then mret (inr tt) else
  if decide (namecmp name (de_name de) = 0) then
    x ← the_inode dp;
    ip ← iget (i_dev x) (de_inum de);
    mret (inl (ip, off))
  else mret (inr tt).
Definition dirlookup (dp : nat) (name : list Z) : K (option (nat * Z)) :=
  x ← the_inode dp;
  if decide (i_type x ≠ T_DIR) then panic "dirlookup not DIR" else
  scan (dirlookup_body dp name) (dirent_offs (i_size x)).

Definition dirlink_body (dp : nat) (off : Z) : K (Z + unit) :=
  '(r, de) ← readi dp off 16;
  if decide (r ≠ 16) then panic "dirlink read" else
  if decide (de_inum de = 0) then mret (inl off) else mret (inr tt).
Definition dirlink (dp : nat) (name : list Z) (inum : Z) : K Z :=
  f ← dirlookup dp name;
  match f with
  | Some (ip, _) => iput ip;; mret (-1)
  | None =>
      x ← the_inode dp;
      e ← scan (dirlink_body dp) (dirent_offs (i_size x));
      let off := match e with Some o => o | None => 16 * ((i_size x + 15) / 16) end in
      r ← writei dp (dirent_bytes inum name) off 16;
      if decide (r ≠ 16) then panic "dirlink" else mret 0
  end.
End contents.

(** ** Path names *)

Definition SLASH : Z := 47.
Fixpoint skip_slashes (path : list Z) : list Z :=
  match path with
  | c :: p => if decide (c = SLASH) then skip_slashes p else path
  | [] => []
  end.
Fixpoint span_elem (path : list Z) : list Z * list Z :=
  match path with
  | c :: p => if decide (c = SLASH) then ([], path) else let '(e, r) := span_elem p in (c :: e, r)
  | [] => ([], [])
  end.
(** [name] is the caller's buffer of DIRSIZ bytes. *)
Definition skipelem (path name : list Z) : option (list Z * list Z) :=
  match skip_slashes path with
  | [] => None
  | s =>
      let '(e, p) := span_elem s in
      let name' := if decide (DIRSIZ ≤ length e)%nat then take DIRSIZ e
                   else e ++ 0 :: drop (S (length e)) name in
      Some (skip_slashes p, name')
  end.

Section paths.
Context `{DevSw}.

Fixpoint namex_loop (fuel : nat) (ip : nat) (path : list Z) (parent : bool) (name : list Z) :
    K (option nat * list Z) :=
  match fuel with
  | O => stopped Spin
  | S f =>
      match skipelem path name with
      | Some (path, name) =>
          ilock ip;;
          x ← the_inode ip;
          if decide (i_type x ≠ T_DIR) then iunlockput ip;; mret (None, name) else
          if parent && bool_decide (path = []) then iunlock ip;; mret (Some ip, name) else
          next ← dirlookup ip name;
          match next with
          | None => iunlockput ip;; mret (None, name)
          | Some (next, _) => iunlockput ip;; namex_loop f next path parent name
          end
      | None => if parent then iput ip;; mret (None, name) else mret (Some ip, name)
      end
  end.
Definition namex (path : list Z) (parent : bool) (name : list Z) : K (option nat * list Z) :=
  ip ← (if decide (head path = Some SLASH) then iget ROOTDEV ROOTINO
        else
          p ← curproc;
          pr ← the_proc p;
          match p_cwd pr with Some i => idup i | None => wild end);
  namex_loop (S (length path)) ip path parent name.
Definition namei (path : list Z) : K (option nat) :=
  '(ip, _) ← namex path false (replicate DIRSIZ 0);
  mret ip.
Definition nameiparent (path name : list Z) : K (option nat * list Z) := namex path true name.
End paths.
