(* ===== verification/FsBlocks.v ===== *)
(** * Block allocation

    The free block bitmap: the bit operations of [balloc] and [bfree], which
    blocks are in use, and what the two routines do to the bitmap and to the
    content of the blocks. *)

From S2P Require Import Prelude Memory Strings State Spinlock Sched Sleeplock BufList Bio Log Tx Fs.

(** ** Bits *)

Lemma bit_used_testbit d i : bit_used d i = Z.testbit (byte_at d (Z.to_nat (i / 8))) (i mod 8).
Proof.
  unfold bit_used, bit_mask. set (x := byte_at _ _). pose proof (Z.mod_pos_bound i 8 ltac:(lia)).
  rewrite Z.shiftl_1_l. destruct (Z.testbit x (i mod 8)) eqn:E.
  - apply negb_true_iff, Z.eqb_neq. intros H0. apply (f_equal (λ z, Z.testbit z (i mod 8))) in H0.
    rewrite Z.land_spec, E, Z.pow2_bits_true, Z.bits_0 in H0 by lia. done.
  - apply negb_false_iff, Z.eqb_eq, Z.bits_inj'. intros n Hn. rewrite Z.land_spec, Z.bits_0.
    destruct (decide (n = i mod 8)) as [->|Hne]; [by rewrite E|].
    rewrite Z.pow2_bits_false by lia. by rewrite andb_false_r.
Qed.

Lemma bit_pos i j : 0 ≤ i → 0 ≤ j → Z.to_nat (i / 8) = Z.to_nat (j / 8) → i mod 8 = j mod 8 → i = j.
Proof.
  intros Hi Hj H1 H2. pose proof (Z.div_pos i 8 Hi ltac:(lia)). pose proof (Z.div_pos j 8 Hj ltac:(lia)).
  rewrite (Z.div_mod i 8), (Z.div_mod j 8) by lia. lia.
Qed.

Lemma bit_byte i (d : list Z) : 0 ≤ i < BPB → length d = 512%nat → (Z.to_nat (i / 8) < length d)%nat.
Proof. intros Hi ->. unfold BPB, BSIZE in Hi. Z.div_mod_to_equations. lia. Qed.

Lemma bit_used_set d i j :
  0 ≤ i < BPB → 0 ≤ j < BPB → length d = 512%nat →
  bit_used (set_bit d i) j = bool_decide (j = i) || bit_used d j.
Proof.
  intros Hi Hj Hd. rewrite !bit_used_testbit. unfold set_bit. pose proof (bit_byte i d Hi Hd).
  rewrite byte_at_insert by done. pose proof (Z.mod_pos_bound j 8 ltac:(lia)).
  case_decide as E.
  - rewrite Z.lor_spec. unfold bit_mask. rewrite Z.shiftl_1_l, <- E.
    destruct (decide (j = i)) as [->|Hne].
    + rewrite bool_decide_true by done. rewrite Z.pow2_bits_true by lia. by rewrite orb_true_r.
    + rewrite bool_decide_false by done. rewrite Z.pow2_bits_false; [by rewrite orb_false_r|].
      intros Hm. apply Hne, bit_pos; lia || congruence.
  - rewrite bool_decide_false; [done|]. intros ->. by apply E.
Qed.

Lemma bit_used_clear d i j :
  0 ≤ i < BPB → 0 ≤ j < BPB → length d = 512%nat →
  bit_used (clear_bit d i) j = negb (bool_decide (j = i)) && bit_used d j.
Proof.
  intros Hi Hj Hd. rewrite !bit_used_testbit. unfold clear_bit. pose proof (bit_byte i d Hi Hd).
  rewrite byte_at_insert by done. pose proof (Z.mod_pos_bound j 8 ltac:(lia)).
  case_decide as E.
  - rewrite Z.land_spec, Z.lnot_spec by lia. unfold bit_mask. rewrite Z.shiftl_1_l, <- E.
    destruct (decide (j = i)) as [->|Hne].
    + rewrite bool_decide_true by done. rewrite Z.pow2_bits_true by lia. by rewrite andb_false_r.
    + rewrite bool_decide_false by done. rewrite Z.pow2_bits_false; [by rewrite andb_true_r|].
      intros Hm. apply Hne, bit_pos; lia || congruence.
  - rewrite bool_decide_false; [done|]. intros ->. by apply E.
Qed.

Lemma set_bit_length d i : length (set_bit d i) = length d.
Proof. unfold set_bit. by rewrite length_insert. Qed.
Lemma clear_bit_length d i : length (clear_bit d i) = length d.
Proof. unfold clear_bit. by rewrite length_insert. Qed.

Lemma find_free_spec d bi n :
  match find_free d bi n with
  | Some i => bi ≤ i < bi + Z.of_nat n ∧ bit_used d i = false
  | None => ∀ i, bi ≤ i < bi + Z.of_nat n → bit_used d i = true
  end.
Proof.
  revert bi. induction n as [|n IH]; intros bi; cbn [find_free]; [intros; lia|].
  destruct (bit_used d bi) eqn:E; [|split; [lia|done]].
  specialize (IH (bi + 1)). destruct (find_free d (bi + 1) n) as [i|].
  - destruct IH. split; [lia|done].
  - intros i Hi. destruct (decide (i = bi)) as [->|]; [done|]. apply IH. lia.
Qed.

(** ** The bitmap *)

Definition used (sb : superblock) (V : Z → list Z) (b : Z) : bool :=
  bit_used (V (BBLOCK b sb)) (b mod BPB).
Definition free_blocks (sb : superblock) (V : Z → list Z) : list Z :=
  filter (λ b, used sb V b = false) (seqZ 0 (sb_size sb)).

(** Allocating and freeing a block, as views of the blocks. *)
Definition mark_view (sb : superblock) (V : Z → list Z) (b : Z) : Z → list Z :=
  fupd V (BBLOCK b sb) (set_bit (V (BBLOCK b sb)) (b mod BPB)).
Definition alloc_view (sb : superblock) (V : Z → list Z) (b : Z) : Z → list Z :=
  fupd (mark_view sb V b) b (replicate 512 0).
Definition free_view (sb : superblock) (V : Z → list Z) (b : Z) : Z → list Z :=
  fupd V (BBLOCK b sb) (clear_bit (V (BBLOCK b sb)) (b mod BPB)).

Section alloc.
Context (pid : Z) (l0 : log) (disk : list (list Z)) (sb : superblock).
Notation N := (Z.of_nat (length disk)).
Notation tx := (tx pid l0 disk).
Notation home := (home l0 disk).

(** The layout: the bitmap and the inode blocks lie in the part of the disk that
    transactions write, and apart. *)
Record layout : Prop := {
  ly_size : 1 < sb_size sb ≤ N;
  ly_bmap : ∀ b, 0 ≤ b < sb_size sb → home (BBLOCK b sb);
  ly_inode : ∀ i, 0 ≤ i < sb_ninodes sb → home (IBLOCK i sb) ∧ IBLOCK i sb < sb_size sb;
  ly_apart : ∀ b i, 0 ≤ b < sb_size sb → 0 ≤ i < sb_ninodes sb → BBLOCK b sb ≠ IBLOCK i sb }.

(** The blocks that hold no file content. *)
Definition meta (b : Z) : Prop :=
  ¬ home b ∨ (∃ c, 0 ≤ c < sb_size sb ∧ b = BBLOCK c sb) ∨
  (∃ i, 0 ≤ i < sb_ninodes sb ∧ b = IBLOCK i sb).

(** The superblock is the one read at start-up, and the metadata is marked. *)
Record fs_ok (V : Z → list Z) : Prop := {
  fo_sb : decode_sb (V 1) = sb;
  fo_len : ∀ b, 0 ≤ b < N → length (V b) = 512%nat;
  fo_meta : ∀ b, 0 ≤ b < sb_size sb → meta b → used sb V b = true }.

Lemma bbit_range b : 0 ≤ b mod BPB < BPB.
Proof. apply Z.mod_pos_bound. unfold BPB, BSIZE. lia. Qed.

Lemma bblock_inj b c : b mod BPB = c mod BPB → BBLOCK b sb = BBLOCK c sb → b = c.
Proof.
  unfold BBLOCK. intros H1 H2. assert (0 < BPB) by (unfold BPB, BSIZE; lia).
  rewrite (Z.div_mod b BPB), (Z.div_mod c BPB) by lia. replace (c / BPB) with (b / BPB) by lia. by rewrite H1.
Qed.

Context (LY : layout).

Lemma bmap_len V b : fs_ok V → 0 ≤ b < sb_size sb → length (V (BBLOCK b sb)) = 512%nat.
Proof. intros F Hb. apply F. by apply (home_range l0), (ly_bmap LY). Qed.

Lemma used_mark V b c :
  fs_ok V → 0 ≤ b < sb_size sb → 0 ≤ c < sb_size sb →
  used sb (mark_view sb V b) c = bool_decide (c = b) || used sb V c.
Proof.
  intros F Hb Hc. unfold used, mark_view. destruct (decide (BBLOCK c sb = BBLOCK b sb)) as [E|E].
  - rewrite E, fupd_eq, bit_used_set by (apply bbit_range || by apply bmap_len).
    f_equal. apply bool_decide_ext. split; [|by intros ->]. intros. by apply bblock_inj.
  - rewrite fupd_ne by done. rewrite bool_decide_false; [done|]. by intros ->.
Qed.

Lemma used_free V b c :
  fs_ok V → 0 ≤ b < sb_size sb → 0 ≤ c < sb_size sb →
  used sb (free_view sb V b) c = negb (bool_decide (c = b)) && used sb V c.
Proof.
  intros F Hb Hc. unfold used, free_view. destruct (decide (BBLOCK c sb = BBLOCK b sb)) as [E|E].
  - rewrite E, fupd_eq, bit_used_clear by (apply bbit_range || by apply bmap_len).
    do 2 f_equal. apply bool_decide_ext. split; [|by intros ->]. intros. by apply bblock_inj.
  - rewrite fupd_ne by done. rewrite bool_decide_false; [done|]. by intros ->.
Qed.

(** A free block is a block for file content. *)
Lemma free_home V b : fs_ok V → 0 ≤ b < sb_size sb → used sb V b = false → home b ∧ ¬ meta b.
Proof.
  intros F Hb Hu. assert (¬ meta b) as Hm by (intros Hm; apply (fo_meta _ F b Hb) in Hm; congruence).
  split; [|done]. destruct (decide (home b)); [done|]. destruct Hm. by left.
Qed.

Lemma used_alloc V b c :
  fs_ok V → 0 ≤ b < sb_size sb → 0 ≤ c < sb_size sb → used sb V b = false →
  used sb (alloc_view sb V b) c = bool_decide (c = b) || used sb V c.
Proof.
  intros F Hb Hc Hu. rewrite <- used_mark by done. unfold used, alloc_view.
  rewrite fupd_ne; [done|]. intros E. destruct (free_home V b F Hb Hu) as [_ Hm]. apply Hm.
  right. left. by exists c.
Qed.

Lemma mark_sb V b : fs_ok V → 0 ≤ b < sb_size sb → decode_sb (mark_view sb V b 1) = sb.
Proof.
  intros F Hb. unfold mark_view. rewrite fupd_ne; [apply F|]. intros E.
  destruct (ly_bmap LY b Hb) as (_ & _ & Hne). done.
Qed.

Lemma alloc_ok V b :
  fs_ok V → 0 ≤ b < sb_size sb → used sb V b = false → fs_ok (alloc_view sb V b).
Proof.
  intros F Hb Hu. destruct (free_home V b F Hb Hu) as [(Hr & _ & Hne) _]. split.
  - unfold alloc_view. rewrite fupd_ne by done. by apply mark_sb.
  - intros c Hc. unfold alloc_view, mark_view, fupd.
    repeat case_decide; rewrite ?set_bit_length, ?length_replicate; try done; [by apply bmap_len|by apply (fo_len _ F)].
  - intros c Hc Hm. rewrite used_alloc by done. apply orb_true_intro. right. by apply F.
Qed.

Lemma free_ok V b : fs_ok V → 0 ≤ b < sb_size sb → ¬ meta b → fs_ok (free_view sb V b).
Proof.
  intros F Hb Hm. split.
  - unfold free_view. rewrite fupd_ne; [apply F|]. intros E. destruct (ly_bmap LY b Hb) as (_ & _ & ?). done.
  - intros c Hc. unfold free_view, fupd. case_decide; rewrite ?clear_bit_length; [by apply bmap_len|by apply (fo_len _ F)].
  - intros c Hc Hmc. rewrite used_free by done. rewrite bool_decide_false; [|by intros ->]. by apply F.
Qed.

(** Held buffers are of blocks in use for file content. *)
Definition held_ok (V : Z → list Z) (H : list (nat * Z)) : Prop :=
  ∀ c, c ∈ H.*2 → 0 ≤ c < sb_size sb ∧ used sb V c = true ∧ ¬ meta c.

Lemma held_bmap V H b : held_ok V H → 0 ≤ b < sb_size sb → BBLOCK b sb ∉ H.*2.
Proof. intros HH Hb Hin. destruct (HH _ Hin) as (_ & _ & Hm). apply Hm. right. left. by exists b. Qed.

Lemma held_inode V H i : held_ok V H → 0 ≤ i < sb_ninodes sb → IBLOCK i sb ∉ H.*2.
Proof. intros HH Hb Hin. destruct (HH _ Hin) as (_ & _ & Hm). apply Hm. right. right. by exists i. Qed.

Lemma held_free V H b : held_ok V H → used sb V b = false → b ∉ H.*2.
Proof. intros HH Hu Hin. destruct (HH _ Hin) as (_ & Hu' & _). congruence. Qed.

Lemma held_sb V H : held_ok V H → 1 ∉ H.*2.
Proof.
  intros HH Hin. destruct (HH _ Hin) as (_ & _ & Hm). apply Hm. left. by intros (_ & _ & ?).
Qed.

Lemma held_alloc V H b :
  fs_ok V → 0 ≤ b < sb_size sb → used sb V b = false → held_ok V H → held_ok (alloc_view sb V b) H.
Proof.
  intros F Hb Hu HH c Hc. destruct (HH c Hc) as (H1 & H2 & H3). split; [done|]. split; [|done].
  rewrite used_alloc by done. by rewrite H2, orb_true_r.
Qed.

Context (LO : log_open l0 disk).

Lemma bzero_spec k0 k V D H b C :
  tx k0 k V D H → home b → b ∉ H.*2 → (length H + length D < NBUF)%nat → (length D < 29)%nat →
  ensures (bzero 1 b k) (λ _ k', tx k0 k' (fupd V b (replicate 512 0)) (pin b D) H) C.
Proof.
  intros T Hb Hn Hr HD. unfold bzero.
  eapply ensures_bind; [eapply tx_bread; [exact T|by apply (home_range l0)|done|done]|]. intros i k1 [Hi T1].
  eapply tx_update; [done|exact T1|left|done|done|done|]. intros k2 T2.
  eapply ensures_mono; [by eapply tx_brelse|done|]. intros ? HC. exact HC.
Qed.

Lemma bblock_group i bi : 0 ≤ bi < BPB → BBLOCK (i * BPB + bi) sb = BBLOCK (i * BPB) sb.
Proof.
  intros Hb. assert (0 < BPB) by (unfold BPB, BSIZE; lia). unfold BBLOCK.
  rewrite Z.div_add_l, Z.div_mul, Z.div_small by lia. lia.
Qed.
Lemma bbit_group i bi : 0 ≤ bi < BPB → (i * BPB + bi) mod BPB = bi.
Proof.
  intros Hb. assert (0 < BPB) by (unfold BPB, BSIZE; lia).
  by rewrite Z.add_comm, Z_mod_plus_full, Z.mod_small.
Qed.

Lemma balloc_body_spec k0 k V D H i C :
  tx k0 k V D H → fs_ok V → held_ok V H → 0 ≤ i → i * BPB < sb_size sb →
  (length H + length D < 28)%nat →
  ensures (balloc_body 1 sb (i * BPB) k)
    (λ r k', match r with
       | inl b => 0 ≤ b < sb_size sb ∧ used sb V b = false ∧
           tx k0 k' (alloc_view sb V b) (pin b (pin (BBLOCK b sb) D)) H
       | inr _ => tx k0 k' V D H ∧
           ∀ b, i * BPB ≤ b < (i + 1) * BPB → b < sb_size sb → used sb V b = true
       end) C.
Proof.
  intros T F HH Hi Hlt Hr. assert (0 < BPB) as HP by (unfold BPB, BSIZE; lia).
  assert (0 ≤ i * BPB < sb_size sb) as Hib by lia. unfold balloc_body.
  eapply ensures_bind.
  { eapply tx_bread; [exact T|by apply (home_range l0), (ly_bmap LY)|by eapply held_bmap|unfold NBUF; lia]. }
  intros bp k1 [Hbp T1]. eapply ensures_bind; [eapply tx_bdata; [exact T1|left]|]. intros d k2 [-> T2].
  pose proof (find_free_spec (V (BBLOCK (i * BPB) sb)) 0 (Z.to_nat (BPB `min` (sb_size sb - i * BPB)))) as FF.
  destruct (find_free _ _ _) as [bi|].
  - destruct FF as [Hbi Hu]. rewrite Z2Nat.id in Hbi by lia. assert (0 ≤ bi < BPB) as Hbr by lia.
    set (b := i * BPB + bi). assert (0 ≤ b < sb_size sb) as Hb by (unfold b; lia).
    assert (BBLOCK (i * BPB) sb = BBLOCK b sb) as Eb by (symmetry; by apply bblock_group).
    assert (b mod BPB = bi) as Em by (by apply bbit_group).
    assert (used sb V b = false) as Hub by (unfold used; by rewrite <- Eb, Em).
    rewrite Eb in T2 |- *. destruct (free_home V b F Hb Hub) as [Hh _].
    eapply tx_update; [done|exact T2|left|rewrite set_bit_length; by apply bmap_len|by apply (ly_bmap LY)|lia|].
    intros k3 T3. eapply ensures_bind; [eapply tx_brelse; [exact T3|done]|]. intros [] k4 T4.
    pose proof (pin_length (BBLOCK b sb) D).
    eapply ensures_bind; [eapply bzero_spec; [exact T4|done|by eapply held_free|unfold NBUF; lia|lia]|].
    intros [] k5 T5. apply ensures_ret. split_and!; try done; try lia.
    unfold alloc_view, mark_view. by rewrite Em.
  - rewrite Z2Nat.id in FF by lia. eapply ensures_bind; [by eapply tx_brelse|]. intros [] k3 T3.
    apply ensures_ret. split; [done|]. intros b Hb1 Hb2. replace b with (i * BPB + (b - i * BPB)) by lia.
    unfold used. rewrite bblock_group, bbit_group by lia. apply FF. lia.
Qed.

Lemma balloc_spec k0 k V D H C :
  tx k0 k V D H → k_sb k0 = sb → fs_ok V → held_ok V H → free_blocks sb V ≠ [] →
  (length H + length D < 28)%nat →
  ensures (balloc 1 k)
    (λ b k', 0 ≤ b < sb_size sb ∧ used sb V b = false ∧
       tx k0 k' (alloc_view sb V b) (pin b (pin (BBLOCK b sb) D)) H) C.
Proof.
  intros T Esb F HH Hf Hr. assert (0 < BPB) as HP by (unfold BPB, BSIZE; lia). unfold balloc.
  rewrite bind_gets, (tx_sb _ _ _ _ _ _ _ _ T), Esb. pose proof (ly_size LY) as Hsz.
  eapply ensures_bind.
  { apply (ensures_scan _ _
      (λ n k', tx k0 k' V D H ∧ ∀ b, 0 ≤ b < Z.of_nat n * BPB → b < sb_size sb → used sb V b = true)
      (λ r k', match r with
         | Some b => 0 ≤ b < sb_size sb ∧ used sb V b = false ∧
             tx k0 k' (alloc_view sb V b) (pin b (pin (BBLOCK b sb) D)) H
         | None => False
         end)).
    - split; [done|]. intros; lia.
    - intros n i k' Hn [T' Hu]. apply lookup_seqZ in Hn as [-> Hn]. rewrite Z.add_0_l.
      eapply ensures_mono; [eapply balloc_body_spec; [exact T'|done|done|lia| |done]| |].
      + enough (Z.of_nat n * BPB ≤ sb_size sb - 1) by lia.
        assert (Z.of_nat n ≤ (sb_size sb - 1) / BPB).
        { replace (sb_size sb + BPB - 1) with (sb_size sb - 1 + 1 * BPB) in Hn by lia.
          rewrite Z.div_add in Hn by lia. lia. }
        pose proof (Z.mul_div_le (sb_size sb - 1) BPB HP). nia.
      + intros [b|[]] k'' HQ; [done|]. destruct HQ as [T'' Hu']. split; [done|].
        intros b Hb Hs. destruct (decide (b < Z.of_nat n * BPB)); [apply Hu; lia|]. apply Hu'; [|done]. nia.
      + intros ? HC. exact HC.
    - intros k' [_ Hu]. apply Hf. unfold free_blocks. rewrite length_seqZ in Hu.
      destruct (filter _ _) as [|b bs] eqn:E; [done|].
      assert (b ∈ b :: bs) as Hb by left. rewrite <- E in Hb. apply list_elem_of_filter in Hb as [Hf1 Hb%elem_of_seqZ].
      rewrite Hu in Hf1; [done| |lia].
      pose proof (Z.div_mod (sb_size sb + BPB - 1) BPB ltac:(lia)).
      pose proof (Z.mod_pos_bound (sb_size sb + BPB - 1) BPB HP). nia. }
  intros [b|] k1 HQ; [|done]. apply ensures_ret. done.
Qed.

Lemma bfree_spec k0 k V D H b C :
  tx k0 k V D H → k_sb k0 = sb → fs_ok V → held_ok V H → 0 ≤ b < sb_size sb → used sb V b = true →
  (length H + length D < 28)%nat →
  ensures (bfree 1 b k) (λ _ k', tx k0 k' (free_view sb V b) (pin (BBLOCK b sb) D) H) C.
Proof.
  intros T Esb F HH Hb Hu Hr. unfold bfree, readsb. pose proof (ly_size LY) as Hsz.
  rewrite bind_assoc.
  eapply ensures_bind; [eapply tx_bread; [exact T|lia|by eapply held_sb|unfold NBUF; lia]|]. intros i k1 [Hi T1].
  rewrite bind_assoc.
  eapply ensures_bind; [eapply tx_bdata; [exact T1|left]|]. intros d k2 [-> T2]. rewrite bind_assoc.
  eapply ensures_bind; [by eapply tx_brelse|]. intros [] k3 T3. rewrite bind_ret. unfold set_sb. rewrite bind_modify.
  rewrite (fo_sb _ F).
  assert (k3 <| k_sb := sb |> = k3) as ->.
  { pose proof (tx_sb _ _ _ _ _ _ _ _ T3) as E3. rewrite Esb in E3. clear -E3. destruct k3. simpl in E3. by subst. }
  eapply ensures_bind.
  { eapply tx_bread; [exact T3|by apply (home_range l0), (ly_bmap LY)|by eapply held_bmap|unfold NBUF; lia]. }
  intros bp k5 [Hbp T5]. eapply ensures_bind; [eapply tx_bdata; [exact T5|left]|]. intros d k6 [-> T6].
  change (bit_used (V (BBLOCK b sb)) (b mod BPB)) with (used sb V b). rewrite Hu. simpl negb. cbn iota.
  eapply tx_update; [done|exact T6|left|rewrite clear_bit_length; by apply bmap_len|by apply (ly_bmap LY)|lia|].
  intros k7 T7. eapply ensures_mono; [by eapply tx_brelse|done|]. intros ? HC. exact HC.
Qed.
End alloc.

(** ** The contract of the allocator *)

(** C7: inside a transaction with room in the log and while a block is free,
    [balloc] returns a block that was free and holds no metadata, marks it, fills it
    with zeros and changes no other block but its bitmap block; freeing it again
    brings every bit of the bitmap back. *)
Theorem balloc_bfree_correct pid l0 disk sb k0 k V D H C :
  layout l0 disk sb → log_open l0 disk → tx pid l0 disk k0 k V D H → k_sb k0 = sb → fs_ok l0 disk sb V →
  held_ok l0 disk sb V H → free_blocks sb V ≠ [] → (length H + length D < 25)%nat →
  ensures (balloc 1 k)
    (λ b k1, 0 ≤ b < sb_size sb ∧ used sb V b = false ∧ ¬ meta l0 disk sb b ∧
       ∃ V1 D1, tx pid l0 disk k0 k1 V1 D1 H ∧ V1 b = replicate 512 0 ∧
         (∀ c, c ≠ b → c ≠ BBLOCK b sb → V1 c = V c) ∧
         (∀ c, 0 ≤ c < sb_size sb → used sb V1 c = bool_decide (c = b) || used sb V c) ∧
         ensures (bfree 1 b k1)
           (λ _ k2, ∃ V2 D2, tx pid l0 disk k0 k2 V2 D2 H ∧
              ∀ c, 0 ≤ c < sb_size sb → used sb V2 c = used sb V c) C) C.
Proof.
  intros LY LO T Esb F HH Hf Hr.
  eapply ensures_mono; [eapply (balloc_spec pid l0 disk sb LY LO); try done; lia| |intros ? HC; exact HC].
  intros b k1 (Hb & Hu & T1). destruct (free_home _ _ _ V b F Hb Hu) as [Hh Hm]. split; [done|]. split; [done|].
  split; [done|]. exists (alloc_view sb V b), (pin b (pin (BBLOCK b sb) D)). split; [done|]. split; [apply fupd_eq|].
  pose proof (alloc_ok _ _ _ LY V b F Hb Hu) as F1.
  split; [intros c H1 H2; unfold alloc_view, mark_view; by rewrite !fupd_ne|].
  split; [intros; by apply (used_alloc _ _ _ LY)|].
  pose proof (pin_length b (pin (BBLOCK b sb) D)). pose proof (pin_length (BBLOCK b sb) D).
  eapply ensures_mono; [eapply (bfree_spec pid l0 disk sb LY LO); [exact T1|done|done| |done| |lia]| |intros ? HC; exact HC].
  - by apply (held_alloc _ _ _ LY).
  - rewrite (used_alloc _ _ _ LY) by done. by rewrite bool_decide_true.
  - intros [] k2 T2. eexists _, _. split; [exact T2|]. intros c Hc.
    rewrite (used_free _ _ _ LY), (used_alloc _ _ _ LY) by done. destruct (decide (c = b)) as [->|Hne].
    + by rewrite bool_decide_true, Hu.
    + by rewrite bool_decide_false.
Qed.

(** A small file system: 40 blocks, the log in blocks 2 to 31, one block of inodes,
    the bitmap in block 33 and file content from block 34 on; inode 1 is an empty
    directory and inode 2 a file of three bytes. *)
Definition demo_sb : superblock := Superblock 40 6 8 30 2 32 33.
Definition demo_dir : dinode := Dinode 1 0 0 1 0 (replicate 13 0).
Definition demo_dinode : dinode := Dinode 2 0 0 1 3 (34 :: replicate 12 0).
Definition demo_fs : list (list Z) :=
  [replicate 512 0;
   put32 (put32 (put32 (put32 (put32 (put32 (put32 (replicate 512 0) 0 40) 4 6) 8 8) 12 30) 16 2) 20 32) 24 33] ++
  replicate 30 (replicate 512 0) ++
  [put_dinode (put_dinode (replicate 512 0) 64 demo_dir) 128 demo_dinode; [255; 255; 255; 255; 7] ++ replicate 507 0;
   [97; 98; 99] ++ replicate 509 0] ++ replicate 5 (replicate 512 0).
Definition demo_inode : inode :=
  load_dinode demo_dinode (Inode 1 2 1 (Sleeplock true 1) true 0 0 0 0 0 []).
Definition demo_dir_inode : inode :=
  load_dinode demo_dir (Inode 1 1 1 (Sleeplock true 1) true 0 0 0 0 0 []).
Definition demo_tx_log : log := Log 2 30 1 false 1 0 (replicate 30 0).
Definition demo_state : kernel :=
  running0 demo_fs <| k_log := demo_tx_log |> <| k_sb := demo_sb |> <| k_icache ::= λ l, <[O := demo_inode]> (<[1%nat := demo_dir_inode]> l) |>.
Lemma demo_layout : layout demo_tx_log demo_fs demo_sb.
Proof.
  assert (Z.of_nat (length demo_fs) = 40) as EN by (vm_compute; reflexivity).
  split; unfold home, log_area, BBLOCK, IBLOCK, BPB, IPB, BSIZE; rewrite ?EN; change (512 / 64) with 8;
    cbn [sb_size sb_bmapstart sb_ninodes sb_inodestart demo_sb lg_start lg_size demo_tx_log].
  - lia.
  - intros b Hb. rewrite Z.div_small by lia. lia.
  - intros i Hi. rewrite Z.div_small by lia. lia.
  - intros b i Hb Hi. rewrite !Z.div_small by lia. lia.
Qed.

Lemma demo_log_open : log_open demo_tx_log demo_fs.
Proof.
  assert (Z.of_nat (length demo_fs) = 40) as EN by (vm_compute; reflexivity).
  split; [split; rewrite ?EN; simpl; lia|done|done].
Qed.

Lemma demo_view_len b : 0 ≤ b < 40 → length (disk_view demo_fs b) = 512%nat.
Proof.
  intros Hb. assert (Forall (λ d, length d = 512%nat) demo_fs) as HF.
  { apply Forall_fold_right. vm_compute. repeat split. }
  unfold disk_view. destruct (lookup_lt_is_Some_2 demo_fs (Z.to_nat b)) as [d Hd].
  { change (length demo_fs) with 40%nat. lia. }
  rewrite Hd. rewrite Forall_lookup in HF. by eapply HF.
Qed.

Lemma demo_fs_ok : fs_ok demo_tx_log demo_fs demo_sb (disk_view demo_fs).
Proof.
  split.
  - vm_compute. reflexivity.
  - intros b Hb. apply demo_view_len. exact Hb.
  - intros b Hb Hm. assert (0 ≤ b < 34) as Hb'.
    { unfold meta, home, log_area, BBLOCK, IBLOCK, BPB, IPB, BSIZE in Hm.
      change (Z.of_nat (length demo_fs)) with 40 in Hm.
      change (512 / 64) with 8 in Hm.
      cbn [sb_size sb_bmapstart sb_ninodes sb_inodestart demo_sb lg_start lg_size demo_tx_log] in *.
      destruct Hm as [Hm|[(c & Hc & ->)|(i & Hi & ->)]]; [|rewrite Z.div_small by lia; lia..].
      destruct (decide (b < 34)); [lia|]. exfalso. apply Hm. lia. }
    assert (forallb (λ n, used demo_sb (disk_view demo_fs) (Z.of_nat n)) (seq 0 34) = true) as HF by (vm_compute; reflexivity).
    rewrite forallb_forall in HF. rewrite <- (Z2Nat.id b) by lia. apply HF, in_seq. lia.
Qed.

Lemma demo_tx : tx 1 demo_tx_log demo_fs demo_state demo_state (disk_view demo_fs) [] [].
Proof.
  assert (Z.of_nat (length demo_fs) = 40) as EN by (vm_compute; reflexivity). split.
  - exists demo_tx_log. split; [|done]. split; [apply frame_refl| |done|done|exact (binit_rep 1 demo_fs)].
    by eapply (ctx_ext (running0 demo_fs) _ 1 (running0_ctx _)).
  - by intros b ?%not_elem_of_nil.
  - rewrite EN. apply demo_view_len.
  - intros b Hb. right. unfold disk_view.
    destruct (lookup_lt_is_Some_2 demo_fs (Z.to_nat b)) as [x Hx]; [lia|]. by rewrite Hx.
Qed.

Lemma balloc_bfree_correct_witness :
  ensures (balloc 1 demo_state)
    (λ b k1, used demo_sb (disk_view demo_fs) b = false ∧
       ensures (bfree 1 b k1) (λ _ k2, True) (λ _, False)) (λ _, False).
Proof.
  eapply ensures_mono; [eapply (balloc_bfree_correct 1 demo_tx_log demo_fs demo_sb demo_state demo_state
    (disk_view demo_fs) [] [] (λ _, False))| |done].
  - apply demo_layout.
  - apply demo_log_open.
  - apply demo_tx.
  - done.
  - apply demo_fs_ok.
  - by intros c ?%not_elem_of_nil.
  - vm_compute. done.
  - simpl. lia.
  - intros b k1 (_ & Hu & _ & V1 & D1 & _ & _ & _ & _ & E). split; [done|]. by eapply ensures_mono; [exact E| |].
Defined.
