(* ===== verification/FsInode.v ===== *)
(** * Inodes on the disk

    The layout of struct dinode: what [iupdate] writes is what [ilock] reads
    back, and the other inodes of the block keep their fields. *)

From S2P Require Import Prelude Memory Strings State Spinlock Sched Sleeplock BufList Bio Log Tx Fs FsBlocks.

(** ** The block of inodes as bytes *)

Definition put_addrs_n (d : list Z) (o : nat) (a : list Z) (n : nat) : list Z :=
  foldl (λ d i, put32 d (o + 12 + 4 * i) (nth i a 0)) d (seq 0 n).

Lemma put_addrs_S d o a n :
  put_addrs_n d o a (S n) = put32 (put_addrs_n d o a n) (o + 12 + 4 * n) (nth n a 0).
Proof. unfold put_addrs_n. by rewrite seq_S, foldl_app. Qed.

Lemma put_addrs_length d o a n : length (put_addrs_n d o a n) = length d.
Proof. induction n as [|n IH]; [done|]. by rewrite put_addrs_S, length_put32. Qed.

Lemma put_addrs_get d o a n i :
  (o + 12 + 4 * n ≤ length d)%nat → (i < n)%nat → get32 (put_addrs_n d o a n) (o + 12 + 4 * i) = u32 (nth i a 0).
Proof.
  induction n as [|n IH]; intros Hl Hi; [lia|]. rewrite put_addrs_S.
  destruct (decide (i = n)) as [->|Hne].
  - apply get32_put32_eq. rewrite put_addrs_length. lia.
  - rewrite get32_put32_ne by (rewrite ?put_addrs_length; lia). apply IH; lia.
Qed.

Lemma put_addrs_byte d o a n j :
  (o + 12 + 4 * n ≤ length d)%nat → (j < o + 12 ∨ o + 12 + 4 * n ≤ j)%nat →
  byte_at (put_addrs_n d o a n) j = byte_at d j.
Proof.
  induction n as [|n IH]; intros Hl Hj; [done|]. rewrite put_addrs_S, byte_at_put32 by (rewrite put_addrs_length; lia).
  repeat (rewrite decide_False by lia). apply IH; lia.
Qed.

Lemma put_dinode_length d o di : length (put_dinode d o di) = length d.
Proof.
  unfold put_dinode. change (put_addrs ?d ?o ?a) with (put_addrs_n d o a 13).
  by rewrite put_addrs_length, length_put32, !length_put16.
Qed.

(** A dinode that fits its fields. *)
Record dinode_ok (di : dinode) : Prop := {
  dk_type : - 2 ^ 15 ≤ di_type di < 2 ^ 15;
  dk_major : - 2 ^ 15 ≤ di_major di < 2 ^ 15;
  dk_minor : - 2 ^ 15 ≤ di_minor di < 2 ^ 15;
  dk_nlink : - 2 ^ 15 ≤ di_nlink di < 2 ^ 15;
  dk_size : 0 ≤ di_size di < 2 ^ 32;
  dk_len : length (di_addrs di) = 13%nat;
  dk_addrs : Forall (λ a, 0 ≤ a < 2 ^ 32) (di_addrs di) }.

Lemma get16_ext d d' o : (∀ j, (o ≤ j < o + 2)%nat → byte_at d j = byte_at d' j) → get16 d o = get16 d' o.
Proof. intros H. unfold get16. by rewrite !H by lia. Qed.
Lemma get32_ext d d' o : (∀ j, (o ≤ j < o + 4)%nat → byte_at d j = byte_at d' j) → get32 d o = get32 d' o.
Proof. intros H. unfold get32. by rewrite !H by lia. Qed.

(** The header of the dinode: the four shorts and the size. *)
Definition put_head (d : list Z) (o : nat) (di : dinode) : list Z :=
  put32 (put16 (put16 (put16 (put16 d o (di_type di)) (o + 2) (di_major di)) (o + 4) (di_minor di))
     (o + 6) (di_nlink di)) (o + 8) (di_size di).

Lemma put_head_length d o di : length (put_head d o di) = length d.
Proof. unfold put_head. by rewrite length_put32, !length_put16. Qed.

Ltac head_bytes :=
  unfold put_head; rewrite !byte_at_put32 by (rewrite !length_put16; lia);
  rewrite !byte_at_put16 by (rewrite ?length_put16; lia).

Lemma put_head_outside d o di j :
  (o + 64 ≤ length d)%nat → (j < o ∨ o + 12 ≤ j)%nat → byte_at (put_head d o di) j = byte_at d j.
Proof. intros Hl Hj. head_bytes. by repeat (rewrite decide_False by lia). Qed.

Lemma put_dinode_outside d o di j :
  (o + 64 ≤ length d)%nat → (j < o ∨ o + 64 ≤ j)%nat → byte_at (put_dinode d o di) j = byte_at d j.
Proof.
  intros Hl Hj. change (put_dinode d o di) with (put_addrs_n (put_head d o di) o (di_addrs di) 13).
  rewrite put_addrs_byte by (rewrite ?put_head_length; lia). apply put_head_outside; lia.
Qed.

Lemma put_dinode_head d o di j :
  (o + 64 ≤ length d)%nat → (o ≤ j < o + 12)%nat → byte_at (put_dinode d o di) j = byte_at (put_head d o di) j.
Proof.
  intros Hl Hj. change (put_dinode d o di) with (put_addrs_n (put_head d o di) o (di_addrs di) 13).
  apply put_addrs_byte; rewrite ?put_head_length; lia.
Qed.

Lemma i16_u16 v : - 2 ^ 15 ≤ v < 2 ^ 15 → i16 (u16 v) = v.
Proof. intros. zlia. Qed.

Lemma put_head_get d o di :
  (o + 64 ≤ length d)%nat →
  get16 (put_head d o di) o = u16 (di_type di) ∧ get16 (put_head d o di) (o + 2) = u16 (di_major di) ∧
  get16 (put_head d o di) (o + 4) = u16 (di_minor di) ∧ get16 (put_head d o di) (o + 6) = u16 (di_nlink di) ∧
  get32 (put_head d o di) (o + 8) = u32 (di_size di).
Proof.
  intros Hl. split_and!; [unfold get16..|apply get32_put32_eq; rewrite !length_put16; lia].
  all: head_bytes; repeat first [rewrite decide_False by lia | rewrite decide_True by lia]; zlia.
Qed.

Lemma get_put_dinode d o di :
  (o + 64 ≤ length d)%nat → dinode_ok di → get_dinode (put_dinode d o di) o = di.
Proof.
  intros Hl [K1 K2 K3 K4 K5 K6 K7]. destruct (put_head_get d o di Hl) as (G1 & G2 & G3 & G4 & G5).
  unfold get_dinode.
  rewrite !(get16_ext (put_dinode d o di) (put_head d o di)) by (intros; apply put_dinode_head; lia).
  rewrite (get32_ext (put_dinode d o di) (put_head d o di) (o + 8)) by (intros; apply put_dinode_head; lia).
  rewrite G1, G2, G3, G4, G5, !i16_u16, u32_small by done.
  assert (map (λ i, get32 (put_dinode d o di) (o + 12 + 4 * i)) (seq 0 13) = di_addrs di) as ->; [|by destruct di].
  set (f := λ i, get32 (put_dinode d o di) (o + 12 + 4 * i)). change (map f (seq 0 13)) with (f <$> seq 0 13).
  apply list_eq_same_length with 13%nat; [done|by rewrite length_fmap, length_seq|].
  intros i a b Hi Ha Hb. rewrite list_lookup_fmap, lookup_seq_lt in Ha by lia. simpl in Ha. injection Ha as <-. unfold f.
  change (put_dinode d o di) with (put_addrs_n (put_head d o di) o (di_addrs di) 13).
  rewrite put_addrs_get by (rewrite ?put_head_length; lia). rewrite (nth_lookup_Some _ _ _ _ Hb).
  apply u32_small. rewrite Forall_lookup in K7. by eapply K7.
Qed.

Lemma get_put_dinode_ne d o o' di :
  (o + 64 ≤ length d)%nat → (o + 64 ≤ o' ∨ o' + 64 ≤ o)%nat →
  get_dinode (put_dinode d o di) o' = get_dinode d o'.
Proof.
  intros Hl Hd. unfold get_dinode.
  rewrite !(get16_ext (put_dinode d o di) d) by (intros; apply put_dinode_outside; lia).
  rewrite (get32_ext (put_dinode d o di) d (o' + 8)) by (intros; apply put_dinode_outside; lia).
  f_equal. apply map_ext_in. intros i [_ Hi]%in_seq. apply get32_ext. intros. apply put_dinode_outside; lia.
Qed.

(** ** Which inode is where *)

(** The inode [inum] as the blocks hold it. *)
Definition disk_inode (sb : superblock) (V : Z → list Z) (inum : Z) : dinode :=
  get_dinode (V (IBLOCK inum sb)) (dinode_off inum).

Lemma dinode_off_le inum : (dinode_off inum + 64 ≤ 512)%nat.
Proof.
  unfold dinode_off, IPB, BSIZE. change (512 / 64) with 8.
  pose proof (Z.mod_pos_bound inum 8 ltac:(lia)). lia.
Qed.

Lemma dinode_off_apart sb i j :
  i ≠ j → IBLOCK i sb = IBLOCK j sb →
  (dinode_off i + 64 ≤ dinode_off j ∨ dinode_off j + 64 ≤ dinode_off i)%nat.
Proof.
  unfold IBLOCK, dinode_off, IPB, BSIZE. change (512 / 64) with 8. intros Hne He.
  assert (i mod 8 ≠ j mod 8) as Hm by (Z.div_mod_to_equations; lia).
  pose proof (Z.mod_pos_bound i 8 ltac:(lia)). pose proof (Z.mod_pos_bound j 8 ltac:(lia)). lia.
Qed.

(** Writing the inode [i] changes the inode [i] only. *)
Lemma disk_inode_put sb V i j di :
  length (V (IBLOCK i sb)) = 512%nat → dinode_ok di →
  disk_inode sb (fupd V (IBLOCK i sb) (put_dinode (V (IBLOCK i sb)) (dinode_off i) di)) j =
  if decide (j = i) then di else disk_inode sb V j.
Proof.
  intros HL K. pose proof (dinode_off_le i). unfold disk_inode. case_decide as E.
  - subst j. rewrite fupd_eq. apply get_put_dinode; [lia|done].
  - destruct (decide (IBLOCK j sb = IBLOCK i sb)) as [Eb|Eb]; [|by rewrite fupd_ne].
    rewrite Eb, fupd_eq. apply get_put_dinode_ne; [lia|]. apply (dinode_off_apart sb); congruence.
Qed.
