(* ===== verification/FsFile.v ===== *)
(** * File contents

    The block pointers of an inode, the bytes of a file as a list, and the proof
    that [readi] and [writei] read and update that list. *)

From S2P Require Import Prelude Memory Strings State Spinlock Sched Sleeplock BufList Bio Log Tx Fs FsBlocks FsInode.

(** ** The pointers of an inode

    Slots 0 to 12 are [addrs], slots 13 to 140 the entries of the indirect block. *)

Definition ind_slot : nat := 12.
Definition ptr (V : Z → list Z) (x : inode) (s : nat) : Z :=
  if decide (s < 13)%nat then nth s (i_addrs x) 0 else
  if decide (s < 141)%nat then
    if decide (nth ind_slot (i_addrs x) 0 = 0) then 0
    else get32 (V (nth ind_slot (i_addrs x) 0)) (4 * (s - 13))
  else 0.

(** The slot that block [bn] of a file uses. *)
Definition slot_of (bn : Z) : nat := if decide (bn < NDIRECT) then Z.to_nat bn else Z.to_nat (bn + 1).

Lemma slot_of_not_ind bn : 0 ≤ bn → slot_of bn ≠ ind_slot.
Proof. intros Hb. unfold slot_of, ind_slot, NDIRECT. case_decide; lia. Qed.

Lemma slot_of_inj a b : 0 ≤ a → 0 ≤ b → slot_of a = slot_of b → a = b.
Proof. intros Ha Hb. unfold slot_of, NDIRECT. repeat case_decide; lia. Qed.

Definition set_ip (ip : nat) (x : inode) (k : kernel) : kernel := k <| k_icache ::= <[ip := x]> |>.

(** How the blocks can change while the blocks in [own] are being written. *)
Record evolves (sb : superblock) (own : Z → Prop) (V V' : Z → list Z) : Prop := {
  ev_used : ∀ c, 0 ≤ c < sb_size sb → used sb V c = true → used sb V' c = true;
  ev_same : ∀ c, 0 ≤ c < sb_size sb → used sb V c = true → ¬ own c →
    (∀ b, 0 ≤ b < sb_size sb → c ≠ BBLOCK b sb) → V' c = V c }.

Lemma evolves_refl sb own V : evolves sb own V V.
Proof. by split. Qed.

Lemma evolves_trans sb own own' V1 V2 V3 :
  evolves sb own V1 V2 → evolves sb own' V2 V3 →
  (∀ c, own' c → used sb V1 c = true → own c) → evolves sb own V1 V3.
Proof.
  intros [U1 S1] [U2 S2] Hown. split; [auto|]. intros c Hc Hu Hn Hb.
  rewrite S2; auto.
Qed.

Lemma evolves_mono sb (own own' : Z → Prop) V V' :
  evolves sb own V V' → (∀ c, own c → own' c) → evolves sb own' V V'.
Proof. intros [U S] Ho. split; [done|]. intros c Hc Hu Hn Hb. apply S; auto. Qed.

Section files.
Context (pid : Z) (l0 : log) (disk : list (list Z)) (sb : superblock).
Notation N := (Z.of_nat (length disk)).
Notation tx := (tx pid l0 disk).
Notation home := (home l0 disk).
Notation meta := (meta l0 disk sb).
Notation fs_ok := (fs_ok l0 disk sb).
Notation held_ok := (held_ok l0 disk sb).
Notation evolves := (evolves sb).
Notation used := (used sb).
Implicit Types (V : Z → list Z) (x : inode) (C : kernel → Prop).

(** A block in use for file content. *)
Definition good V (c : Z) : Prop := 0 ≤ c < sb_size sb ∧ used V c = true ∧ ¬ meta c.

Record ptr_ok V x : Prop := {
  po_len : length (i_addrs x) = 13%nat;
  po_good : ∀ s, ptr V x s ≠ 0 → good V (ptr V x s);
  po_inj : ∀ s t, ptr V x s = ptr V x t → ptr V x s ≠ 0 → s = t }.

Definition owns V x (c : Z) : Prop := c ≠ 0 ∧ ∃ s, ptr V x s = c.

Context (LY : layout l0 disk sb) (LO : log_open l0 disk) (Hsmall : sb_size sb < 2 ^ 32).

Lemma good_evolves own V V' c : evolves own V V' → good V c → good V' c.
Proof. intros [U _] (H1 & H2 & H3). split_and!; try done; try lia. by apply U. Qed.

(** The blocks that an allocation changes. *)
Lemma alloc_same V b c :
  fs_ok V → 0 ≤ b < sb_size sb → used V b = false → good V c → alloc_view sb V b c = V c.
Proof.
  intros F Hb Hu (Hc & Huc & Hm). unfold alloc_view, mark_view. rewrite !fupd_ne; [done| |].
  - intros ->. apply Hm. right. left. by exists b.
  - intros ->. congruence.
Qed.

Lemma alloc_evolves own V b :
  fs_ok V → 0 ≤ b < sb_size sb → used V b = false → evolves own V (alloc_view sb V b).
Proof.
  intros F Hb Hu. split.
  - intros c Hc Huc. by rewrite (used_alloc l0 disk sb LY), Huc, orb_true_r.
  - intros c Hc Huc _ Hnb. unfold alloc_view, mark_view. rewrite !fupd_ne; [done|by apply Hnb|].
    intros ->. congruence.
Qed.

Lemma alloc_good V b :
  fs_ok V → 0 ≤ b < sb_size sb → used V b = false → good (alloc_view sb V b) b ∧ b ≠ 0.
Proof.
  intros F Hb Hu. destruct (free_home l0 disk sb V b F Hb Hu) as [Hh Hm].
  split.
  - split; [done|]. split; [|done]. rewrite (used_alloc l0 disk sb LY) by done. by rewrite bool_decide_true.
  - intros ->. apply Hm. left. intros [? _]. lia.
Qed.

(** ** The cached inode *)

Lemma the_inode_spec k0 k V D H ip x :
  tx (set_ip ip x k0) k V D H → (ip < length (k_icache k0))%nat → the_inode ip k = (Ok x, k).
Proof.
  intros T Hip. apply at_index_ok. rewrite (tx_icache _ _ _ _ _ _ _ _ T).
  unfold set_ip, upd. simpl. by apply list_lookup_insert_eq.
Qed.

Lemma tx_upd_ip k0 k V D H ip x f :
  (ip < length (k_icache k0))%nat → tx (set_ip ip x k0) k V D H →
  tx (set_ip ip (f x) k0) (k <| k_icache ::= alter f ip |>) V D H.
Proof.
  intros Hip T. apply (tx_upd_inode _ _ _ _ _ _ _ _ (alter f ip)) in T.
  assert (set_ip ip x k0 <| k_icache ::= alter f ip |> = set_ip ip (f x) k0) as E; [|by rewrite E in T].
  unfold set_ip, upd. simpl. f_equal. apply list_eq. intros j.
  destruct (decide (j = ip)) as [->|Hne].
  - by rewrite list_lookup_alter_eq, !list_lookup_insert_eq.
  - by rewrite list_lookup_alter_ne, !list_lookup_insert_ne.
Qed.

Lemma set_ip_same k0 ip x : k_icache k0 !! ip = Some x → set_ip ip x k0 = k0.
Proof.
  intros Hx. unfold set_ip, upd. rewrite list_insert_id by done. by destruct k0.
Qed.

(** ** Allocating into a slot *)

Lemma nth_insert_addrs (l : list Z) s t b :
  (s < length l)%nat → nth t (<[s := b]> l) 0 = if decide (t = s) then b else nth t l 0.
Proof. apply byte_at_insert. Qed.

Lemma zeros_get32 n : get32 (replicate 512 0) n = 0.
Proof.
  assert (∀ i, byte_at (replicate 512 0) i = 0) as E; [|by unfold get32; rewrite !E].
  intros i. unfold byte_at. rewrite nth_lookup. destruct (replicate 512 0 !! i) eqn:Ei; [|done].
  apply lookup_replicate in Ei as [-> _]. done.
Qed.

Lemma alloc_zero V b : alloc_view sb V b b = replicate 512 0.
Proof. apply fupd_eq. Qed.

Lemma ptr_direct V x s b :
  fs_ok V → ptr_ok V x → (s < 13)%nat → ptr V x s = 0 → 0 ≤ b < sb_size sb → used V b = false →
  ∀ t, ptr (alloc_view sb V b) (x <| i_addrs ::= <[s := b]> |>) t = if decide (t = s) then b else ptr V x t.
Proof.
  intros F P Hs H0 Hb Hu t. pose proof (po_len _ _ P) as HL. destruct (alloc_good V b F Hb Hu) as [_ Hb0].
  assert (ptr V x s = nth s (i_addrs x) 0) as Ps by (unfold ptr; by rewrite decide_True).
  unfold ptr. change (i_addrs (x <| i_addrs ::= <[s := b]> |>)) with (<[s := b]> (i_addrs x)).
  rewrite !nth_insert_addrs by lia. destruct (decide (t < 13)%nat) as [Ht|Ht]; [done|].
  rewrite (decide_False (P := t = s)) by lia. destruct (decide (t < 141)%nat); [|done].
  destruct (decide (ind_slot = s)) as [E|Hne].
  - rewrite decide_False by done. rewrite alloc_zero, zeros_get32.
    rewrite decide_True; [done|]. rewrite E. congruence.
  - destruct (decide (nth ind_slot (i_addrs x) 0 = 0)) as [|Hi]; [done|]. f_equal.
    apply alloc_same; try done. assert (ptr V x ind_slot = nth ind_slot (i_addrs x) 0) as <-.
    { unfold ptr. by rewrite decide_True by (unfold ind_slot; lia). }
    apply (po_good _ _ P). unfold ptr. by rewrite decide_True by (unfold ind_slot; lia).
Qed.

Lemma ptr_ind V x : ptr V x ind_slot = nth ind_slot (i_addrs x) 0.
Proof. unfold ptr. by rewrite decide_True by (unfold ind_slot; lia). Qed.

Lemma ptr_entry V x s :
  (13 ≤ s < 141)%nat → ptr V x ind_slot ≠ 0 → ptr V x s = get32 (V (ptr V x ind_slot)) (4 * (s - 13)).
Proof.
  rewrite ptr_ind. intros Hs Hi. unfold ptr. rewrite decide_False, decide_True by lia. by rewrite decide_False.
Qed.

(** The content after an entry of the indirect block has been set. *)
Definition entry_view V (ind : Z) (s : nat) (b : Z) : Z → list Z :=
  fupd V ind (put32 (V ind) (4 * (s - 13)) b).

Lemma ptr_indirect V x s b :
  fs_ok V → ptr_ok V x → (13 ≤ s < 141)%nat → ptr V x ind_slot ≠ 0 → ptr V x s = 0 →
  0 ≤ b < sb_size sb → used V b = false →
  ∀ t, ptr (entry_view (alloc_view sb V b) (ptr V x ind_slot) s b) x t =
       if decide (t = s) then b else ptr V x t.
Proof.
  intros F P Hs Hi H0 Hb Hu t. pose proof (po_good _ _ P _ Hi) as Gi.
  assert (length (V (ptr V x ind_slot)) = 512%nat) as HL.
  { apply F. destruct Gi as (? & _). pose proof (ly_size _ _ _ LY). lia. }
  unfold entry_view. rewrite alloc_same by done. rewrite ptr_ind in *. set (ind := nth ind_slot _ _) in *.
  unfold ptr. fold ind. destruct (decide (t < 13)%nat) as [Ht|Ht].
  { rewrite decide_False by lia. done. }
  destruct (decide (t < 141)%nat) as [Ht'|]; [|by rewrite decide_False by lia].
  rewrite !(decide_False (P := ind = 0)) by done. rewrite fupd_eq.
  destruct (decide (t = s)) as [->|Hne].
  - rewrite get32_put32_eq by lia. apply u32_small. lia.
  - rewrite get32_put32_ne by lia. done.
Qed.

Lemma ptr_ok_extend own V x V' x' s b :
  evolves own V V' → ptr_ok V x → ptr V x s = 0 → used V b = false → good V' b → length (i_addrs x') = 13%nat →
  (∀ t, ptr V' x' t = if decide (t = s) then b else ptr V x t) → ptr_ok V' x'.
Proof.
  intros E P H0 Hu G HL Hp.
  assert (∀ t, ptr V x t ≠ 0 → ptr V x t ≠ b) as Hfresh.
  { intros t Ht Eb. destruct (po_good _ _ P t Ht) as (_ & U & _). congruence. }
  split; [done| |].
  - intros t. rewrite Hp. case_decide; [done|]. intros Ht. eapply good_evolves; [done|]. by apply P.
  - intros t u. rewrite !Hp. repeat case_decide; try congruence.
    + intros Eq Hb. symmetry in Eq. destruct (Hfresh u); [congruence|done].
    + intros Eq Hb. destruct (Hfresh t); [congruence|done].
    + apply P.
Qed.

(** ** Writing a block of file content *)

(** A write to [c] that is neither the superblock nor a bitmap block. *)
Lemma used_write V c d b :
  (∀ b, 0 ≤ b < sb_size sb → c ≠ BBLOCK b sb) → 0 ≤ b < sb_size sb → used (fupd V c d) b = used V b.
Proof. intros Hc Hb. unfold FsBlocks.used. rewrite fupd_ne; [done|]. intros E. by destruct (Hc b Hb). Qed.

Lemma write_ok V c d :
  fs_ok V → c ≠ 1 → (∀ b, 0 ≤ b < sb_size sb → c ≠ BBLOCK b sb) → length d = 512%nat → fs_ok (fupd V c d).
Proof.
  intros F H1 Hc Hd. split.
  - rewrite fupd_ne by done. apply F.
  - intros b Hb. unfold fupd. case_decide; [done|]. by apply F.
  - intros b Hb Hm. rewrite used_write by done. by apply F.
Qed.

Lemma write_evolves (own : Z → Prop) V c d :
  own c → (∀ b, 0 ≤ b < sb_size sb → c ≠ BBLOCK b sb) → evolves own V (fupd V c d).
Proof.
  intros Ho Hc. split.
  - intros b Hb Hu. by rewrite used_write.
  - intros b Hb Hu Hn _. rewrite fupd_ne; [done|]. by intros ->.
Qed.

Lemma not_meta c : ¬ meta c → home c ∧ c ≠ 1 ∧ (∀ b, 0 ≤ b < sb_size sb → c ≠ BBLOCK b sb).
Proof.
  intros Hm. assert (home c) as Hh by (destruct (decide (home c)); [done|]; destruct Hm; by left).
  split; [done|]. split; [apply Hh|]. intros b Hb ->. apply Hm. right. left. by exists b.
Qed.

Lemma free_write V c d :
  (∀ b, 0 ≤ b < sb_size sb → c ≠ BBLOCK b sb) → free_blocks sb (fupd V c d) = free_blocks sb V.
Proof.
  intros Hc. unfold free_blocks. apply filter_ext_elem. intros b Hb%elem_of_seqZ.
  change (used (fupd V c d) b = false ↔ used V b = false). by rewrite used_write by (done || lia).
Qed.

Lemma free_alloc V b :
  fs_ok V → 0 ≤ b < sb_size sb → used V b = false →
  length (free_blocks sb V) = S (length (free_blocks sb (alloc_view sb V b))).
Proof.
  intros F Hb Hu. change (S (length (free_blocks sb (alloc_view sb V b))))
    with (length (b :: free_blocks sb (alloc_view sb V b))).
  unfold free_blocks. apply Permutation_length, NoDup_Permutation.
  - apply NoDup_filter, NoDup_seqZ.
  - constructor; [|apply NoDup_filter, NoDup_seqZ]. intros [Hf _]%list_elem_of_filter.
    rewrite (used_alloc l0 disk sb LY), bool_decide_true in Hf by done. done.
  - intros c. rewrite elem_of_cons, !list_elem_of_filter, !elem_of_seqZ. split.
    + intros [Hc Hr]. destruct (decide (c = b)) as [->|Hne]; [by left|right]. split; [|done].
      rewrite (used_alloc l0 disk sb LY), bool_decide_false by (done || lia). done.
    + intros [->|[Hc Hr]]; [split; [done|lia]|]. split; [|done].
      rewrite (used_alloc l0 disk sb LY) in Hc by (done || lia). by apply orb_false_iff in Hc as [_ Hc].
Qed.

(** ** One more block in a slot *)

Record grown V x (s : nat) (b : Z) V' x' : Prop := {
  gr_old : ptr V x s = 0;
  gr_used : used V b = false;
  gr_x : x' = x <| i_addrs := i_addrs x' |>;
  gr_ptr : ∀ t, ptr V' x' t = if decide (t = s) then b else ptr V x t;
  gr_data : ∀ t, t ≠ ind_slot → ptr V x t ≠ 0 → V' (ptr V x t) = V (ptr V x t);
  gr_zero : V' b = replicate 512 0;
  gr_nz : b ≠ 0;
  gr_ok : ptr_ok V' x';
  gr_fs : fs_ok V';
  gr_ev : evolves (owns V x) V V';
  gr_free : length (free_blocks sb V) = S (length (free_blocks sb V')) }.

Lemma grown_direct V x s b :
  fs_ok V → ptr_ok V x → (s < 13)%nat → ptr V x s = 0 → 0 ≤ b < sb_size sb → used V b = false →
  grown V x s b (alloc_view sb V b) (x <| i_addrs ::= <[s := b]> |>).
Proof.
  intros F P Hs H0 Hb Hu. destruct (alloc_good V b F Hb Hu) as [G Hnz].
  assert (evolves (owns V x) V (alloc_view sb V b)) as E by (by apply alloc_evolves).
  pose proof (ptr_direct V x s b F P Hs H0 Hb Hu) as Hp. split; try done.
  - intros t Ht Hn. apply alloc_same; try done. by apply P.
  - apply alloc_zero.
  - eapply ptr_ok_extend; try done. unfold upd. simpl. rewrite length_insert. apply P.
  - by apply (alloc_ok l0 disk sb LY).
  - by apply free_alloc.
Qed.

Lemma grown_indirect V x s b :
  fs_ok V → ptr_ok V x → (13 ≤ s < 141)%nat → ptr V x ind_slot ≠ 0 → ptr V x s = 0 →
  0 ≤ b < sb_size sb → used V b = false →
  grown V x s b (entry_view (alloc_view sb V b) (ptr V x ind_slot) s b) x.
Proof.
  intros F P Hs Hi H0 Hb Hu. destruct (alloc_good V b F Hb Hu) as [G Hnz].
  pose proof (po_good _ _ P _ Hi) as Gi. destruct (not_meta _ (proj2 (proj2 Gi))) as (Hh & H1 & Hbb).
  set (ind := ptr V x ind_slot) in *. set (Va := alloc_view sb V b) in *.
  assert (fs_ok Va) as Fa by (by apply (alloc_ok l0 disk sb LY)).
  assert (evolves (owns V x) V (entry_view Va ind s b)) as E.
  { eapply evolves_trans; [by apply (alloc_evolves (owns V x))|apply (write_evolves (owns V x)); [|done]|done]. split; [done|by exists ind_slot]. }
  pose proof (ptr_indirect V x s b F P Hs Hi H0 Hb Hu) as Hp. fold ind Va in Hp.
  assert (length (put32 (Va ind) (4 * (s - 13)) b) = 512%nat) as HL.
  { rewrite length_put32. apply Fa. by apply (home_range l0). }
  assert (b ≠ ind) as Hbi. { intros ->. destruct Gi as (_ & U & _). congruence. }
  assert (good (entry_view Va ind s b) b) as G'.
  { destruct G as (G1 & G2 & G3). split_and!; try done; try lia. unfold entry_view. by rewrite used_write. }
  split; try done.
  - by destruct x.
  - intros t Ht Hn. unfold entry_view. rewrite fupd_ne.
    + apply alloc_same; try done. by apply P.
    + intros Et. apply Ht. by apply (po_inj _ _ P).
  - unfold entry_view. rewrite fupd_ne by done. apply alloc_zero.
  - by eapply ptr_ok_extend; try done; apply P.
  - by apply write_ok.
  - unfold entry_view. rewrite free_write by done. by apply free_alloc.
Qed.

(** ** Finding the block of a file, allocating it if necessary *)

(** [n] and [m] bound the blocks added to the transaction and allocated. *)
Record bmapped (n m : nat) V x (D : list Z) (s : nat) (a : Z) V' x' (D' : list Z) : Prop := {
  bm_x : x' = x <| i_addrs := i_addrs x' |>;
  bm_ptr : ptr V' x' s = a;
  bm_nz : a ≠ 0;
  bm_others : ∀ t, t ≠ s → t ≠ ind_slot → ptr V' x' t = ptr V x t;
  bm_keep : ptr V x s ≠ 0 → V' = V ∧ x' = x ∧ D' = D;
  bm_data : ∀ t, t ≠ ind_slot → ptr V x t ≠ 0 → V' (ptr V x t) = V (ptr V x t);
  bm_zero : ptr V x s = 0 → V' a = replicate 512 0 ∧ used V a = false;
  bm_ok : ptr_ok V' x';
  bm_fs : fs_ok V';
  bm_ev : evolves (owns V x) V V';
  bm_owns : ∀ c, owns V' x' c → used V c = true → owns V x c;
  bm_len : (length D' ≤ length D + n)%nat;
  bm_free : (length (free_blocks sb V) ≤ length (free_blocks sb V') + m)%nat }.

Lemma bmapped_same n m V x (D : list Z) s :
  fs_ok V → ptr_ok V x → ptr V x s ≠ 0 → bmapped n m V x D s (ptr V x s) V x D.
Proof. intros F P Hs. split; try done; try lia; by destruct x. Qed.

Lemma grown_owns V x s a V' x' c : grown V x s a V' x' → owns V' x' c → used V c = true → owns V x c.
Proof.
  intros G [Hc (t & Ht)] Hu. split; [done|]. rewrite (gr_ptr _ _ _ _ _ _ G) in Ht. case_decide; [|by exists t].
  pose proof (gr_used _ _ _ _ _ _ G). congruence.
Qed.

Lemma bmapped_grown n m V x (D : list Z) s a V' x' (D' : list Z) :
  grown V x s a V' x' → (length D' ≤ length D + n)%nat → (1 ≤ m)%nat → bmapped n m V x D s a V' x' D'.
Proof.
  intros [G1 G2 G3 G4 G5 G6 G7 G8 G9 G10 G11] HD Hm. split; try done; try lia.
  - rewrite G4. by rewrite decide_True.
  - intros t Ht _. rewrite G4. by rewrite decide_False.
  - intros c. by eapply grown_owns.
Qed.

(** The indirect block was allocated first. *)
Lemma bmapped_ind n m n' m' V x (D : list Z) i V1 x1 (D1 : list Z) s a V' x' D' :
  grown V x ind_slot i V1 x1 → (length D1 ≤ length D + n')%nat → (1 ≤ m')%nat → (13 ≤ s)%nat →
  bmapped n m V1 x1 D1 s a V' x' D' → bmapped (n + n') (m + m') V x D s a V' x' D'.
Proof.
  intros G HD Hm Hs [B1 B2 B3 B4 B5 B6 B7 B8 B9 B10 BO B11 B12]. pose proof G as [G1 G2 G3 G4 G5 G6 G7 G8 G9 G10 G11].
  assert (∀ t, t ≠ ind_slot → ptr V1 x1 t = ptr V x t) as Hp.
  { intros t Ht. rewrite G4. by rewrite decide_False. }
  assert (ptr V x s = 0) as H0.
  { unfold ptr. rewrite decide_False by lia. case_decide; [|done]. rewrite ptr_ind in G1. by rewrite decide_True. }
  split; try done; try lia.
  - rewrite B1, G3. done.
  - intros t Ht Hi. rewrite B4 by done. by apply Hp.
  - intros t Ht Hn. rewrite <- (G5 t Ht Hn). rewrite <- (Hp t Ht) in Hn |- *. by apply B6.
  - intros _. destruct B7 as [Z1 Z2]; [rewrite Hp by (unfold ind_slot; lia); done|]. split; [done|].
    destruct (used V a) eqn:E; [|done]. destruct (ev_used _ _ _ _ G10 a) as [].
    + destruct (decide (0 ≤ a < sb_size sb)); [done|]. exfalso.
      assert (good V' a) as (? & _) by (rewrite <- B2; apply B8; congruence). done.
    + done.
    + congruence.
  - eapply evolves_trans; [exact G10|exact B10|]. intros c Hc Hu. by eapply grown_owns.
  - intros c Hc Hu. eapply grown_owns; [exact G| |done]. apply BO; [done|]. apply (ev_used _ _ _ _ G10); [|done].
    destruct Hc as [Hc (t & Ht)]. rewrite <- Ht in Hc |- *. by apply B8.
Qed.

Lemma pins_length a b D : (length (pin a (pin b D)) ≤ length D + 2)%nat.
Proof. pose proof (pin_length b D). pose proof (pin_length a (pin b D)). lia. Qed.

Context (ip : nat) (k0 : kernel) (Hip : (ip < length (k_icache k0))%nat) (Esb : k_sb k0 = sb).

Lemma addr_or_alloc_spec k V D x s C :
  tx (set_ip ip x k0) k V D [] → fs_ok V → ptr_ok V x → i_dev x = 1 → (s < 13)%nat →
  (ptr V x s = 0 → free_blocks sb V ≠ []) → (length D < 28)%nat →
  ensures (addr_or_alloc ip (Z.of_nat s) k)
    (λ a k', (ptr V x s ≠ 0 ∧ a = ptr V x s ∧ k' = k) ∨
       (∃ V' x' D', grown V x s a V' x' ∧ (length D' ≤ length D + 2)%nat ∧ tx (set_ip ip x' k0) k' V' D' [])) C.
Proof.
  intros T F P Hdev Hs Hf HD. unfold addr_or_alloc. mstep (the_inode_spec _ _ _ _ _ _ _ T Hip).
  rewrite Nat2Z.id. assert (nth s (i_addrs x) 0 = ptr V x s) as -> by (unfold ptr; by rewrite decide_True).
  case_decide as H0; [|apply ensures_ret; by left]. rewrite Hdev.
  eapply ensures_bind.
  { eapply (balloc_spec pid l0 disk sb LY LO); [exact T|done|done| |by apply Hf|simpl; lia]. by intros c ?%not_elem_of_nil. }
  intros b k1 (Hb & Hu & T1). unfold set_addr, upd_inode. rewrite bind_modify, Nat2Z.id. apply ensures_ret. right.
  exists (alloc_view sb V b), (x <| i_addrs ::= <[s := b]> |>), (pin b (pin (BBLOCK b sb) D)).
  split; [by apply grown_direct|]. split; [apply pins_length|].
  apply (tx_upd_ip k0 k1 _ _ _ ip x (λ x, x <| i_addrs ::= <[s := b]> |>) Hip T1).
Qed.

(** The entry of the indirect block [ind]. *)
Lemma bmap_entry k V D x s C :
  tx (set_ip ip x k0) k V D [] → fs_ok V → ptr_ok V x → (13 ≤ s < 141)%nat → ptr V x ind_slot ≠ 0 →
  (ptr V x s = 0 → free_blocks sb V ≠ []) → (length D < 26)%nat →
  ensures ((bp ← bread 1 (ptr V x ind_slot);
    d ← bdata bp;
    addr ← (if decide (get32 d (4 * (s - 13)) = 0) then
              a ← balloc 1;
              d ← bdata bp;
              set_bdata bp (put32 d (4 * (s - 13)) a);;
              log_write bp;;
              mret a
            else mret (get32 d (4 * (s - 13))));
    brelse bp;;
    mret addr) k)
    (λ a k', ∃ V' D', bmapped 3 1 V x D s a V' x D' ∧ tx (set_ip ip x k0) k' V' D' []) C.
Proof.
  intros T F P Hs Hi Hf HD. pose proof (po_good _ _ P _ Hi) as Gi. set (ind := ptr V x ind_slot) in *.
  pose proof Gi as (Gr & Gu & Gm). destruct (not_meta _ Gm) as (Hh & H1 & Hbb).
  eapply ensures_bind; [eapply tx_bread; [exact T|by apply (home_range l0)|by apply not_elem_of_nil|simpl; unfold NBUF; lia]|].
  intros bp k1 [_ T1]. eapply ensures_bind; [eapply tx_bdata; [exact T1|left]|]. intros d k2 [-> T2].
  assert (get32 (V ind) (4 * (s - 13)) = ptr V x s) as Es by (symmetry; by apply ptr_entry). rewrite Es.
  eapply (ensures_bind _ _ _ (λ a k', ∃ V' D', bmapped 3 1 V x D s a V' x D' ∧
    tx (set_ip ip x k0) k' V' D' [(bp, ind)])).
  - case_decide as H0; [|apply ensures_ret; exists V, D; split; [by apply bmapped_same|done]].
    eapply ensures_bind.
    { eapply (balloc_spec pid l0 disk sb LY LO); [exact T2|done|done| |by apply Hf|simpl; lia].
      intros c Hc. apply list_elem_of_singleton in Hc as ->. done. }
    intros b k3 (Hb & Hu & T3). eapply ensures_bind; [eapply tx_bdata; [exact T3|left]|]. intros d k4 [-> T4].
    pose proof (pins_length b (BBLOCK b sb) D). set (D1 := pin b (pin (BBLOCK b sb) D)) in *.
    eapply tx_update; [done|exact T4|left| |done|lia|].
    { rewrite length_put32, alloc_same by done. apply F. by apply (home_range l0). }
    intros k5 T5. apply ensures_ret. exists (entry_view (alloc_view sb V b) ind s b), (pin ind D1).
    split; [|exact T5]. pose proof (pin_length ind D1). apply bmapped_grown; [by apply grown_indirect|lia|lia].
  - intros a k3 (V' & D' & B & T3). eapply ensures_bind; [eapply tx_brelse; [exact T3|by apply not_elem_of_nil]|].
    intros [] k4 T4. apply ensures_ret. by exists V', D'.
Qed.

Lemma bmap_spec k V D x bn C :
  tx (set_ip ip x k0) k V D [] → fs_ok V → ptr_ok V x → i_dev x = 1 → 0 ≤ bn < MAXFILE →
  (ptr V x (slot_of bn) = 0 → (2 ≤ length (free_blocks sb V))%nat) → (length D < 24)%nat →
  ensures (bmap ip bn k)
    (λ a k', ∃ V' x' D', bmapped 5 2 V x D (slot_of bn) a V' x' D' ∧ tx (set_ip ip x' k0) k' V' D' []) C.
Proof.
  intros T F P Hdev Hbn Hf HD. unfold bmap, slot_of in *. unfold MAXFILE, NINDIRECT, NDIRECT, BSIZE in *.
  change (512 / 4) with 128 in *. case_decide as Hd.
  - set (s := Z.to_nat bn) in *. replace bn with (Z.of_nat s) by (unfold s; lia).
    eapply ensures_mono; [eapply addr_or_alloc_spec; try done; try lia| |intros ? HC; exact HC].
    { intros H0 E. apply Hf in H0. rewrite E in H0. simpl in H0. lia. }
    intros a k' [(H0 & -> & ->)|(V' & x' & D' & G & HL & T')].
    + exists V, x, D. split; [by apply bmapped_same|done].
    + exists V', x', D'. split; [|done]. eapply bmapped_grown; [done|lia|lia].
  - rewrite decide_True by lia. set (s := Z.to_nat (bn + 1)) in *. assert (13 ≤ s < 141)%nat as Hs by (unfold s; lia).
    replace (Z.to_nat (bn - 12)) with (s - 13)%nat by (unfold s; lia).
    change 12 with (Z.of_nat ind_slot). eapply ensures_bind.
    { eapply addr_or_alloc_spec; [exact T|done|done|done|unfold ind_slot; lia| |lia].
      intros H0 E. assert (ptr V x s = 0) as Hs0.
      { unfold ptr. rewrite decide_False, decide_True by lia. rewrite ptr_ind in H0. by rewrite decide_True. }
      apply Hf in Hs0. rewrite E in Hs0. simpl in Hs0. lia. }
    intros ind k1 [(H0 & -> & ->)|(V1 & x1 & D1 & G & HL & T1)].
    + mstep (the_inode_spec _ _ _ _ _ _ _ T Hip). rewrite Hdev.
      eapply ensures_mono; [eapply bmap_entry; try done; try lia| |intros ? HC; exact HC].
      { intros E0 E. apply Hf in E0. rewrite E in E0. simpl in E0. lia. }
      intros a k' (V' & D' & B & T'). exists V', x, D'. split; [|done]. destruct B. split; try done; lia.
    + mstep (the_inode_spec _ _ _ _ _ _ _ T1 Hip).
      assert (i_dev x1 = 1) as -> by (rewrite (gr_x _ _ _ _ _ _ G); done).
      assert (ind = ptr V1 x1 ind_slot) as Ei by (rewrite (gr_ptr _ _ _ _ _ _ G); by rewrite decide_True).
      rewrite Ei. pose proof (gr_free _ _ _ _ _ _ G) as Gf.
      eapply ensures_mono; [eapply bmap_entry; try done; try lia| |intros ? HC; exact HC].
      * apply (gr_fs _ _ _ _ _ _ G).
      * apply (gr_ok _ _ _ _ _ _ G).
      * rewrite <- Ei. apply (gr_nz _ _ _ _ _ _ G).
      * rewrite (gr_ptr _ _ _ _ _ _ G), decide_False by (unfold ind_slot; lia).
        intros E0 E. apply Hf in E0. rewrite E in Gf. simpl in Gf. lia.
      * intros a k' (V' & D' & B & T'). exists V', x1, D'. split; [|done].
        eapply (bmapped_ind 3 1 2 1); try done; lia.
Qed.

(** ** The bytes of a file *)

Definition addr_at V x (j : nat) : Z := ptr V x (slot_of (Z.of_nat j / BSIZE)).

(** The blocks of [x] hold [data], and every block that [data] reaches is there. *)
Record content_rep V x (data : list Z) : Prop := {
  cr_ok : ptr_ok V x;
  cr_max : Z.of_nat (length data) ≤ MAXFILE * BSIZE;
  cr_alloc : ∀ j, (j < length data)%nat → addr_at V x j ≠ 0;
  cr_data : ∀ j, (j < length data)%nat → data !! j = V (addr_at V x j) !! Z.to_nat (Z.of_nat j mod BSIZE) }.

Definition file_rep V x (data : list Z) : Prop :=
  content_rep V x data ∧ i_size x = Z.of_nat (length data).

(** Within one block. *)
Lemma same_block off i :
  0 ≤ off → (Z.to_nat (off mod BSIZE) + i < 512)%nat →
  Z.of_nat (Z.to_nat off + i) / BSIZE = off / BSIZE ∧
  Z.to_nat (Z.of_nat (Z.to_nat off + i) mod BSIZE) = (Z.to_nat (off mod BSIZE) + i)%nat.
Proof.
  unfold BSIZE. intros Ho Hi. assert (Z.of_nat (Z.to_nat off + i) = off + Z.of_nat i) as -> by lia.
  pose proof (Z.mod_pos_bound off 512 ltac:(lia)).
  assert ((off + Z.of_nat i) / 512 = off / 512 ∧ (off + Z.of_nat i) mod 512 = off mod 512 + Z.of_nat i) as [-> ->].
  { split; Z.div_mod_to_equations; lia. }
  lia.
Qed.

Lemma block_slice V x data off m :
  content_rep V x data → 0 ≤ off → (Z.to_nat off + m ≤ length data)%nat → (Z.to_nat (off mod BSIZE) + m ≤ 512)%nat →
  take m (drop (Z.to_nat (off mod BSIZE)) (V (ptr V x (slot_of (off / BSIZE))))) = take m (drop (Z.to_nat off) data).
Proof.
  intros R Ho Hl Hm. apply list_eq. intros i. destruct (decide (i < m)%nat) as [Hi|Hi].
  - rewrite !lookup_take_lt, !lookup_drop by done. rewrite (cr_data _ _ _ R) by lia. unfold addr_at.
    destruct (same_block off i Ho) as [-> ->]; [lia|done].
  - rewrite !lookup_take_ge by lia. done.
Qed.

(** The block that a position falls in is one of the file's. *)
Lemma pos_block off : 0 ≤ off < MAXFILE * BSIZE → 0 ≤ off / BSIZE < MAXFILE.
Proof. unfold MAXFILE, NDIRECT, NINDIRECT, BSIZE. change (512 / 4) with 128. intros. Z.div_mod_to_equations. lia. Qed.

Lemma readi_loop_spec nb fuel k V D x data off n tot acc C :
  tx (set_ip ip x k0) k V D [] → fs_ok V → content_rep V x data → i_dev x = 1 → (length D < 24)%nat →
  0 ≤ off → 0 ≤ tot ≤ n → off + (n - tot) ≤ Z.of_nat (length data) →
  (tot < n → off mod BSIZE + (n - tot) ≤ BSIZE * Z.of_nat nb) → (nb < fuel)%nat →
  ensures (readi_loop fuel ip off n tot acc k)
    (λ bs k', bs = acc ++ take (Z.to_nat (n - tot)) (drop (Z.to_nat off) data) ∧
       tx (set_ip ip x k0) k' V D []) C.
Proof.
  intros T F R Hdev HD Ho Ht Hn Hnb Hfu. pose proof (Z.mod_pos_bound off BSIZE ltac:(unfold BSIZE; lia)) as Hmod.
  revert fuel k off tot acc T Ho Ht Hn Hnb Hfu Hmod. induction nb as [|nb IH]; intros fuel k off tot acc T Ho Ht Hn Hnb Hfu Hmod.
  - destruct fuel as [|f]; [lia|]. cbn [readi_loop]. rewrite decide_False by (unfold BSIZE in *; lia).
    apply ensures_ret. split; [|done]. replace (n - tot) with 0 by (unfold BSIZE in *; lia).
    by rewrite take_0, app_nil_r.
  - destruct fuel as [|f]; [lia|]. cbn [readi_loop]. case_decide as Hlt.
    2:{ apply ensures_ret. split; [|done]. replace (n - tot) with 0 by lia. by rewrite take_0, app_nil_r. }
    pose proof (cr_max _ _ _ R) as Hmax.
    assert (ptr V x (slot_of (off / BSIZE)) ≠ 0) as Hp.
    { pose proof (cr_alloc _ _ _ R (Z.to_nat off)) as Ha. unfold addr_at in Ha. rewrite Z2Nat.id in Ha by done. apply Ha. lia. }
    eapply ensures_bind; [eapply bmap_spec; [exact T|done|apply R|done|apply pos_block; lia|done|done]|].
    intros a k1 (V' & x' & D' & B & T1). destruct (bm_keep _ _ _ _ _ _ _ _ _ _ B Hp) as (-> & -> & ->).
    pose proof (bm_ptr _ _ _ _ _ _ _ _ _ _ B) as <-. clear B.
    mstep (the_inode_spec _ _ _ _ _ _ _ T1 Hip). rewrite Hdev.
    destruct (po_good _ _ (cr_ok _ _ _ R) _ Hp) as (Gr & _ & Gm). pose proof (ly_size _ _ _ LY).
    eapply ensures_bind; [eapply tx_bread; [exact T1|lia|by apply not_elem_of_nil|simpl; unfold NBUF; lia]|].
    intros bp k2 [_ T2]. eapply ensures_bind; [eapply tx_bdata; [exact T2|left]|]. intros d k3 [-> T3].
    set (m := (n - tot) `min` (BSIZE - off mod BSIZE)). assert (0 < m ≤ n - tot) as Hm by (unfold m; lia).
    eapply ensures_bind; [eapply tx_brelse; [exact T3|by apply not_elem_of_nil]|]. intros [] k4 T4.
    rewrite (block_slice V x data off (Z.to_nat m)); [|done|done|lia|unfold m, BSIZE in *; lia].
    assert (m = n - tot ∨ (m = BSIZE - off mod BSIZE ∧ (off + m) mod BSIZE = 0)) as Hcase.
    { destruct (decide (m = n - tot)); [by left|right]. assert (m = BSIZE - off mod BSIZE) as -> by lia.
      split; [done|]. unfold BSIZE in *. Z.div_mod_to_equations. lia. }
    pose proof (Z.mod_pos_bound (off + m) BSIZE ltac:(unfold BSIZE; lia)) as Hmod'.
    eapply ensures_mono; [apply IH; try done; try lia| |intros ? HC; exact HC].
    intros bs k5 [-> T5]. split; [|done]. rewrite <- app_assoc. f_equal.
    replace (Z.to_nat (off + m)) with (Z.to_nat off + Z.to_nat m)%nat by lia.
    rewrite <- drop_drop, take_take_drop. f_equal. lia.
Qed.

(** ** Writing *)

Lemma ptr_write V x c d t : c ≠ ptr V x ind_slot → ptr (fupd V c d) x t = ptr V x t.
Proof.
  rewrite ptr_ind. intros Hc. unfold ptr. repeat case_decide; try done. by rewrite fupd_ne by done.
Qed.

Lemma content_bmapped n m V x (D : list Z) bn a V' x' D' data :
  0 ≤ bn → content_rep V x data → bmapped n m V x D (slot_of bn) a V' x' D' → content_rep V' x' data.
Proof.
  intros Hbn R B. destruct (decide (ptr V x (slot_of bn) = 0)) as [H0|H0].
  2:{ by destruct (bm_keep _ _ _ _ _ _ _ _ _ _ B H0) as (-> & -> & _). }
  assert (∀ j, (j < length data)%nat → addr_at V' x' j = addr_at V x j) as Ha.
  { intros j Hj. apply (bm_others _ _ _ _ _ _ _ _ _ _ B).
    - intros E. apply (cr_alloc _ _ _ R j Hj). unfold addr_at. by rewrite E.
    - apply slot_of_not_ind. apply Z.div_pos; unfold BSIZE; lia. }
  split; [apply B|apply R| |].
  - intros j Hj. rewrite Ha by done. by apply R.
  - intros j Hj. rewrite Ha by done. rewrite (cr_data _ _ _ R j Hj). unfold addr_at in *.
    rewrite (bm_data _ _ _ _ _ _ _ _ _ _ B); [done| |by apply R].
    apply slot_of_not_ind. apply Z.div_pos; unfold BSIZE; lia.
Qed.

Lemma ptr_ok_write V x c d :
  ptr_ok V x → owns V x c → c ≠ ptr V x ind_slot → ptr_ok (fupd V c d) x.
Proof.
  intros P [Hc (s & Hs)] Hi. destruct (po_good _ _ P s) as (_ & _ & Hm); [congruence|]. rewrite Hs in Hm.
  destruct (not_meta _ Hm) as (_ & _ & Hb). split; [apply P| |].
  - intros t. rewrite ptr_write by done. intros Ht. destruct (po_good _ _ P t Ht) as (G1 & G2 & G3).
    split; [done|]. split; [by rewrite used_write|done].
  - intros t u. rewrite !ptr_write by done. apply P.
Qed.

Lemma content_write V x data off w :
  content_rep V x data → fs_ok V → 0 ≤ off → (Z.to_nat off ≤ length data)%nat →
  off + Z.of_nat (length w) ≤ MAXFILE * BSIZE → ptr V x (slot_of (off / BSIZE)) ≠ 0 →
  (Z.to_nat (off mod BSIZE) + length w ≤ 512)%nat →
  content_rep (fupd V (ptr V x (slot_of (off / BSIZE)))
                 (splice (V (ptr V x (slot_of (off / BSIZE)))) (Z.to_nat (off mod BSIZE)) w))
    x (splice data (Z.to_nat off) w).
Proof.
  intros R F Ho Hoff Hmax Hp Hm. set (s := slot_of (off / BSIZE)) in *. set (a := ptr V x s) in *.
  set (o := Z.to_nat (off mod BSIZE)) in *. pose proof (cr_ok _ _ _ R) as P.
  assert (s ≠ ind_slot) as Hs by (apply slot_of_not_ind, Z.div_pos; unfold BSIZE; lia).
  assert (a ≠ ptr V x ind_slot) as Hai by (intros E; by apply Hs, (po_inj _ _ P)).
  assert (length (V a) = 512%nat) as HL.
  { apply F. destruct (po_good _ _ P s Hp) as (? & _). pose proof (ly_size _ _ _ LY). unfold a. lia. }
  assert (∀ i, (o + i < 512)%nat → addr_at V x (Z.to_nat off + i) = a ∧
     Z.to_nat (Z.of_nat (Z.to_nat off + i) mod BSIZE) = (o + i)%nat) as Hin.
  { intros i Hi. destruct (same_block off i Ho Hi) as [E1 E2]. unfold addr_at. by rewrite E1, E2. }
  split.
  - apply ptr_ok_write; [done| |done]. split; [done|by exists s].
  - rewrite splice_length by done. pose proof (cr_max _ _ _ R). lia.
  - intros j Hj. unfold addr_at. rewrite ptr_write by done. rewrite splice_length in Hj by done.
    destruct (decide (j < length data)%nat); [by apply (cr_alloc _ _ _ R)|].
    destruct (Hin (j - Z.to_nat off)%nat) as [E _]; [lia|]. unfold addr_at in E.
    replace (Z.to_nat off + (j - Z.to_nat off))%nat with j in E by lia. congruence.
  - intros j Hj. unfold addr_at. rewrite ptr_write by done. fold (addr_at V x j).
    rewrite splice_length in Hj by done. rewrite splice_lookup by done. case_decide as Hw.
    + destruct (Hin (j - Z.to_nat off)%nat) as [E1 E2]; [lia|].
      replace (Z.to_nat off + (j - Z.to_nat off))%nat with j in E1, E2 by lia.
      rewrite E1, E2, fupd_eq, splice_lookup, decide_True by lia. f_equal. lia.
    + assert (j < length data)%nat as Hjd by lia. rewrite (cr_data _ _ _ R j Hjd).
      destruct (decide (addr_at V x j = a)) as [E|E]; [|by rewrite fupd_ne].
      rewrite E, fupd_eq, splice_lookup, decide_False; [done| |lia].
      apply (po_inj _ _ P) in E; [|by apply (cr_alloc _ _ _ R)].
      apply slot_of_inj in E; [|apply Z.div_pos; unfold BSIZE; lia..].
      unfold o, BSIZE in *. intros Hx. apply Hw. Z.div_mod_to_equations. lia.
Qed.

(** The effect of the loop of [writei], which goes through at most [nb] blocks. *)
Record wrote V x (D : list Z) (nb : nat) (data' : list Z) V' x' (D' : list Z) : Prop := {
  wr_rep : content_rep V' x' data';
  wr_x : x' = x <| i_addrs := i_addrs x' |>;
  wr_fs : fs_ok V';
  wr_ev : evolves (owns V x) V V';
  wr_owns : ∀ c, owns V' x' c → used V c = true → owns V x c;
  wr_len : (length D' ≤ length D + 6 * nb)%nat }.

Lemma wrote_trans V1 x1 D1 n1 d1 V2 x2 D2 n2 d2 V3 x3 D3 :
  wrote V1 x1 D1 n1 d1 V2 x2 D2 → wrote V2 x2 D2 n2 d2 V3 x3 D3 → wrote V1 x1 D1 (n1 + n2) d2 V3 x3 D3.
Proof.
  intros [A1 A2 A3 A4 A5 A6] [B1 B2 B3 B4 B5 B6]. split; try done; try lia.
  - rewrite B2, A2. done.
  - eapply evolves_trans; [exact A4|exact B4|done].
  - intros c Hc Hu. apply A5; [|done]. apply B5; [done|]. apply A4; [|done].
    destruct Hc as [Hc (t & Ht)]. destruct (po_good _ _ (cr_ok _ _ _ B1) t) as (G & _); [congruence|]. by rewrite Ht in G.
Qed.

(** One iteration: the block is found or allocated, and [w] goes into it. *)
Lemma writei_step V x D data bn a V1 x1 (D1 : list Z) off w :
  content_rep V x data → 0 ≤ off → (Z.to_nat off ≤ length data)%nat → bn = off / BSIZE →
  off + Z.of_nat (length w) ≤ MAXFILE * BSIZE → (Z.to_nat (off mod BSIZE) + length w ≤ 512)%nat →
  bmapped 5 2 V x D (slot_of bn) a V1 x1 D1 →
  wrote V x D 1 (splice data (Z.to_nat off) w)
    (fupd V1 a (splice (V1 a) (Z.to_nat (off mod BSIZE)) w)) x1 (pin a D1).
Proof.
  intros R Ho Hoff -> Hmax Hw B.
  assert (0 ≤ off / BSIZE) as Hbn by (apply Z.div_pos; unfold BSIZE; lia).
  pose proof (content_bmapped _ _ _ _ _ _ _ _ _ _ _ Hbn R B) as R1.
  pose proof B as [B1 B2 B3 B4 B5 B6 B7 B8 B9 B10 BO B11 B12]. rewrite <- B2 in B3.
  assert (ptr V1 x1 (slot_of (off / BSIZE)) ≠ ptr V1 x1 ind_slot) as Hni.
  { intros E. apply (slot_of_not_ind _ Hbn). by apply (po_inj _ _ B8). }
  destruct (po_good _ _ B8 _ B3) as (G1 & G2 & G3). destruct (not_meta _ G3) as (Gh & Gn & Gb).
  assert (length (splice (V1 a) (Z.to_nat (off mod BSIZE)) w) = 512%nat) as HL.
  { assert (length (V1 a) = 512%nat) as HL1; [|rewrite splice_length; lia].
    apply B9. rewrite <- B2. by apply (home_range l0). }
  rewrite <- B2 in HL |- *. split.
  - by apply content_write.
  - done.
  - by apply write_ok.
  - eapply evolves_trans; [exact B10|apply (write_evolves (owns V1 x1)); [|done]|exact BO].
    split; [done|by eexists].
  - intros c Hc Hu. apply BO; [|done]. destruct Hc as [Hc (t & Ht)]. rewrite ptr_write in Ht by done.
    split; [done|by exists t].
  - pose proof (pin_length (ptr V1 x1 (slot_of (off / BSIZE))) D1). lia.
Qed.

Lemma writei_loop_spec nb fuel k V D x data src off n tot C :
  tx (set_ip ip x k0) k V D [] → fs_ok V → content_rep V x data → i_dev x = 1 →
  0 ≤ off ≤ Z.of_nat (length data) → 0 ≤ tot ≤ n → n - tot ≤ Z.of_nat (length src) →
  off + (n - tot) ≤ MAXFILE * BSIZE → (tot < n → off mod BSIZE + (n - tot) ≤ BSIZE * Z.of_nat nb) → (nb < fuel)%nat →
  (length D + 6 * nb < 29)%nat → (2 * nb ≤ length (free_blocks sb V))%nat →
  ensures (writei_loop fuel ip src off n tot k)
    (λ r k', r = off + (n - tot) ∧ ∃ V' x' D',
       wrote V x D nb (splice data (Z.to_nat off) (take (Z.to_nat (n - tot)) src)) V' x' D' ∧
       (off + (n - tot) ≤ Z.of_nat (length data) → x' = x) ∧
       tx (set_ip ip x' k0) k' V' D' []) C.
Proof.
  revert fuel k V D x data src off tot. induction nb as [|nb IH];
    intros fuel k V D x data src off tot T F R Hdev Ho Ht Hsrc Hmax Hnb Hfu HD Hfr;
    pose proof (Z.mod_pos_bound off BSIZE ltac:(unfold BSIZE; lia)) as Hmod;
    (destruct fuel as [|f]; [lia|]); cbn [writei_loop].
  1: assert (¬ tot < n) by (unfold BSIZE in *; lia).
  all: case_decide as Hlt; try lia.
  1,3: apply ensures_ret; split; [lia|]; exists V, x, D; split; [|done];
    replace (n - tot) with 0 by lia; rewrite take_0, splice_nil by lia;
    split; try done; [by destruct x|lia].
  assert (0 ≤ off / BSIZE < MAXFILE) as Hbn by (apply pos_block; lia).
  eapply ensures_bind; [eapply bmap_spec; [exact T|done|apply R|done|done|lia|lia]|].
  intros a k1 (V1 & x1 & D1 & B & T1). mstep (the_inode_spec _ _ _ _ _ _ _ T1 Hip).
  assert (i_dev x1 = 1) as Hdev1 by (rewrite (bm_x _ _ _ _ _ _ _ _ _ _ B); done). rewrite Hdev1.
  pose proof (bm_ptr _ _ _ _ _ _ _ _ _ _ B) as Ba. pose proof (bm_nz _ _ _ _ _ _ _ _ _ _ B) as Bz.
  pose proof (bm_len _ _ _ _ _ _ _ _ _ _ B) as BL.
  destruct (po_good _ _ (bm_ok _ _ _ _ _ _ _ _ _ _ B) (slot_of (off / BSIZE))) as (G1 & G2 & G3); [congruence|].
  rewrite Ba in G1, G2, G3. destruct (not_meta _ G3) as (Gh & Gn & Gb).
  eapply ensures_bind; [eapply tx_bread; [exact T1|by apply (home_range l0)|by apply not_elem_of_nil|simpl; unfold NBUF; lia]|].
  intros bp k2 [_ T2]. eapply ensures_bind; [eapply tx_bdata; [exact T2|left]|]. intros d k3 [-> T3].
  set (m := (n - tot) `min` (BSIZE - off mod BSIZE)). assert (0 < m ≤ n - tot) as Hm by (unfold m; lia).
  set (w := take (Z.to_nat m) src). assert (length w = Z.to_nat m) as Hwl by (unfold w; rewrite length_take; lia).
  pose proof (writei_step V x D data (off / BSIZE) a V1 x1 D1 off w R) as W.
  specialize (W ltac:(lia) ltac:(lia) eq_refl ltac:(lia) ltac:(rewrite Hwl; unfold m, BSIZE in *; lia) B).
  replace (take (Z.to_nat (off mod BSIZE)) (V1 a) ++ w ++ drop (Z.to_nat (off mod BSIZE) + Z.to_nat m) (V1 a))
    with (splice (V1 a) (Z.to_nat (off mod BSIZE)) w) by (unfold splice; by rewrite Hwl).
  set (V2 := fupd V1 a _) in *. pose proof (wr_fs _ _ _ _ _ _ _ _ W) as F2.
  eapply tx_update; [done|exact T3|left| |done|lia|].
  { assert (length (V2 a) = 512%nat) as HV by (apply F2; by apply (home_range l0)). unfold V2 in HV. by rewrite fupd_eq in HV. }
  intros k4 T4. eapply ensures_bind; [eapply tx_brelse; [exact T4|by apply not_elem_of_nil]|]. intros [] k5 T5.
  fold V2 in T5. pose proof (pin_length a D1) as PL.
  assert (m = n - tot ∨ (m = BSIZE - off mod BSIZE ∧ (off + m) mod BSIZE = 0)) as Hcase.
  { destruct (decide (m = n - tot)); [by left|right]. assert (m = BSIZE - off mod BSIZE) as -> by lia.
    split; [done|]. unfold BSIZE in *. Z.div_mod_to_equations. lia. }
  pose proof (wr_rep _ _ _ _ _ _ _ _ W) as R2.
  eapply ensures_mono; [apply (IH f k5 V2 (pin a D1) x1 (splice data (Z.to_nat off) w)); try done; try lia| |intros ? HC; exact HC].
  - rewrite splice_length by lia. lia.
  - rewrite length_drop. lia.
  - unfold V2. rewrite free_write by done. pose proof (bm_free _ _ _ _ _ _ _ _ _ _ B). lia.
  - intros r k6 (-> & V3 & x3 & D3 & W3 & Hx3 & T6). split; [lia|]. exists V3, x3, D3.
    replace (Z.to_nat (off + m)) with (Z.to_nat off + length w)%nat in W3 by lia.
    rewrite splice_app in W3 by lia. unfold w in W3.
    replace (take (Z.to_nat m) src ++ take (Z.to_nat (n - (tot + m))) (drop (Z.to_nat m) src))
      with (take (Z.to_nat (n - tot)) src) in W3 by (rewrite take_take_drop; f_equal; lia).
    split; [exact (wrote_trans _ _ _ 1 _ _ _ _ nb _ _ _ _ W W3)|]. split; [|done]. intros Hle.
    assert (ptr V x (slot_of (off / BSIZE)) ≠ 0) as Hp0.
    { pose proof (cr_alloc _ _ _ R (Z.to_nat off)) as Ha. unfold addr_at in Ha. rewrite Z2Nat.id in Ha by lia. apply Ha. lia. }
    destruct (bm_keep _ _ _ _ _ _ _ _ _ _ B Hp0) as (_ & E & _). rewrite <- E. apply Hx3.
    rewrite splice_length by lia. lia.
Qed.

(** ** The cached inode and the inode on the disk *)

Definition iblock x : Z := IBLOCK (i_inum x) sb.

(** The fields of [x] fit a dinode; [synced]: the disk holds them. *)
Record inode_wf x : Prop := {
  iw_dev : i_dev x = 1;
  iw_inum : 0 ≤ i_inum x < sb_ninodes sb;
  iw_shorts : - 2 ^ 15 ≤ i_type x < 2 ^ 15 ∧ - 2 ^ 15 ≤ i_major x < 2 ^ 15 ∧
    - 2 ^ 15 ≤ i_minor x < 2 ^ 15 ∧ - 2 ^ 15 ≤ i_nlink x < 2 ^ 15 }.
Definition synced V x : Prop := disk_inode sb V (i_inum x) = dinode_of x.

Lemma dinode_of_ok V x : inode_wf x → ptr_ok V x → 0 ≤ i_size x < 2 ^ 32 → dinode_ok (dinode_of x).
Proof.
  intros [W1 W2 (W3 & W4 & W5 & W6)] P Hs. split; try done; [apply P|]. simpl. apply Forall_lookup. intros i a Ha.
  pose proof (lookup_lt_Some _ _ _ Ha) as Hi. rewrite (po_len _ _ P) in Hi.
  assert (ptr V x i = a) as Ep by (unfold ptr; rewrite decide_True by done; by apply nth_lookup_Some).
  destruct (decide (a = 0)) as [->|Hn]; [lia|].
  destruct (po_good _ _ P i) as (G & _); [congruence|]. rewrite Ep in G. lia.
Qed.

Lemma iblock_meta x : inode_wf x →
  home (iblock x) ∧ 0 ≤ iblock x < sb_size sb ∧ meta (iblock x) ∧ iblock x ≠ 1 ∧
  ∀ b, 0 ≤ b < sb_size sb → iblock x ≠ BBLOCK b sb.
Proof.
  intros [_ W _]. destruct (ly_inode _ _ _ LY _ W) as [Hh Hs]. split; [done|]. pose proof (home_range _ _ _ Hh).
  split; [unfold iblock; lia|]. split; [right; right; by exists (i_inum x)|]. split; [apply Hh|].
  intros b Hb E. by apply (ly_apart _ _ _ LY b (i_inum x)).
Qed.

Definition update_view V x : Z → list Z :=
  fupd V (iblock x) (put_dinode (V (iblock x)) (dinode_off (i_inum x)) (dinode_of x)).

Lemma iupdate_spec k V D x C :
  tx (set_ip ip x k0) k V D [] → inode_wf x → (length D < 29)%nat →
  ensures (iupdate ip k) (λ _ k', tx (set_ip ip x k0) k' (update_view V x) (pin (iblock x) D) []) C.
Proof.
  intros T W HD. destruct (iblock_meta x W) as (Hh & _). unfold iupdate.
  mstep (the_inode_spec _ _ _ _ _ _ _ T Hip). rewrite bind_gets, (tx_sb _ _ _ _ _ _ _ _ T).
  change (k_sb (set_ip ip x k0)) with (k_sb k0). rewrite Esb, (iw_dev _ W).
  eapply ensures_bind; [eapply tx_bread; [exact T|by apply (home_range l0)|by apply not_elem_of_nil|simpl; unfold NBUF; lia]|].
  intros bp k1 [_ T1]. eapply ensures_bind; [eapply tx_bdata; [exact T1|left]|]. intros d k2 [-> T2].
  eapply tx_update; [done|exact T2|left| |done|done|].
  { rewrite put_dinode_length. eapply tx_len; [exact T2|]. by apply (home_range l0). }
  intros k3 T3. eapply ensures_mono; [eapply tx_brelse; [exact T3|by apply not_elem_of_nil]|done|].
  intros ? HC. exact HC.
Qed.

(** A write outside the file's blocks. *)
Lemma content_other V x data c d :
  content_rep V x data → meta c → (∀ b, 0 ≤ b < sb_size sb → c ≠ BBLOCK b sb) → content_rep (fupd V c d) x data.
Proof.
  intros R Hm Hb. assert (∀ t, ptr V x t ≠ 0 → ptr V x t ≠ c) as Hne.
  { intros t Ht <-. by apply (po_good _ _ (cr_ok _ _ _ R) t Ht). }
  assert (∀ t, ptr (fupd V c d) x t = ptr V x t) as Hp.
  { intros t. destruct (decide (ptr V x ind_slot = 0)) as [H0|H0].
    - rewrite ptr_ind in H0. unfold ptr. by rewrite !(decide_True (P := nth ind_slot (i_addrs x) 0 = 0)) by done.
    - apply ptr_write. intros E. by destruct (Hne _ H0). }
  split; [|apply R| |].
  - split; [apply R| |].
    + intros t. rewrite Hp. intros Ht. destruct (po_good _ _ (cr_ok _ _ _ R) t Ht) as (G1 & G2 & G3).
      split; [done|]. split; [by rewrite used_write|done].
    + intros t u. rewrite !Hp. apply R.
  - intros j Hj. unfold addr_at. rewrite Hp. by apply (cr_alloc _ _ _ R).
  - intros j Hj. unfold addr_at. rewrite Hp. rewrite fupd_ne; [by apply (cr_data _ _ _ R)|].
    apply Hne. by apply (cr_alloc _ _ _ R).
Qed.

(** The inode blocks outlive changes of file content. *)
Lemma evolves_inodes V V' x j :
  fs_ok V → ptr_ok V x → evolves (owns V x) V V' → 0 ≤ j < sb_ninodes sb → disk_inode sb V' j = disk_inode sb V j.
Proof.
  intros F P E Hj. unfold disk_inode. destruct (ly_inode _ _ _ LY _ Hj) as [Hh Hs].
  pose proof (home_range _ _ _ Hh). assert (meta (IBLOCK j sb)) as Hm by (right; right; by exists j).
  rewrite (ev_same _ _ _ _ E); [done|lia|apply F; [lia|done]| |].
  - intros [Hn (t & Ht)]. destruct (po_good _ _ P t) as (_ & _ & Hnm); [congruence|]. by rewrite Ht in Hnm.
  - intros b Hb Eb. by apply (ly_apart _ _ _ LY b j).
Qed.

(** A file in the middle of a transaction: its inode is cached as [x], agrees with
    the disk, and its bytes are [data]. *)
Record file_at k V D x data : Prop := {
  fa_tx : tx (set_ip ip x k0) k V D [];
  fa_fs : fs_ok V;
  fa_rep : file_rep V x data;
  fa_wf : inode_wf x;
  fa_sync : synced V x }.

(** What writing the file whose inode is [x] leaves alone: the blocks of other
    files, and the other inodes. *)
Record only_file x V V' : Prop := {
  of_ev : evolves (λ c, owns V x c ∨ c = iblock x) V V';
  of_inodes : ∀ j, 0 ≤ j < sb_ninodes sb → j ≠ i_inum x → disk_inode sb V' j = disk_inode sb V j }.

Context `{DevSw}.

Lemma readi_file k V D x data off n C :
  file_at k V D x data → i_type x ≠ T_DEV → (length D < 24)%nat →
  0 ≤ off ≤ Z.of_nat (length data) → 0 ≤ n → off + n < 2 ^ 32 →
  ensures (readi ip off n k)
    (λ '(r, bs) k', bs = take (Z.to_nat n) (drop (Z.to_nat off) data) ∧ r = Z.of_nat (length bs) ∧
       file_at k' V D x data) C.
Proof.
  intros [T F [R Hs] W Sy] Hty HD Ho Hn Hov. unfold readi. mstep (the_inode_spec _ _ _ _ _ _ _ T Hip).
  rewrite decide_False by done. pose proof (cr_max _ _ _ R) as Hmax.
  unfold MAXFILE, NDIRECT, NINDIRECT, BSIZE in Hmax. change (512 / 4) with 128 in Hmax.
  rewrite decide_False by (rewrite Hs, u32_small; lia).
  set (n' := if decide (off + n > i_size x) then i_size x - off else n).
  assert (n' = n `min` (Z.of_nat (length data) - off)) as En by (unfold n'; case_decide; lia).
  pose proof (Z.mod_pos_bound off BSIZE ltac:(unfold BSIZE; lia)).
  eapply ensures_bind.
  - eapply (readi_loop_spec (Z.to_nat (n' / BSIZE + 2))); try done; try lia.
    + apply W.
    + intros _. unfold BSIZE in *. Z.div_mod_to_equations. lia.
    + unfold blocks_fuel. pose proof (Z.div_pos n' BSIZE ltac:(lia) ltac:(unfold BSIZE; lia)). lia.
  - intros bs k1 [-> T1]. apply ensures_ret. rewrite Z.sub_0_r, app_nil_l.
    assert (take (Z.to_nat n') (drop (Z.to_nat off) data) = take (Z.to_nat n) (drop (Z.to_nat off) data)) as ->.
    { destruct (decide (n ≤ Z.of_nat (length data) - off)); [do 2 f_equal; lia|].
      rewrite !take_ge by (rewrite length_drop; lia). done. }
    split; [done|]. split; [|done]. rewrite length_take, length_drop, i32_small; lia.
Qed.

Lemma writei_file k V D x data src off n nb C :
  file_at k V D x data → i_type x ≠ T_DEV → 0 ≤ off ≤ Z.of_nat (length data) → 0 ≤ n ≤ Z.of_nat (length src) →
  off + n ≤ MAXFILE * BSIZE → off mod BSIZE + n ≤ BSIZE * Z.of_nat nb →
  (length D + 6 * nb < 29)%nat → (2 * nb ≤ length (free_blocks sb V))%nat →
  ensures (writei ip src off n k)
    (λ r k', r = n ∧ ∃ V' x' D',
       file_at k' V' D' x' (splice data (Z.to_nat off) (take (Z.to_nat n) src)) ∧
       x' = x <| i_addrs := i_addrs x' |> <| i_size := i_size x' |> ∧ only_file x V V' ∧
       (length D' ≤ length D + 6 * nb + 1)%nat) C.
Proof.
  intros [T F [R Hs] W Sy] Hty Ho Hn Hmx Hnb HD Hfr. unfold writei. mstep (the_inode_spec _ _ _ _ _ _ _ T Hip).
  assert (MAXFILE * BSIZE = 71680) as EM by done.
  pose proof (cr_max _ _ _ R) as Hmax.
  rewrite decide_False by done. rewrite decide_False by (rewrite Hs, u32_small; lia). rewrite decide_False by lia.
  assert (Z.of_nat nb ≤ n / BSIZE + 2 ∨ n / BSIZE + 2 < Z.of_nat nb) as Hnbs by lia.
  set (nb' := Nat.min nb (Z.to_nat (n / BSIZE + 2))).
  pose proof (Z.mod_pos_bound off BSIZE ltac:(unfold BSIZE; lia)) as Hmod.
  assert (off mod BSIZE + n ≤ BSIZE * Z.of_nat nb') as Hnb'.
  { unfold nb'. destruct Hnbs; unfold BSIZE in *; Z.div_mod_to_equations; lia. }
  eapply ensures_bind.
  { eapply (writei_loop_spec nb' (blocks_fuel n)); try done; try lia; [apply W|].
    unfold nb', blocks_fuel. pose proof (Z.div_pos n BSIZE ltac:(lia) ltac:(unfold BSIZE; lia)). lia. }
  intros off' k1 (-> & V1 & x1 & D1 & Wr & Hsame & T1). rewrite Z.sub_0_r in *.
  set (data' := splice data (Z.to_nat off) (take (Z.to_nat n) src)) in *.
  assert (Z.of_nat (length data') = Z.max (Z.of_nat (length data)) (off + n)) as EL.
  { unfold data'. rewrite splice_length, length_take by lia. lia. }
  pose proof Wr as [W1 W2 W3 W4 W5 W6]. mstep (the_inode_spec _ _ _ _ _ _ _ T1 Hip).
  assert (i_size x1 = i_size x ∧ i_inum x1 = i_inum x) as [Es1 Ei1] by (rewrite W2; done).
  assert (∀ j, 0 ≤ j < sb_ninodes sb → disk_inode sb V1 j = disk_inode sb V j) as Hin.
  { intros j Hj. eapply evolves_inodes; [done|apply R|done|done]. }
  assert (inode_wf x1) as Wf1 by (destruct W; rewrite W2; by split).
  assert (nb' ≤ nb)%nat as Hle by (unfold nb'; lia).
  case_bool_decide as Hc; cbn [when].
  2:{ rewrite bind_ret. apply ensures_ret. split; [rewrite i32_small; lia|]. exists V1, x1, D1.
      assert (off + n ≤ Z.of_nat (length data)) as Hin' by lia.
      split; [|split; [rewrite W2; by destruct x|split; [|lia]]].
      - split; try done; [split; [done|lia]|]. unfold synced. rewrite Hin by (rewrite Ei1; apply W).
        rewrite (Hsame Hin'). exact Sy.
      - split; [eapply evolves_mono; [exact W4|by auto]|]. intros j Hj _. by apply Hin. }
  set (x2 := x1 <| i_size := off + n |>). unfold upd_inode. rewrite bind_assoc, bind_modify.
  apply (tx_upd_ip k0 _ _ _ _ ip x1 (λ x, x <| i_size := off + n |>) Hip) in T1. fold x2 in T1.
  assert (inode_wf x2) as Wf2 by (by destruct Wf1).
  assert (content_rep V1 x2 data') as R2.
  { destruct W1 as [[P1 P2 P3] C1 C2 C3]. split; [split; [exact P1|exact P2|exact P3]|done|exact C2|exact C3]. }
  eapply ensures_bind; [eapply iupdate_spec; [exact T1|done|lia]|]. intros [] k3 T3.
  apply ensures_ret. split; [rewrite i32_small; lia|]. exists (update_view V1 x2), x2, (pin (iblock x2) D1).
  destruct (iblock_meta x2 Wf2) as (Hh & Hr & Hm & H1 & Hb).
  assert (length (V1 (iblock x2)) = 512%nat) as HL by (apply W3; by apply (home_range l0)).
  assert (dinode_ok (dinode_of x2)) as Kd by (apply (dinode_of_ok V1); [done|apply R2|simpl; lia]).
  assert (iblock x2 = iblock x) as Eib by (unfold iblock; by rewrite <- Ei1).
  split_and!.
  - split; try done.
    + apply write_ok; try done. by rewrite put_dinode_length.
    + split; [by apply content_other|]. simpl. lia.
    + unfold synced, update_view, iblock. rewrite disk_inode_put by done. by rewrite decide_True.
  - unfold x2. rewrite W2. by destruct x.
  - split.
    + eapply evolves_trans; [eapply evolves_mono; [exact W4|by auto]|by apply (write_evolves (λ c, c = iblock x))|by auto].
    + intros j Hj Hne. unfold update_view, iblock. rewrite disk_inode_put by done.
      rewrite decide_False by (change (i_inum x2) with (i_inum x1); congruence). by apply Hin.
  - pose proof (pin_length (iblock x2) D1). lia.
Qed.

Lemma readi_rejects k ip' x off n :
  the_inode ip' k = (Ok x, k) → i_type x ≠ T_DEV → off > i_size x ∨ u32 (off + n) < off →
  readi ip' off n k = (Ok (-1, []), k).
Proof.
  intros Hx Ht Hb. unfold readi. mstep Hx. rewrite decide_False by done. by rewrite decide_True.
Qed.
End files.

(** ** Reading back what was written *)

(** C5: [writei] followed by [readi] on a regular file, inside a transaction
    with room in the log and enough free blocks: both return the byte counts asked
    for, cut at the end of the file; the bytes read are those of the old content
    overwritten at [off] by the bytes written, growing the file if needed; the
    inode on the disk agrees with the cached one; the blocks and inodes of all
    other files are as before. *)
Theorem write_then_read `{DevSw} pid l0 disk sb ip k0 k V D x data src off n off2 n2 nb C :
  layout l0 disk sb → log_open l0 disk → sb_size sb < 2 ^ 32 → (ip < length (k_icache k0))%nat → k_sb k0 = sb →
  file_at pid l0 disk sb ip k0 k V D x data → i_type x ≠ T_DEV →
  0 ≤ off ≤ Z.of_nat (length data) → 0 ≤ n ≤ Z.of_nat (length src) → off + n ≤ MAXFILE * BSIZE →
  off mod BSIZE + n ≤ BSIZE * Z.of_nat nb → (length D + 6 * nb < 23)%nat → (2 * nb ≤ length (free_blocks sb V))%nat →
  0 ≤ off2 ≤ Z.of_nat (length data) → 0 ≤ n2 → off2 + n2 < 2 ^ 32 →
  ensures ((r ← writei ip src off n; '(r2, bs) ← readi ip off2 n2; mret (r, r2, bs)) k)
    (λ '(r, r2, bs) k', r = n ∧ r2 = Z.of_nat (length bs) ∧
       bs = take (Z.to_nat n2) (drop (Z.to_nat off2) (splice data (Z.to_nat off) (take (Z.to_nat n) src))) ∧
       ∃ V' x' D', file_at pid l0 disk sb ip k0 k' V' D' x' (splice data (Z.to_nat off) (take (Z.to_nat n) src)) ∧
         only_file sb x V V') C.
Proof.
  intros LY LO Hsm Hip Esb FA Hty Ho Hn Hmx Hnb HD Hfr Ho2 Hn2 Hov.
  eapply ensures_bind; [by eapply (writei_file pid l0 disk sb LY LO Hsm ip k0 Hip Esb); try done; lia|].
  intros r k1 (-> & V1 & x1 & D1 & FA1 & Ex & OF & HL).
  eapply ensures_bind.
  - eapply (readi_file pid l0 disk sb LY LO Hsm ip k0 Hip Esb _ _ _ _ _ off2 n2); [exact FA1| |lia| |done|done].
    + rewrite Ex. exact Hty.
    + rewrite splice_length by lia. lia.
  - intros [r2 bs] k2 (-> & -> & FA2). apply ensures_ret. split_and!; try done. by exists V1, x1, D1.
Qed.

#[local] Instance no_devices : DevSw := {| dev_read := λ _, None; dev_write := λ _, None |}.

Lemma demo_file_at :
  file_at 1 demo_tx_log demo_fs demo_sb 0 demo_state demo_state (disk_view demo_fs) [] demo_inode [97; 98; 99].
Proof.
  assert (Z.of_nat (length demo_fs) = 40) as EN by (vm_compute; reflexivity).
  assert (∀ s, ptr (disk_view demo_fs) demo_inode s = if decide (s = O) then 34 else 0) as Hp.
  { intros s. unfold ptr. destruct (decide (s < 13)%nat); [do 13 (destruct s as [|s]; [done|]); lia|].
    rewrite (decide_True (P := nth ind_slot (i_addrs demo_inode) 0 = 0)) by done. rewrite (decide_False (P := s = O)) by lia.
    by destruct (decide (s < 141)%nat). }
  assert (good demo_tx_log demo_fs demo_sb (disk_view demo_fs) 34) as G.
  { split; [simpl; lia|]. split; [vm_compute; reflexivity|].
    unfold meta, home, log_area, BBLOCK, IBLOCK, BPB, IPB, BSIZE. rewrite EN. change (512 / 64) with 8.
    cbn [sb_size sb_bmapstart sb_ninodes sb_inodestart demo_sb lg_start lg_size demo_tx_log].
    intros [Hm|[(c & Hc & E)|(i & Hi & E)]]; [apply Hm; lia|rewrite Z.div_small in E by lia; lia..]. }
  split.
  - rewrite (set_ip_same _ _ demo_inode) by (vm_compute; reflexivity). apply demo_tx.
  - apply demo_fs_ok.
  - split; [|done]. split.
    + split; [done| |].
      * intros s. rewrite Hp. by case_decide.
      * intros s t. rewrite !Hp. repeat case_decide; congruence.
    + done.
    + intros j Hj. unfold addr_at. rewrite Hp. do 3 (destruct j as [|j]; [done|]). simpl in Hj. lia.
    + intros j Hj. unfold addr_at. rewrite Hp. do 3 (destruct j as [|j]; [vm_compute; reflexivity|]). simpl in Hj. lia.
  - split; [done|simpl; lia|simpl; lia].
  - vm_compute. reflexivity.
Qed.

Lemma write_then_read_witness :
  ensures ((r ← writei 0 [100; 101] 2 2; '(r2, bs) ← readi 0 1 10; mret (r, r2, bs)) demo_state)
    (λ '(r, r2, bs) k', r = 2 ∧ r2 = 3 ∧ bs = [98; 100; 101]) (λ _, False).
Proof.
  eapply ensures_mono;
    [eapply (write_then_read 1 demo_tx_log demo_fs demo_sb 0 demo_state demo_state (disk_view demo_fs) [] demo_inode
      [97; 98; 99] [100; 101] 2 2 1 10 1 (λ _, False))| |done].
  - apply demo_layout.
  - apply demo_log_open.
  - done.
  - simpl. lia.
  - done.
  - apply demo_file_at.
  - done.
  - simpl. lia.
  - simpl. lia.
  - change (MAXFILE * BSIZE) with 71680. lia.
  - change (2 mod BSIZE) with 2. unfold BSIZE. lia.
  - simpl. lia.
  - vm_compute. lia.
  - simpl. lia.
  - lia.
  - lia.
  - intros [[r r2] bs] k' (-> & -> & -> & _). by split_and!.
Defined.
