(* ===== verification/FsDir.v ===== *)
(** * Directories (properties of dirlookup and dirlink in fs.c)

    A directory is a file of 16-byte entries.  Read as the map that takes a name to the
    inode number of its first entry, [dirlookup] looks a name up in the map and
    [dirlink] adds a name to it.  A path is the list of the parts between its slashes;
    [skipelem] takes them off one after the other. *)

From S2P Require Import Prelude Memory Strings State Spinlock Cons Sched Sleeplock BufList Bio Log Tx Fs FsBlocks FsInode FsFile.

(** ** A directory as a map *)

(** Names are compared on their first DIRSIZ characters. *)
Definition name_key (name : list Z) : list Z := cut (at_bytes name) DIRSIZ.

Definition dirent (data : list Z) (i : nat) : list Z := take 16 (drop (16 * i) data).
Definition ent_of (de : list Z) : Z * list Z := (de_inum de, name_key (de_name de)).
Definition entries (data : list Z) : list (Z * list Z) :=
  map (λ i, ent_of (dirent data i)) (seq 0 (length data / 16)).

Definition matches (key : list Z) (e : Z * list Z) : Prop := e.1 ≠ 0 ∧ e.2 = key.
#[global] Instance matches_dec key e : Decision (matches key e).
Proof. unfold matches. apply _. Defined.

Fixpoint ent_lookup (l : list (Z * list Z)) (key : list Z) : option Z :=
  match l with
  | [] => None
  | e :: l' => if decide (matches key e) then Some e.1 else ent_lookup l' key
  end.

(** The map: the inode number of a name. *)
Definition dir_map (data : list Z) (name : list Z) : option Z := ent_lookup (entries data) (name_key name).

(** Whole entries of bytes. *)
Record dir_rep (m : nat) (data : list Z) : Prop := {
  dr_len : length data = (16 * m)%nat;
  dr_bytes : Forall (λ b, 0 ≤ b < 2 ^ 8) data }.

Lemma ent_lookup_none l key : (∀ i e, l !! i = Some e → ¬ matches key e) → ent_lookup l key = None.
Proof.
  induction l as [|e l IH]; intros Hn; simpl; [done|]. rewrite decide_False by (by apply (Hn O)).
  apply IH. intros i. apply (Hn (S i)).
Qed.

Lemma ent_lookup_none_inv l key i e : ent_lookup l key = None → l !! i = Some e → ¬ matches key e.
Proof.
  revert i. induction l as [|e' l IH]; intros i; simpl; [done|]. case_decide; [done|]. intros Hn.
  destruct i as [|i]; simpl; [by intros [= <-]|by apply IH].
Qed.

Lemma ent_lookup_first l key i e :
  l !! i = Some e → matches key e → (∀ j e', (j < i)%nat → l !! j = Some e' → ¬ matches key e') →
  ent_lookup l key = Some e.1.
Proof.
  revert i. induction l as [|e' l IH]; intros i; simpl; [done|]. destruct i as [|i]; simpl.
  - intros [= ->] Hm _. by rewrite decide_True.
  - intros Hi Hm Hf. rewrite decide_False by (apply (Hf O); [lia|done]).
    apply (IH i); [done..|]. intros j e'' Hj. apply (Hf (S j)). lia.
Qed.

Lemma ent_lookup_some l key n :
  ent_lookup l key = Some n → ∃ i e, l !! i = Some e ∧ matches key e ∧ e.1 = n ∧
    ∀ j e', (j < i)%nat → l !! j = Some e' → ¬ matches key e'.
Proof.
  induction l as [|e l IH]; simpl; [done|]. case_decide as E.
  - intros [= <-]. exists O, e. split_and!; try done. lia.
  - intros (i & e' & H1 & H2 & H3 & H4)%IH. exists (S i), e'. split_and!; try done.
    intros [|j] e'' Hj; simpl; [by intros [= <-]|]. apply H4. lia.
Qed.

(** A free entry is filled, or one is added at the end. *)
Lemma ent_lookup_set l l' i inum key key2 :
  (i ≤ length l)%nat → (∀ e, l !! i = Some e → e.1 = 0) → inum ≠ 0 → ent_lookup l key = None →
  (∀ j, l' !! j = if decide (j = i) then Some (inum, key) else l !! j) →
  ent_lookup l' key2 = if decide (key2 = key) then Some inum else ent_lookup l key2.
Proof.
  intros Hi Hfree Hn Hnone Hl'. case_decide as E.
  - subst key2. apply (ent_lookup_first l' key i (inum, key)); [by rewrite Hl', decide_True|done|].
    intros j e Hj. rewrite Hl', decide_False by lia. by apply ent_lookup_none_inv.
  - assert (∀ j e, l' !! j = Some e → matches key2 e → j ≠ i ∧ l !! j = Some e) as H1.
    { intros j e. rewrite Hl'. case_decide; [|done]. intros [= <-] [_ ?]. by simpl in *. }
    assert (∀ j e, l !! j = Some e → matches key2 e → l' !! j = Some e) as H2.
    { intros j e He [Hz _]. rewrite Hl', decide_False; [done|]. intros ->. by rewrite (Hfree e He) in Hz. }
    destruct (ent_lookup l key2) as [n|] eqn:El.
    + apply ent_lookup_some in El as (j & e & Hj & Hm & <- & Hf).
      apply (ent_lookup_first l' key2 j e); [by apply H2|done|].
      intros j' e' Hj' He' Hm'. destruct (H1 j' e' He' Hm') as [_ Hl]. by apply (Hf j' e' Hj' Hl).
    + apply ent_lookup_none. intros j e He Hm. destruct (H1 j e He Hm) as [_ Hj].
      by apply (ent_lookup_none_inv _ _ _ _ El Hj).
Qed.

(** ** The bytes of the entries *)

Lemma dirent_lookup data i t : (t < 16)%nat → dirent data i !! t = data !! (16 * i + t)%nat.
Proof. intros Ht. unfold dirent. rewrite lookup_take_lt by done. by rewrite lookup_drop. Qed.

Lemma dirent_data_length data m i : dir_rep m data → (i < m)%nat → length (dirent data i) = 16%nat.
Proof. intros [Hl _] Hi. unfold dirent. rewrite length_take, length_drop. lia. Qed.

Lemma entries_lookup data m i :
  dir_rep m data → entries data !! i = if decide (i < m)%nat then Some (ent_of (dirent data i)) else None.
Proof.
  intros [Hl _]. unfold entries. rewrite Hl, Nat.mul_comm, Nat.div_mul by done.
  change (map ?f ?l) with (f <$> l). rewrite list_lookup_fmap. case_decide.
  - by rewrite lookup_seq_lt.
  - by rewrite lookup_seq_ge by lia.
Qed.

Lemma entries_length data m : dir_rep m data → length (entries data) = m.
Proof. intros [Hl _]. unfold entries. by rewrite length_map, length_seq, Hl, Nat.mul_comm, Nat.div_mul. Qed.

(** The name read back from an entry. *)
Lemma cut_strncpy t n q : (∀ i, (i < n)%nat → q i = nth i (strncpy_bytes t n) 0) → cut q n = cut t n.
Proof.
  unfold strncpy_bytes. revert t q. induction n as [|n IH]; intros t q Hq; [done|]. cbn [cut] in *.
  pose proof (Hq O ltac:(lia)) as H0. destruct (decide (t O = 0)) as [E|E]; simpl in H0.
  - by rewrite decide_True.
  - rewrite decide_False, H0 by congruence. f_equal. apply IH. intros i Hi. exact (Hq (S i) ltac:(lia)).
Qed.

Lemma dirent_bytes_length inum name : length (dirent_bytes inum name) = 16%nat.
Proof. unfold dirent_bytes. by rewrite length_app, strncpy_bytes_length, length_put16. Qed.

Lemma ent_of_dirent inum name : 0 ≤ inum < 2 ^ 16 → ent_of (dirent_bytes inum name) = (inum, name_key name).
Proof.
  intros Hi. unfold ent_of, dirent_bytes, de_inum, de_name. f_equal.
  - rewrite (get16_ext _ (put16 (replicate 2 0) 0 inum)); [rewrite get16_put16_eq by (simpl; lia); zlia|].
    intros j Hj. unfold byte_at. by rewrite app_nth1 by (rewrite length_put16; simpl; lia).
  - unfold name_key. apply cut_strncpy. intros i Hi'. unfold at_bytes.
    rewrite drop_app_ge by done. rewrite length_put16. done.
Qed.

Lemma name_bytes p n x : (∀ i, 0 ≤ p i < 2 ^ 8) → x ∈ cut p n → 0 ≤ x < 2 ^ 8.
Proof.
  revert p. induction n as [|n IH]; intros p Hp; simpl; [by intros []%not_elem_of_nil|].
  case_decide; [by intros []%not_elem_of_nil|]. intros [->|Hx]%elem_of_cons; [done|]. apply (IH (advance p 1)); [|done].
  intros i. apply Hp.
Qed.

(** A directory after an entry has been written. *)
Lemma dir_set m data i inum name :
  dir_rep m data → (i ≤ m)%nat → 0 ≤ inum < 2 ^ 16 → Forall (λ b, 0 ≤ b < 2 ^ 8) name →
  dir_rep (Nat.max m (S i)) (splice data (16 * i) (dirent_bytes inum name)) ∧
  ∀ j, entries (splice data (16 * i) (dirent_bytes inum name)) !! j =
       if decide (j = i) then Some (inum, name_key name) else entries data !! j.
Proof.
  intros Hd Hi Hn Hnm. pose proof Hd as [Hl Hb]. pose proof (dirent_bytes_length inum name) as HL.
  set (data' := splice data (16 * i) (dirent_bytes inum name)).
  assert (∀ t, data' !! t = if decide (16 * i ≤ t < 16 * i + 16)%nat then dirent_bytes inum name !! (t - 16 * i)%nat else data !! t) as Hlk.
  { intros t. unfold data'. rewrite splice_lookup by lia. by rewrite HL. }
  assert (dir_rep (Nat.max m (S i)) data') as Hd'.
  { split; [unfold data'; rewrite splice_length, HL by lia; lia|]. apply Forall_lookup. intros t b. rewrite Hlk.
    rewrite Forall_lookup in Hb. case_decide; [|apply Hb]. unfold dirent_bytes. intros Hb'.
    apply list_elem_of_lookup_2, elem_of_app in Hb' as [Hb'|Hb'].
    - apply list_elem_of_lookup in Hb' as [u Hu]. unfold put16 in Hu. destruct u as [|[|u]]; simpl in Hu; simplify_eq; zlia.
    - unfold strncpy_bytes in Hb'. apply elem_of_app in Hb' as [Hb'|Hb']; [|apply elem_of_replicate in Hb' as [-> _]; lia].
      eapply name_bytes; [|done]. intros u. unfold at_bytes. rewrite nth_lookup.
      destruct (name !! u) as [x|] eqn:Hx; simpl; [|lia]. rewrite Forall_lookup in Hnm. by apply (Hnm _ _ Hx). }
  split; [done|]. intros j. rewrite (entries_lookup _ _ j Hd'), (entries_lookup _ _ j Hd). case_decide as Hj.
  - destruct (decide (j = i)) as [->|Hne].
    + rewrite <- ent_of_dirent by done. do 2 f_equal. apply list_eq. intros t. destruct (decide (t < 16)%nat) as [Ht|Ht].
      * rewrite dirent_lookup, Hlk, decide_True by lia. f_equal. lia.
      * rewrite !lookup_ge_None_2; [done|lia|]. unfold dirent. rewrite length_take. lia.
    + rewrite decide_True by lia. do 2 f_equal. apply list_eq. intros t. destruct (decide (t < 16)%nat) as [Ht|Ht].
      * rewrite !dirent_lookup by done. by rewrite Hlk, decide_False by lia.
      * rewrite !lookup_ge_None_2; [done|unfold dirent; rewrite length_take; lia..].
  - rewrite !decide_False by lia. done.
Qed.

(** ** References to inodes (iget) *)

Lemma find_inode_spec dev inum l i e :
  match find_inode dev inum l i e with
  | inl j => ∃ y, (i ≤ j)%nat ∧ l !! (j - i)%nat = Some y ∧ i_ref y > 0 ∧ i_dev y = dev ∧ i_inum y = inum
  | inr (Some j) => e = Some j ∨ e = None ∧ ∃ y, (i ≤ j)%nat ∧ l !! (j - i)%nat = Some y ∧ i_ref y = 0
  | inr None => e = None ∧ ∀ j y, l !! j = Some y → i_ref y ≠ 0
  end.
Proof.
  revert i e. induction l as [|x l IH]; intros i e; simpl.
  - destruct e; [by left|]. split; [done|]. intros j y. done.
  - case_bool_decide as E1; [exists x; rewrite Nat.sub_diag; naive_solver|].
    specialize (IH (S i) (match e with None => if bool_decide (i_ref x = 0) then Some i else None | Some _ => e end)).
    assert (∀ j, (S i ≤ j)%nat → (x :: l) !! (j - i)%nat = l !! (j - S i)%nat) as Hsh.
    { intros j Hj. by replace (j - i)%nat with (S (j - S i)) by lia. }
    destruct (find_inode dev inum l (S i) _) as [j|[j|]].
    + destruct IH as (y & Hj & H1 & H2). exists y. split; [lia|]. by rewrite Hsh.
    + destruct IH as [He|(He & y & Hj & H1 & H2)].
      * destruct e; [by left|]. case_bool_decide; [|done]. injection He as <-. right. split; [done|].
        exists x. by rewrite Nat.sub_diag.
      * destruct e; [done|]. right. split; [done|]. exists y. split; [lia|]. by rewrite Hsh.
    + destruct IH as [He Hall]. destruct e; [done|]. split; [done|]. case_bool_decide; [done|].
      intros [|j] y; simpl; [by intros [= <-]|apply Hall].
Qed.

(** [iget] refers to the inode: entry [j] of the cache, [y] before the call, is for it. *)
Definition refers (g : inode → inode) (y : inode) (dev inum : Z) : Prop :=
  i_dev (g y) = dev ∧ i_inum (g y) = inum ∧ i_ref (g y) > 0 ∧
  (i_ref y = 0 ∧ i_valid (g y) = false ∨ i_ref y > 0 ∧ g y = y <| i_ref ::= λ n, n + 1 |>).

Lemma iget_at k c cp dev inum :
  cpu_at k c cp → c_ncli cp + 2 < 2 ^ 30 → free L_icache k → (∃ i y, k_icache k !! i = Some y ∧ i_ref y = 0) →
  ∃ j g y, iget dev inum k = (Ok j, k <| k_icache ::= alter g j |>) ∧ k_icache k !! j = Some y ∧ refers g y dev inum.
Proof.
  intros Hc Hz Hfr (i & y0 & Hi & H0). unfold iget.
  mstep (acquire_spec L_icache k c cp Hc Hz Hfr). rewrite bind_gets.
  change (k_icache (locked L_icache c k)) with (k_icache k).
  pose proof (find_inode_spec dev inum (k_icache k) 0 None) as F.
  assert (∀ j g, (upd_inode j g;; release L_icache;; mret j) (locked L_icache c k) = (Ok j, k <| k_icache ::= alter g j |>)) as Hend.
  { intros j g. unfold upd_inode. rewrite bind_modify.
    change (upd k_icache (alter g j) (locked L_icache c k)) with (locked L_icache c (k <| k_icache ::= alter g j |>)).
    erewrite bind_ok; [done|]. by eapply release_spec; [by eapply (cpu_at_ext k)|..]. }
  destruct (find_inode dev inum (k_icache k) 0 None) as [j|[j|]].
  - destruct F as (y & _ & Hj & Hr & Hd & Hn). rewrite Nat.sub_0_r in Hj. eexists j, _, y. split; [apply Hend|]. split; [done|].
    unfold refers. simpl. split_and!; try done; [lia|]. by right.
  - destruct F as [|(_ & y & _ & Hj & Hr)]; [done|]. rewrite Nat.sub_0_r in Hj. eexists j, _, y. split; [apply Hend|]. split; [done|].
    unfold refers. simpl. split_and!; try done. by left.
  - destruct F as [_ F]. by destruct (F i y0 Hi).
Qed.

Lemma iget_spec k pid dev inum :
  ctx k pid → (∃ i y, k_icache k !! i = Some y ∧ i_ref y = 0) →
  ∃ j g y, iget dev inum k = (Ok j, k <| k_icache ::= alter g j |>) ∧ k_icache k !! j = Some y ∧ refers g y dev inum.
Proof. intros Hx. destruct (ctx_cpu _ _ Hx) as (c & cp & Hc & Hz). apply (iget_at k c cp); [done|lia|by eapply ctx_free]. Qed.

(** ** The operations *)

Section dirs.
Context (pid : Z) (l0 : log) (disk : list (list Z)) (sb : superblock).
Context (LY : layout l0 disk sb) (LO : log_open l0 disk) (Hsmall : sb_size sb < 2 ^ 32).
Context (ip : nat) (k0 : kernel) (Hip : (ip < length (k_icache k0))%nat) (Esb : k_sb k0 = sb).
Context `{DevSw}.
Notation file_at := (file_at pid l0 disk sb ip k0).
Implicit Types (V : Z → list Z) (x : inode) (C : kernel → Prop) (D data name : list Z).

(** The directory [x] with the bytes [data], in a transaction. *)
Record dir_at k V D x data (m : nat) : Prop := {
  da_file : file_at k V D x data;
  da_type : i_type x = T_DIR;
  da_rep : dir_rep m data }.

Lemma dir_size k V D x data m : dir_at k V D x data m → i_size x = 16 * Z.of_nat m.
Proof. intros [[_ _ [_ Hs] _ _] _ [Hl _]]. rewrite Hs, Hl. lia. Qed.

Lemma dir_bound k V D x data m : dir_at k V D x data m → 16 * Z.of_nat m ≤ 71680.
Proof. intros [[_ _ [R _] _ _] _ [Hl _]]. pose proof (cr_max _ _ _ _ _ _ R) as Hm. change (MAXFILE * BSIZE) with 71680 in Hm. lia. Qed.

Lemma dirent_read k V D x data m i C :
  dir_at k V D x data m → (length D < 24)%nat → (i < m)%nat →
  ensures (readi ip (16 * Z.of_nat i) 16 k)
    (λ '(r, de) k', r = 16 ∧ de = dirent data i ∧ dir_at k' V D x data m) C.
Proof.
  intros Hd HD Hi. pose proof Hd as [FA Ht R]. pose proof R as [Hl Hb]. pose proof (dir_bound _ _ _ _ _ _ Hd).
  eapply ensures_mono; [eapply (readi_file pid l0 disk sb LY LO Hsmall ip k0 Hip Esb); [exact FA| |done|lia|lia|lia]| |done].
  - by rewrite Ht.
  - intros [r de] k' (-> & -> & FA'). replace (Z.to_nat (16 * Z.of_nat i)) with (16 * i)%nat by lia.
    change (Z.to_nat 16) with 16%nat. fold (dirent data i). rewrite (dirent_data_length data m i R Hi). done.
Qed.

Lemma offs_lookup k V D x data m n off :
  dir_at k V D x data m → dirent_offs (i_size x) !! n = Some off → off = 16 * Z.of_nat n ∧ (n < m)%nat.
Proof.
  intros Hd. rewrite (dir_size _ _ _ _ _ _ Hd). unfold dirent_offs. change (map ?f ?l) with (f <$> l). rewrite list_lookup_fmap.
  replace ((16 * Z.of_nat m + 15) / 16) with (Z.of_nat m) by (Z.div_mod_to_equations; lia).
  destruct (seqZ 0 (Z.of_nat m) !! n) as [z|] eqn:E; [|done]. apply lookup_seqZ in E as [-> Hn]. intros [= <-]. lia.
Qed.

Lemma offs_length k V D x data m : dir_at k V D x data m → length (dirent_offs (i_size x)) = m.
Proof.
  intros Hd. rewrite (dir_size _ _ _ _ _ _ Hd). unfold dirent_offs. rewrite length_map, length_seqZ.
  replace ((16 * Z.of_nat m + 15) / 16) with (Z.of_nat m) by (Z.div_mod_to_equations; lia). lia.
Qed.

Lemma namecmp_matches data m i name :
  dir_rep m data → (i < m)%nat → Forall (λ b, 0 ≤ b < 2 ^ 8) name →
  (de_inum (dirent data i) ≠ 0 ∧ namecmp name (de_name (dirent data i)) = 0) ↔ matches (name_key name) (ent_of (dirent data i)).
Proof.
  intros [_ Hb] Hi Hn. unfold matches, ent_of, namecmp. cbn [fst snd].
  assert (∀ l, Forall (λ b, 0 ≤ b < 2 ^ 8) l → ∀ i, 0 ≤ at_bytes l i < 2 ^ 8) as Hat.
  { intros l Hl j. unfold at_bytes. rewrite nth_lookup. destruct (l !! j) eqn:E; simpl; [|lia].
    rewrite Forall_lookup in Hl. by apply (Hl _ _ E). }
  rewrite strncmp_zero; [|by apply Hat|].
  - unfold name_key. split; intros [H1 H2]; split; try done.
  - apply Hat. unfold de_name, dirent. by apply Forall_drop, Forall_take, Forall_drop.
Qed.

(** What [dirlookup] answers: the map's answer, with a reference to the inode. *)
Definition looked_up V D x data m (a : option Z) (r : option (nat * Z)) k' : Prop :=
  match a with
  | None => r = None ∧ dir_at k' V D x data m
  | Some inum => ∃ j off k1 g y, r = Some (j, off) ∧ dir_at k1 V D x data m ∧
      k' = k1 <| k_icache ::= alter g j |> ∧ k_icache k1 !! j = Some y ∧ refers g y (i_dev x) inum
  end.

Definition icache_room : Prop := ∃ i y, i ≠ ip ∧ k_icache k0 !! i = Some y ∧ i_ref y = 0.

Lemma dir_ctx k V D x data m : dir_at k V D x data m → ctx k pid.
Proof. intros [[[(l & [_ X _ _ _] & _) _ _ _] _ _ _ _] _ _]. exact X. Qed.

Lemma dir_icache k V D x data m : dir_at k V D x data m → k_icache k = <[ip := x]> (k_icache k0).
Proof. intros [[T _ _ _ _] _ _]. by rewrite (tx_icache _ _ _ _ _ _ _ _ T). Qed.

Lemma dir_inode k V D x data m : dir_at k V D x data m → the_inode ip k = (Ok x, k).
Proof. intros Hd. apply at_index_ok. rewrite (dir_icache _ _ _ _ _ _ Hd). by apply list_lookup_insert_eq. Qed.

(** No entry below [n] is for [name]. *)
Definition unmatched data name (n : nat) : Prop :=
  ∀ j e, (j < n)%nat → entries data !! j = Some e → ¬ matches (name_key name) e.

Lemma unmatched_all data name m : dir_rep m data → unmatched data name m → dir_map data name = None.
Proof.
  intros R Hu. apply ent_lookup_none. intros j e He. apply (Hu j); [|done].
  apply lookup_lt_Some in He. by rewrite (entries_length _ _ R) in He.
Qed.

Lemma dirlookup_body_spec k V D x data m n name C :
  dir_at k V D x data m → (length D < 24)%nat → icache_room → Forall (λ b, 0 ≤ b < 2 ^ 8) name →
  (n < m)%nat → unmatched data name n →
  ensures (dirlookup_body ip name (16 * Z.of_nat n) k)
    (λ r k', match r with
             | inl a => looked_up V D x data m (dir_map data name) (Some a) k'
             | inr _ => dir_at k' V D x data m ∧ unmatched data name (S n)
             end) C.
Proof.
  intros Hd HD Hroom Hnm Hn Hu. unfold dirlookup_body. pose proof (da_rep _ _ _ _ _ _ Hd) as R.
  eapply ensures_bind; [by eapply dirent_read|]. intros [r de] k1 (-> & -> & Hd1). rewrite decide_False by (intros Hne; by apply Hne).
  pose proof (namecmp_matches data m n name R Hn Hnm) as Hm.
  assert (entries data !! n = Some (ent_of (dirent data n))) as He by (by rewrite (entries_lookup _ _ _ R), decide_True).
  assert (¬ matches (name_key name) (ent_of (dirent data n)) → unmatched data name (S n)) as Hnext.
  { intros Hnot j e Hj Hje. destruct (decide (j = n)) as [->|]; [congruence|]. apply (Hu j e); [lia|done]. }
  case_decide as E1; [apply ensures_ret; split; [done|]; apply Hnext; rewrite <- Hm; tauto|].
  case_decide as E2; [|apply ensures_ret; split; [done|]; apply Hnext; rewrite <- Hm; tauto].
  mstep (dir_inode _ _ _ _ _ _ Hd1).
  destruct (iget_spec k1 pid (i_dev x) (de_inum (dirent data n)) (dir_ctx _ _ _ _ _ _ Hd1)) as (j & g & y & Eg & Hj & Hr).
  { destruct Hroom as (i & y & Hne & Hi & Hy). exists i, y. rewrite (dir_icache _ _ _ _ _ _ Hd1). by rewrite list_lookup_insert_ne by congruence. }
  mstep Eg. apply ensures_ret. unfold dir_map.
  rewrite (ent_lookup_first _ _ n (ent_of (dirent data n)) He) by (done || by apply Hm). simpl.
  by exists j, (16 * Z.of_nat n), k1, g, y.
Qed.

Lemma dirlookup_spec k V D x data m name C :
  dir_at k V D x data m → (length D < 24)%nat → icache_room → Forall (λ b, 0 ≤ b < 2 ^ 8) name →
  ensures (dirlookup ip name k) (λ r k', looked_up V D x data m (dir_map data name) r k') C.
Proof.
  intros Hd HD Hroom Hnm. unfold dirlookup. mstep (dir_inode _ _ _ _ _ _ Hd).
  rewrite decide_False by (intros Hne; by apply Hne, (da_type _ _ _ _ _ _ Hd)).
  eapply (ensures_scan _ _ (λ n k', dir_at k' V D x data m ∧ unmatched data name n)).
  - split; [done|]. intros j e Hj. lia.
  - intros n off k' Ho [Hd' Hu]. destruct (offs_lookup _ _ _ _ _ _ _ _ Hd Ho) as [-> Hn].
    eapply ensures_mono; [by eapply dirlookup_body_spec| |done].
    intros [a|[]] k''; [|done]. done.
  - intros k' [Hd' Hu]. rewrite (offs_length _ _ _ _ _ _ Hd) in Hu.
    rewrite (unmatched_all _ _ _ (da_rep _ _ _ _ _ _ Hd) Hu). done.
Qed.

(** The place for a new entry: the first free one, or the end. *)
Lemma dirlink_place k V D x data m C :
  dir_at k V D x data m → (length D < 24)%nat →
  ensures (scan (dirlink_body ip) (dirent_offs (i_size x)) k)
    (λ e k', dir_at k' V D x data m ∧ ∃ i, (i ≤ m)%nat ∧ (∀ en, entries data !! i = Some en → en.1 = 0) ∧
       match e with Some o => o | None => 16 * ((i_size x + 15) / 16) end = 16 * Z.of_nat i) C.
Proof.
  intros Hd HD. pose proof (da_rep _ _ _ _ _ _ Hd) as R.
  eapply (ensures_scan _ _ (λ n k', dir_at k' V D x data m)); [done| |].
  - intros n off k' Ho Hd'. destruct (offs_lookup _ _ _ _ _ _ _ _ Hd Ho) as [-> Hn]. unfold dirlink_body.
    eapply ensures_bind; [by eapply dirent_read|]. intros [r de] k1 (-> & -> & Hd1).
    rewrite decide_False by (intros Hne; by apply Hne). case_decide as E; apply ensures_ret; [|done].
    split; [done|]. exists n. split; [lia|]. split; [|done]. intros en. rewrite (entries_lookup _ _ _ R), decide_True by done.
    by intros [= <-].
  - intros k' Hd'. split; [done|]. exists m. split; [done|]. split.
    + intros en. by rewrite (entries_lookup _ _ _ R), decide_False by lia.
    + rewrite (dir_size _ _ _ _ _ _ Hd). Z.div_mod_to_equations. lia.
Qed.

(** The directory with one more name. *)
Definition linked V x data name (inum : Z) k' V' D' x' data' m' : Prop :=
  dir_at k' V' D' x' data' m' ∧ i_dev x' = i_dev x ∧ only_file sb x V V' ∧
  ∀ name2, dir_map data' name2 = if decide (name_key name2 = name_key name) then Some inum else dir_map data name2.

Lemma dirlink_spec k V D x data m name inum C :
  dir_at k V D x data m → (length D < 22)%nat → icache_room → Forall (λ b, 0 ≤ b < 2 ^ 8) name →
  dir_map data name = None → 0 < inum < 2 ^ 16 → 16 * Z.of_nat m + 16 ≤ MAXFILE * BSIZE →
  (2 ≤ length (free_blocks sb V))%nat →
  ensures (dirlink ip name inum k)
    (λ r k', r = 0 ∧ ∃ V' D' x' data' m', linked V x data name inum k' V' D' x' data' m' ∧ (length D' ≤ length D + 7)%nat) C.
Proof.
  intros Hd HD Hroom Hnm Hnew Hin Hmx Hfree. unfold dirlink. change (MAXFILE * BSIZE) with 71680 in Hmx.
  eapply ensures_bind; [by eapply dirlookup_spec; try done; lia|]. intros f k1 Hf. rewrite Hnew in Hf. destruct Hf as [-> Hd1].
  mstep (dir_inode _ _ _ _ _ _ Hd1). eapply ensures_bind; [by eapply dirlink_place; try done; lia|].
  intros e k2 (Hd2 & i & Hi & Hz & ->). pose proof Hd2 as [FA Ht R]. pose proof (dr_len _ _ R) as Hl.
  pose proof (dirent_bytes_length inum name) as HL.
  eapply ensures_bind.
  { eapply (writei_file pid l0 disk sb LY LO Hsmall ip k0 Hip Esb _ _ _ _ _ _ _ _ 1 C FA); try lia; [by rewrite Ht| |].
    - change (MAXFILE * BSIZE) with 71680. lia.
    - unfold BSIZE. Z.div_mod_to_equations. lia. }
  intros r k3 (-> & V' & x' & D' & FA' & Ex & OF & HD'). rewrite decide_False by (intros Hne; by apply Hne).
  apply ensures_ret. split; [done|]. rewrite take_ge in FA' by (rewrite HL; lia).
  replace (Z.to_nat (16 * Z.of_nat i)) with (16 * i)%nat in FA' by lia.
  destruct (dir_set m data i inum name R Hi ltac:(lia) Hnm) as [R' He].
  exists V', D', x', (splice data (16 * i) (dirent_bytes inum name)), (Nat.max m (S i)). split; [|lia].
  split; [split; [done|by rewrite Ex|done]|]. split; [by rewrite Ex|]. split; [done|]. intros name2. unfold dir_map.
  apply (ent_lookup_set (entries data) _ i inum); try done; [by rewrite (entries_length _ _ R)|lia].
Qed.
End dirs.

(** C6: directories implement maps from names to inode numbers.  In a transaction with
    room in the log, two free blocks and a free entry in the inode cache, [dirlink] of a
    name that the directory does not have returns 0 and changes the map at that name
    only; no block or inode of another file changes.  A [dirlookup] of any name then
    gives the map's answer: none, or a reference to the inode in the cache.  Names count
    up to DIRSIZ characters; a free entry is used again before the directory grows. *)
Theorem directory_refines `{DevSw} pid l0 disk sb ip k0 k V D x data m name inum name2 C :
  layout l0 disk sb → log_open l0 disk → sb_size sb < 2 ^ 32 → (ip < length (k_icache k0))%nat → k_sb k0 = sb →
  dir_at pid l0 disk sb ip k0 k V D x data m → (length D < 17)%nat → icache_room ip k0 →
  Forall (λ b, 0 ≤ b < 2 ^ 8) name → Forall (λ b, 0 ≤ b < 2 ^ 8) name2 → dir_map data name = None →
  0 < inum < 2 ^ 16 → 16 * Z.of_nat m + 16 ≤ MAXFILE * BSIZE → (2 ≤ length (free_blocks sb V))%nat →
  ensures ((r ← dirlink ip name inum; f ← dirlookup ip name2; mret (r, f)) k)
    (λ '(r, f) k', r = 0 ∧ ∃ k1 V' D' x' data' m',
       linked pid l0 disk sb ip k0 V x data name inum k1 V' D' x' data' m' ∧
       looked_up pid l0 disk sb ip k0 V' D' x' data' m' (dir_map data' name2) f k') C.
Proof.
  intros LY LO Hsm Hip Esb Hd HD Hroom H1 H2 Hnew Hin Hmx Hfree.
  eapply ensures_bind; [by eapply (dirlink_spec pid l0 disk sb LY LO Hsm ip k0 Hip Esb); try done; lia|].
  intros r k1 (-> & V' & D' & x' & data' & m' & HL & HD').
  eapply ensures_bind; [eapply (dirlookup_spec pid l0 disk sb LY LO Hsm ip k0 Hip Esb); [apply HL|lia|done|done]|].
  intros f k2 Hf. apply ensures_ret. split; [done|]. by exists k1, V', D', x', data', m'.
Qed.

#[local] Instance no_devices_d : DevSw := {| dev_read := λ _, None; dev_write := λ _, None |}.

Lemma demo_dir_at :
  dir_at 1 demo_tx_log demo_fs demo_sb 1 demo_state demo_state (disk_view demo_fs) [] demo_dir_inode [] 0.
Proof.
  assert (∀ s, ptr (disk_view demo_fs) demo_dir_inode s = 0) as Hp.
  { intros s. unfold ptr. destruct (decide (s < 13)%nat); [do 13 (destruct s as [|s]; [done|]); lia|].
    rewrite (decide_True (P := nth ind_slot (i_addrs demo_dir_inode) 0 = 0)) by done. by destruct (decide (s < 141)%nat). }
  split; [|done|by split]. split.
  - rewrite (set_ip_same _ _ demo_dir_inode) by (vm_compute; reflexivity). apply demo_tx.
  - apply demo_fs_ok.
  - split; [|done]. split; [|done|intros j Hj; simpl in Hj; lia..].
    split; [done| |]; intros s; rewrite Hp; [done|]. intros t _ E. done.
  - split; [done|simpl; lia|simpl; lia].
  - vm_compute. reflexivity.
Qed.

Lemma directory_refines_witness :
  ensures ((r ← dirlink 1 [97] 2; f ← dirlookup 1 [97]; mret (r, f)) demo_state)
    (λ '(r, f) k', r = 0 ∧ ∃ j off y, f = Some (j, off) ∧ k_icache k' !! j = Some y ∧ i_inum y = 2 ∧ i_ref y > 0) (λ _, False).
Proof.
  eapply ensures_mono;
    [eapply (directory_refines 1 demo_tx_log demo_fs demo_sb 1 demo_state demo_state (disk_view demo_fs) [] demo_dir_inode
      [] 0 [97] 2 [97] (λ _, False))| |done].
  - apply demo_layout.
  - apply demo_log_open.
  - done.
  - simpl. lia.
  - done.
  - apply demo_dir_at.
  - simpl. lia.
  - exists 2%nat, inode0. split; [lia|]. split; [reflexivity|reflexivity].
  - constructor; [lia|constructor].
  - constructor; [lia|constructor].
  - reflexivity.
  - lia.
  - change (MAXFILE * BSIZE) with 71680. lia.
  - vm_compute. lia.
  - intros [r f] k' (-> & k1 & V' & D' & x' & data' & m' & (_ & Hdev & _ & Hmap) & HL). split; [done|].
    rewrite Hmap, decide_True in HL by done. destruct HL as (j & off & k2 & g & y & -> & _ & -> & Hj & H1 & H2 & H3 & _).
    exists j, off, (g y). split; [done|]. split; [|done]. unfold upd. simpl. by rewrite list_lookup_alter_eq, Hj.
Defined.

(** ** Path names

    The elements that the loop of [namex] takes from a path, by their names in the
    buffer, and the reference: the path split at its slashes, without empty parts. *)
Fixpoint path_elems (fuel : nat) (path name : list Z) : list (list Z) :=
  match fuel with
  | O => []
  | S f =>
      match skipelem path name with
      | Some (path', name') => name_key name' :: path_elems f path' name'
      | None => []
      end
  end.

Fixpoint split_slash (s : list Z) : list (list Z) :=
  match s with
  | [] => [[]]
  | c :: s' =>
      if decide (c = SLASH) then [] :: split_slash s'
      else match split_slash s' with w :: ws => (c :: w) :: ws | [] => [[c]] end
  end.
Definition components (s : list Z) : list (list Z) := filter (λ w, w ≠ []) (split_slash s).

Lemma split_slash_cons s : ∃ w ws, split_slash s = w :: ws.
Proof. induction s as [|c s (w & ws & IH)]; simpl; [eauto|]. case_decide; [eauto|]. rewrite IH. eauto. Qed.

Lemma components_skip s : components (skip_slashes s) = components s.
Proof.
  induction s as [|c s IH]; simpl; [done|]. case_decide as E; [|done]. rewrite IH. unfold components. simpl.
  by rewrite decide_True.
Qed.

Lemma skip_slashes_head s : skip_slashes s = [] ∨ ∃ c s', skip_slashes s = c :: s' ∧ c ≠ SLASH.
Proof. induction s as [|c s IH]; simpl; [by left|]. case_decide; [done|]. right. eauto. Qed.

Lemma skip_slashes_suffix s : ∃ pre, s = pre ++ skip_slashes s.
Proof.
  induction s as [|c s [pre IH]]; simpl; [by exists []|]. case_decide; [exists (c :: pre); simpl; by f_equal|by exists []].
Qed.

Lemma span_elem_split s e r :
  span_elem s = (e, r) → s = e ++ r ∧ (∀ c, c ∈ e → c ≠ SLASH) ∧ ∃ ws, split_slash s = e :: ws ∧
    filter (λ w, w ≠ []) ws = components r.
Proof.
  revert e r. induction s as [|c s IH]; intros e r; simpl.
  - intros [= <- <-]. split_and!; [done|by intros ? ?%not_elem_of_nil|]. by exists [].
  - case_decide as E.
    + intros [= <- <-]. split_and!; [done|by intros ? ?%not_elem_of_nil|]. eexists. split; [done|].
      unfold components. simpl. by rewrite decide_True.
    + destruct (span_elem s) as [e' r'] eqn:Es. intros [= <- <-]. destruct (IH e' r' eq_refl) as (-> & H1 & ws & H2 & H3).
      split_and!; [done|intros x [->|Hx]%elem_of_cons; auto|]. rewrite H2. eauto.
Qed.

Lemma cut_list l n : (∀ c, c ∈ l → c ≠ 0) → ∀ q, (∀ i, (i < n)%nat → (i < length l)%nat → q i = nth i l 0) →
  ((length l < n)%nat → q (length l) = 0) → cut q n = take n l.
Proof.
  revert n. induction l as [|c l IH]; intros n Hl q Hq Hz; destruct n as [|n]; simpl; try done.
  - rewrite decide_True; [done|]. apply Hz. simpl. lia.
  - assert (q O = c) as E by (apply (Hq O); simpl; lia). rewrite E, decide_False by (apply Hl; left). f_equal.
    apply IH; [intros; apply Hl; by right| |].
    + intros i Hi Hil. apply (Hq (S i)); simpl; lia.
    + intros Hlt. apply Hz. simpl. lia.
Qed.

Lemma skipelem_spec path name :
  (∀ c, c ∈ path → c ≠ 0) → length name = DIRSIZ →
  match skipelem path name with
  | None => components path = []
  | Some (p, n) => length n = DIRSIZ ∧ (length p < length path)%nat ∧ (∀ c, c ∈ p → c ≠ 0) ∧
      ∃ e, components path = e :: components p ∧ name_key n = take DIRSIZ e
  end.
Proof.
  intros Hp Hn. unfold skipelem. rewrite <- (components_skip path).
  destruct (skip_slashes_suffix path) as [pre Hpre].
  destruct (skip_slashes_head path) as [->|(c & s & Es & Hc)]; [done|]. rewrite Es in *.
  destruct (span_elem (c :: s)) as [e r] eqn:Er. destruct (span_elem_split _ _ _ Er) as (Hs & He & ws & Hws & Hf).
  assert (e ≠ []) as Hne by (intros ->; simpl in Er; rewrite decide_False in Er by done; by destruct (span_elem s)).
  assert (∀ x, x ∈ e → x ≠ 0) as He0 by (intros x Hx; apply Hp; rewrite Hpre, Hs, !elem_of_app; tauto).
  destruct (skip_slashes_suffix r) as [pre' Hpre'].
  split_and!.
  - case_decide; [rewrite length_take; lia|]. rewrite length_app. simpl. rewrite length_drop. lia.
  - rewrite Hpre, Hs, !length_app. rewrite Hpre' at 2. rewrite length_app. destruct e; [done|]. simpl. lia.
  - intros x Hx. apply Hp. rewrite Hpre, Hs, Hpre', !elem_of_app. tauto.
  - exists e. split; [unfold components at 1; rewrite Hws, filter_cons_True by done; by rewrite Hf, components_skip|].
    unfold name_key. case_decide as Hlen.
    + apply cut_list; [done| |lia]. intros i Hi _. unfold at_bytes. rewrite !nth_lookup. by rewrite lookup_take_lt by lia.
    + apply cut_list; [done| |].
      * intros i _ Hi. unfold at_bytes. by rewrite app_nth1.
      * intros _. unfold at_bytes. rewrite app_nth2 by lia. by rewrite Nat.sub_diag.
Qed.

(** C21: [namex] takes a path apart at its slashes.  The elements that [skipelem]
    delivers, read from the name buffer as [dirlookup] reads them, are the non-empty parts
    of the path between slashes, in order, each cut to DIRSIZ characters; repeated,
    leading and trailing slashes do not count, and the loop ends after at most as many
    rounds as the path has characters, whatever the buffer held before. *)
Theorem path_elements path name :
  (∀ c, c ∈ path → c ≠ 0) → length name = DIRSIZ →
  path_elems (S (length path)) path name = map (take DIRSIZ) (components path).
Proof.
  remember (S (length path)) as f eqn:Ef. assert (length path < f)%nat as Hf by lia. clear Ef.
  revert path name Hf. induction f as [|f IH]; intros path name Hf Hp Hn; [lia|]. cbn [path_elems].
  pose proof (skipelem_spec path name Hp Hn) as H. destruct (skipelem path name) as [[p n]|]; [|by rewrite H].
  destruct H as (H1 & H2 & H3 & e & -> & ->). cbn [map]. f_equal. apply IH; [lia|done..].
Qed.

Lemma path_elements_witness :
  path_elems 10 [47; 97; 47; 47; 98; 99; 47; 100; 47] (replicate DIRSIZ 7) = [[97]; [98; 99]; [100]].
Proof.
  apply (path_elements [47; 97; 47; 47; 98; 99; 47; 100; 47] (replicate DIRSIZ 7)); [|reflexivity].
  intros c Hc ->. apply list_elem_of_In in Hc. simpl in Hc. lia.
Defined.
