(* ===== verification/Mkfs.v ===== *)
(** The program that makes the file system image (mkfs.c).

    The image is the list of its blocks; [mkfs] is a state monad over it and over
    [freeinode] and [freeblock].  A failed assertion or input/output stops the
    program ([panic]).  The files to copy are given by their names and the pieces
    that [read] delivers.

    Theorem: the image is a well-formed file system, as the theorems about the
    kernel's file system ask for it: the superblock and the layout are right, the
    bitmap marks exactly the blocks that are used, every file is there with its
    contents in blocks of its own, and the root directory lists the files. *)

From S2P Require Import Prelude Memory Strings State Spinlock Sched Sleeplock BufList Bio Log Tx Fs FsBlocks FsInode FsFile.

Notation FSSIZE := 1000.
Notation NINODES := 200.
Notation LOGSIZE := 30.
Notation ROOTINO := 1.

Definition nbitmap : Z := FSSIZE / (BSIZE * 8) + 1.
Definition ninodeblocks : Z := NINODES / IPB + 1.
Definition nlog : Z := LOGSIZE.
Definition nmeta : Z := 2 + nlog + ninodeblocks + nbitmap.
Definition nblocks : Z := FSSIZE - nmeta.

Definition zeroes : list Z := replicate 512 0.

(** Conversion to Intel byte order, on a machine that has it: the bytes of [y], put together. *)
Definition xshort (x : Z) : Z := u8 x + 2 ^ 8 * u8 (Z.shiftr x 8).
Definition xint (x : Z) : Z :=
  u8 x + 2 ^ 8 * u8 (Z.shiftr x 8) + 2 ^ 16 * u8 (Z.shiftr x 16) + 2 ^ 24 * u8 (Z.shiftr x 24).

Definition mkfs_sb : superblock :=
  Superblock (xint FSSIZE) (xint nblocks) (xint NINODES) (xint nlog) (xint 2) (xint (2 + nlog)) (xint (2 + nlog + ninodeblocks)).

Record mk := Mk { m_img : list (list Z); m_freeinode : Z; m_freeblock : Z }.
#[global] Instance mk_rebuild : Rebuild mk := λ x, Mk (m_img x) (m_freeinode x) (m_freeblock x).

Notation MK := (M mk).

(** [lseek] and [write] on the image file: past its end it is filled with zeros. *)
Definition wsect (sec : Z) (buf : list Z) : MK unit :=
  modify (λ s, s <| m_img ::= λ img,
    <[Z.to_nat sec := buf]> (img ++ replicate (S (Z.to_nat sec) - length img) zeroes) |>).

Definition rsect (sec : Z) : MK (list Z) := λ s,
  match m_img s !! Z.to_nat sec with Some b => (Ok b, s) | None => panic "read" s end.

Definition winode (inum : Z) (di : dinode) : MK unit :=
  let bn := IBLOCK inum mkfs_sb in
  buf ← rsect bn;
  wsect bn (put_dinode buf (dinode_off inum) di).

Definition rinode (inum : Z) : MK dinode :=
  let bn := IBLOCK inum mkfs_sb in
  buf ← rsect bn;
  mret (get_dinode buf (dinode_off inum)).

Definition mk_ialloc (type : Z) : MK Z :=
  inum ← gets m_freeinode;
  modify (λ s, s <| m_freeinode := u32 (inum + 1) |>);;
  winode inum (Dinode (xshort type) 0 0 (xshort 1) (xint 0) (replicate 13 0));;
  mret inum.

(** freeblock++ *)
Definition fresh_block : MK Z :=
  b ← gets m_freeblock;
  modify (λ s, s <| m_freeblock := u32 (b + 1) |>);;
  mret b.

Definition mk_balloc (used : Z) : MK unit :=
  if decide (¬ used < BSIZE * 8) then panic "assert: used" else
  wsect (sb_bmapstart mkfs_sb) (foldl set_bit zeroes (seqZ 0 used)).

(** The block [x] of one round of [iappend]'s loop, made if it is not there. *)
Definition append_block (din : dinode) (fbn : Z) : MK (dinode * Z) :=
  if decide (fbn < NDIRECT) then
    if decide (xint (nth (Z.to_nat fbn) (di_addrs din) 0) = 0) then
      b ← fresh_block;
      let din := Dinode (di_type din) (di_major din) (di_minor din) (di_nlink din) (di_size din)
                   (<[Z.to_nat fbn := xint b]> (di_addrs din)) in
      mret (din, xint (nth (Z.to_nat fbn) (di_addrs din) 0))
    else mret (din, xint (nth (Z.to_nat fbn) (di_addrs din) 0))
  else
    din ← (if decide (xint (nth 12 (di_addrs din) 0) = 0) then
             b ← fresh_block;
             mret (Dinode (di_type din) (di_major din) (di_minor din) (di_nlink din) (di_size din)
                     (<[12%nat := xint b]> (di_addrs din)))
           else mret din);
    let ind := xint (nth 12 (di_addrs din) 0) in
    indirect ← rsect ind;
    let o := (4 * Z.to_nat (fbn - NDIRECT))%nat in
    if decide (get32 indirect o = 0) then
      b ← fresh_block;
      let indirect := put32 indirect o (xint b) in
      wsect ind indirect;;
      mret (din, xint (get32 indirect o))
    else mret (din, xint (get32 indirect o)).

(** The loop of [iappend]; [p] are the bytes still to write. *)
Fixpoint iappend_loop (fuel : nat) (din : dinode) (off : Z) (p : list Z) : MK (dinode * Z) :=
  match p, fuel with
  | [], _ => mret (din, off)
  | _, O => stopped Spin
  | _, S f =>
      let fbn := off / BSIZE in
      if decide (¬ fbn < MAXFILE) then panic "assert: fbn" else
      r ← append_block din fbn;
      let n1 := Z.to_nat (Z.of_nat (length p) `min` ((fbn + 1) * BSIZE - off)) in
      buf ← rsect r.2;
      wsect r.2 (splice buf (Z.to_nat (off - fbn * BSIZE)) (take n1 p));;
      iappend_loop f r.1 (off + Z.of_nat n1) (drop n1 p)
  end.

Definition iappend (inum : Z) (p : list Z) : MK unit :=
  din ← rinode inum;
  r ← iappend_loop (length p) din (xint (di_size din)) p;
  winode inum (Dinode (di_type r.1) (di_major r.1) (di_minor r.1) (di_nlink r.1) (xint r.2) (di_addrs r.1)).

(** struct dirent: [strcpy] and [strncpy] into a name that was filled with zeros. *)
Definition dirent_bytes (inum : Z) (name : list Z) : list Z :=
  put16 (replicate 2 0) 0 (xshort inum) ++ take 14 (name ++ replicate 14 0).

(** A file of the command line: its name and what each [read] gives. *)
Definition host_file : Type := list Z * list (list Z).

Definition skip_underscore (name : list Z) : list Z :=
  match name with c :: name' => if decide (c = 95) then name' else name | [] => [] end.

Definition add_file (f : host_file) : MK unit :=
  if decide (47 ∈ f.1) then panic "assert: index" else
  let name := skip_underscore f.1 in
  inum ← mk_ialloc T_FILE;
  iappend ROOTINO (dirent_bytes inum name);;
  each (iappend inum) f.2.

Definition sb_block : list Z :=
  foldl (λ d '(o, v), put32 d o v) zeroes
    [(0, sb_size mkfs_sb); (4, sb_nblocks mkfs_sb); (8, sb_ninodes mkfs_sb); (12, sb_nlog mkfs_sb);
     (16, sb_logstart mkfs_sb); (20, sb_inodestart mkfs_sb); (24, sb_bmapstart mkfs_sb)]%nat.

(** The last steps: the size of the root directory, and the bitmap. *)
Definition mkfs_end (rootino : Z) : MK unit :=
  din ← rinode rootino;
  let off := xint (di_size din) in
  let off := (off / BSIZE + 1) * BSIZE in
  winode rootino (Dinode (di_type din) (di_major din) (di_minor din) (di_nlink din) (xint off) (di_addrs din));;
  freeblock ← gets m_freeblock;
  mk_balloc freeblock.

Definition mkfs_main (files : list host_file) : MK unit :=
  modify (λ s, s <| m_freeblock := nmeta |>);;
  each (λ i, wsect i zeroes) (seqZ 0 FSSIZE);;
  wsect 1 sb_block;;
  rootino ← mk_ialloc T_DIR;
  if decide (rootino ≠ ROOTINO) then panic "assert: rootino" else
  iappend rootino (dirent_bytes rootino [46]);;
  iappend rootino (dirent_bytes rootino [46; 46]);;
  each add_file files;;
  mkfs_end rootino.

(** The image file is empty, and the first inode is free. *)
Definition mkfs (files : list host_file) : result unit * mk := mkfs_main files (Mk [] 1 0).

(** ** The blocks of the files *)

Lemma xint_id v : 0 ≤ v < 2 ^ 32 → xint v = v.
Proof. intros Hv. unfold xint. rewrite !Z.shiftr_div_pow2 by lia. unfold u8. zlia. Qed.

Lemma xshort_id v : 0 ≤ v < 2 ^ 16 → xshort v = v.
Proof. intros Hv. unfold xshort. rewrite !Z.shiftr_div_pow2 by lia. unfold u8. zlia. Qed.

Definition view (img : list (list Z)) (b : Z) : list Z := default [] (img !! Z.to_nat b).

(** The inode made of a dinode, and the block in one of its slots. *)
Definition cached (inum : Z) (di : dinode) : inode := load_dinode di (Inode 1 inum 1 (Sleeplock false 0) true 0 0 0 0 0 []).
Definition dptr (V : Z → list Z) (di : dinode) (s : nat) : Z := ptr V (cached 0 di) s.
Definition daddr (V : Z → list Z) (di : dinode) (j : nat) : Z := dptr V di (slot_of (Z.of_nat j / BSIZE)).

Lemma dptr_cached V di inum s : ptr V (cached inum di) s = dptr V di s.
Proof. done. Qed.

Lemma dptr_ext V V' di s : (dptr V di ind_slot ≠ 0 → V' (dptr V di ind_slot) = V (dptr V di ind_slot)) → dptr V' di s = dptr V di s.
Proof.
  unfold dptr. rewrite ptr_ind. intros H. unfold ptr. repeat case_decide; try done. by rewrite H.
Qed.

Notation files_t := (list (dinode * list Z)).

(** The blocks of all files, below [fb]; from there on the image is zero. *)
Record blocks_inv (V : Z → list Z) (fb : Z) (fs : files_t) : Prop := {
  bi_fb : nmeta ≤ fb ≤ FSSIZE;
  bi_len : ∀ b, 0 ≤ b < FSSIZE → length (V b) = 512%nat;
  bi_fresh : ∀ b, fb ≤ b < FSSIZE → V b = zeroes;
  bi_addrs : ∀ i f, fs !! i = Some f → length (di_addrs f.1) = 13%nat;
  bi_range : ∀ i f s, fs !! i = Some f → dptr V f.1 s = 0 ∨ nmeta ≤ dptr V f.1 s < fb;
  bi_inj : ∀ i j f g s t, fs !! i = Some f → fs !! j = Some g → dptr V f.1 s = dptr V g.1 t → dptr V f.1 s ≠ 0 →
    i = j ∧ s = t;
  bi_max : ∀ i f, fs !! i = Some f → Z.of_nat (length f.2) ≤ MAXFILE * BSIZE;
  bi_alloc : ∀ i f j, fs !! i = Some f → (j < length f.2)%nat → daddr V f.1 j ≠ 0;
  bi_data : ∀ i f j, fs !! i = Some f → (j < length f.2)%nat →
    f.2 !! j = V (daddr V f.1 j) !! Z.to_nat (Z.of_nat j mod BSIZE);
  bi_zero : ∀ i f j, fs !! i = Some f → (length f.2 ≤ j)%nat → daddr V f.1 j ≠ 0 →
    V (daddr V f.1 j) !! Z.to_nat (Z.of_nat j mod BSIZE) = Some 0 }.

(** Block [bn] of file [i] is in the slot of a data block. *)
Lemma daddr_not_ind V fb fs i j f g k :
  blocks_inv V fb fs → fs !! i = Some f → fs !! j = Some g → daddr V f.1 k ≠ 0 → daddr V f.1 k ≠ dptr V g.1 ind_slot.
Proof.
  intros B Hi Hj Hk E. destruct (bi_inj _ _ _ B i j f g _ ind_slot Hi Hj E Hk) as [_ Hs].
  by apply (slot_of_not_ind (Z.of_nat k / BSIZE)) in Hs; [|unfold BSIZE; zlia].
Qed.

(** Blocks outside of the files' part may change. *)
Lemma blocks_inv_meta V V' fb fs :
  blocks_inv V fb fs → (∀ b, nmeta ≤ b < FSSIZE → V' b = V b) → (∀ b, 0 ≤ b < FSSIZE → length (V' b) = 512%nat) →
  blocks_inv V' fb fs.
Proof.
  intros B Hs Hl. pose proof (bi_fb _ _ _ B) as Hfb.
  assert (Hp : ∀ i f s, fs !! i = Some f → dptr V' f.1 s = dptr V f.1 s).
  { intros i f s Hf. apply dptr_ext. intros Hn. apply Hs. destruct (bi_range _ _ _ B i f ind_slot Hf); [done|lia]. }
  assert (Hv : ∀ i f j, fs !! i = Some f → daddr V f.1 j ≠ 0 → V' (daddr V f.1 j) = V (daddr V f.1 j)).
  { intros i f j Hf Hn. apply Hs. destruct (bi_range _ _ _ B i f (slot_of (Z.of_nat j / BSIZE)) Hf); [done|unfold daddr; lia]. }
  assert (Hd : ∀ i f j, fs !! i = Some f → daddr V' f.1 j = daddr V f.1 j) by (intros i f j Hf; by eapply Hp).
  split.
  - apply B.
  - done.
  - intros b Hb. rewrite Hs by lia. by apply (bi_fresh _ _ _ B).
  - apply B.
  - intros i f s Hf. rewrite (Hp i f s Hf). by apply (bi_range _ _ _ B i).
  - intros i j f g s t Hi Hj. rewrite (Hp i f s Hi), (Hp j g t Hj). by apply (bi_inj _ _ _ B).
  - apply B.
  - intros i f j Hf Hj. rewrite (Hd i f j Hf). by apply (bi_alloc _ _ _ B i).
  - intros i f j Hf Hj. rewrite (Hd i f j Hf), (Hv i f j Hf) by (by apply (bi_alloc _ _ _ B i)). by apply (bi_data _ _ _ B i).
  - intros i f j Hf Hj. rewrite (Hd i f j Hf). intros Hn. rewrite (Hv i f j Hf Hn). by apply (bi_zero _ _ _ B i).
Qed.

(** A slot of file [i] gets the first free block. *)
Lemma blocks_inv_alloc V V' fb fs i di di' data s :
  blocks_inv V fb fs → fs !! i = Some (di, data) → fb < FSSIZE → dptr V di s = 0 → length (di_addrs di') = 13%nat →
  (∀ t, dptr V' di' t = if decide (t = s) then fb else dptr V di t) →
  (∀ j f t, j ≠ i → fs !! j = Some f → dptr V' f.1 t = dptr V f.1 t) →
  (∀ j f k, fs !! j = Some f → daddr V f.1 k ≠ 0 → V' (daddr V f.1 k) = V (daddr V f.1 k)) →
  (∀ b, fb ≤ b < FSSIZE → V' b = V b) → (∀ b, 0 ≤ b < FSSIZE → length (V' b) = 512%nat) →
  blocks_inv V' (fb + 1) (<[i := (di', data)]> fs).
Proof.
  intros B Hi Hfb H0 Hlen Hp Ho Hv Hfr Hl. pose proof (bi_fb _ _ _ B) as Hr.
  assert (Hpos : 0 < nmeta) by (vm_compute; done).
  set (P j s := match fs !! j with Some f => dptr V f.1 s | None => 0 end).
  assert (Hget : ∀ j f, <[i := (di', data)]> fs !! j = Some f →
    ∃ g, fs !! j = Some g ∧ f.2 = g.2 ∧ length (di_addrs f.1) = 13%nat ∧
      ∀ t, dptr V' f.1 t = if decide (j = i ∧ t = s) then fb else dptr V g.1 t).
  { intros j f Hj. destruct (decide (j = i)) as [->|Hne].
    - rewrite list_lookup_insert_eq in Hj by (by eapply lookup_lt_Some). simplify_eq. exists (di, data).
      split_and!; [done|done|done|]. intros t. rewrite Hp. repeat case_decide; naive_solver.
    - rewrite list_lookup_insert_ne in Hj by done. exists f. split_and!; [done|done|by eapply (bi_addrs _ _ _ B)|].
      intros t. rewrite decide_False by naive_solver. by eapply Ho. }
  clear P. split.
  - lia.
  - done.
  - intros b Hb. rewrite Hfr by lia. apply (bi_fresh _ _ _ B). lia.
  - intros j f Hj. by destruct (Hget _ _ Hj) as (g & _ & _ & ? & _).
  - intros j f t Hj. destruct (Hget _ _ Hj) as (g & Hg & _ & _ & ->).
    destruct (decide (j = i ∧ t = s)); [right; lia|]. destruct (bi_range _ _ _ B j g t Hg); [by left|right; lia].
  - intros j j' f f' t t' Hj Hj'. destruct (Hget _ _ Hj) as (g & Hg & _ & _ & ->). destruct (Hget _ _ Hj') as (g' & Hg' & _ & _ & ->).
    destruct (decide (j = i ∧ t = s)) as [E1|E1], (decide (j' = i ∧ t' = s)) as [E2|E2]; intros E Hn.
    + naive_solver.
    + destruct (bi_range _ _ _ B j' g' t' Hg'); lia.
    + destruct (bi_range _ _ _ B j g t Hg); lia.
    + by apply (bi_inj _ _ _ B j j' g g').
  - intros j f Hj. destruct (Hget _ _ Hj) as (g & Hg & -> & _). by eapply (bi_max _ _ _ B).
  - intros j f k Hj Hk. destruct (Hget _ _ Hj) as (g & Hg & Ed & _ & Hpt). unfold daddr. rewrite Hpt. rewrite Ed in Hk.
    destruct (decide (j = i ∧ _)); [lia|]. by apply (bi_alloc _ _ _ B j g k).
  - intros j f k Hj Hk. destruct (Hget _ _ Hj) as (g & Hg & Ed & _ & Hpt). rewrite Ed in *.
    pose proof (bi_alloc _ _ _ B j g k Hg Hk) as Ha. unfold daddr at 1. rewrite Hpt. destruct (decide (j = i ∧ _)) as [E|E].
    + destruct E as [-> Es]. by simplify_eq.
    + change (dptr V g.1 _) with (daddr V g.1 k). rewrite (Hv j g k Hg Ha). by apply (bi_data _ _ _ B j).
  - intros j f k Hj Hk. destruct (Hget _ _ Hj) as (g & Hg & Ed & _ & Hpt). rewrite Ed in *. unfold daddr. rewrite Hpt.
    destruct (decide (j = i ∧ _)) as [E|E].
    + intros _. rewrite Hfr by lia. rewrite (bi_fresh _ _ _ B) by lia. apply lookup_replicate_2.
      pose proof (Z.mod_pos_bound (Z.of_nat k) BSIZE ltac:(done)). unfold BSIZE in *. lia.
    + intros Hn. change (dptr V g.1 (slot_of (Z.of_nat k / BSIZE))) with (daddr V g.1 k) in Hn |- *. rewrite (Hv j g k Hg Hn). by apply (bi_zero _ _ _ B j).
Qed.

Lemma slot_block a b : (0 ≤ a)%Z → (0 ≤ b)%Z → slot_of (a / BSIZE) = slot_of (b / BSIZE) → a / BSIZE = b / BSIZE.
Proof. intros Ha Hb. apply slot_of_inj; unfold BSIZE; zlia. Qed.

(** Bytes at the end of file [i], in the block that is there for them. *)
Lemma blocks_inv_write V fb fs i di data w :
  blocks_inv V fb fs → fs !! i = Some (di, data) →
  let off := Z.of_nat (length data) in
  let b := daddr V di (length data) in
  b ≠ 0 → off mod BSIZE + Z.of_nat (length w) ≤ BSIZE → off + Z.of_nat (length w) ≤ MAXFILE * BSIZE →
  blocks_inv (fupd V b (splice (V b) (Z.to_nat (off mod BSIZE)) w)) fb (<[i := (di, data ++ w)]> fs).
Proof.
  intros B Hi off b Hb Hw Hm. set (o := Z.to_nat (off mod BSIZE)). set (V' := fupd V b _).
  assert (Hoff : 0 ≤ off) by (unfold off; lia). pose proof (Z.mod_pos_bound off BSIZE ltac:(done)) as Hmod.
  assert (Hrb : nmeta ≤ b < fb) by (destruct (bi_range _ _ _ B i (di, data) (slot_of (off / BSIZE)) Hi); [done|assumption]).
  pose proof (bi_fb _ _ _ B) as Hfb. assert (Hpos : 0 < nmeta) by (vm_compute; done).
  assert (Hlb : length (V b) = 512%nat) by (apply (bi_len _ _ _ B); lia).
  assert (Hp : ∀ j f t, fs !! j = Some f → dptr V' f.1 t = dptr V f.1 t).
  { intros j f t Hj. apply dptr_ext. intros _. unfold V'. rewrite fupd_ne; [done|]. intros E.
    by apply (daddr_not_ind V fb fs i j (di, data) f (length data) B Hi Hj Hb). }
  assert (Hd : ∀ j f k, fs !! j = Some f → daddr V' f.1 k = daddr V f.1 k) by (intros; by eapply Hp).
  assert (Hsame : ∀ j f k, fs !! j = Some f → daddr V f.1 k = b → j = i ∧ Z.of_nat k / BSIZE = off / BSIZE).
  { intros j f k Hj E. destruct (bi_inj _ _ _ B j i f (di, data) _ (slot_of (off / BSIZE)) Hj Hi E) as [-> Es]; [change (daddr V f.1 k ≠ 0); by rewrite E|].
    split; [done|]. by apply slot_block; [lia|done|]. }
  assert (Hget : ∀ j f, <[i := (di, data ++ w)]> fs !! j = Some f →
    ∃ g, fs !! j = Some g ∧ f.1 = g.1 ∧ f.2 = if decide (j = i) then data ++ w else g.2).
  { intros j f Hj. destruct (decide (j = i)) as [->|Hne].
    - rewrite list_lookup_insert_eq in Hj by (by eapply lookup_lt_Some). simplify_eq. by exists (di, data).
    - rewrite list_lookup_insert_ne in Hj by done. by exists f. }
  assert (HVb : ∀ k, V' b !! k = if decide (o ≤ k < o + length w)%nat then w !! (k - o)%nat else V b !! k).
  { intros k. unfold V'. rewrite fupd_eq. apply splice_lookup. unfold o, BSIZE in *. lia. }
  assert (HVo : ∀ c, c ≠ b → V' c = V c) by (intros; by apply fupd_ne).
  split.
  - done.
  - intros c Hc. destruct (decide (c = b)) as [->|Hne]; [|rewrite HVo by done; by apply B].
    unfold V'. rewrite fupd_eq, splice_length; unfold o, BSIZE in *; lia.
  - intros c Hc. rewrite HVo by lia. by apply (bi_fresh _ _ _ B).
  - intros j f Hj. destruct (Hget _ _ Hj) as (g & Hg & -> & _). by eapply (bi_addrs _ _ _ B).
  - intros j f t Hj. destruct (Hget _ _ Hj) as (g & Hg & -> & _). rewrite (Hp j g t Hg). by eapply (bi_range _ _ _ B).
  - intros j j' f f' t t' Hj Hj'. destruct (Hget _ _ Hj) as (g & Hg & -> & _), (Hget _ _ Hj') as (g' & Hg' & -> & _).
    rewrite (Hp j g t Hg), (Hp j' g' t' Hg'). by apply (bi_inj _ _ _ B).
  - intros j f Hj. destruct (Hget _ _ Hj) as (g & Hg & _ & ->). case_decide; [rewrite length_app; lia|by eapply (bi_max _ _ _ B)].
  - intros j f k Hj Hk. destruct (Hget _ _ Hj) as (g & Hg & -> & Ed). rewrite (Hd j g k Hg). rewrite Ed in Hk. case_decide as Ej.
    + subst j. simplify_eq. destruct (decide (k < length data)%nat) as [Hlt|Hge]; [by apply (bi_alloc _ _ _ B i (di, data))|].
      rewrite length_app in Hk. unfold daddr. cbn [fst].
      assert (Z.of_nat k / BSIZE = off / BSIZE) as -> by (unfold off, BSIZE in *; zlia). exact Hb.
    + by apply (bi_alloc _ _ _ B j).
  - intros j f k Hj Hk. destruct (Hget _ _ Hj) as (g & Hg & -> & Ed). rewrite (Hd j g k Hg). rewrite Ed in *.
    destruct (decide (daddr V g.1 k = b)) as [E|E].
    + rewrite E, HVb. destruct (Hsame j g k Hg E) as [-> Ebn]. rewrite decide_True in Hk |- * by done. simplify_eq. cbn [fst] in *.
      rewrite length_app in Hk. destruct (decide (k < length data)%nat) as [Hlt|Hge].
      * rewrite lookup_app_l by done. rewrite decide_False by (unfold o, off, BSIZE in *; zlia).
        rewrite <- E. by apply (bi_data _ _ _ B i (di, data)).
      * rewrite lookup_app_r by lia. rewrite decide_True by (unfold o, off, BSIZE in *; zlia).
        f_equal. unfold o, off, BSIZE in *. zlia.
    + rewrite HVo by done. destruct (decide (j = i)) as [->|Hne]; [|by apply (bi_data _ _ _ B j)]. simplify_eq. cbn [fst snd] in *.
      destruct (decide (k < length data)%nat) as [Hlt|Hge]; [rewrite lookup_app_l by done; by apply (bi_data _ _ _ B i (di, data))|].
      exfalso. apply E. unfold daddr. rewrite length_app in Hk.
      assert (Z.of_nat k / BSIZE = off / BSIZE) as -> by (unfold off, BSIZE in *; zlia). done.
  - intros j f k Hj Hk. destruct (Hget _ _ Hj) as (g & Hg & -> & Ed). rewrite (Hd j g k Hg). rewrite Ed in Hk. intros Hn.
    destruct (decide (daddr V g.1 k = b)) as [E|E].
    + rewrite E, HVb. destruct (Hsame j g k Hg E) as [-> Ebn]. rewrite decide_True in Hk by done. simplify_eq. cbn [fst] in *.
      rewrite length_app in Hk. rewrite decide_False by (unfold o, off, BSIZE in *; zlia).
      rewrite <- E. apply (bi_zero _ _ _ B i (di, data)); [done|simpl; lia|done].
    + rewrite HVo by done. apply (bi_zero _ _ _ B j); [done| |done].
      case_decide; [|done]. subst. simplify_eq. rewrite length_app in Hk. simpl. lia.
Qed.

(** ** Making blocks *)

Definition set_addr (di : dinode) (s : nat) (b : Z) : dinode :=
  Dinode (di_type di) (di_major di) (di_minor di) (di_nlink di) (di_size di) (<[s := b]> (di_addrs di)).

(** No block is there that the [n] bytes of a file do not reach. *)
Definition tight (V : Z → list Z) (di : dinode) (n : Z) : Prop :=
  (∀ bn, 0 ≤ bn → dptr V di (slot_of bn) ≠ 0 → bn * BSIZE < n) ∧ (dptr V di ind_slot ≠ 0 → NDIRECT * BSIZE < n).

(** The block for byte [n] of file [i], which is the next one, is there or will be made. *)
Lemma block_there V fb fs i di data :
  blocks_inv V fb fs → fs !! i = Some (di, data) → tight V di (Z.of_nat (length data)) →
  daddr V di (length data) = 0 ↔ Z.of_nat (length data) mod BSIZE = 0.
Proof.
  intros B Hi [Ht _]. unfold daddr. set (off := Z.of_nat (length data)) in *. split; intros H.
  - destruct (decide (off mod BSIZE = 0)) as [|Hm]; [done|]. exfalso.
    assert (Hlen : (length data ≠ 0)%nat) by (intros E; apply Hm; unfold off; by rewrite E).
    apply (bi_alloc _ _ _ B i (di, data) (length data - 1) Hi); [simpl; lia|]. unfold daddr. cbn [fst].
    assert (Z.of_nat (length data - 1) = off - 1) as -> by (unfold off; lia).
    assert ((off - 1) / BSIZE = off / BSIZE) as -> by (unfold BSIZE in *; zlia). done.
  - destruct (decide (dptr V di (slot_of (off / BSIZE)) = 0)) as [|Hn]; [done|]. exfalso.
    pose proof (Ht (off / BSIZE) ltac:(unfold off, BSIZE; zlia) Hn). unfold off, BSIZE in *. zlia.
Qed.

Lemma ind_there V fb fs i di data :
  blocks_inv V fb fs → fs !! i = Some (di, data) → tight V di (Z.of_nat (length data)) →
  dptr V di ind_slot = 0 ↔ Z.of_nat (length data) ≤ NDIRECT * BSIZE.
Proof.
  intros B Hi [_ Ht]. change (NDIRECT * BSIZE) with 6144 in *. split; intros H.
  - destruct (decide (Z.of_nat (length data) ≤ 6144)) as [|Hm]; [done|]. exfalso.
    apply (bi_alloc _ _ _ B i (di, data) (Z.to_nat 6144) Hi); [cbn [snd]; lia|].
    unfold daddr, dptr in *. rewrite ptr_ind in H. unfold ptr.
    rewrite Z2Nat.id by done. change (slot_of _) with 13%nat. cbn [fst].
    rewrite decide_False, decide_True, decide_True by (done || lia). done.
  - destruct (decide (dptr V di ind_slot = 0)) as [|Hn]; [done|]. specialize (Ht Hn). lia.
Qed.

Lemma get32_zeroes o : get32 zeroes o = 0.
Proof.
  assert (Hb : ∀ j, byte_at zeroes j = 0).
  { intros j. unfold byte_at, zeroes. rewrite nth_lookup. destruct (replicate 512 0 !! j) as [v|] eqn:E; [|done].
    by apply lookup_replicate in E as [-> _]. }
  unfold get32. by rewrite !Hb.
Qed.

(** A block for a slot of the dinode itself. *)
Lemma alloc_addr V fb fs i di data s :
  blocks_inv V fb fs → fs !! i = Some (di, data) → fb < FSSIZE → (s < 13)%nat → dptr V di s = 0 →
  blocks_inv V (fb + 1) (<[i := (set_addr di s fb, data)]> fs) ∧
  ∀ t, dptr V (set_addr di s fb) t = if decide (t = s) then fb else dptr V di t.
Proof.
  intros B Hi Hfb Hs H0. pose proof (bi_addrs _ _ _ B i _ Hi) as Hlen. cbn [fst] in Hlen.
  pose proof (bi_fb _ _ _ B) as Hr. assert (Hpos : 0 < nmeta) by (vm_compute; done).
  assert (Hp : ∀ t, dptr V (set_addr di s fb) t = if decide (t = s) then fb else dptr V di t).
  { intros t. unfold dptr in *. unfold ptr. cbn [cached load_dinode i_addrs upd set_addr di_addrs].
    change (i_addrs (cached 0 ?d)) with (di_addrs d). cbn [set_addr di_addrs].
    assert (Hn : ∀ u, nth u (<[s:=fb]> (di_addrs di)) 0 = if decide (u = s) then fb else nth u (di_addrs di) 0).
    { intros u. rewrite !nth_lookup. destruct (decide (u = s)) as [->|].
      - by rewrite list_lookup_insert_eq by lia.
      - by rewrite list_lookup_insert_ne. }
    rewrite !Hn. destruct (decide (t < 13)%nat) as [|Hge]; [done|]. rewrite (decide_False (P := t = s)) by lia.
    destruct (decide (t < 141)%nat); [|done]. destruct (decide (ind_slot = s)) as [<-|]; [|done].
    rewrite ptr_ind in H0. change (i_addrs (cached 0 di)) with (di_addrs di) in H0. rewrite (decide_True (P := nth _ _ _ = 0)) by done.
    rewrite decide_False by lia. rewrite (bi_fresh _ _ _ B) by lia. apply get32_zeroes. }
  split; [|exact Hp].
  eapply (blocks_inv_alloc V V fb fs i di _ data s); try done; [|apply B].
  cbn [set_addr di_addrs]. by rewrite length_insert.
Qed.

(** A block for an entry of the indirect block. *)
Lemma alloc_entry V fb fs i di data s :
  blocks_inv V fb fs → fs !! i = Some (di, data) → fb < FSSIZE → (13 ≤ s < 141)%nat →
  let ind := dptr V di ind_slot in
  ind ≠ 0 → dptr V di s = 0 →
  let V' := fupd V ind (put32 (V ind) (4 * (s - 13)) fb) in
  blocks_inv V' (fb + 1) fs ∧ (∀ t, dptr V' di t = if decide (t = s) then fb else dptr V di t) ∧
  (∀ j f t, j ≠ i → fs !! j = Some f → dptr V' f.1 t = dptr V f.1 t) ∧ nmeta ≤ ind < fb.
Proof.
  intros B Hi Hfb Hs ind Hind H0 V'. pose proof (bi_fb _ _ _ B) as Hr. assert (Hpos : 0 < nmeta) by (vm_compute; done).
  assert (Hri : nmeta ≤ ind < fb) by (destruct (bi_range _ _ _ B i (di, data) ind_slot Hi); [done|assumption]).
  assert (Hli : length (V ind) = 512%nat) by (apply (bi_len _ _ _ B); lia).
  assert (Eind : nth ind_slot (di_addrs di) 0 = ind) by (unfold ind, dptr; by rewrite ptr_ind).
  assert (Hp : ∀ t, dptr V' di t = if decide (t = s) then fb else dptr V di t).
  { intros t. unfold dptr, ptr. change (i_addrs (cached 0 di)) with (di_addrs di). rewrite Eind.
    rewrite (decide_False (P := ind = 0)) by done.
    destruct (decide (t < 13)%nat) as [|Hge]; [by rewrite (decide_False (P := t = s)) by lia|].
    destruct (decide (t < 141)%nat) as [|Hge']; [|by rewrite (decide_False (P := t = s)) by lia].
    unfold V'. rewrite fupd_eq. destruct (decide (t = s)) as [->|Hne].
    - rewrite get32_put32_eq by lia. apply u32_small. lia.
    - rewrite get32_put32_ne by lia. by rewrite (decide_False (P := ind = 0)). }
  assert (Ho : ∀ j f t, j ≠ i → fs !! j = Some f → dptr V' f.1 t = dptr V f.1 t).
  { intros j f t Hj Hf. apply dptr_ext. intros Hn. unfold V'. rewrite fupd_ne; [done|]. intros E.
    destruct (bi_inj _ _ _ B j i f (di, data) _ ind_slot Hf Hi E) as [? _]; done. }
  split_and!; [|done|done|lia|lia].
  rewrite <- (list_insert_id fs i (di, data) Hi).
  eapply (blocks_inv_alloc V V' fb fs i di di data s); try done.
  - by apply (bi_addrs _ _ _ B i (di, data)).
  - intros j f k Hj Hk. unfold V'. rewrite fupd_ne; [done|]. intros E.
    by apply (daddr_not_ind V fb fs j i f (di, data) k B Hj Hi Hk).
  - intros b Hb. unfold V'. rewrite fupd_ne; [done|lia].
  - intros b Hb. unfold V'. destruct (decide (b = ind)) as [->|]; [rewrite fupd_eq, length_put32; done|].
    rewrite fupd_ne by done. by apply (bi_len _ _ _ B).
Qed.

(** ** The operations on the image *)

(** The state holds the blocks [V]. *)
Definition rep (s : mk) (V : Z → list Z) : Prop :=
  length (m_img s) = 1000%nat ∧ ∀ b, 0 ≤ b < FSSIZE → m_img s !! Z.to_nat b = Some (V b).

Lemma rsect_ok s V b : rep s V → 0 ≤ b < FSSIZE → rsect b s = (Ok (V b), s).
Proof. intros [_ H] Hb. unfold rsect. by rewrite (H b Hb). Qed.

Lemma wsect_ok s V b d :
  rep s V → 0 ≤ b < FSSIZE →
  ∃ s', wsect b d s = (Ok tt, s') ∧ rep s' (fupd V b d) ∧ m_freeinode s' = m_freeinode s ∧ m_freeblock s' = m_freeblock s.
Proof.
  intros [Hl H] Hb. eexists. split; [done|]. unfold rep, upd. simpl. split_and!; [|..|done|done].
  - rewrite length_insert, length_app, length_replicate. lia.
  - intros c Hc. rewrite Hl. replace (S (Z.to_nat b) - 1000)%nat with 0%nat by lia. simpl. rewrite app_nil_r.
    unfold fupd. destruct (decide (c = b)) as [->|Hne].
    + apply list_lookup_insert_eq. lia.
    + rewrite list_lookup_insert_ne by lia. by apply H.
Qed.

Definition with_fb (b : Z) (s : mk) : mk := Mk (m_img s) (m_freeinode s) b.

Lemma fresh_block_ok s :
  0 ≤ m_freeblock s < FSSIZE → fresh_block s = (Ok (m_freeblock s), with_fb (m_freeblock s + 1) s).
Proof. intros H. unfold fresh_block. rewrite bind_gets, bind_modify. rewrite u32_small by lia. done. Qed.

(** The blocks to make for byte [n] of a file. *)
Definition more (n : Z) : Z :=
  if decide (n mod BSIZE = 0) then (if decide (n = NDIRECT * BSIZE) then 2 else 1) else 0.

Definition same_head (di di' : dinode) : Prop :=
  di_type di' = di_type di ∧ di_major di' = di_major di ∧ di_minor di' = di_minor di ∧ di_nlink di' = di_nlink di ∧
  di_size di' = di_size di.

(** What making a block for file [i] leaves alone. *)
Record made (V : Z → list Z) (fs : files_t) (i : nat) (di : dinode) (s : mk) (V' : Z → list Z) (di' : dinode) (s' : mk) : Prop := {
  md_head : same_head di di';
  md_low : ∀ b, b < nmeta → V' b = V b;
  md_others : ∀ j f t, j ≠ i → fs !! j = Some f → dptr V' f.1 t = dptr V f.1 t;
  md_inode : m_freeinode s' = m_freeinode s;
  md_rep : rep s' V' }.

Lemma dptr_nth V di s : (s < 13)%nat → dptr V di s = nth s (di_addrs di) 0.
Proof. intros Hs. unfold dptr, ptr. by rewrite decide_True. Qed.

Lemma xint_dptr V fb fs i di data s :
  blocks_inv V fb fs → fs !! i = Some (di, data) → xint (dptr V di s) = dptr V di s.
Proof.
  intros B Hi. apply xint_id. pose proof (bi_fb _ _ _ B). assert (0 < nmeta) by (vm_compute; done).
  destruct (bi_range _ _ _ B i (di, data) s Hi) as [E|E]; cbn [fst] in E; lia.
Qed.

Lemma tight_alloc V di V' di' n s bn :
  tight V di n → (∀ t, dptr V' di' t = if decide (t = s) then bn else dptr V di t) →
  (∀ c, 0 ≤ c → slot_of c = s → c * BSIZE < n + 1) → (s = ind_slot → NDIRECT * BSIZE < n + 1) → tight V' di' (n + 1).
Proof.
  intros [T1 T2] Hp Hs Hi. split.
  - intros c Hc. rewrite Hp. case_decide; [intros _; by apply Hs|]. intros Hn. specialize (T1 c Hc Hn). lia.
  - rewrite Hp. case_decide as E; [intros _; by apply Hi|]. intros Hn. specialize (T2 Hn). lia.
Qed.

Lemma append_direct s V fb fs i di data :
  rep s V → blocks_inv V fb fs → fs !! i = Some (di, data) → tight V di (Z.of_nat (length data)) → m_freeblock s = fb →
  Z.of_nat (length data) / BSIZE < NDIRECT → fb + more (Z.of_nat (length data)) ≤ FSSIZE →
  ∃ di' s', append_block di (Z.of_nat (length data) / BSIZE) s = (Ok (di', daddr V di' (length data)), s') ∧
    made V fs i di s V di' s' ∧ blocks_inv V (fb + more (Z.of_nat (length data))) (<[i := (di', data)]> fs) ∧
    tight V di' (Z.of_nat (length data) + 1) ∧ daddr V di' (length data) ≠ 0 ∧
    m_freeblock s' = fb + more (Z.of_nat (length data)).
Proof.
  intros R B Hi T Efb Hd Hfit. pose proof (block_there _ _ _ _ _ _ B Hi T) as Hthere.
  set (n := Z.of_nat (length data)) in *. set (sl := slot_of (n / BSIZE)).
  assert (Hsl : sl = Z.to_nat (n / BSIZE)) by (unfold sl, slot_of; by rewrite decide_True).
  assert (Hsl13 : (sl < 13)%nat) by (rewrite Hsl; unfold n, NDIRECT, BSIZE in *; lia).
  assert (Edd : ∀ d, daddr V d (length data) = dptr V d sl) by done. rewrite Edd in Hthere.
  unfold append_block. rewrite decide_True by done. rewrite <- Hsl, <- (dptr_nth V di sl Hsl13).
  rewrite (xint_dptr _ _ _ _ _ _ sl B Hi). unfold more in *. pose proof (bi_fb _ _ _ B) as Hr.
  assert (Hpos : 0 < nmeta) by (vm_compute; done).
  destruct (decide (dptr V di sl = 0)) as [E0|E0].
  - rewrite (decide_True (P := n mod BSIZE = 0)) in * by (by apply Hthere).
    rewrite (decide_False (P := n = NDIRECT * BSIZE)) in * by (intros E; rewrite E in Hd; vm_compute in Hd; done).
    rewrite (bind_ok _ _ _ _ _ (fresh_block_ok s ltac:(lia))). rewrite Efb.
    rewrite xint_id by lia. destruct (alloc_addr _ _ _ _ _ _ sl B Hi ltac:(lia) Hsl13 E0) as [B' Hp].
    fold (set_addr di sl fb). cbn zeta. exists (set_addr di sl fb), (with_fb (fb + 1) s).
    assert (Ed : dptr V (set_addr di sl fb) sl = fb) by (by rewrite Hp, decide_True).
    rewrite Edd, Ed. split_and!; try done.
    + rewrite <- (dptr_nth V _ sl Hsl13), Ed. by rewrite xint_id by lia.
    + eapply tight_alloc; [done|exact Hp| |].
      * intros c Hc Ec. assert (c = n / BSIZE) as -> by (apply slot_of_inj; [done|unfold n, BSIZE; zlia|done]). unfold BSIZE. zlia.
      * intros E. exfalso. by apply (slot_of_not_ind (n / BSIZE)); [unfold n, BSIZE; zlia|].
    + lia.
  - rewrite (decide_False (P := n mod BSIZE = 0)) in * by (by intros E; apply E0, Hthere).
    rewrite Z.add_0_r. exists di, s. rewrite Edd. split_and!; try done.
    + by rewrite list_insert_id.
    + destruct T as [T1 T2]. split; [intros c Hc Hn; specialize (T1 c Hc Hn)|intros Hn; specialize (T2 Hn)]; lia.
Qed.

(** The indirect block is made when byte 6144 is the next one. *)
Lemma ensure_ind s V fb fs i di data :
  rep s V → blocks_inv V fb fs → fs !! i = Some (di, data) → tight V di (Z.of_nat (length data)) → m_freeblock s = fb →
  NDIRECT * BSIZE ≤ Z.of_nat (length data) →
  let k := if decide (Z.of_nat (length data) = NDIRECT * BSIZE) then 1 else 0 in
  fb + k ≤ FSSIZE →
  ∃ di' s', (if decide (xint (nth 12 (di_addrs di) 0) = 0) then
               b ← fresh_block;
               mret (Dinode (di_type di) (di_major di) (di_minor di) (di_nlink di) (di_size di)
                       (<[12%nat := xint b]> (di_addrs di)))
             else mret di) s = (Ok di', s') ∧
    made V fs i di s V di' s' ∧ blocks_inv V (fb + k) (<[i := (di', data)]> fs) ∧ m_freeblock s' = fb + k ∧
    dptr V di' ind_slot ≠ 0 ∧ (∀ t, t ≠ ind_slot → dptr V di' t = dptr V di t).
Proof.
  intros R B Hi T Efb Hn. pose proof (ind_there _ _ _ _ _ _ B Hi T) as Hind. set (n := Z.of_nat (length data)) in *.
  cbn zeta. intros Hfit. rewrite <- (dptr_nth V di 12) by lia. rewrite (xint_dptr _ _ _ _ _ _ 12 B Hi).
  pose proof (bi_fb _ _ _ B) as Hr. assert (Hpos : 0 < nmeta) by (vm_compute; done).
  change (dptr V di 12) with (dptr V di ind_slot). destruct (decide (dptr V di ind_slot = 0)) as [E0|E0].
  - assert (n = NDIRECT * BSIZE) as En by (apply Hind in E0; lia). rewrite (decide_True (P := n = _)) in * by done.
    rewrite (bind_ok _ _ _ _ _ (fresh_block_ok s ltac:(lia))). rewrite Efb, xint_id by lia.
    destruct (alloc_addr _ _ _ _ _ _ ind_slot B Hi ltac:(lia) ltac:(unfold ind_slot; lia) E0) as [B' Hp].
    exists (set_addr di ind_slot fb), (with_fb (fb + 1) s). split_and!; try done.
    + rewrite Hp, decide_True by done. lia.
    + intros t Ht. by rewrite Hp, decide_False.
  - assert (n ≠ NDIRECT * BSIZE) as En by (intros E; apply E0, Hind; lia). rewrite (decide_False (P := n = _)) in * by done.
    exists di, s. rewrite Z.add_0_r, list_insert_id by done. by split_and!.
Qed.

Lemma append_indirect s V fb fs i di data :
  rep s V → blocks_inv V fb fs → fs !! i = Some (di, data) → tight V di (Z.of_nat (length data)) → m_freeblock s = fb →
  NDIRECT ≤ Z.of_nat (length data) / BSIZE → Z.of_nat (length data) < MAXFILE * BSIZE →
  fb + more (Z.of_nat (length data)) ≤ FSSIZE →
  ∃ V' di' s', append_block di (Z.of_nat (length data) / BSIZE) s = (Ok (di', daddr V' di' (length data)), s') ∧
    made V fs i di s V' di' s' ∧ blocks_inv V' (fb + more (Z.of_nat (length data))) (<[i := (di', data)]> fs) ∧
    tight V' di' (Z.of_nat (length data) + 1) ∧ daddr V' di' (length data) ≠ 0 ∧
    m_freeblock s' = fb + more (Z.of_nat (length data)).
Proof.
  intros R B Hi T Efb Hd Hmax Hfit. pose proof (block_there _ _ _ _ _ _ B Hi T) as Hthere.
  set (n := Z.of_nat (length data)) in *. set (sl := slot_of (n / BSIZE)).
  assert (Hbn : 12 ≤ n / BSIZE < 140) by (change (MAXFILE * BSIZE) with 71680 in Hmax; unfold NDIRECT, BSIZE in *; zlia).
  assert (Hsl : sl = Z.to_nat (n / BSIZE + 1)) by (unfold sl, slot_of; by rewrite decide_False by lia).
  assert (Edd : ∀ W d, daddr W d (length data) = dptr W d sl) by done. rewrite Edd in Hthere.
  assert (Hn : NDIRECT * BSIZE ≤ n) by (unfold NDIRECT, BSIZE in *; zlia).
  assert (Hnsl : sl ≠ ind_slot) by (apply slot_of_not_ind; lia).
  set (k := if decide (n = NDIRECT * BSIZE) then 1 else 0).
  assert (Hk : fb + k ≤ FSSIZE ∧ (n mod BSIZE = 0 → more n = k + 1) ∧ (n mod BSIZE ≠ 0 → more n = k)).
  { unfold more, k in *. repeat case_decide; try done; try (split_and!; lia).
    all: exfalso; subst; unfold NDIRECT, BSIZE in *; zlia. }
  destruct Hk as (Hk & Hm0 & Hm1). unfold append_block. rewrite decide_False by lia.
  destruct (ensure_ind s V fb fs i di data R B Hi T Efb Hn Hk) as (d1 & s1 & H1 & M1 & B1 & Ef1 & Hi1 & Hp1).
  fold n in H1, B1, Ef1. fold k in B1, Ef1. mstep H1. clear H1. cbn zeta.
  set (fs1 := <[i := (d1, data)]> fs) in *.
  assert (Hf1 : fs1 !! i = Some (d1, data)) by (apply list_lookup_insert_eq; by eapply lookup_lt_Some).
  rewrite <- (dptr_nth V d1 12) by lia. change (dptr V d1 12) with (dptr V d1 ind_slot).
  rewrite (xint_dptr _ _ _ _ _ _ ind_slot B1 Hf1). set (ind := dptr V d1 ind_slot) in *.
  pose proof (bi_fb _ _ _ B1) as Hr. assert (Hpos : 0 < nmeta) by (vm_compute; done).
  assert (Hri : nmeta ≤ ind < fb + k) by (destruct (bi_range _ _ _ B1 i (d1, data) ind_slot Hf1); [done|assumption]).
  mstep (rsect_ok s1 V ind (md_rep _ _ _ _ _ _ _ _ M1) ltac:(lia)).
  assert (Ho : (4 * Z.to_nat (n / BSIZE - NDIRECT) = 4 * (sl - 13))%nat) by (rewrite Hsl; unfold NDIRECT; lia). rewrite Ho.
  assert (Eg : get32 (V ind) (4 * (sl - 13)) = dptr V d1 sl).
  { unfold dptr, ptr. rewrite decide_False, decide_True by lia. unfold ind, dptr in *. rewrite ptr_ind in *.
    by rewrite decide_False. }
  rewrite Eg. rewrite (Hp1 sl Hnsl).
  assert (Htight : ∀ W, (∀ t, t ≠ sl → dptr W d1 t = dptr V d1 t) → tight W d1 (n + 1)).
  { intros W HW. split.
    - intros c Hc. destruct (decide (slot_of c = sl)) as [E|E].
      + intros _. assert (c = n / BSIZE) as -> by (apply slot_of_inj; [done|lia|done]). unfold BSIZE. zlia.
      + rewrite HW by done. rewrite Hp1 by (by apply slot_of_not_ind). intros Hnz. pose proof (proj1 T c Hc Hnz). lia.
    - intros _. lia. }
  destruct (decide (dptr V di sl = 0)) as [E0|E0].
  - rewrite (Hm0 (proj1 Hthere E0)) in *. rewrite (bind_ok _ _ _ _ _ (fresh_block_ok s1 ltac:(lia))).
    rewrite Ef1, (xint_id (fb + k)) by lia. cbn zeta. rewrite <- (Hp1 sl Hnsl) in E0.
    destruct (alloc_entry V (fb + k) fs1 i d1 data sl B1 Hf1 ltac:(lia) ltac:(rewrite Hsl; lia) Hi1 E0) as (B2 & Hp2 & Ho2 & _).
    fold ind in B2, Hp2, Ho2. set (V2 := fupd V ind _) in *.
    destruct (wsect_ok (with_fb (fb + k + 1) s1) V ind (put32 (V ind) (4 * (sl - 13)) (fb + k)) (md_rep _ _ _ _ _ _ _ _ M1) ltac:(lia))
      as (s2 & Hw & R2 & Ei2 & Ef2).
    exists V2, d1, s2. rewrite Edd. assert (Ed : dptr V2 d1 sl = fb + k) by (by rewrite Hp2, decide_True).
    replace (fb + (k + 1)) with (fb + k + 1) by lia. split_and!; [| |done| |rewrite Ed; lia|exact Ef2].
    + etrans; [exact (bind_ok _ _ _ _ _ Hw)|]. rewrite get32_put32_eq by (rewrite (bi_len _ _ _ B1) by lia; lia). rewrite u32_small, xint_id by lia. by rewrite Ed.
    + split; [apply M1| | |rewrite Ei2; apply M1|done].
      * intros b Hb. unfold V2. rewrite fupd_ne by lia. done.
      * intros j f t Hj Hf. apply (Ho2 j); [done|]. unfold fs1. by rewrite list_lookup_insert_ne.
    + apply Htight. intros t Ht. by rewrite Hp2, decide_False.
  - rewrite Hm1 in * by (by intros E; apply E0, Hthere). exists V, d1, s1. rewrite Edd. split_and!; try done.
    + rewrite <- (Hp1 sl Hnsl). by rewrite (xint_dptr _ _ _ _ _ _ sl B1 Hf1).
    + by apply Htight.
    + by rewrite (Hp1 sl Hnsl).
Qed.

Lemma append_block_ok s V fb fs i di data :
  rep s V → blocks_inv V fb fs → fs !! i = Some (di, data) → tight V di (Z.of_nat (length data)) → m_freeblock s = fb →
  Z.of_nat (length data) < MAXFILE * BSIZE → fb + more (Z.of_nat (length data)) ≤ FSSIZE →
  ∃ V' di' s', append_block di (Z.of_nat (length data) / BSIZE) s = (Ok (di', daddr V' di' (length data)), s') ∧
    made V fs i di s V' di' s' ∧ blocks_inv V' (fb + more (Z.of_nat (length data))) (<[i := (di', data)]> fs) ∧
    tight V' di' (Z.of_nat (length data) + 1) ∧ daddr V' di' (length data) ≠ 0 ∧
    m_freeblock s' = fb + more (Z.of_nat (length data)).
Proof.
  intros R B Hi T Efb Hmax Hfit. destruct (decide (Z.of_nat (length data) / BSIZE < NDIRECT)) as [Hd|Hd].
  - destruct (append_direct s V fb fs i di data R B Hi T Efb Hd Hfit) as (di' & s' & H). by exists V, di', s'.
  - apply append_indirect; try done. lia.
Qed.

(** ** Appending to a file *)

(** The blocks that [n] bytes take, with the indirect block. *)
Definition need (n : Z) : Z := (n + BSIZE - 1) / BSIZE + (if decide (NDIRECT * BSIZE < n) then 1 else 0).

Lemma need_grow n w : 0 ≤ n → 0 < w → n mod BSIZE + w ≤ BSIZE → need (n + w) = need n + more n.
Proof.
  change (NDIRECT * BSIZE) with 6144. unfold need, more. change (NDIRECT * BSIZE) with 6144. unfold BSIZE. intros Hn Hw Hm.
  repeat case_decide; zlia.
Qed.

Lemma need_mono n m : 0 ≤ n ≤ m → need n ≤ need m.
Proof. unfold need. change (NDIRECT * BSIZE) with 6144. unfold BSIZE. intros H. repeat case_decide; zlia. Qed.

Definition total (fs : files_t) : Z := foldr (λ f n, need (Z.of_nat (length f.2)) + n) 0 fs.

Lemma total_insert fs i f g :
  fs !! i = Some f → total (<[i := g]> fs) = total fs + need (Z.of_nat (length g.2)) - need (Z.of_nat (length f.2)).
Proof.
  revert i. induction fs as [|h fs IH]; intros [|i] Hi; simplify_eq/=; [lia|]. rewrite (IH i Hi). lia.
Qed.

Lemma total_snoc fs f : total (fs ++ [f]) = total fs + need (Z.of_nat (length f.2)).
Proof. induction fs as [|h fs IH]; simpl; [lia|]. rewrite IH. lia. Qed.

(** The image with the data of the files. *)
Record mk_data (s : mk) (V : Z → list Z) (fs : files_t) : Prop := {
  ms_rep : rep s V;
  ms_inv : blocks_inv V (m_freeblock s) fs;
  ms_tight : ∀ i f, fs !! i = Some f → tight V f.1 (Z.of_nat (length f.2));
  ms_count : m_freeblock s = nmeta + total fs }.

Lemma tight_ext V V' di n : (∀ t, dptr V' di t = dptr V di t) → tight V di n → tight V' di n.
Proof. intros E [T1 T2]. split; [intros c Hc|]; rewrite E; [by apply T1|done]. Qed.

(** Below the files' blocks nothing changes. *)
Record kept (di : dinode) (s : mk) (V : Z → list Z) (di' : dinode) (s' : mk) (V' : Z → list Z) : Prop := {
  kp_head : same_head di di';
  kp_low : ∀ b, b < nmeta → V' b = V b;
  kp_inode : m_freeinode s' = m_freeinode s }.

Lemma kept_refl di s V : kept di s V di s V.
Proof. split; [by repeat split|done|done]. Qed.

Lemma kept_trans di s V di1 s1 V1 di2 s2 V2 :
  kept di s V di1 s1 V1 → kept di1 s1 V1 di2 s2 V2 → kept di s V di2 s2 V2.
Proof.
  intros [(H1 & H2 & H3 & H4 & H5) L1 I1] [(K1 & K2 & K3 & K4 & K5) L2 I2].
  split; [repeat split; congruence|intros b Hb; by rewrite L2, L1|congruence].
Qed.

(** One round of the loop. *)
Lemma append_round s V fs i di data w :
  mk_data s V fs → fs !! i = Some (di, data) → w ≠ [] →
  let n := Z.of_nat (length data) in
  n mod BSIZE + Z.of_nat (length w) ≤ BSIZE → n + Z.of_nat (length w) ≤ MAXFILE * BSIZE →
  m_freeblock s + more n ≤ FSSIZE →
  ∃ V' di' s', mk_data s' V' (<[i := (di', data ++ w)]> fs) ∧ kept di s V di' s' V' ∧
    ∀ A (g : dinode * Z → MK A),
      (r ← append_block di (n / BSIZE);
       buf ← rsect r.2;
       wsect r.2 (splice buf (Z.to_nat (n - n / BSIZE * BSIZE)) w);;
       g r) s = g (di', daddr V' di' (length data)) s'.
Proof.
  intros [R B T C] Hi Hw n Hm Hmax Hfit. assert (Hwl : (0 < length w)%nat) by (destruct w; [done|simpl; lia]).
  destruct (append_block_ok s V _ fs i di data R B Hi (T _ _ Hi) eq_refl ltac:(fold n; lia) Hfit)
    as (V1 & d1 & s1 & H1 & M1 & B1 & T1 & Hnz & Ef1). fold n in H1, B1, T1, Ef1.
  set (fs1 := <[i := (d1, data)]> fs) in *. set (b := daddr V1 d1 (length data)) in *.
  assert (Hf1 : fs1 !! i = Some (d1, data)) by (apply list_lookup_insert_eq; by eapply lookup_lt_Some).
  pose proof (blocks_inv_write V1 _ fs1 i d1 data w B1 Hf1 Hnz Hm Hmax) as B2. cbn zeta in B2. fold b n in B2.
  assert (Hrb : nmeta ≤ b < m_freeblock s + more n).
  { destruct (bi_range _ _ _ B1 i (d1, data) (slot_of (n / BSIZE)) Hf1); [done|assumption]. }
  pose proof (bi_fb _ _ _ B1) as Hr. assert (Hpos : 0 < nmeta) by (vm_compute; done).
  set (d := splice (V1 b) (Z.to_nat (n mod BSIZE)) w) in *.
  destruct (wsect_ok s1 V1 b d (md_rep _ _ _ _ _ _ _ _ M1) ltac:(lia)) as (s2 & Hw2 & R2 & Ei2 & Ef2).
  assert (Hp : ∀ j f t, fs1 !! j = Some f → dptr (fupd V1 b d) f.1 t = dptr V1 f.1 t).
  { intros j f t Hj. apply dptr_ext. intros _. rewrite fupd_ne; [done|]. intros E.
    by apply (daddr_not_ind V1 _ fs1 i j (d1, data) f (length data) B1 Hf1 Hj Hnz). }
  unfold fs1 in B2. rewrite list_insert_insert_eq in B2.
  exists (fupd V1 b d), d1, s2. split_and!.
  - split; [done|by rewrite Ef2, Ef1| |].
    + intros j f Hj. destruct (decide (j = i)) as [->|Hne].
      * rewrite list_lookup_insert_eq in Hj by (by eapply lookup_lt_Some). simplify_eq. cbn [fst snd].
        eapply tight_ext; [intros t; by apply (Hp i (d1, data))|]. destruct T1 as [T11 T12].
        rewrite length_app. split; [intros c Hc Hn; specialize (T11 c Hc Hn)|intros Hn; specialize (T12 Hn)]; unfold n in *; lia.
      * rewrite list_lookup_insert_ne in Hj by done. eapply tight_ext; [|by apply (T j)].
        intros t. rewrite (Hp j f) by (unfold fs1; by rewrite list_lookup_insert_ne). by apply (md_others _ _ _ _ _ _ _ _ M1 j).
    + rewrite Ef2, Ef1, C. rewrite (total_insert _ _ _ _ Hi). cbn [snd]. rewrite length_app, Nat2Z.inj_add.
      fold n. rewrite need_grow; [lia|unfold n; lia|lia|exact Hm].
  - split; [apply M1| |rewrite Ei2; apply M1]. intros c Hc. rewrite fupd_ne by lia. by apply M1.
  - intros A g. rewrite (bind_ok _ _ _ _ _ H1). cbn [fst snd].
    rewrite (bind_ok _ _ _ _ _ (rsect_ok s1 V1 b (md_rep _ _ _ _ _ _ _ _ M1) ltac:(lia))).
    assert (n - n / BSIZE * BSIZE = n mod BSIZE) as -> by (unfold BSIZE; zlia). fold d.
    rewrite (bind_ok _ _ _ _ _ Hw2). f_equal. f_equal. unfold b, daddr. fold n.
    symmetry. by apply (Hp i (d1, data)).
Qed.

Lemma iappend_loop_ok f p s V fs i di data :
  mk_data s V fs → fs !! i = Some (di, data) → (length p ≤ f)%nat →
  let n := Z.of_nat (length data) in let m := n + Z.of_nat (length p) in
  m ≤ MAXFILE * BSIZE → m_freeblock s + (need m - need n) ≤ FSSIZE →
  ∃ V' di' s', iappend_loop f di n p s = (Ok (di', m), s') ∧ mk_data s' V' (<[i := (di', data ++ p)]> fs) ∧ kept di s V di' s' V'.
Proof.
  revert p s V fs di data. induction f as [|f IH]; intros p s V fs di data Hd Hi Hp n m Hmax Hfit;
    (destruct p as [|c p]; [exists V, di, s; unfold m; rewrite app_nil_r, list_insert_id by done; simpl;
      rewrite Z.add_0_r; split_and!; [done|done|apply kept_refl]|]); [simpl in Hp; lia|].
  cbn [iappend_loop]. set (w := c :: p) in *. assert (Hwl : (0 < length w)%nat) by (simpl; lia).
  assert (Hn0 : 0 ≤ n) by (unfold n; lia). pose proof (Z.mod_pos_bound n BSIZE ltac:(done)) as Hmod.
  rewrite decide_False. 2: { unfold m in Hmax. change (MAXFILE * BSIZE) with 71680 in Hmax. change MAXFILE with 140. unfold BSIZE in *. zlia. }
  set (n1 := Z.to_nat (Z.of_nat (length w) `min` ((n / BSIZE + 1) * BSIZE - n))).
  assert (Hrest : (n / BSIZE + 1) * BSIZE - n = BSIZE - n mod BSIZE) by (unfold BSIZE; zlia).
  assert (Hn1 : (0 < n1 ≤ length w)%nat ∧ Z.of_nat n1 ≤ BSIZE - n mod BSIZE) by (unfold n1; rewrite Hrest; unfold BSIZE in *; lia).
  assert (Elen : length (take n1 w) = n1) by (rewrite length_take; lia).
  assert (Hmore : need (n + Z.of_nat n1) = need n + more n) by (apply need_grow; lia).
  pose proof (need_mono (n + Z.of_nat n1) m ltac:(unfold m; lia)) as Hmono.
  destruct (append_round s V fs i di data (take n1 w) Hd Hi) as (V1 & d1 & s1 & Hd1 & K1 & Hrun).
  { intros E. apply (f_equal length) in E. rewrite Elen in E. simpl in E. lia. }
  { fold n. rewrite Elen. lia. }
  { fold n. rewrite Elen. unfold m in Hmax. lia. }
  { fold n. lia. }
  fold n in Hrun. rewrite Hrun. cbn [fst].
  set (fs1 := <[i := (d1, data ++ take n1 w)]> fs) in *.
  assert (Hf1 : fs1 !! i = Some (d1, data ++ take n1 w)) by (apply list_lookup_insert_eq; by eapply lookup_lt_Some).
  assert (El1 : Z.of_nat (length (data ++ take n1 w)) = n + Z.of_nat n1) by (rewrite length_app, Elen; unfold n; lia).
  assert (El2 : Z.of_nat (length (drop n1 w)) = m - (n + Z.of_nat n1)) by (rewrite length_drop; unfold m; lia).
  assert (Efb1 : m_freeblock s1 = m_freeblock s + more n).
  { rewrite (ms_count _ _ _ Hd1), (ms_count _ _ _ Hd). unfold fs1. rewrite (total_insert _ _ _ _ Hi). cbn [snd].
    rewrite El1. fold n. lia. }
  destruct (IH (drop n1 w) s1 V1 fs1 d1 (data ++ take n1 w) Hd1 Hf1) as (V2 & d2 & s2 & Hrun2 & Hd2 & K2).
  { rewrite length_drop. lia. }
  { rewrite El1, El2. lia. }
  { rewrite El1, El2. replace (n + Z.of_nat n1 + (m - (n + Z.of_nat n1))) with m by lia. lia. }
  cbn zeta in Hrun2. rewrite El1, El2 in Hrun2. replace (n + Z.of_nat n1 + (m - (n + Z.of_nat n1))) with m in Hrun2 by lia.
  exists V2, d2, s2. split_and!; [exact Hrun2| |by eapply kept_trans].
  unfold fs1 in Hd2. by rewrite list_insert_insert_eq, <- app_assoc, take_drop in Hd2.
Qed.

(** ** Inodes *)

Lemma iblock_eq inum : IBLOCK inum mkfs_sb = inum / 8 + 32.
Proof. unfold IBLOCK. change (sb_inodestart mkfs_sb) with 32. by change IPB with 8. Qed.

Lemma iblock_range inum : 0 ≤ inum < NINODES → 32 ≤ IBLOCK inum mkfs_sb < 57.
Proof. rewrite iblock_eq. intros. zlia. Qed.

Lemma nmeta_eq : nmeta = 59.
Proof. done. Qed.

(** All files, with their inodes; inode [i + 1] is that of file [i]. *)
Record mk_ok (s : mk) (V : Z → list Z) (fs : files_t) : Prop := {
  mo_data : mk_data s V fs;
  mo_inode : ∀ i f, fs !! i = Some f →
    disk_inode mkfs_sb V (Z.of_nat i + 1) = f.1 ∧ di_size f.1 = Z.of_nat (length f.2) ∧ dinode_ok f.1;
  mo_free : m_freeinode s = Z.of_nat (length fs) + 1;
  mo_few : Z.of_nat (length fs) < NINODES;
  mo_sb : V 1 = sb_block;
  mo_zero : ∀ b, 0 ≤ b < 32 ∨ b = 58 → b ≠ 1 → V b = zeroes }.

Definition inode_view (V : Z → list Z) (inum : Z) (di : dinode) : Z → list Z :=
  fupd V (IBLOCK inum mkfs_sb) (put_dinode (V (IBLOCK inum mkfs_sb)) (dinode_off inum) di).

Lemma inode_view_get V inum j di :
  0 ≤ inum < NINODES → 0 ≤ j → (∀ b, 0 ≤ b < FSSIZE → length (V b) = 512%nat) → dinode_ok di →
  disk_inode mkfs_sb (inode_view V inum di) j = if decide (j = inum) then di else disk_inode mkfs_sb V j.
Proof.
  intros Hi Hj Hl Hok. pose proof (iblock_range inum Hi). pose proof (dinode_off_le inum).
  assert (Hb : length (V (IBLOCK inum mkfs_sb)) = 512%nat) by (apply Hl; lia).
  unfold disk_inode, inode_view. destruct (decide (j = inum)) as [->|Hne].
  - rewrite fupd_eq. apply get_put_dinode; [lia|done].
  - destruct (decide (IBLOCK j mkfs_sb = IBLOCK inum mkfs_sb)) as [E|E]; [|by rewrite fupd_ne].
    rewrite E, fupd_eq. apply get_put_dinode_ne; [lia|]. unfold dinode_off. change IPB with 8.
    rewrite !iblock_eq in E. assert (j mod 8 ≠ inum mod 8) by (intros E'; apply Hne; zlia).
    pose proof (Z.mod_pos_bound j 8 ltac:(lia)). pose proof (Z.mod_pos_bound inum 8 ltac:(lia)). lia.
Qed.

Lemma winode_ok s V inum di :
  rep s V → 0 ≤ inum < NINODES →
  ∃ s', winode inum di s = (Ok tt, s') ∧ rep s' (inode_view V inum di) ∧
    m_freeinode s' = m_freeinode s ∧ m_freeblock s' = m_freeblock s.
Proof.
  intros R Hi. pose proof (iblock_range inum Hi). unfold winode. cbn zeta.
  rewrite (bind_ok _ _ _ _ _ (rsect_ok s V (IBLOCK inum mkfs_sb) R ltac:(lia))). apply wsect_ok; [done|lia].
Qed.

Lemma rinode_ok s V inum : rep s V → 0 ≤ inum < NINODES → rinode inum s = (Ok (disk_inode mkfs_sb V inum), s).
Proof.
  intros R Hi. pose proof (iblock_range inum Hi). unfold rinode. cbn zeta.
  by rewrite (bind_ok _ _ _ _ _ (rsect_ok s V (IBLOCK inum mkfs_sb) R ltac:(lia))).
Qed.

(** Writing an inode leaves the files' blocks alone. *)
Lemma inode_view_data s s' V inum di fs :
  mk_data s V fs → 0 ≤ inum < NINODES → rep s' (inode_view V inum di) → m_freeblock s' = m_freeblock s →
  mk_data s' (inode_view V inum di) fs.
Proof.
  intros [R B T C] Hi R' Ef. pose proof (iblock_range inum Hi). pose proof nmeta_eq.
  assert (Hhigh : ∀ b, nmeta ≤ b < FSSIZE → inode_view V inum di b = V b) by (intros b Hb; unfold inode_view; apply fupd_ne; lia).
  split; [done| | |by rewrite Ef].
  - rewrite Ef. eapply blocks_inv_meta; [done|done|]. intros b Hb. unfold inode_view.
    destruct (decide (b = IBLOCK inum mkfs_sb)) as [->|]; [rewrite fupd_eq, put_dinode_length|rewrite fupd_ne by done]; by apply B.
  - intros i f Hf. eapply tight_ext; [|by apply (T i)]. intros t. apply dptr_ext. intros Hn. apply Hhigh.
    pose proof (bi_fb _ _ _ B). destruct (bi_range _ _ _ B i f ind_slot Hf); [done|lia].
Qed.

Lemma dptr_addrs V d1 d2 s : di_addrs d2 = di_addrs d1 → dptr V d2 s = dptr V d1 s.
Proof. intros E. unfold dptr, ptr. change (i_addrs (cached 0 ?d)) with (di_addrs d). by rewrite E. Qed.

(** Only the addresses of a dinode matter for the blocks. *)
Lemma mk_data_head s V fs i d1 d2 x :
  mk_data s V (<[i := (d1, x)]> fs) → di_addrs d2 = di_addrs d1 → mk_data s V (<[i := (d2, x)]> fs).
Proof.
  intros [R B T C] E.
  assert (Hget : ∀ j f, <[i := (d2, x)]> fs !! j = Some f →
    ∃ g, <[i := (d1, x)]> fs !! j = Some g ∧ f.2 = g.2 ∧ length (di_addrs f.1) = length (di_addrs g.1) ∧
      (∀ t, dptr V f.1 t = dptr V g.1 t)).
  { intros j f Hj. destruct (decide (j = i ∧ (i < length fs)%nat)) as [[-> Hlt]|Hne].
    - rewrite list_lookup_insert_eq in Hj by done. simplify_eq. exists (d1, x).
      rewrite list_lookup_insert_eq by done. split_and!; [done|done|cbn [fst]; by rewrite E|]. intros t. by apply dptr_addrs.
    - exists f. split; [|done]. destruct (decide (j = i)) as [->|].
      + rewrite list_insert_ge in Hj |- * by lia. done.
      + rewrite list_lookup_insert_ne in Hj |- * by done. done. }
  assert (Hd : ∀ f g k, (∀ t, dptr V f.1 t = dptr V g.1 t) → daddr V (f : dinode * list Z).1 k = daddr V (g : dinode * list Z).1 k)
    by (intros f g k H; apply H).
  split; [done| | |].
  - split; try apply B.
    + intros j f Hj. destruct (Hget j f Hj) as (g & Hg & _ & -> & _). by apply (bi_addrs _ _ _ B j).
    + intros j f t Hj. destruct (Hget j f Hj) as (g & Hg & _ & _ & ->). by apply (bi_range _ _ _ B j).
    + intros j j' f f' t t' Hj Hj'. destruct (Hget j f Hj) as (g & Hg & _ & _ & ->), (Hget j' f' Hj') as (g' & Hg' & _ & _ & ->).
      by apply (bi_inj _ _ _ B).
    + intros j f Hj. destruct (Hget j f Hj) as (g & Hg & -> & _). by apply (bi_max _ _ _ B j).
    + intros j f k Hj. destruct (Hget j f Hj) as (g & Hg & -> & _ & Hp). rewrite (Hd f g k Hp). by apply (bi_alloc _ _ _ B j).
    + intros j f k Hj. destruct (Hget j f Hj) as (g & Hg & -> & _ & Hp). rewrite (Hd f g k Hp). by apply (bi_data _ _ _ B j).
    + intros j f k Hj. destruct (Hget j f Hj) as (g & Hg & -> & _ & Hp). rewrite (Hd f g k Hp). by apply (bi_zero _ _ _ B j).
  - intros j f Hj. destruct (Hget j f Hj) as (g & Hg & -> & _ & Hp). destruct (T j g Hg) as [T1 T2].
    split; [intros c Hc|]; rewrite Hp; auto.
  - rewrite C. f_equal. destruct (decide (i < length fs)%nat) as [Hlt|].
    + destruct (lookup_lt_is_Some_2 fs i Hlt) as [h Hh]. by rewrite !(total_insert _ _ _ _ Hh).
    + by rewrite !list_insert_ge by lia.
Qed.

(** The addresses of a file fit a dinode. *)
Lemma addrs_ok s V fs i f : mk_data s V fs → fs !! i = Some f → Forall (λ a, 0 ≤ a < 2 ^ 32) (di_addrs f.1).
Proof.
  intros [_ B _ _] Hf. apply Forall_lookup. intros t a Ha. pose proof (bi_addrs _ _ _ B i f Hf) as Hl.
  pose proof (lookup_lt_Some _ _ _ Ha) as Ht. assert (Ea : dptr V f.1 t = a).
  { rewrite dptr_nth by lia. by apply nth_lookup_Some. }
  pose proof (bi_fb _ _ _ B). pose proof nmeta_eq. destruct (bi_range _ _ _ B i f t Hf); lia.
Qed.

Definition same_kind (di di' : dinode) : Prop :=
  di_type di' = di_type di ∧ di_major di' = di_major di ∧ di_minor di' = di_minor di ∧ di_nlink di' = di_nlink di.

(** The inode of file [i] is rewritten. *)
Lemma winode_file s V fs i d1 d2 x :
  mk_data s V (<[i := (d1, x)]> fs) → (i < length fs)%nat → Z.of_nat (length fs) < NINODES →
  (∀ j f, j ≠ i → fs !! j = Some f →
    disk_inode mkfs_sb V (Z.of_nat j + 1) = f.1 ∧ di_size f.1 = Z.of_nat (length f.2) ∧ dinode_ok f.1) →
  m_freeinode s = Z.of_nat (length fs) + 1 → V 1 = sb_block → (∀ b, 0 ≤ b < 32 ∨ b = 58 → b ≠ 1 → V b = zeroes) →
  di_addrs d2 = di_addrs d1 → di_size d2 = Z.of_nat (length x) → dinode_ok d2 →
  ∃ V' s', winode (Z.of_nat i + 1) d2 s = (Ok tt, s') ∧ mk_ok s' V' (<[i := (d2, x)]> fs).
Proof.
  intros Hd Hi Hn Hin Hf Hsb Hz Ea Es Hok. assert (Hr : 0 ≤ Z.of_nat i + 1 < NINODES) by lia.
  pose proof (iblock_range _ Hr). pose proof (mk_data_head _ _ _ _ _ d2 _ Hd Ea) as Hd2.
  destruct (winode_ok s V (Z.of_nat i + 1) d2 (ms_rep _ _ _ Hd) Hr) as (s' & Hw & R' & Ei & Ef).
  exists (inode_view V (Z.of_nat i + 1) d2), s'. split; [done|]. split.
  - by eapply inode_view_data.
  - intros j f Hj. rewrite inode_view_get by (try done; try lia; apply Hd). destruct (decide (j = i)) as [->|Hne].
    + rewrite list_lookup_insert_eq in Hj by done. simplify_eq. by rewrite decide_True.
    + rewrite list_lookup_insert_ne in Hj by done. rewrite decide_False by lia. by apply Hin.
  - by rewrite length_insert, Ei.
  - by rewrite length_insert.
  - unfold inode_view. by rewrite fupd_ne by lia.
  - intros b Hb Hb1. unfold inode_view. rewrite fupd_ne by lia. by apply Hz.
Qed.

Lemma iappend_ok p s V fs i di data :
  mk_ok s V fs → fs !! i = Some (di, data) →
  let n := Z.of_nat (length data) in let m := n + Z.of_nat (length p) in
  m ≤ MAXFILE * BSIZE → m_freeblock s + (need m - need n) ≤ FSSIZE →
  ∃ V' di' s', iappend (Z.of_nat i + 1) p s = (Ok tt, s') ∧ mk_ok s' V' (<[i := (di', data ++ p)]> fs) ∧ same_kind di di'.
Proof.
  intros [Hd Hin Hf Hfew Hsb Hz] Hi n m Hmax Hfit. assert (Hlt : (i < length fs)%nat) by (by eapply lookup_lt_Some).
  destruct (Hin i _ Hi) as (Edi & Esz & Hok). cbn [fst snd] in *. unfold iappend.
  rewrite (bind_ok _ _ _ _ _ (rinode_ok s V (Z.of_nat i + 1) (ms_rep _ _ _ Hd) ltac:(lia))). rewrite Edi.
  change (MAXFILE * BSIZE) with 71680 in Hmax. rewrite Esz, xint_id by (unfold m, n in *; lia).
  destruct (iappend_loop_ok (length p) p s V fs i di data Hd Hi ltac:(done)) as (V1 & d1 & s1 & Hrun & Hd1 & [Hh Hlow Hino]);
    [fold n m; change (MAXFILE * BSIZE) with 71680; lia|done|].
  fold n m in Hrun. mstep Hrun. cbn [fst snd]. rewrite xint_id by (unfold m, n in *; lia).
  destruct Hh as (H1 & H2 & H3 & H4 & _).
  set (d2 := Dinode (di_type d1) (di_major d1) (di_minor d1) (di_nlink d1) m (di_addrs d1)).
  pose proof nmeta_eq as Enm.
  destruct (winode_file s1 V1 fs i d1 d2 (data ++ p)) as (V2 & s2 & Hw & Hok2); try done.
  - intros j f Hj Hfj. unfold disk_inode in *. rewrite Hlow; [by apply Hin|].
    pose proof (iblock_range (Z.of_nat j + 1)). pose proof (lookup_lt_Some _ _ _ Hfj). lia.
  - by rewrite Hino.
  - by rewrite Hlow by lia.
  - intros b Hb Hb1. rewrite Hlow by lia. by apply Hz.
  - cbn [d2 di_size]. rewrite length_app. unfold m, n. lia.
  - destruct Hok as [K1 K2 K3 K4 _ _ _]. assert (Hf1 : <[i := (d1, data ++ p)]> fs !! i = Some (d1, data ++ p)) by (by apply list_lookup_insert_eq).
    split; cbn [d2 di_type di_major di_minor di_nlink di_size di_addrs]; try (by rewrite ?H1, ?H2, ?H3, ?H4); [unfold m, n in *; lia| |].
    + by apply (bi_addrs _ _ _ (ms_inv _ _ _ Hd1) i (d1, data ++ p)).
    + by apply (addrs_ok _ _ _ i (d1, data ++ p) Hd1).
  - exists V2, d2, s2. split_and!; [done|done|]. by repeat split.
Qed.

(** ** New inodes *)

Definition new_dinode (type : Z) : dinode := Dinode type 0 0 1 0 (replicate 13 0).

Lemma new_dptr V type s : dptr V (new_dinode type) s = 0.
Proof.
  unfold dptr, ptr. change (i_addrs (cached 0 (new_dinode type))) with (replicate 13 0).
  assert (Hn : ∀ t, nth t (replicate 13 0) 0 = 0).
  { intros t. rewrite nth_lookup. destruct (replicate 13 0 !! t) eqn:E; [|done]. by apply lookup_replicate in E as [-> _]. }
  rewrite !Hn. by repeat case_decide.
Qed.

Lemma mk_data_new s V fs type : mk_data s V fs → mk_data s V (fs ++ [(new_dinode type, [])]).
Proof.
  intros [R B T C]. set (h := (new_dinode type, [])) in *.
  assert (Hget : ∀ j f, (fs ++ [h]) !! j = Some f → fs !! j = Some f ∨ j = length fs ∧ f = h).
  { intros j f [Hj|[Hl Hj]]%lookup_app_Some; [by left|]. apply list_lookup_singleton_Some in Hj as [? ->]. right. split; [lia|done]. }
  assert (Hz : ∀ t, dptr V h.1 t = 0) by (intros; apply new_dptr).
  assert (Hza : ∀ k, daddr V h.1 k = 0) by (intros; apply new_dptr).
  split; [done| | |].
  - split; try apply B.
    + intros j f [Hf|[-> ->]]%Hget; [by apply (bi_addrs _ _ _ B j)|done].
    + intros j f t [Hf|[-> ->]]%Hget; [by apply (bi_range _ _ _ B j)|left; apply Hz].
    + intros j j' f f' t t' [Hf|[-> ->]]%Hget [Hf'|[-> ->]]%Hget; rewrite ?Hz; try done. by apply (bi_inj _ _ _ B).
    + intros j f [Hf|[-> ->]]%Hget; [by apply (bi_max _ _ _ B j)|done].
    + intros j f k [Hf|[-> ->]]%Hget Hk; [by apply (bi_alloc _ _ _ B j)|simpl in Hk; lia].
    + intros j f k [Hf|[-> ->]]%Hget Hk; [by apply (bi_data _ _ _ B j)|simpl in Hk; lia].
    + intros j f k [Hf|[-> ->]]%Hget Hk Hn; [by apply (bi_zero _ _ _ B j)|by rewrite Hza in Hn].
  - intros j f [Hf|[-> ->]]%Hget; [by apply (T j)|]. split; [intros c Hc|]; by rewrite Hz.
  - rewrite total_snoc, C. change (need _) with 0. lia.
Qed.

Lemma new_dinode_ok type : 0 ≤ type < 2 ^ 15 → dinode_ok (new_dinode type).
Proof. intros H. split; cbn [new_dinode di_type di_major di_minor di_nlink di_size di_addrs]; try lia; [done|]. by apply Forall_replicate. Qed.

Definition with_fi (i : Z) (s : mk) : mk := Mk (m_img s) i (m_freeblock s).

Lemma mk_ialloc_ok s V fs type :
  mk_ok s V fs → Z.of_nat (length fs) + 1 < NINODES → 0 ≤ type < 2 ^ 15 →
  ∃ V' s', mk_ialloc type s = (Ok (Z.of_nat (length fs) + 1), s') ∧ mk_ok s' V' (fs ++ [(new_dinode type, [])]) ∧
    m_freeblock s' = m_freeblock s.
Proof.
  intros [Hd Hin Hf Hfew Hsb Hz] Hn Ht. unfold mk_ialloc. rewrite bind_gets, bind_modify, Hf.
  rewrite u32_small by lia. rewrite !xshort_id by lia. change (xint 0) with 0.
  change (s <| m_freeinode := Z.of_nat (length fs) + 1 + 1 |>) with (with_fi (Z.of_nat (length fs) + 1 + 1) s).
  fold (new_dinode type). set (fs' := fs ++ [(new_dinode type, [])]).
  assert (Hi : (length fs < length fs')%nat) by (unfold fs'; rewrite length_app; simpl; lia).
  assert (Hlast : fs' !! length fs = Some (new_dinode type, [])) by (by apply list_lookup_middle).
  assert (Hd' : mk_data (with_fi (Z.of_nat (length fs) + 1 + 1) s) V fs').
  { destruct (mk_data_new _ _ _ type Hd) as [R B T C]. by split. }
  destruct (winode_file (with_fi (Z.of_nat (length fs) + 1 + 1) s) V fs' (length fs) (new_dinode type) (new_dinode type) [])
    as (V2 & s2 & Hw & Hok2); try done.
  - by rewrite list_insert_id.
  - unfold fs'. rewrite length_app. simpl. lia.
  - intros j f Hj Hfj. unfold fs' in Hfj. apply lookup_app_Some in Hfj as [Hfj|[Hl Hfj]]; [by apply Hin|].
    apply list_lookup_singleton_Some in Hfj as [? _]. lia.
  - unfold fs'. rewrite length_app. simpl. lia.
  - by apply new_dinode_ok.
  - exists V2, s2. mstep Hw. rewrite list_insert_id in Hok2 by done. split_and!; [done|done|].
    rewrite (ms_count _ _ _ (mo_data _ _ _ Hok2)), (ms_count _ _ _ Hd). unfold fs'. rewrite total_snoc.
    change (need _) with 0. lia.
Qed.

(** ** Files *)

(** The bytes appended to the file [i], one after the other. *)
Lemma each_append_ok ps s V fs i di data :
  mk_ok s V fs → fs !! i = Some (di, data) →
  let n := Z.of_nat (length data) in let m := n + Z.of_nat (length (concat ps)) in
  m ≤ MAXFILE * BSIZE → m_freeblock s + (need m - need n) ≤ FSSIZE →
  ∃ V' di' s', each (iappend (Z.of_nat i + 1)) ps s = (Ok tt, s') ∧ mk_ok s' V' (<[i := (di', data ++ concat ps)]> fs) ∧ same_kind di di'.
Proof.
  revert s V fs di data. induction ps as [|p ps IH]; intros s V fs di data Hok Hi n m Hmax Hfit.
  - exists V, di, s. simpl. rewrite app_nil_r, list_insert_id by done. split_and!; [done|done|by repeat split].
  - assert (Em : n + Z.of_nat (length p) + Z.of_nat (length (concat ps)) = m) by (unfold m; cbn [concat]; rewrite length_app; lia).
    clearbody m. cbn [each concat].
    pose proof (need_mono n (n + Z.of_nat (length p)) ltac:(unfold n; lia)) as M1.
    pose proof (need_mono (n + Z.of_nat (length p)) m ltac:(unfold n in *; lia)) as M2.
    destruct (iappend_ok p s V fs i di data Hok Hi) as (V1 & d1 & s1 & H1 & Hok1 & K1);
      [fold n; lia|fold n; lia|].
    mstep H1. set (fs1 := <[i := (d1, data ++ p)]> fs) in *.
    assert (Hf1 : fs1 !! i = Some (d1, data ++ p)) by (apply list_lookup_insert_eq; by eapply lookup_lt_Some).
    assert (El : Z.of_nat (length (data ++ p)) = n + Z.of_nat (length p)) by (rewrite length_app; unfold n; lia).
    assert (Efb : m_freeblock s1 = m_freeblock s + (need (n + Z.of_nat (length p)) - need n)).
    { rewrite (ms_count _ _ _ (mo_data _ _ _ Hok1)), (ms_count _ _ _ (mo_data _ _ _ Hok)). unfold fs1.
      rewrite (total_insert _ _ _ _ Hi). cbn [snd]. rewrite El. fold n. lia. }
    destruct (IH s1 V1 fs1 d1 (data ++ p) Hok1 Hf1) as (V2 & d2 & s2 & H2 & Hok2 & K2).
    { rewrite El, Em. lia. }
    { rewrite El, Em. lia. }
    exists V2, d2, s2. split_and!; [done| |destruct K1 as (? & ? & ? & ?), K2 as (? & ? & ? & ?); repeat split; congruence].
    unfold fs1 in Hok2. by rewrite list_insert_insert_eq, <- app_assoc in Hok2.
Qed.

(** The names in the root directory, and the blocks all files take. *)
Definition root_data (files : list host_file) : list Z :=
  dirent_bytes ROOTINO [46] ++ dirent_bytes ROOTINO [46; 46] ++
  concat (imap (λ i f, dirent_bytes (Z.of_nat i + 2) (skip_underscore f.1)) files).

Definition contents (files : list host_file) : list (list Z) := root_data files :: ((λ f, concat f.2) <$> files).

Definition sum_need (l : list (list Z)) : Z := foldr (λ d n, need (Z.of_nat (length d)) + n) 0 l.
Definition blocks_needed (files : list host_file) : Z := sum_need (contents files).

(** The inodes are a directory and files. *)
Definition kinds (fs : files_t) : Prop :=
  ∀ i f, fs !! i = Some f → di_type f.1 = (if decide (i = 0%nat) then T_DIR else T_FILE) ∧ di_nlink f.1 = 1.

Record mk_files (s : mk) (V : Z → list Z) (fs : files_t) (files : list host_file) : Prop := {
  mf_ok : mk_ok s V fs;
  mf_kinds : kinds fs;
  mf_data : fs.*2 = contents files }.

Lemma dirent_length inum name : length (dirent_bytes inum name) = 16%nat.
Proof.
  unfold dirent_bytes. rewrite length_app, length_put16, length_take, length_app, !length_replicate. lia.
Qed.

Lemma root_data_snoc files f :
  root_data (files ++ [f]) = root_data files ++ dirent_bytes (Z.of_nat (length files) + 2) (skip_underscore f.1).
Proof.
  unfold root_data. rewrite imap_app, concat_app, <- !app_assoc. do 3 f_equal. simpl. by rewrite app_nil_r, Nat.add_0_r.
Qed.

Lemma root_data_length files : length (root_data files) = (16 * (length files + 2))%nat.
Proof.
  induction files as [|f files IH] using rev_ind; [done|].
  rewrite root_data_snoc, !length_app, IH, dirent_length. simpl. lia.
Qed.

Lemma total_contents fs files : fs.*2 = contents files → total fs = blocks_needed files.
Proof.
  unfold blocks_needed. intros <-. unfold total. induction fs as [|h fs IH]; [done|]. simpl. by rewrite IH.
Qed.

Lemma need_nonneg n : 0 ≤ n → 0 ≤ need n.
Proof. intros H. change 0 with (need 0). by apply need_mono. Qed.

Lemma sum_need_app l l' : sum_need (l ++ l') = sum_need l + sum_need l'.
Proof. induction l as [|d l IH]; simpl; [done|]. rewrite IH. lia. Qed.

Lemma blocks_needed_snoc files f :
  blocks_needed (files ++ [f]) =
  blocks_needed files + (need (Z.of_nat (length (root_data files) + 16)) - need (Z.of_nat (length (root_data files)))) +
  need (Z.of_nat (length (concat f.2))).
Proof.
  unfold blocks_needed, contents. rewrite root_data_snoc, fmap_app. cbn [sum_need foldr]. fold sum_need.
  rewrite length_app, dirent_length. change (foldr _ 0 ?l) with (sum_need l). rewrite sum_need_app.
  change (sum_need (_ <$> [f])) with (need (Z.of_nat (length (concat f.2))) + 0). lia.
Qed.

Lemma blocks_needed_mono files f rest : blocks_needed (files ++ [f]) ≤ blocks_needed (files ++ f :: rest).
Proof.
  induction rest as [|g rest IH] using rev_ind; [done|]. etrans; [exact IH|].
  rewrite app_comm_cons, app_assoc, blocks_needed_snoc.
  pose proof (need_mono (Z.of_nat (length (root_data (files ++ f :: rest)))) (Z.of_nat (length (root_data (files ++ f :: rest)) + 16)) ltac:(lia)).
  pose proof (need_nonneg (Z.of_nat (length (concat g.2))) ltac:(lia)). lia.
Qed.

(** A name that [add_file] accepts, and a file that is not too big. *)
Definition host_ok (f : host_file) : Prop := 47 ∉ f.1 ∧ Z.of_nat (length (concat f.2)) ≤ MAXFILE * BSIZE.

Lemma same_kind_trans a b c : same_kind a b → same_kind b c → same_kind a c.
Proof. intros (? & ? & ? & ?) (? & ? & ? & ?). repeat split; congruence. Qed.

Lemma add_file_ok s V fs files f :
  mk_files s V fs files → host_ok f → Z.of_nat (length files) + 2 < NINODES → nmeta + blocks_needed (files ++ [f]) ≤ FSSIZE →
  ∃ V' fs' s', add_file f s = (Ok tt, s') ∧ mk_files s' V' fs' (files ++ [f]).
Proof.
  intros [Hok Hk Hdat] [Hname Hsize] Hn Hfit. unfold add_file. rewrite decide_False by done. cbn zeta.
  assert (Hlen : length fs = S (length files)) by (apply (f_equal length) in Hdat; by rewrite length_fmap in Hdat; simpl in Hdat; rewrite length_fmap in Hdat).
  rewrite blocks_needed_snoc in Hfit. rewrite <- (total_contents _ _ Hdat) in Hfit.
  pose proof (ms_count _ _ _ (mo_data _ _ _ Hok)) as C. pose proof nmeta_eq as Enm.
  destruct (mk_ialloc_ok s V fs T_FILE Hok ltac:(lia) ltac:(done)) as (V1 & s1 & H1 & Hok1 & Ef1). mstep H1.
  destruct fs as [|[rd rdata] fs]; [done|]. simpl in Hdat. injection Hdat as Erd Efs. subst rdata.
  set (d := (new_dinode T_FILE, [])) in *. set (inum := Z.of_nat (length ((rd, root_data files) :: fs)) + 1) in *.
  pose proof (root_data_length files) as Hrl.
  destruct (iappend_ok (dirent_bytes inum (skip_underscore f.1)) s1 V1 _ 0 rd (root_data files) Hok1 eq_refl)
    as (V2 & rd2 & s2 & H2 & Hok2 & K2).
  { rewrite dirent_length, Hrl. change (MAXFILE * BSIZE) with 71680. lia. }
  { rewrite dirent_length, Ef1. pose proof (need_nonneg (Z.of_nat (length (concat f.2))) ltac:(lia)).
    rewrite Nat2Z.inj_add in Hfit. lia. }
  change (Z.of_nat 0 + 1) with ROOTINO in H2. mstep H2.
  set (rdata2 := root_data files ++ dirent_bytes inum (skip_underscore f.1)) in *. cbn [insert list_insert app] in Hok2.
  assert (Hi : ((rd2, rdata2) :: fs ++ [d]) !! S (length fs) = Some d) by (simpl; by apply list_lookup_middle).
  assert (Einum : inum = Z.of_nat (S (length fs)) + 1) by done.
  assert (Ef2 : m_freeblock s2 = m_freeblock s1 + (need (Z.of_nat (length (root_data files) + 16)) - need (Z.of_nat (length (root_data files))))).
  { rewrite (ms_count _ _ _ (mo_data _ _ _ Hok2)), (ms_count _ _ _ (mo_data _ _ _ Hok1)). simpl. unfold rdata2.
    rewrite length_app, dirent_length. lia. }
  destruct (each_append_ok f.2 s2 V2 _ (S (length fs)) (new_dinode T_FILE) [] Hok2 Hi) as (V3 & d3 & s3 & H3 & Hok3 & K3).
  { simpl. lia. }
  { rewrite Z.add_0_l. change (need (Z.of_nat (length []))) with 0. lia. }
  rewrite <- Einum in H3. exists V3, ((rd2, rdata2) :: fs ++ [(d3, concat f.2)]), s3. split; [done|].
  assert (Efin : <[S (length fs) := (d3, [] ++ concat f.2)]> ((rd2, rdata2) :: fs ++ [d]) = (rd2, rdata2) :: fs ++ [(d3, concat f.2)]).
  { simpl. f_equal. rewrite <- (Nat.add_0_r (length fs)), insert_app_r. done. }
  rewrite Efin in Hok3. split; [done| |].
  - intros [|j] g Hg; simpl in Hg.
    + simplify_eq. destruct (Hk 0%nat _ eq_refl). destruct K2 as (E1 & _ & _ & E2). cbn [fst] in *. by rewrite E1, E2.
    + apply lookup_app_Some in Hg as [Hg|[_ Hg]]; [by apply (Hk (S j))|].
      apply list_lookup_singleton_Some in Hg as [_ <-]. destruct K3 as (E1 & _ & _ & E2). cbn [fst]. by rewrite E1, E2.
  - unfold contents. rewrite root_data_snoc, fmap_app. cbn [fmap list_fmap snd]. f_equal.
    + unfold rdata2. do 2 f_equal. unfold inum. simpl in *. lia.
    + rewrite fmap_app. simpl. f_equal. exact Efs.
Qed.

Lemma add_files_ok rest s V fs files :
  mk_files s V fs files → Forall host_ok rest → Z.of_nat (length (files ++ rest)) + 1 < NINODES →
  nmeta + blocks_needed (files ++ rest) ≤ FSSIZE →
  ∃ V' fs' s', each add_file rest s = (Ok tt, s') ∧ mk_files s' V' fs' (files ++ rest).
Proof.
  revert s V fs files. induction rest as [|f rest IH]; intros s V fs files Hm Hh Hn Hfit.
  - exists V, fs, s. by rewrite app_nil_r.
  - inversion_clear Hh as [|?? Hf Hr]. pose proof (blocks_needed_mono files f rest) as Hmono.
    rewrite length_app in Hn. simpl in Hn.
    destruct (add_file_ok s V fs files f Hm Hf ltac:(lia) ltac:(lia)) as (V1 & fs1 & s1 & H1 & Hm1).
    cbn [each]. mstep H1. replace (files ++ f :: rest) with ((files ++ [f]) ++ rest) in * by (by rewrite <- app_assoc).
    apply (IH _ _ _ _ Hm1 Hr); [|done]. rewrite !length_app in *. simpl. lia.
Qed.

(** ** The whole program *)

Lemma wsect_zeroes k n fi fb :
  each (λ i, wsect i zeroes) (seqZ (Z.of_nat k) (Z.of_nat n)) (Mk (replicate k zeroes) fi fb) =
  (Ok tt, Mk (replicate (k + n) zeroes) fi fb).
Proof.
  revert k. induction n as [|n IH]; intros k; [by rewrite Nat.add_0_r|].
  rewrite seqZ_cons by lia. cbn [each].
  assert (Hw : wsect (Z.of_nat k) zeroes (Mk (replicate k zeroes) fi fb) = (Ok tt, Mk (replicate (S k) zeroes) fi fb)).
  { unfold wsect, modify, upd. simpl. do 2 f_equal. rewrite Nat2Z.id, length_replicate.
    replace (S k - k)%nat with 1%nat by lia. change (replicate 1 zeroes) with [zeroes].
    replace (<[k := zeroes]> (replicate k zeroes ++ [zeroes])) with (replicate k zeroes ++ [zeroes]).
    - by rewrite <- (replicate_S_end k zeroes).
    - symmetry. apply list_insert_id. rewrite lookup_app_r; rewrite length_replicate; [|done]. by rewrite Nat.sub_diag. }
  mstep Hw. replace (Z.succ (Z.of_nat k)) with (Z.of_nat (S k)) by lia.
  replace (Z.pred (Z.of_nat (S n))) with (Z.of_nat n) by lia. rewrite IH. by rewrite Nat.add_succ_comm.
Qed.

Lemma zeroed :
  ∃ s, each (λ i, wsect i zeroes) (seqZ 0 FSSIZE) (Mk [] 1 nmeta) = (Ok tt, s) ∧ rep s (λ _, zeroes) ∧
    m_freeinode s = 1 ∧ m_freeblock s = nmeta.
Proof.
  eexists. split; [exact (wsect_zeroes 0 1000 1 nmeta)|]. split; [|by split]. unfold rep. cbn [m_img].
  split; [apply length_replicate|]. intros b Hb. apply lookup_replicate_2. lia.
Qed.

Definition empty_view : Z → list Z := fupd (λ _, zeroes) 1 sb_block.

Lemma mk_start s : rep s empty_view → m_freeinode s = 1 → m_freeblock s = nmeta → mk_ok s empty_view [].
Proof.
  intros R Ei Ef. split; [split; [done| |done|by rewrite Ef]|done|done|done|apply fupd_eq|].
  - rewrite Ef. split; try done.
    + intros b Hb. unfold empty_view, fupd. by case_decide.
    + intros b Hb. rewrite nmeta_eq in Hb. unfold empty_view. by rewrite fupd_ne by lia.
  - intros b _ Hb. unfold empty_view. by rewrite fupd_ne.
Qed.

(** Up to the size of the root directory and the bitmap. *)
Lemma mkfs_files files :
  Forall host_ok files → Z.of_nat (length files) + 1 < NINODES → nmeta + blocks_needed files ≤ FSSIZE →
  ∃ V fs s, mk_files s V fs files ∧ ∀ A (g : Z → MK A),
    (modify (λ s, s <| m_freeblock := nmeta |>);;
     each (λ i, wsect i zeroes) (seqZ 0 FSSIZE);;
     wsect 1 sb_block;;
     rootino ← mk_ialloc T_DIR;
     if decide (rootino ≠ ROOTINO) then panic "assert: rootino" else
     iappend rootino (dirent_bytes rootino [46]);;
     iappend rootino (dirent_bytes rootino [46; 46]);;
     each add_file files;;
     g rootino) (Mk [] 1 0) = g ROOTINO s.
Proof.
  intros Hh Hn Hfit. pose proof nmeta_eq as Enm.
  destruct zeroed as (s1 & Hz & R1 & Ei1 & Ef1).
  destruct (wsect_ok s1 _ 1 sb_block R1 ltac:(lia)) as (s2 & H2 & R2 & Ei2 & Ef2). fold empty_view in R2.
  pose proof (mk_start s2 R2 ltac:(by rewrite Ei2) ltac:(by rewrite Ef2)) as Hok2.
  destruct (mk_ialloc_ok s2 _ [] T_DIR Hok2 ltac:(simpl; lia) ltac:(unfold T_DIR; lia)) as (V3 & s3 & H3 & Hok3 & Ef3).
  cbn [length app] in H3, Hok3. change (Z.of_nat 0 + 1) with ROOTINO in H3.
  destruct (iappend_ok (dirent_bytes ROOTINO [46]) s3 V3 _ 0 (new_dinode T_DIR) [] Hok3 eq_refl) as (V4 & d4 & s4 & H4 & Hok4 & K4);
    [done|rewrite Ef3, Ef2, Ef1; done|]. change (Z.of_nat 0 + 1) with ROOTINO in H4. cbn [insert list_insert app] in Hok4.
  assert (Ef4 : m_freeblock s4 = 60) by (rewrite (ms_count _ _ _ (mo_data _ _ _ Hok4)); vm_compute; reflexivity).
  destruct (iappend_ok (dirent_bytes ROOTINO [46; 46]) s4 V4 _ 0 d4 _ Hok4 eq_refl) as (V5 & d5 & s5 & H5 & Hok5 & K5);
    [done|rewrite Ef4; done|]. change (Z.of_nat 0 + 1) with ROOTINO in H5. cbn [insert list_insert] in Hok5.
  assert (Hm5 : mk_files s5 V5 [(d5, root_data [])] []).
  { split; [exact Hok5| |done]. intros [|i] f Hf; [|done]. change (Some (d5, root_data []) = Some f) in Hf. injection Hf as <-. cbn [fst].
    destruct (same_kind_trans _ _ _ K4 K5) as (E1 & _ & _ & E2).
    rewrite E1, E2. split; exact eq_refl. }
  destruct (add_files_ok files s5 V5 _ [] Hm5 Hh Hn Hfit) as (V6 & fs6 & s6 & H6 & Hm6).
  exists V6, fs6, s6. split; [done|]. intros A g. rewrite bind_modify.
  change (Mk [] 1 0 <| m_freeblock := nmeta |>) with (Mk [] 1 nmeta).
  mstep Hz. mstep H2. mstep H3. rewrite decide_False by tauto. mstep H4. mstep H5. by mstep H6.
Qed.

(** ** The image *)

Lemma bitmap_bits n j : 0 ≤ n ≤ BPB → 0 ≤ j < BPB → bit_used (foldl set_bit zeroes (seqZ 0 n)) j = bool_decide (j < n).
Proof.
  intros Hn Hj. assert (H : ∀ m : nat, Z.of_nat m ≤ BPB →
    length (foldl set_bit zeroes (seqZ 0 (Z.of_nat m))) = 512%nat ∧
    bit_used (foldl set_bit zeroes (seqZ 0 (Z.of_nat m))) j = bool_decide (j < Z.of_nat m)).
  { induction m as [|m IH]; intros Hm.
    - split; [done|]. rewrite bool_decide_false by lia. cbn [seqZ foldl]. rewrite bit_used_testbit.
      change (seqZ 0 (Z.of_nat 0)) with ([] : list Z). cbn [foldl]. unfold byte_at, zeroes. rewrite nth_lookup.
      destruct (replicate 512 0 !! _) as [v|] eqn:E; [apply lookup_replicate in E as [-> _]|]; apply Z.testbit_0_l.
    - destruct IH as [IHl IHb]; [lia|]. replace (Z.of_nat (S m)) with (Z.of_nat m + 1) by lia.
      rewrite seqZ_app, foldl_app by lia. cbn [foldl]. change (seqZ (0 + Z.of_nat m) 1) with [0 + Z.of_nat m]. cbn [foldl].
      rewrite set_bit_length, bit_used_set, IHb by (done || lia). split; [done|].
      destruct (decide (j = Z.of_nat m)) as [->|].
      { rewrite (bool_decide_true (Z.of_nat m = _)) by lia. cbn [orb]. by rewrite bool_decide_true by lia. }
      rewrite (bool_decide_false (j = _)) by lia. cbn [orb]. apply bool_decide_ext. lia. }
  rewrite <- (Z2Nat.id n) by lia. apply H. lia.
Qed.

Section image.
Variables (l0 : log) (disk : list (list Z)).
Hypothesis (Hstart : lg_start l0 = 2) (Hlsize : lg_size l0 = LOGSIZE) (Hdisk : length disk = 1000%nat).

Lemma image_home b : home l0 disk b ↔ 32 ≤ b < FSSIZE.
Proof. unfold home, log_area. rewrite Hstart, Hlsize, Hdisk. lia. Qed.

Lemma image_bblock b : 0 ≤ b < FSSIZE → BBLOCK b mkfs_sb = 58.
Proof. intros Hb. unfold BBLOCK, BPB, BSIZE. change (sb_bmapstart mkfs_sb) with 58. zlia. Qed.

Lemma image_meta b : 0 ≤ b < FSSIZE → meta l0 disk mkfs_sb b → b < nmeta.
Proof.
  intros Hb. rewrite nmeta_eq. unfold meta. rewrite image_home. intros [H|[(c & Hc & ->)|(i & Hi & ->)]].
  - lia.
  - by rewrite image_bblock.
  - pose proof (iblock_range i Hi). lia.
Qed.

Lemma image_data b : nmeta ≤ b < FSSIZE → ¬ meta l0 disk mkfs_sb b.
Proof. intros Hb Hm. apply image_meta in Hm; [lia|]. rewrite nmeta_eq in Hb. lia. Qed.

Lemma image_layout : layout l0 disk mkfs_sb.
Proof.
  split.
  - rewrite Hdisk. vm_compute. done.
  - intros b Hb. rewrite image_bblock by done. apply image_home. lia.
  - intros i Hi. pose proof (iblock_range i Hi). rewrite image_home. change (sb_size mkfs_sb) with FSSIZE. lia.
  - intros b i Hb Hi. rewrite image_bblock by done. pose proof (iblock_range i Hi). lia.
Qed.

(** A file of the image, as the kernel's file system sees it. *)
Definition file_on (V : Z → list Z) (inum type : Z) (data : list Z) (size : Z) : Prop :=
  ∃ x, i_inum x = inum ∧ i_type x = type ∧ i_nlink x = 1 ∧ i_size x = size ∧
    inode_wf mkfs_sb x ∧ synced mkfs_sb V x ∧ content_rep l0 disk mkfs_sb V x data.

(** The bitmap of [fb] used blocks. *)
Definition marked (V : Z → list Z) (fb : Z) : Prop := V 58 = foldl set_bit zeroes (seqZ 0 fb).

Lemma marked_used V fb b : marked V fb → 0 ≤ fb ≤ FSSIZE → 0 ≤ b < FSSIZE → used mkfs_sb V b = bool_decide (b < fb).
Proof.
  intros Hm Hfb Hb. unfold used. rewrite image_bblock by done. rewrite Hm.
  rewrite Z.mod_small by (unfold BPB, BSIZE; lia). apply bitmap_bits; unfold BPB, BSIZE; lia.
Qed.

Lemma image_fs_ok V fb :
  marked V fb → nmeta ≤ fb ≤ FSSIZE → V 1 = sb_block → (∀ b, 0 ≤ b < FSSIZE → length (V b) = 512%nat) → fs_ok l0 disk mkfs_sb V.
Proof.
  intros Hm Hfb Hsb Hl. rewrite nmeta_eq in Hfb. split.
  - rewrite Hsb. vm_compute. reflexivity.
  - rewrite Hdisk. exact Hl.
  - intros b Hb Hmeta. change (sb_size mkfs_sb) with FSSIZE in Hb. rewrite (marked_used V fb) by (done || lia).
    apply bool_decide_true. apply image_meta in Hmeta; [|done]. rewrite nmeta_eq in Hmeta. lia.
Qed.

Lemma image_content V fb fs i f inum data :
  blocks_inv V fb fs → marked V fb → fs !! i = Some f →
  Z.of_nat (length data) ≤ MAXFILE * BSIZE →
  (∀ j, (j < length data)%nat → daddr V f.1 j ≠ 0 ∧ data !! j = V (daddr V f.1 j) !! Z.to_nat (Z.of_nat j mod BSIZE)) →
  content_rep l0 disk mkfs_sb V (cached inum f.1) data.
Proof.
  intros B Hm Hf Hmax Hd. pose proof (bi_fb _ _ _ B) as Hfb. pose proof nmeta_eq as En. split.
  - split.
    + by apply (bi_addrs _ _ _ B i).
    + intros s Hs. rewrite dptr_cached in *. destruct (bi_range _ _ _ B i f s Hf) as [E|E]; [done|].
      split_and!; [change (sb_size mkfs_sb) with FSSIZE; lia..| |apply image_data; lia].
      rewrite (marked_used V fb) by (done || lia). apply bool_decide_true. lia.
    + intros s t. rewrite !dptr_cached. intros E Hn. by destruct (bi_inj _ _ _ B i i f f s t Hf Hf E Hn).
  - done.
  - intros j Hj. by apply Hd.
  - intros j Hj. by apply Hd.
Qed.

Lemma image_file V fb fs i f inum data size type :
  blocks_inv V fb fs → marked V fb → fs !! i = Some f → 0 ≤ inum < NINODES → disk_inode mkfs_sb V inum = f.1 →
  dinode_ok f.1 → di_size f.1 = size → di_type f.1 = type → di_nlink f.1 = 1 →
  Z.of_nat (length data) ≤ MAXFILE * BSIZE →
  (∀ j, (j < length data)%nat → daddr V f.1 j ≠ 0 ∧ data !! j = V (daddr V f.1 j) !! Z.to_nat (Z.of_nat j mod BSIZE)) →
  file_on V inum type data size.
Proof.
  intros B Hm Hf Hi Hdi [K1 K2 K3 K4 K5 K6 K7] <- <- Hnl Hmax Hd. exists (cached inum f.1).
  split_and!; [done|done|exact Hnl|done| | |by eapply image_content].
  - split; [done|done|done].
  - unfold synced. change (i_inum (cached inum f.1)) with inum. rewrite Hdi. by destruct f.1.
Qed.
End image.

(** The size of the root directory: whole blocks, and always one more than needed for
    whole blocks of entries.  Where the last block is there, it ends in zeros. *)
Definition root_size (files : list host_file) : Z := (Z.of_nat (length (root_data files)) / BSIZE + 1) * BSIZE.
Definition root_padded (files : list host_file) : list Z :=
  if decide (Z.of_nat (length (root_data files)) mod BSIZE = 0) then root_data files
  else resize (Z.to_nat (root_size files)) 0 (root_data files).

(** The end of the program: the size of the root directory, then the bitmap. *)
Lemma mkfs_finish s V fs files :
  mk_files s V fs files → nmeta + blocks_needed files ≤ FSSIZE →
  ∃ V' s' rd fs', fs = (rd, root_data files) :: fs' ∧
    mkfs_end ROOTINO s = (Ok tt, s') ∧
    rep s' V' ∧ marked V' (nmeta + blocks_needed files) ∧
    let rd' := Dinode (di_type rd) (di_major rd) (di_minor rd) (di_nlink rd) (root_size files) (di_addrs rd) in
    blocks_inv V' (nmeta + blocks_needed files) ((rd', root_data files) :: fs') ∧ V' 1 = sb_block ∧
    (∀ b, 2 ≤ b < 32 → V' b = zeroes) ∧ disk_inode mkfs_sb V' 1 = rd' ∧ dinode_ok rd' ∧
    (∀ i f, fs' !! i = Some f → disk_inode mkfs_sb V' (Z.of_nat i + 2) = f.1 ∧ di_size f.1 = Z.of_nat (length f.2) ∧ dinode_ok f.1).
Proof.
  intros [Hok Hk Hdat] Hfit. pose proof (total_contents _ _ Hdat) as Htot. destruct Hok as [Hd Hin Hf Hfew Hsb Hz].
  destruct fs as [|[rd rdata] fs']; [done|]. injection Hdat as -> Efs. pose proof nmeta_eq as Enm.
  destruct (Hin 0%nat _ eq_refl) as (Erd & Esz & Hok). cbn [fst snd] in *. change (Z.of_nat 0 + 1) with 1 in Erd.
  pose proof (root_data_length files) as Hrl. assert (Hfl : length fs' = length files) by (apply (f_equal length) in Efs; by rewrite !length_map in Efs).
  cbn [length] in Hfew. assert (Hlen : 0 ≤ Z.of_nat (length (root_data files)) ≤ 3200) by lia.
  unfold mkfs_end. rewrite (bind_ok _ _ _ _ _ (rinode_ok s V ROOTINO (ms_rep _ _ _ Hd) ltac:(lia))). rewrite Erd, Esz. cbn zeta.
  rewrite (xint_id (Z.of_nat (length (root_data files)))) by lia. fold (root_size files).
  assert (Hrs : 0 ≤ root_size files < 2 ^ 32) by (unfold root_size, BSIZE; zlia). rewrite xint_id by done.
  set (rd' := Dinode _ _ _ _ (root_size files) _).
  assert (Hok' : dinode_ok rd') by (destruct Hok; by split).
  destruct (winode_ok s V ROOTINO rd' (ms_rep _ _ _ Hd) ltac:(lia)) as (s1 & H1 & R1 & Ei1 & Ef1).
  pose proof (mk_data_head s V ((rd, root_data files) :: fs') 0 rd rd' (root_data files) Hd eq_refl) as Hd0.
  cbn [insert list_insert] in Hd0.
  pose proof (inode_view_data s s1 V ROOTINO rd' _ Hd0 ltac:(lia) R1 Ef1) as Hd1. mstep H1. rewrite bind_gets.
  assert (Efb : m_freeblock s1 = nmeta + blocks_needed files) by (rewrite Ef1, (ms_count _ _ _ Hd), Htot; done). rewrite Efb.
  unfold mk_balloc. rewrite decide_False by (unfold BSIZE; lia).
  set (bm := foldl set_bit zeroes (seqZ 0 (nmeta + blocks_needed files))). change (sb_bmapstart mkfs_sb) with 58.
  destruct (wsect_ok s1 _ 58 bm R1 ltac:(lia)) as (s2 & H2 & R2 & Ei2 & Ef2).
  pose proof (iblock_range ROOTINO ltac:(lia)) as Hib.
  assert (Hinode : ∀ j, 0 ≤ j < NINODES → disk_inode mkfs_sb (fupd (inode_view V ROOTINO rd') 58 bm) j =
    if decide (j = ROOTINO) then rd' else disk_inode mkfs_sb V j).
  { intros j Hj. rewrite <- inode_view_get by (try done; try lia; apply Hd). unfold disk_inode at 1.
    rewrite fupd_ne; [done|]. pose proof (iblock_range j Hj). lia. }
  exists (fupd (inode_view V ROOTINO rd') 58 bm), s2, rd, fs'. split_and!; try done.
  - rewrite <- Efb. eapply blocks_inv_meta; [apply Hd1| |].
    + intros b Hb. rewrite fupd_ne by lia. done.
    + intros b Hb. destruct (decide (b = 58)) as [->|]; [rewrite fupd_eq|rewrite fupd_ne by done; by apply Hd1].
      unfold bm. generalize (seqZ 0 (nmeta + blocks_needed files)) as l. intros l. change 512%nat with (length zeroes).
      generalize zeroes as z. induction l as [|c l IH]; intros z; [done|]. simpl. rewrite IH. apply set_bit_length.
  - intros b Hb. rewrite fupd_ne by lia. unfold inode_view. rewrite fupd_ne by lia. apply Hz; lia.
  - rewrite Hinode by lia. done.
  - intros i f Hi. pose proof (lookup_lt_Some _ _ _ Hi) as Hlt. rewrite Hinode by lia. rewrite decide_False by lia.
    replace (Z.of_nat i + 2) with (Z.of_nat (S i) + 1) by lia. by apply (Hin (S i)).
Qed.

(** The data of file [i], as its blocks hold it. *)
Lemma whole_file V fb fs i f :
  blocks_inv V fb fs → fs !! i = Some f →
  ∀ j, (j < length f.2)%nat → daddr V f.1 j ≠ 0 ∧ f.2 !! j = V (daddr V f.1 j) !! Z.to_nat (Z.of_nat j mod BSIZE).
Proof. intros B Hf j Hj. split; [by apply (bi_alloc _ _ _ B i)|by apply (bi_data _ _ _ B i)]. Qed.

(** The root directory up to the end of its last block. *)
Lemma padded_root V fb fs rd files :
  blocks_inv V fb ((rd, root_data files) :: fs) →
  ∀ j, (j < length (root_padded files))%nat →
    daddr V rd j ≠ 0 ∧ root_padded files !! j = V (daddr V rd j) !! Z.to_nat (Z.of_nat j mod BSIZE).
Proof.
  intros B. pose proof (whole_file V fb _ 0 (rd, root_data files) B eq_refl) as Hw. cbn [fst snd] in Hw.
  unfold root_padded. destruct (decide _) as [|Hm]; [done|]. rewrite length_resize. intros j Hj.
  set (n := length (root_data files)) in *. unfold root_size in *. fold n in Hj |- *.
  destruct (decide (j < n)%nat) as [Hlt|Hge].
  - rewrite lookup_resize by (done || (unfold BSIZE in *; zlia)). by apply Hw.
  - assert (Hn0 : (0 < n)%nat) by (unfold n; rewrite root_data_length; lia).
    assert (Hd : daddr V rd j = daddr V rd (n - 1)).
    { unfold daddr. do 2 f_equal. replace (Z.of_nat (n - 1)) with (Z.of_nat n - 1) by lia. unfold BSIZE in *. zlia. }
    assert (Hnz : daddr V rd j ≠ 0) by (rewrite Hd; apply Hw; lia).
    split; [done|]. rewrite lookup_resize_new by (done || lia).
    symmetry. by apply (bi_zero _ _ _ B 0%nat (rd, root_data files) j eq_refl); [cbn [snd]; fold n; lia|].
Qed.

Lemma root_padded_length files :
  Z.of_nat (length files) + 1 < NINODES → Z.of_nat (length (root_padded files)) ≤ MAXFILE * BSIZE.
Proof.
  intros Hn. pose proof (root_data_length files). change (MAXFILE * BSIZE) with 71680. unfold root_padded.
  destruct (decide _); [lia|]. rewrite length_resize. unfold root_size, BSIZE. zlia.
Qed.

(** A block that belongs to inode [inum]. *)
Definition owned_by (V : Z → list Z) (inum c : Z) : Prop :=
  c ≠ 0 ∧ ∃ s, c = dptr V (disk_inode mkfs_sb V inum) s.


#[global] Instance host_ok_dec f : Decision (host_ok f).
Proof. unfold host_ok. apply _. Defined.

Definition demo_files : list host_file :=
  [([95; 99; 97; 116], [replicate 512 7; replicate 100 8]); ([97], []); ([98; 99], [[1; 2; 3]])].
Definition demo_mkfs_log : log := Log 2 30 0 false 1 0 (replicate 30 0).


(** With thirty files, whose entries together with the two first ones fill a block, the
    root directory is given a second block that does not exist. *)
Example root_hole :
  match mkfs (replicate 30 ([97], [])) with
  | (Ok _, s) =>
      let di := disk_inode mkfs_sb (view (m_img s)) ROOTINO in
      di_size di = 1024 ∧ nth 0 (di_addrs di) 0 ≠ 0 ∧ nth 1 (di_addrs di) 0 = 0
  | _ => False
  end.
Proof. vm_compute. split_and!; congruence. Qed.
