(* ===== verification/Ring.v ===== *)
(** * Ring buffers

    The pipe and the console input keep bytes in an array of [N] places addressed
    by counters modulo [N]; the counters themselves wrap at 2^32, which [N]
    divides.  [ring N buf r q]: from counter [r] on, the array holds [q]. *)

From S2P Require Import Prelude.

Record ring (N : Z) (buf : list Z) (r : Z) (q : list Z) : Prop := {
  rg_len : Z.of_nat (length buf) = N;
  rg_max : Z.of_nat (length q) ≤ N;
  rg_data : ∀ i, (i < length q)%nat → q !! i = buf !! Z.to_nat ((r + Z.of_nat i) mod N) }.

Section ring.
Context (N : Z) (Npos : 0 < N) (Ndiv : (N | 2 ^ 32)).
Implicit Types (buf q : list Z).

Lemma u32_mod_ring x : u32 x mod N = x mod N.
Proof. destruct Ndiv as [d Hd]. unfold u32. rewrite Hd, (Z.mul_comm d N), Z.rem_mul_r by nia. rewrite (Z.mul_comm N), Z.mod_add, Z.mod_mod by lia. done. Qed.

Lemma mod_shift a i : 0 ≤ i < N → i ≠ 0 → (a + i) mod N ≠ a mod N.
Proof.
  intros Hi Hne E. assert ((a + i - a) mod N = 0) as Hz
    by (by rewrite Zminus_mod, E, Z.sub_diag, Z.mod_0_l by lia).
  replace (a + i - a) with i in Hz by lia. rewrite Z.mod_small in Hz by lia. lia.
Qed.

Lemma ring_counter buf r r' q : r mod N = r' mod N → ring N buf r q → ring N buf r' q.
Proof.
  intros E [L M D]. split; try done. intros i Hi. rewrite D by done.
  by rewrite <- (Z.add_mod_idemp_l r), E, Z.add_mod_idemp_l by lia.
Qed.

(** Append at the counter [e]. *)
Lemma ring_put buf r q e c :
  ring N buf r q → Z.of_nat (length q) < N → e = u32 (r + Z.of_nat (length q)) →
  ring N (<[Z.to_nat (e mod N) := c]> buf) r (q ++ [c]).
Proof.
  intros [L M D] Hl ->. rewrite u32_mod_ring.
  pose proof (Z.mod_pos_bound (r + Z.of_nat (length q)) N Npos) as Hb.
  split; [by rewrite length_insert|rewrite length_app; simpl; lia|].
  intros i Hi. rewrite length_app in Hi. simpl in Hi. destruct (decide (i = length q)) as [->|Hne].
  - rewrite list_lookup_insert_eq by lia. by rewrite lookup_app_r, Nat.sub_diag by lia.
  - rewrite lookup_app_l, D by lia. rewrite list_lookup_insert_ne; [done|]. intros E.
    apply (mod_shift (r + Z.of_nat i) (Z.of_nat (length q) - Z.of_nat i)); [lia..|].
    replace (r + Z.of_nat i + (Z.of_nat (length q) - Z.of_nat i)) with (r + Z.of_nat (length q)) by lia.
    pose proof (Z.mod_pos_bound (r + Z.of_nat i) N Npos). lia.
Qed.

(** Take the first one. *)
Lemma ring_pop buf r c q :
  ring N buf r (c :: q) → nth (Z.to_nat (r mod N)) buf 0 = c ∧ ring N buf (u32 (r + 1)) q.
Proof.
  intros [L M D]. split.
  - specialize (D O ltac:(simpl; lia)). simpl in D. rewrite Z.add_0_r in D. symmetry in D. by apply nth_lookup_Some.
  - apply (ring_counter _ (r + 1)); [by rewrite u32_mod_ring|]. split; [done|simpl in M; lia|].
    intros i Hi. specialize (D (S i) ltac:(simpl; lia)). simpl in D. rewrite D. do 3 f_equal. lia.
Qed.

(** Forget the last one. *)
Lemma ring_unput buf r q c :
  ring N buf r (q ++ [c]) → nth (Z.to_nat ((r + Z.of_nat (length q)) mod N)) buf 0 = c ∧ ring N buf r q.
Proof.
  intros [L M D]. rewrite length_app in *. simpl in *. split.
  - specialize (D (length q) ltac:(lia)). rewrite lookup_app_r, Nat.sub_diag in D by lia. symmetry in D.
    by apply nth_lookup_Some.
  - split; [done|lia|]. intros i Hi. rewrite <- D by lia. by rewrite lookup_app_l by lia.
Qed.
End ring.
