(* ===== verification/Pipe.v ===== *)
(** * Pipes (pipe.c)

    A pipe is a ring buffer of [PIPESIZE] bytes in a page of its own, with the
    numbers of bytes read and written as unsigned counters that wrap around.  The
    routines sleep inside their loops; [pipewrite_loop] and [piperead_wait] are
    where a process continues after it has been woken ([pipewrite_resume],
    [piperead_resume]).  The bytes written come as a list, the bytes read go out
    as a list. *)

From S2P Require Import Prelude Ring Memory State Spinlock Sched Kalloc Sleeplock.

Definition PIPESIZE : Z := 512.

(** The pipe structure in the page [p]; a page that has been freed holds none. *)
Definition the_pipe (p : Z) : K pipe := λ k,
  match k_pipes k !! p with Some x => (Ok x, k) | None => wild k end.
Definition upd_pipe (p : Z) (f : pipe → pipe) : K unit := modify (λ k, k <| k_pipes ::= alter f p |>).

Definition my_killed : K bool := p ← curproc; pr ← the_proc p; mret (p_killed pr).

Definition pipeclose (p : Z) (writable : bool) : K unit :=
  acquire (L_pipe p);;
  (if writable
   then upd_pipe p (λ x, x <| pi_writeopen := false |>);; wakeup (C_nread p)
   else upd_pipe p (λ x, x <| pi_readopen := false |>);; wakeup (C_nwrite p));;
  x ← the_pipe p;
  if negb (pi_readopen x) && negb (pi_writeopen x) then
    release (L_pipe p);;
    kfree p;;
    modify (λ k, k <| k_pipes ::= delete p |>)
  else release (L_pipe p).

(** p->data[p->nwrite++ % PIPESIZE] = c, and the byte at p->nread++. *)
Definition pipe_put (c : Z) (x : pipe) : pipe :=
  x <| pi_data ::= <[Z.to_nat (pi_nwrite x mod PIPESIZE) := c]> |> <| pi_nwrite := u32 (pi_nwrite x + 1) |>.
Definition pipe_peek (x : pipe) : Z := nth (Z.to_nat (pi_nread x mod PIPESIZE)) (pi_data x) 0.
Definition pipe_skip (x : pipe) : pipe := x <| pi_nread := u32 (pi_nread x + 1) |>.

(** The loop of [pipewrite] with the bytes [bs] still to write, of [n] in all. *)
Fixpoint pipewrite_loop (p : Z) (n : Z) (bs : list Z) : K Z :=
  match bs with
  | [] =>
      wakeup (C_nread p);;
      release (L_pipe p);;
      mret n
  | c :: bs' =>
      x ← the_pipe p;
      if decide (pi_nwrite x = u32 (pi_nread x + PIPESIZE)) then
        killed ← (if negb (pi_readopen x) then mret true else my_killed);
        if (killed : bool) then release (L_pipe p);; mret (-1) else
        wakeup (C_nread p);;
        sleep (C_nwrite p) (L_pipe p);;
        mret 0
      else
        upd_pipe p (pipe_put c);;
        pipewrite_loop p n bs'
  end.
Definition pipewrite (p : Z) (bs : list Z) (n : Z) : K Z :=
  acquire (L_pipe p);;
  pipewrite_loop p n (take (Z.to_nat n) bs).
Definition pipewrite_resume (p : Z) (n : Z) (bs : list Z) (intena : bool) : K Z :=
  sleep_return (L_pipe p) intena;;
  pipewrite_loop p n bs.

(** The copy loop of [piperead], with [n] bytes still wanted. *)
Fixpoint piperead_copy (p : Z) (n : nat) (acc : list Z) : K (list Z) :=
  match n with
  | O => mret acc
  | S n' =>
      x ← the_pipe p;
      if decide (pi_nread x = pi_nwrite x) then mret acc else
      upd_pipe p pipe_skip;;
      piperead_copy p n' (acc ++ [pipe_peek x])
  end.
Definition piperead_wait (p : Z) (n : Z) : K (Z * list Z) :=
  x ← the_pipe p;
  if bool_decide (pi_nread x = pi_nwrite x) && pi_writeopen x then
    killed ← my_killed;
    if (killed : bool) then release (L_pipe p);; mret (-1, []) else
    sleep (C_nread p) (L_pipe p);;
    mret (0, [])
  else
    bs ← piperead_copy p (Z.to_nat n) [];
    wakeup (C_nwrite p);;
    release (L_pipe p);;
    mret (Z.of_nat (length bs), bs).
Definition piperead (p : Z) (n : Z) : K (Z * list Z) :=
  acquire (L_pipe p);;
  piperead_wait p n.
Definition piperead_resume (p : Z) (n : Z) (intena : bool) : K (Z * list Z) :=
  sleep_return (L_pipe p) intena;;
  piperead_wait p n.

(** ** The ring buffer as a queue *)

Record pipe_rep (x : pipe) (q : list Z) : Prop := {
  pr_ring : ring PIPESIZE (pi_data x) (pi_nread x) q;
  pr_read : 0 ≤ pi_nread x < 2 ^ 32;
  pr_count : pi_nwrite x = u32 (pi_nread x + Z.of_nat (length q)) }.

Lemma pipesize_div : (PIPESIZE | 2 ^ 32).
Proof. by exists (2 ^ 23). Qed.

Lemma pr_max x q : pipe_rep x q → (length q ≤ 512)%nat.
Proof. intros [[_ M _] _ _]. unfold PIPESIZE in M. lia. Qed.

Lemma pipe_full x q : pipe_rep x q → (pi_nwrite x = u32 (pi_nread x + PIPESIZE) ↔ length q = 512%nat).
Proof.
  intros R. pose proof (pr_max _ _ R). destruct R as [_ R C]. rewrite C. unfold PIPESIZE. split; [|by intros ->].
  intros E. zlia.
Qed.

Lemma pipe_empty x q : pipe_rep x q → (pi_nread x = pi_nwrite x ↔ q = []).
Proof.
  intros R. pose proof (pr_max _ _ R). destruct R as [_ R C]. rewrite C. split.
  - intros E. destruct q as [|c q]; [done|]. exfalso. cbn [length] in *. unfold u32 in E. zwidth. Z.div_mod_to_equations. lia.
  - intros ->. rewrite Z.add_0_r, u32_small; done.
Qed.

Lemma pipe_put_rep x q c :
  pipe_rep x q → (length q < 512)%nat → pipe_rep (pipe_put c x) (q ++ [c]).
Proof.
  intros [D R C] Hl. unfold pipe_put, upd. split; simpl; [|done|].
  - by apply ring_put; [|apply pipesize_div| |unfold PIPESIZE; lia|].
  - rewrite C, u32_add_l, length_app. f_equal. simpl. lia.
Qed.

Lemma pipe_skip_rep x c q :
  pipe_rep x (c :: q) → pipe_peek x = c ∧ pipe_rep (pipe_skip x) q.
Proof.
  intros [D R C]. destruct (ring_pop PIPESIZE ltac:(done) pipesize_div _ _ _ _ D) as [Ec D']. split; [done|].
  unfold pipe_skip, upd. split; simpl; [done|apply u32_range|].
  rewrite C, u32_add_l. f_equal. simpl length. lia.
Qed.

(** ** The routines *)

Lemma alter_insert_some (m : gmap Z pipe) p x f : m !! p = Some x → alter f p m = <[p := f x]> m.
Proof.
  intros Hx. apply map_eq. intros j. destruct (decide (j = p)) as [->|Hne].
  - by rewrite lookup_alter_eq, lookup_insert_eq, Hx.
  - by rewrite lookup_alter_ne, lookup_insert_ne.
Qed.

(** The kernel with the pipe [x] at [p]. *)
Definition with_pipe (p : Z) (x : pipe) (k : kernel) : kernel := k <| k_pipes ::= <[p := x]> |>.

Section pipes.
Context (p pid : Z).
Notation lk := (L_pipe p).

Lemma with_pipe_ctx x k : ctx k pid → ctx (with_pipe p x k) pid.
Proof. intros Hx. by eapply (ctx_ext k). Qed.

Lemma the_pipe_spec c x k : the_pipe p (locked lk c (with_pipe p x k)) = (Ok x, locked lk c (with_pipe p x k)).
Proof. unfold the_pipe, with_pipe, upd. simpl. by rewrite lookup_insert_eq. Qed.

Lemma upd_pipe_spec c x k f :
  upd_pipe p f (locked lk c (with_pipe p x k)) = (Ok tt, locked lk c (with_pipe p (f x) k)).
Proof.
  unfold upd_pipe, modify, with_pipe, locked, upd. simpl. do 3 f_equal.
  by rewrite (alter_insert_some _ p x), insert_insert_eq by apply lookup_insert_eq.
Qed.

(** Wake the sleepers of a channel and leave. *)
Lemma wake_release {A} ch c cp k (a : A) :
  ctx k pid → cpu_at k c cp → c_ncli cp = 0 →
  (wakeup ch;; release lk;; mret a) (locked lk c k) = (Ok a, k <| k_procs ::= map (wake ch) |>).
Proof.
  intros Hx Hc Hz. mstep (wakeup_locked lk ch k pid c cp Hx Hc Hz ltac:(done)).
  erewrite bind_ok; [done|]. eapply release_spec; [eapply (cpu_at_ext k); [done|done|exact Hc]|by rewrite Hz|].
  by eapply ctx_free, (ctx_wake ch k).
Qed.

Lemma pipewrite_loop_fits c cp k x q n bs :
  ctx k pid → cpu_at k c cp → c_ncli cp = 0 → pipe_rep x q → (length q + length bs ≤ 512)%nat →
  ∃ x', pipewrite_loop p n bs (locked lk c (with_pipe p x k)) =
          (Ok n, with_pipe p x' k <| k_procs ::= map (wake (C_nread p)) |>) ∧
        pipe_rep x' (q ++ bs) ∧ pi_readopen x' = pi_readopen x ∧ pi_writeopen x' = pi_writeopen x.
Proof.
  intros Hx Hc Hz. revert x q. induction bs as [|b bs IH]; intros x q R Hl; cbn [pipewrite_loop].
  - exists x. rewrite app_nil_r. split; [|done]. eapply wake_release; [by apply with_pipe_ctx| |done].
    by eapply (cpu_at_ext k).
  - mstep (the_pipe_spec c x k). rewrite decide_False by (rewrite (pipe_full x q R); simpl in Hl; lia).
    mstep (upd_pipe_spec c x k (pipe_put b)).
    destruct (IH (pipe_put b x) (q ++ [b])) as (x' & E & R' & O1 & O2).
    + apply pipe_put_rep; [done|]. simpl in Hl. lia.
    + rewrite length_app. simpl in *. lia.
    + exists x'. rewrite <- app_assoc in R'. done.
Qed.

Lemma my_killed_spec c cp k x pr i :
  ctx k pid → cpu_at k c cp → c_ncli cp = 0 → c_proc cp = Some i → k_procs k !! i = Some pr →
  my_killed (locked lk c (with_pipe p x k)) = (Ok (p_killed pr), locked lk c (with_pipe p x k)).
Proof.
  intros Hx Hc Hz Hp Hpr. assert (cpu_at (with_pipe p x k) c cp) as Hcw by (by eapply (cpu_at_ext k)).
  assert (cpu_at (locked lk c (with_pipe p x k)) c (pushed cp)) as Hl by (apply locked_at; [done|lia]).
  unfold my_killed, curproc. rewrite bind_assoc. mstep (myproc_spec _ _ _ Hl ltac:(simpl; lia)).
  change (c_proc (pushed cp)) with (c_proc cp). rewrite Hp, bind_ret.
  erewrite bind_ok; [done|]. by apply at_index_ok.
Qed.

(** The sleeping state of process [i]. *)
Definition asleep (ch : chan) (x : proc) : proc := x <| p_chan := Some ch |> <| p_state := SLEEPING |>.

(** A writer that finds the pipe full after a prefix of its bytes. *)
Lemma pipewrite_loop_full c cp k x q n bs i pr :
  ctx k pid → cpu_at k c cp → c_ncli cp = 0 → c_proc cp = Some i → k_procs k !! i = Some pr →
  p_killed pr = false → pipe_rep x q → pi_readopen x = true → (512 < length q + length bs)%nat →
  ∃ x' k', pipewrite_loop p n bs (locked lk c (with_pipe p x k)) = (Stop Swtch, k') ∧
    k_pipes k' = <[p := x']> (k_pipes k) ∧ pipe_rep x' (q ++ take (512 - length q) bs) ∧
    k_procs k' = alter (asleep (C_nwrite p)) i (map (wake (C_nread p)) (k_procs k)).
Proof.
  intros Hx Hc Hz Hp Hpr Hk. revert x q. induction bs as [|b bs IH]; intros x q R Hro Hl.
  { pose proof (pr_max _ _ R). simpl in Hl. lia. }
  cbn [pipewrite_loop]. mstep (the_pipe_spec c x k). case_decide as Hf.
  - rewrite (pipe_full x q R) in Hf. rewrite Hro. cbn [negb].
    mstep (my_killed_spec _ _ _ x _ _ Hx Hc Hz Hp Hpr). rewrite Hk.
    set (k1 := with_pipe p x k). assert (ctx k1 pid) as Hx1 by (by apply with_pipe_ctx).
    assert (cpu_at k1 c cp) as Hc1 by (by eapply (cpu_at_ext k)).
    mstep (wakeup_locked lk (C_nread p) k1 pid c cp Hx1 Hc1 Hz ltac:(done)).
    erewrite bind_stop; [|eapply (sleep_spec (C_nwrite p) lk _ c cp i)]; try done.
    + exists x. eexists. split; [reflexivity|]. split; [done|]. split; [|done].
      replace (512 - length q)%nat with O by lia. by rewrite take_0, app_nil_r.
    + by eapply (cpu_at_ext k1).
    + simpl. rewrite length_map. by apply lookup_lt_Some in Hpr.
    + by eapply ctx_free, (ctx_wake (C_nread p) k1).
    + by eapply ctx_free, (ctx_wake (C_nread p) k1).
  - rewrite (pipe_full x q R) in Hf. pose proof (pr_max _ _ R). mstep (upd_pipe_spec c x k (pipe_put b)).
    destruct (IH (pipe_put b x) (q ++ [b])) as (x' & k' & E & E1 & R' & E2).
    + apply pipe_put_rep; [done|lia].
    + done.
    + rewrite length_app. simpl in *. lia.
    + exists x', k'. split_and!; try done. rewrite length_app, <- app_assoc in R'. simpl in R'.
      replace (512 - length q)%nat with (S (512 - (length q + 1))) by lia. done.
Qed.

Lemma piperead_copy_spec c k x q n acc :
  pipe_rep x q →
  ∃ x', piperead_copy p n acc (locked lk c (with_pipe p x k)) =
          (Ok (acc ++ take n q), locked lk c (with_pipe p x' k)) ∧
        pipe_rep x' (drop n q) ∧ pi_readopen x' = pi_readopen x ∧ pi_writeopen x' = pi_writeopen x.
Proof.
  revert x q acc. induction n as [|n IH]; intros x q acc R; cbn [piperead_copy].
  { exists x. by rewrite take_0, app_nil_r, drop_0. }
  mstep (the_pipe_spec c x k). destruct q as [|b q].
  - rewrite decide_True by (by apply (pipe_empty x [] R)). exists x. by rewrite take_nil, app_nil_r.
  - rewrite decide_False by (by rewrite (pipe_empty x _ R)). mstep (upd_pipe_spec c x k pipe_skip).
    destruct (pipe_skip_rep x b q R) as [-> R']. destruct (IH (pipe_skip x) q (acc ++ [b]) R') as (x' & E & R'' & O).
    exists x'. rewrite <- app_assoc in E. done.
Qed.

Lemma with_pipe_same k x : k_pipes k !! p = Some x → with_pipe p x k = k.
Proof. intros Hx. unfold with_pipe, upd. rewrite insert_id by done. by destruct k. Qed.

Lemma piperead_spec k x q n :
  ctx k pid → k_pipes k !! p = Some x → pipe_rep x q → 0 ≤ n → q ≠ [] ∨ pi_writeopen x = false →
  ∃ x', piperead p n k =
          (Ok (Z.of_nat (length (take (Z.to_nat n) q)), take (Z.to_nat n) q),
           with_pipe p x' k <| k_procs ::= map (wake (C_nwrite p)) |>) ∧
        pipe_rep x' (drop (Z.to_nat n) q) ∧ pi_readopen x' = pi_readopen x ∧ pi_writeopen x' = pi_writeopen x.
Proof.
  intros Hx Hp R Hn Hq. destruct (ctx_cpu _ _ Hx) as (c & cp & Hc & Hz). unfold piperead, piperead_wait.
  mstep (acquire_spec lk k c cp Hc ltac:(lia) (ctx_free _ _ _ Hx)).
  pose proof (the_pipe_spec c x k) as Et. rewrite (with_pipe_same k x Hp) in Et. mstep Et.
  assert (bool_decide (pi_nread x = pi_nwrite x) && pi_writeopen x = false) as ->.
  { destruct Hq as [Hq|Hq]; [|rewrite Hq; by rewrite andb_false_r].
    rewrite bool_decide_false; [done|]. by rewrite (pipe_empty x q R). }
  destruct (piperead_copy_spec c k x q (Z.to_nat n) [] R) as (x' & E & R' & O).
  rewrite (with_pipe_same k x Hp) in E. mstep E. exists x'. split; [|done].
  rewrite app_nil_l. eapply wake_release; [by apply with_pipe_ctx| |done]. by eapply (cpu_at_ext k).
Qed.

Lemma pipewrite_spec k x q bs :
  ctx k pid → k_pipes k !! p = Some x → pipe_rep x q → (length q + length bs ≤ 512)%nat →
  ∃ x', pipewrite p bs (Z.of_nat (length bs)) k =
          (Ok (Z.of_nat (length bs)), with_pipe p x' k <| k_procs ::= map (wake (C_nread p)) |>) ∧
        pipe_rep x' (q ++ bs) ∧ pi_readopen x' = pi_readopen x ∧ pi_writeopen x' = pi_writeopen x.
Proof.
  intros Hx Hp R Hl. destruct (ctx_cpu _ _ Hx) as (c & cp & Hc & Hz). unfold pipewrite.
  mstep (acquire_spec lk k c cp Hc ltac:(lia) (ctx_free _ _ _ Hx)).
  rewrite Nat2Z.id, take_ge by done.
  pose proof (pipewrite_loop_fits c cp k x q (Z.of_nat (length bs)) bs Hx Hc Hz R Hl) as W.
  by rewrite (with_pipe_same k x Hp) in W.
Qed.
End pipes.

(** ** A pipe is a queue *)

Inductive pop := P_write (bs : list Z) | P_read (n : Z).

Definition pop_abs (o : pop) (q : list Z) : option (Z * list Z * list Z) :=
  match o with
  | P_write bs =>
      if decide (length q + length bs ≤ 512)%nat then Some (Z.of_nat (length bs), [], q ++ bs) else None
  | P_read n =>
      if decide (0 ≤ n ∧ q ≠ [])
      then Some (Z.of_nat (length (take (Z.to_nat n) q)), take (Z.to_nat n) q, drop (Z.to_nat n) q)
      else None
  end.
Fixpoint pops_abs (os : list pop) (q : list Z) : option (list (Z * list Z) * list Z) :=
  match os with
  | [] => Some ([], q)
  | o :: os' =>
      '(r, bs, q1) ← pop_abs o q;
      '(rs, q2) ← pops_abs os' q1;
      Some ((r, bs) :: rs, q2)
  end.
Definition pop_run (p : Z) (o : pop) : K (Z * list Z) :=
  match o with
  | P_write bs => r ← pipewrite p bs (Z.of_nat (length bs)); mret (r, [])
  | P_read n => piperead p n
  end.
Fixpoint pops_run (p : Z) (os : list pop) : K (list (Z * list Z)) :=
  match os with
  | [] => mret []
  | o :: os' => r ← pop_run p o; rs ← pops_run p os'; mret (r :: rs)
  end.

(** The pipe at [p] holds [q], and process [pid] runs. *)
Definition pipe_holds (p pid : Z) (k : kernel) (q : list Z) : Prop :=
  ctx k pid ∧ ∃ x, k_pipes k !! p = Some x ∧ pipe_rep x q ∧ pi_readopen x = true ∧ pi_writeopen x = true.

Lemma pipe_holds_step p pid k x q ch :
  ctx k pid → pipe_rep x q → pi_readopen x = true → pi_writeopen x = true →
  pipe_holds p pid (with_pipe p x k <| k_procs ::= map (wake ch) |>) q.
Proof.
  intros Hx R O1 O2. split; [by eapply (ctx_wake ch k)|]. exists x. split; [|done].
  unfold with_pipe, upd. simpl. by rewrite lookup_insert_eq.
Qed.

Lemma pop_refines p pid o k q r bs q' :
  pipe_holds p pid k q → pop_abs o q = Some (r, bs, q') →
  ∃ k', pop_run p o k = (Ok (r, bs), k') ∧ pipe_holds p pid k' q'.
Proof.
  intros (Hx & x & Hp & R & O1 & O2) Ha. destruct o as [ws|n]; simpl in Ha; case_decide as Hd; [|done| |done];
    injection Ha as <- <- <-.
  - destruct (pipewrite_spec p pid k x q ws Hx Hp R Hd) as (x' & E & R' & O1' & O2'). eexists. unfold pop_run.
    mstep E. split; [done|]. apply pipe_holds_step; congruence.
  - destruct Hd as [Hn Hq]. destruct (piperead_spec p pid k x q n Hx Hp R Hn (or_introl Hq)) as (x' & E & R' & O1' & O2').
    eexists. split; [exact E|]. apply pipe_holds_step; congruence.
Qed.

(** C8: any sequence of writes and reads that do not have to wait, on a pipe
    whose counters may wrap around, behaves as on a queue of at most [PIPESIZE]
    bytes: each write appends its bytes, each read takes as many as it can from the
    front, and the return values are the numbers of bytes moved. *)
Theorem pipe_refines p pid os k q rs q' :
  pipe_holds p pid k q → pops_abs os q = Some (rs, q') →
  ∃ k', pops_run p os k = (Ok rs, k') ∧ pipe_holds p pid k' q'.
Proof.
  revert k q rs. induction os as [|o os IH]; intros k q rs Hh Ha; simpl in Ha.
  { injection Ha as <- <-. by exists k. }
  destruct (pop_abs o q) as [[[r bs] q1]|] eqn:E1; [|done]. simpl in Ha.
  destruct (pops_abs os q1) as [[rs1 q2]|] eqn:E2; [|done]. injection Ha as <- <-.
  destruct (pop_refines _ _ _ _ _ _ _ _ Hh E1) as (k1 & R1 & Hh1). destruct (IH _ _ _ Hh1 E2) as (k2 & R2 & Hh2).
  exists k2. split; [|done]. cbn [pops_run]. mstep R1. by mstep R2.
Qed.

(** A pipe whose counters are about to wrap. *)
Definition demo_pipe : pipe := Pipe (replicate 512 0) (2 ^ 32 - 1) (2 ^ 32 - 1) true true.
Definition demo_pipe_state : kernel :=
  boot img0 [cpu0 <| c_proc := Some O |>] (λ _, 0) []
    <| k_procs ::= <[O := proc0 <| p_pid := 1 |> <| p_state := RUNNING |>]> |>
    <| k_pipes := {[ 4096 := demo_pipe ]} |>.

Lemma demo_pipe_rep : pipe_rep demo_pipe [].
Proof. split; [split; [reflexivity|by vm_compute|intros i Hi; simpl in Hi; lia]|simpl; lia|reflexivity]. Qed.

Lemma demo_pipe_ctx : ctx demo_pipe_state 1.
Proof.
  split; [done|done|]. exists O, (cpu0 <| c_proc := Some O |>), O, (proc0 <| p_pid := 1 |> <| p_state := RUNNING |>).
  split_and!; [|done..]. split; try done; simpl; lia.
Qed.

Lemma pipe_refines_witness :
  ∃ k', pops_run 4096 [P_write [1; 2; 3]; P_read 2; P_write [4]; P_read 9] demo_pipe_state =
    (Ok [(3, []); (2, [1; 2]); (1, []); (2, [3; 4])], k') ∧ pipe_holds 4096 1 k' [].
Proof.
  apply (pipe_refines 4096 1 _ _ []).
  - split; [apply demo_pipe_ctx|]. exists demo_pipe. split; [done|]. split; [|done]. apply demo_pipe_rep.
  - reflexivity.
Defined.

(** A writer whose bytes do not fit puts as many as fit into the pipe,
    in order, wakes the readers and goes to sleep on [nwrite]; no byte is lost or
    written over. *)
Theorem pipewrite_blocks p pid k x q n bs i pr cp c :
  ctx k pid → cpu_at k c cp → c_proc cp = Some i → c_ncli cp = 0 → k_procs k !! i = Some pr → p_killed pr = false →
  k_pipes k !! p = Some x → pipe_rep x q → pi_readopen x = true → n = Z.of_nat (length bs) →
  (512 < length q + length bs)%nat →
  ∃ x' k', pipewrite p bs n k = (Stop Swtch, k') ∧ k_pipes k' !! p = Some x' ∧
    pipe_rep x' (q ++ take (512 - length q) bs) ∧
    k_procs k' = alter (asleep (C_nwrite p)) i (map (wake (C_nread p)) (k_procs k)).
Proof.
  intros Hx Hc Hp Hz Hpr Hk Hpi R Hro -> Hl. unfold pipewrite.
  mstep (acquire_spec (L_pipe p) k c cp Hc ltac:(lia) (ctx_free _ _ _ Hx)). rewrite Nat2Z.id, take_ge by done.
  destruct (pipewrite_loop_full p pid c cp k x q (Z.of_nat (length bs)) bs i pr) as (x' & k' & E & E1 & R' & E2); try done.
  rewrite (with_pipe_same p k x Hpi) in E. exists x', k'. split_and!; try done. by rewrite E1, lookup_insert_eq.
Qed.

Lemma pipewrite_blocks_witness :
  ∃ x' k', pipewrite 4096 (replicate 600 7) 600 demo_pipe_state = (Stop Swtch, k') ∧ k_pipes k' !! 4096 = Some x' ∧
    pipe_rep x' (take 512 (replicate 600 7)).
Proof.
  destruct (pipewrite_blocks 4096 1 demo_pipe_state demo_pipe [] 600 (replicate 600 7) 0
    (proc0 <| p_pid := 1 |> <| p_state := RUNNING |>) (cpu0 <| c_proc := Some O |>) 0) as (x' & k' & E1 & E2 & E3 & _).
  - apply demo_pipe_ctx.
  - split; try done; simpl; lia.
  - reflexivity.
  - reflexivity.
  - reflexivity.
  - reflexivity.
  - reflexivity.
  - apply demo_pipe_rep.
  - reflexivity.
  - by rewrite length_replicate.
  - rewrite length_replicate. simpl. lia.
  - exists x', k'. split; [exact E1|]. split; [exact E2|exact E3].
Defined.
#[global] Opaque pipewrite piperead.
