(* ===== verification/File.v ===== *)
(** * The file table (file.c) and the creation of pipes (pipe.c: pipealloc)

    An open file is an entry of the file table with a reference count.  Reading
    returns the bytes with the result, writing takes them, as in [readi] and
    [writei]. *)

From S2P Require Import Prelude Memory Strings State Spinlock Sched Kalloc Sleeplock BufList Bio Log Fs Pipe.

Definition fileinit : K unit := initlock L_ftable.

(** The scan of [filealloc]. *)
Fixpoint free_file (l : list file) (i : nat) : option nat :=
  match l with
  | [] => None
  | f :: l' => if decide (f_ref f = 0) then Some i else free_file l' (S i)
  end.
Definition filealloc : K (option nat) :=
  acquire L_ftable;;
  l ← gets k_ftable;
  match free_file l 0 with
  | Some i =>
      upd_file i (λ f, f <| f_ref := 1 |>);;
      release L_ftable;;
      mret (Some i)
  | None => release L_ftable;; mret None
  end.

Definition filedup (i : nat) : K nat :=
  acquire L_ftable;;
  f ← the_file i;
  if decide (f_ref f < 1) then panic "filedup" else
  upd_file i (λ f, f <| f_ref ::= λ n, n + 1 |>);;
  release L_ftable;;
  mret i.

Definition fileclose (i : nat) : K unit :=
  acquire L_ftable;;
  f ← the_file i;
  if decide (f_ref f < 1) then panic "fileclose" else
  upd_file i (λ f, f <| f_ref ::= λ n, n - 1 |>);;
  if decide (f_ref f - 1 > 0) then release L_ftable else
  ff ← the_file i;
  upd_file i (λ f, f <| f_ref := 0 |> <| f_type := FD_NONE |>);;
  release L_ftable;;
  match f_type ff with
  | FD_PIPE => pipeclose (f_pipe ff) (f_writable ff)
  | FD_INODE => begin_op;; iput (f_ip ff);; end_op
  | FD_NONE => mret tt
  end.

Definition filestat (i : nat) : K (option stat) :=
  f ← the_file i;
  match f_type f with
  | FD_INODE =>
      ilock (f_ip f);;
      st ← stati (f_ip f);
      iunlock (f_ip f);;
      mret (Some st)
  | _ => mret None
  end.

(** The entries that [pipealloc] fills in. *)
Definition pipe_end (p : Z) (writable : bool) (f : file) : file :=
  f <| f_type := FD_PIPE |> <| f_readable := negb writable |> <| f_writable := writable |> <| f_pipe := p |>.
(** The exit at the label bad. *)
Definition pipealloc_bad (f0 f1 : option nat) : K (option (nat * nat)) :=
  (match f0 with Some f => fileclose f | None => mret tt end);;
  (match f1 with Some f => fileclose f | None => mret tt end);;
  mret None.
(** The structure in a page that comes from [kalloc]: its [data] is what the page
    holds, which no code reads before it is written. *)
Definition new_pipe (m : mem) (p : Z) : pipe := Pipe (read_bytes m (p + 52) 512) 0 0 true true.
Definition pipealloc : K (option (nat * nat)) :=
  f0 ← filealloc;
  match f0 with
  | None => pipealloc_bad None None
  | Some f0 =>
      f1 ← filealloc;
      match f1 with
      | None => pipealloc_bad (Some f0) None
      | Some f1 =>
          p ← kalloc;
          if decide (p = 0) then pipealloc_bad (Some f0) (Some f1) else
          modify (λ k, k <| k_pipes ::= <[p := new_pipe (k_mem k) p]> |>);;
          initlock (L_pipe p);;
          upd_file f0 (pipe_end p false);;
          upd_file f1 (pipe_end p true);;
          mret (Some (f0, f1))
      end
  end.

Section files.
Context `{DevSw}.

Definition fileread (i : nat) (n : Z) : K (Z * list Z) :=
  f ← the_file i;
  if negb (f_readable f) then mret (-1, []) else
  match f_type f with
  | FD_PIPE => piperead (f_pipe f) n
  | FD_INODE =>
      ilock (f_ip f);;
      '(r, bs) ← readi (f_ip f) (f_off f) (u32 n);
      when (bool_decide (r > 0)) (upd_file i (λ f, f <| f_off ::= λ o, u32 (o + r) |>));;
      iunlock (f_ip f);;
      mret (r, bs)
  | FD_NONE => panic "fileread"
  end.

(** The number of bytes of one transaction. *)
Definition max_write : Z := (MAXOPBLOCKS - 1 - 1 - 2) / 2 * 512.

(** One iteration of the loop of [filewrite]: the result of [writei]. *)
Definition filewrite_chunk (i : nat) (src : list Z) (n1 : Z) : K Z :=
  begin_op;;
  f ← the_file i;
  ilock (f_ip f);;
  r ← writei (f_ip f) src (f_off f) n1;
  when (bool_decide (r > 0)) (upd_file i (λ f, f <| f_off ::= λ o, u32 (o + r) |>));;
  iunlock (f_ip f);;
  end_op;;
  mret r.
(** The loop, with [k] of [n] bytes written. *)
Fixpoint filewrite_loop (fuel : nat) (i : nat) (src : list Z) (n k : Z) : K Z :=
  match fuel with
  | O => stopped Spin
  | S fu =>
      if decide (k < n) then
        let n1 := (n - k) `min` max_write in
        r ← filewrite_chunk i src n1;
        if decide (r < 0) then mret k else
        if decide (r ≠ n1) then panic "short filewrite" else
        filewrite_loop fu i (drop (Z.to_nat r) src) n (k + r)
      else mret k
  end.
Definition filewrite (i : nat) (src : list Z) (n : Z) : K Z :=
  f ← the_file i;
  if negb (f_writable f) then mret (-1) else
  match f_type f with
  | FD_PIPE => pipewrite (f_pipe f) src n
  | FD_INODE =>
      k ← filewrite_loop (Z.to_nat (n / max_write + 2)) i src n 0;
      mret (if decide (k = n) then n else -1)
  | FD_NONE => panic "filewrite"
  end.
End files.
