(* ===== verification/Vm.v ===== *)
(** * Virtual memory (vm.c)

    Page directories and page tables are pages of physical memory, read and
    written as words of [k_mem]; a page directory is named by its kernel address.
    A null pointer that [walkpgdir] returns is [None]. *)

From S2P Require Import Prelude Memory Strings State Spinlock Cons Sched Kalloc Sleeplock BufList Bio Log Fs.

(** ** mmu.h *)

Definition PDX (va : Z) : Z := Z.land (Z.shiftr va 22) 0x3FF.
Definition PTX (va : Z) : Z := Z.land (Z.shiftr va 12) 0x3FF.
Definition PGADDR (d t o : Z) : Z := u32 (Z.lor (Z.lor (Z.shiftl d 22) (Z.shiftl t 12)) o).
Definition NPDENTRIES : Z := 1024.
Definition PTE_P : Z := 1.
Definition PTE_W : Z := 2.
Definition PTE_U : Z := 4.
Definition PTE_ADDR (pte : Z) : Z := Z.land pte (Z.lnot 0xFFF).
Definition PTE_FLAGS (pte : Z) : Z := Z.land pte 0xFFF.
Definition present (pte : Z) : bool := negb (Z.land pte PTE_P =? 0).

(** ** Words of memory *)

Definition ld32 (a : Z) : K Z := gets (λ k, load32 (k_mem k) a).
Definition set_mem (f : mem → mem) (k : kernel) : kernel := k <| k_mem ::= f |>.
Definition st32 (a v : Z) : K unit := modify (set_mem (λ m, store32 m a v)).
Definition zero_page (a : Z) : K unit := modify (set_mem (λ m, memset m a 0 PGSIZE)).

(** ** Page tables *)

Definition walkpgdir (pgdir va : Z) (alloc : bool) : K (option Z) :=
  let pdea := pgdir + 4 * PDX va in
  pde ← ld32 pdea;
  if present pde then mret (Some (P2V (PTE_ADDR pde) + 4 * PTX va)) else
  if negb alloc then mret None else
  pgtab ← kalloc;
  if decide (pgtab = 0) then mret None else
  zero_page pgtab;;
  st32 pdea (Z.lor (Z.lor (Z.lor (V2P pgtab) PTE_P) PTE_W) PTE_U);;
  mret (Some (pgtab + 4 * PTX va)).

(** The loop of [mappages]; [n] pages follow the one at [a]. *)
Fixpoint mappages_loop (n : nat) (pgdir a last pa perm : Z) : K Z :=
  pte ← walkpgdir pgdir a true;
  match pte with
  | None => mret (-1)
  | Some ptea =>
      e ← ld32 ptea;
      if present e then panic "remap" else
      st32 ptea (Z.lor (Z.lor pa perm) PTE_P);;
      if decide (a = last) then mret 0 else
      match n with
      | O => stopped Spin
      | S n' => mappages_loop n' pgdir (u32 (a + PGSIZE)) last (u32 (pa + PGSIZE)) perm
      end
  end.
Definition mappages (pgdir va size pa perm : Z) : K Z :=
  let a := PGROUNDDOWN va in
  let last := PGROUNDDOWN (u32 (va + size - 1)) in
  mappages_loop (Z.to_nat (u32 (last - a) / PGSIZE)) pgdir a last pa perm.

(** The loop of [deallocuvm]; the fuel counts pages. *)
Fixpoint deallocuvm_loop (fuel : nat) (pgdir a oldsz : Z) : K unit :=
  if decide (a < oldsz) then
    match fuel with
    | O => stopped Spin
    | S f =>
        pte ← walkpgdir pgdir a false;
        match pte with
        | None => deallocuvm_loop f pgdir (u32 (PGADDR (PDX a + 1) 0 0 - PGSIZE + PGSIZE)) oldsz
        | Some ptea =>
            e ← ld32 ptea;
            when (present e)
              (let pa := PTE_ADDR e in
               if decide (pa = 0) then panic "kfree" else
               kfree (P2V pa);;
               st32 ptea 0);;
            deallocuvm_loop f pgdir (u32 (a + PGSIZE)) oldsz
        end
    end
  else mret tt.
Definition deallocuvm (pgdir oldsz newsz : Z) : K Z :=
  if decide (oldsz ≤ newsz) then mret oldsz else
  let a := PGROUNDUP newsz in
  deallocuvm_loop (Z.to_nat ((oldsz - a) / PGSIZE + 1)) pgdir a oldsz;;
  mret newsz.

Definition freevm (pgdir : Z) : K unit :=
  if decide (pgdir = 0) then panic "freevm: no pgdir" else
  deallocuvm pgdir KERNBASE 0;;
  each (λ i,
    pde ← ld32 (pgdir + 4 * i);
    when (present pde) (kfree (P2V (PTE_ADDR pde)))) (seqZ 0 NPDENTRIES);;
  kfree pgdir.

(** The table [kmap]: address, start and end of the physical range, permissions. *)
Definition kmap (img : image) : list (Z * Z * Z * Z) :=
  [(KERNBASE, 0, EXTMEM, PTE_W);
   (KERNLINK, V2P KERNLINK, V2P (img_data img), 0);
   (img_data img, V2P (img_data img), PHYSTOP, PTE_W);
   (DEVSPACE, DEVSPACE, 0, PTE_W)].

Definition setupkvm : K Z :=
  pgdir ← kalloc;
  if decide (pgdir = 0) then mret 0 else
  zero_page pgdir;;
  if decide (P2V PHYSTOP > DEVSPACE) then panic "PHYSTOP too high" else
  img ← gets k_img;
  r ← scan (λ '(virt, ps, pe, perm),
    r ← mappages pgdir virt (u32 (pe - ps)) ps perm;
    if decide (r < 0) then freevm pgdir;; mret (inl 0) else mret (inr tt)) (kmap img);
  mret (match r with Some z => z | None => pgdir end).

Definition lcr3 (a : Z) : K unit := modify (λ k,
  match this_cpu k with
  | Some i => k <| k_cpus ::= alter (λ x, x <| c_cr3 := a |>) i |>
  | None => k
  end).
Definition switchkvm : K unit := pgdir ← gets k_kpgdir; lcr3 (V2P pgdir).
Definition kvmalloc : K unit :=
  pgdir ← setupkvm;
  modify (λ k, k <| k_kpgdir := pgdir |>);;
  switchkvm.

(** Of the task state segment only [esp0] is kept; the descriptors that [seginit]
    and [switchuvm] load are constants. *)
Definition switchuvm (p : option nat) : K unit :=
  match p with
  | None => panic "switchuvm: no process"
  | Some i =>
      p ← the_proc i;
      if decide (p_kstack p = 0) then panic "switchuvm: no kstack" else
      if decide (p_pgdir p = 0) then panic "switchuvm: no pgdir" else
      pushcli;;
      c ← mycpu;
      upd_cpu c (λ x, x <| c_esp0 := u32 (p_kstack p + KSTACKSIZE) |>);;
      lcr3 (V2P (p_pgdir p));;
      popcli
  end.

(** memmove(dst, bytes, n) from a buffer outside the modelled memory. *)
Definition copy_in (dst : Z) (bs : list Z) : K unit := modify (set_mem (λ m, write_bytes m dst bs)).

Definition inituvm (pgdir : Z) (init : list Z) (sz : Z) : K unit :=
  if decide (PGSIZE ≤ sz) then panic "inituvm: more than a page" else
  mem ← kalloc;
  zero_page mem;;
  mappages pgdir 0 PGSIZE (V2P mem) (Z.lor PTE_W PTE_U);;
  copy_in mem (take (Z.to_nat sz) init).

(** The loop of [allocuvm]. *)
Fixpoint allocuvm_loop (fuel : nat) (pgdir a oldsz newsz : Z) : K Z :=
  if decide (a < newsz) then
    match fuel with
    | O => stopped Spin
    | S f =>
        mem ← kalloc;
        if decide (mem = 0) then
          cprintf ("allocuvm out of memory" +:+ nl) [];;
          deallocuvm pgdir newsz oldsz;;
          mret 0
        else
        zero_page mem;;
        r ← mappages pgdir a PGSIZE (V2P mem) (Z.lor PTE_W PTE_U);
        if decide (r < 0) then
          cprintf ("allocuvm out of memory (2)" +:+ nl) [];;
          deallocuvm pgdir newsz oldsz;;
          kfree mem;;
          mret 0
        else allocuvm_loop f pgdir (u32 (a + PGSIZE)) oldsz newsz
    end
  else mret newsz.
Definition allocuvm (pgdir oldsz newsz : Z) : K Z :=
  if decide (KERNBASE ≤ newsz) then mret 0 else
  if decide (newsz < oldsz) then mret oldsz else
  let a := PGROUNDUP oldsz in
  allocuvm_loop (Z.to_nat ((newsz - a) / PGSIZE + 1)) pgdir a oldsz newsz.

Definition clearpteu (pgdir uva : Z) : K unit :=
  pte ← walkpgdir pgdir uva false;
  match pte with
  | None => panic "clearpteu"
  | Some ptea => e ← ld32 ptea; st32 ptea (Z.land e (Z.lnot PTE_U))
  end.

(** One iteration of [copyuvm]: [inl] leaves the loop at the label bad. *)
Definition copyuvm_body (pgdir d i : Z) : K (unit + unit) :=
  pte ← walkpgdir pgdir i false;
  match pte with
  | None => panic "copyuvm: pte should exist"
  | Some ptea =>
      e ← ld32 ptea;
      if negb (present e) then panic "copyuvm: page not present" else
      let pa := PTE_ADDR e in
      let flags := PTE_FLAGS e in
      mem ← kalloc;
      if decide (mem = 0) then mret (inl tt) else
      modify (set_mem (λ m, memmove m mem (P2V pa) PGSIZE));;
      r ← mappages d i PGSIZE (V2P mem) flags;
      if decide (r < 0) then kfree mem;; mret (inl tt) else mret (inr tt)
  end.
(** The page addresses 0, PGSIZE, ... below [sz]. *)
Definition page_addrs (sz : Z) : list Z := map (λ i, i * PGSIZE) (seqZ 0 ((sz + PGSIZE - 1) / PGSIZE)).
Definition copyuvm (pgdir sz : Z) : K Z :=
  d ← setupkvm;
  if decide (d = 0) then mret 0 else
  r ← scan (copyuvm_body pgdir d) (page_addrs sz);
  match r with
  | Some _ => freevm d;; mret 0
  | None => mret d
  end.

(** A null [pte] would be dereferenced. *)
Definition uva2ka (pgdir uva : Z) : K Z :=
  pte ← walkpgdir pgdir uva false;
  match pte with
  | None => wild
  | Some ptea =>
      e ← ld32 ptea;
      if decide (Z.land e PTE_P = 0) then mret 0 else
      if decide (Z.land e PTE_U = 0) then mret 0 else
      mret (P2V (PTE_ADDR e))
  end.

(** The loop of [copyout] over the bytes that remain. *)
Fixpoint copyout_loop (fuel : nat) (pgdir va : Z) (buf : list Z) : K Z :=
  match buf with
  | [] => mret 0
  | _ =>
      match fuel with
      | O => stopped Spin
      | S f =>
          let va0 := PGROUNDDOWN va in
          pa0 ← uva2ka pgdir va0;
          if decide (pa0 = 0) then mret (-1) else
          let n := Z.to_nat (PGSIZE - (va - va0)) in
          copy_in (pa0 + (va - va0)) (take n buf);;
          copyout_loop f pgdir (u32 (va0 + PGSIZE)) (drop n buf)
      end
  end.
Definition copyout (pgdir va : Z) (buf : list Z) : K Z :=
  copyout_loop (S (length buf)) pgdir va buf.

Section loading.
Context `{DevSw}.

Definition loaduvm_body (pgdir addr : Z) (ip : nat) (offset sz i : Z) : K (Z + unit) :=
  pte ← walkpgdir pgdir (u32 (addr + i)) false;
  match pte with
  | None => panic "loaduvm: address should exist"
  | Some ptea =>
      e ← ld32 ptea;
      let pa := PTE_ADDR e in
      let n := if decide (sz - i < PGSIZE) then sz - i else PGSIZE in
      '(r, bs) ← readi ip (u32 (offset + i)) n;
      copy_in (P2V pa) bs;;
      if decide (r ≠ n) then mret (inl (-1)) else mret (inr tt)
  end.
Definition loaduvm (pgdir addr : Z) (ip : nat) (offset sz : Z) : K Z :=
  if decide (addr mod PGSIZE ≠ 0) then panic "loaduvm: addr must be page aligned" else
  r ← scan (loaduvm_body pgdir addr ip offset sz) (page_addrs sz);
  mret (match r with Some z => z | None => 0 end).
End loading.

(** ** What the hardware does with the tables

    An access of the kernel to a user address [va] goes through the page table in
    [cr3]: [translate] is the address in [k_mem] it reaches, if the page is
    present, and for a write, writable.  (CR0.WP is set in entry.S.) *)
Definition pde_at (m : mem) (pgdir va : Z) : Z := load32 m (pgdir + 4 * PDX va).
Definition pte_at (m : mem) (pgdir va : Z) : Z :=
  if present (pde_at m pgdir va) then load32 m (P2V (PTE_ADDR (pde_at m pgdir va)) + 4 * PTX va) else 0.
Definition translate (m : mem) (pgdir va : Z) (write : bool) : option Z :=
  let e := pte_at m pgdir va in
  if present e && (negb write || negb (Z.land e PTE_W =? 0))
  then Some (P2V (PTE_ADDR e) + va mod PGSIZE) else None.

(** The page directory in use on the current processor. *)
Definition cur_pgdir : K Z := gets (λ k,
  match this_cpu k ≫= λ i, k_cpus k !! i with
  | Some x => P2V (c_cr3 x)
  | None => 0
  end).

(** A page fault in the kernel ends in the default case of [trap]. *)
Definition page_fault {A} : K A := panic "trap".
Definition user_read8 (pgdir va : Z) : K Z := λ k,
  match translate (k_mem k) pgdir va false with
  | Some a => (Ok (k_mem k a), k)
  | None => page_fault k
  end.
Definition user_write8 (pgdir va v : Z) : K unit := λ k,
  match translate (k_mem k) pgdir va true with
  | Some a => (Ok tt, set_mem (λ m, store8 m a v) k)
  | None => page_fault k
  end.
Fixpoint user_read (pgdir va : Z) (n : nat) : K (list Z) :=
  match n with
  | O => mret []
  | S n' => b ← user_read8 pgdir va; bs ← user_read pgdir (u32 (va + 1)) n'; mret (b :: bs)
  end.
Fixpoint user_write (pgdir va : Z) (bs : list Z) : K unit :=
  match bs with
  | [] => mret tt
  | b :: bs' => user_write8 pgdir va b;; user_write pgdir (u32 (va + 1)) bs'
  end.
