(* ===== verification/VmTable.v ===== *)
(** * Page tables (properties of vm.c)

    A page directory and its page tables as a function from virtual page numbers
    to entries ([ent]); [walkpgdir] and [mappages] in terms of it.  The invariant
    [pt_ok] says that the directory and the tables are distinct pages of the
    allocator, none of them free. *)

From S2P Require Import Prelude Memory Strings State Spinlock Cons Sched Kalloc Sleeplock Vm.

(** ** Addresses and entries *)

Lemma PDX_spec va : 0 ≤ va < 2 ^ 32 → PDX va = va / 4096 / 1024.
Proof.
  intros H. unfold PDX. change 0x3FF with (Z.ones 10). rewrite Z.land_ones, Z.shiftr_div_pow2 by lia.
  rewrite Z.div_div by lia. change (2 ^ 22) with (4096 * 1024). rewrite Z.mod_small; [done|].
  split; [apply Z.div_pos; lia|apply Z.div_lt_upper_bound; lia].
Qed.

Lemma PTX_spec va : PTX va = (va / 4096) mod 1024.
Proof. unfold PTX. change 0x3FF with (Z.ones 10). rewrite Z.land_ones, Z.shiftr_div_pow2 by lia. done. Qed.

Lemma lor_page pa x : pa mod 4096 = 0 → 0 ≤ x < 4096 → Z.lor pa x = pa + x.
Proof.
  intros Hp Hx. symmetry. apply Z.add_nocarry_lor. apply Z.bits_inj'. intros n Hn. rewrite Z.land_spec, Z.bits_0.
  change 4096 with (2 ^ 12) in *. destruct (decide (n < 12)).
  - assert (Z.testbit pa n = false) as ->; [|done]. rewrite <- (Z.mod_pow2_bits_low pa 12 n) by lia. rewrite Hp. apply Z.bits_0.
  - rewrite <- (Z.mod_small x (2 ^ 12)) by done. rewrite (Z.mod_pow2_bits_high x 12 n) by lia. apply andb_false_r.
Qed.

Lemma lor_small x y : 0 ≤ x < 4096 → 0 ≤ y < 4096 → 0 ≤ Z.lor x y < 4096.
Proof.
  intros Hx Hy. assert (Z.lor x y = Z.land (Z.lor x y) (Z.ones 12)) as ->.
  { rewrite Z.land_lor_distr_l, !Z.land_ones by lia. change (2 ^ 12) with 4096. by rewrite !Z.mod_small. }
  rewrite Z.land_ones by lia. apply Z.mod_pos_bound. lia.
Qed.

Lemma present_odd e : present e = Z.odd e.
Proof.
  unfold present, PTE_P. rewrite Zodd_mod. change (Z.land e 1) with (Z.land e (Z.ones 1)). rewrite Z.land_ones by lia. change (2 ^ 1) with 2.
  pose proof (Z.mod_pos_bound e 2 ltac:(lia)). destruct (Z.eqb_spec (e mod 2) 0), (Z.eqb_spec (e mod 2) 1); simpl; try done; lia.
Qed.

Lemma PTE_ADDR_spec e : PTE_ADDR e = e / 4096 * 4096.
Proof. apply land_page. Qed.

(** The entry for the physical page [pa]. *)
Lemma make_pte pa perm :
  pa mod 4096 = 0 → 0 ≤ pa < 2 ^ 32 → 0 ≤ perm < 4096 →
  ∃ fl, Z.lor (Z.lor pa perm) PTE_P = pa + fl ∧ 0 ≤ fl < 4096 ∧ fl = Z.lor perm 1 ∧
    present (pa + fl) = true ∧ PTE_ADDR (pa + fl) = pa ∧ u32 (pa + fl) = pa + fl.
Proof.
  intros Hp Hr Hm. exists (Z.lor perm 1). pose proof (lor_small perm 1 Hm ltac:(lia)) as Hf.
  rewrite <- Z.lor_assoc. unfold PTE_P. split; [by apply lor_page|]. split; [done|]. split; [done|]. split_and!.
  - rewrite present_odd, Z.odd_add.
    assert (Z.odd pa = false) as -> by (rewrite Zodd_mod; apply Z.eqb_neq; zlia).
    simpl. rewrite <- Z.bit0_odd, Z.lor_spec. simpl. apply orb_true_r.
  - rewrite PTE_ADDR_spec. zlia.
  - rewrite u32_small; zlia.
Qed.

Lemma V2P_P2V p : KERNBASE ≤ p < 2 ^ 32 → P2V (V2P p) = p.
Proof. intros H. unfold V2P, P2V, KERNBASE in *. rewrite (u32_small (p - _)) by lia. rewrite u32_small; lia. Qed.

Lemma page_V2P k p : page_ok k p → V2P p mod 4096 = 0 ∧ 0 ≤ V2P p < PHYSTOP ∧ P2V (V2P p) = p.
Proof.
  unfold page_ok. intros (H1 & _ & H2). rewrite V2P_P2V by (unfold KERNBASE, PHYSTOP in *; lia).
  unfold V2P, KERNBASE, PHYSTOP, PGSIZE in *. rewrite u32_small by lia. zlia.
Qed.

(** ** Tables as functions *)

Definition pde (m : mem) (pgdir d : Z) : Z := load32 m (pgdir + 4 * d).
Definition tab (m : mem) (pgdir d : Z) : Z := P2V (PTE_ADDR (pde m pgdir d)).
(** The entry of virtual page number [n], zero when its table is absent. *)
Definition ent (m : mem) (pgdir n : Z) : Z :=
  if present (pde m pgdir (n / 1024)) then load32 m (tab m pgdir (n / 1024) + 4 * (n mod 1024)) else 0.

Lemma pte_at_ent m pgdir va : 0 ≤ va < 2 ^ 32 → pte_at m pgdir va = ent m pgdir (va / 4096).
Proof. intros H. unfold pte_at, ent, pde_at, tab, pde. by rewrite PDX_spec, PTX_spec. Qed.

Definition in_page (p x : Z) : Prop := p ≤ x < p + 4096.

(** The directory and its tables. *)
Definition pt_page (m : mem) (pgdir p : Z) : Prop :=
  p = pgdir ∨ ∃ d, 0 ≤ d < 1024 ∧ present (pde m pgdir d) = true ∧ p = tab m pgdir d.

Record pt_ok (k : kernel) (ps : list Z) (pgdir : Z) : Prop := {
  po_kmem : kmem_ok k ps;
  po_quiet : kmem_quiet k;
  po_mem : mem_ok (k_mem k);
  po_page : ∀ p, pt_page (k_mem k) pgdir p → page_ok k p ∧ p ∉ ps;
  po_dir : ∀ d, 0 ≤ d < 1024 → present (pde (k_mem k) pgdir d) = true → tab (k_mem k) pgdir d ≠ pgdir;
  po_inj : ∀ d d', 0 ≤ d < 1024 → 0 ≤ d' < 1024 → present (pde (k_mem k) pgdir d) = true →
    present (pde (k_mem k) pgdir d') = true → tab (k_mem k) pgdir d = tab (k_mem k) pgdir d' → d = d' }.

(** What an operation on the tables does: the entries become [f], pages that are
    neither free nor part of the tables stay so and keep their content, no page that
    is free or part of the tables is lost, and only memory and the free list change. *)
Record pt_eff (pgdir : Z) (k : kernel) (ps : list Z) (k' : kernel) (ps' : list Z) (f : Z → Z) : Prop := {
  pe_frame : k' = k <| k_mem := k_mem k' |> <| k_freelist := k_freelist k' |>;
  pe_ok : pt_ok k' ps' pgdir;
  pe_ent : ∀ n, 0 ≤ n < 2 ^ 20 → ent (k_mem k') pgdir n = f n;
  pe_keep : ∀ p, page_ok k p → p ∉ ps → ¬ pt_page (k_mem k) pgdir p →
    p ∉ ps' ∧ ¬ pt_page (k_mem k') pgdir p ∧ ∀ x, in_page p x → k_mem k' x = k_mem k x;
  pe_free : ps' `suffix_of` ps;
  pe_all : ∀ p, p ∈ ps ∨ pt_page (k_mem k) pgdir p → p ∈ ps' ∨ pt_page (k_mem k') pgdir p }.

Lemma with_mem_page k m fl p : page_ok (k <| k_mem := m |> <| k_freelist := fl |>) p ↔ page_ok k p.
Proof. done. Qed.

Lemma eff_page pgdir k ps k' ps' f p : pt_eff pgdir k ps k' ps' f → page_ok k' p ↔ page_ok k p.
Proof. intros E. rewrite (pe_frame _ _ _ _ _ _ E). done. Qed.

Lemma pt_eff_refl pgdir k ps : pt_ok k ps pgdir → pt_eff pgdir k ps k ps (ent (k_mem k) pgdir).
Proof. intros H. split; try done. by destruct k. Qed.

Lemma pt_eff_trans pgdir k ps k1 ps1 f1 k2 ps2 f2 :
  pt_eff pgdir k ps k1 ps1 f1 → pt_eff pgdir k1 ps1 k2 ps2 f2 → pt_eff pgdir k ps k2 ps2 f2.
Proof.
  intros E1 E2. split.
  - rewrite (pe_frame _ _ _ _ _ _ E2) at 1. rewrite (pe_frame _ _ _ _ _ _ E1) at 1. done.
  - apply E2.
  - apply E2.
  - intros p Hp Hn Hf. destruct (pe_keep _ _ _ _ _ _ E1 p Hp Hn Hf) as (H1 & H2 & H3).
    destruct (pe_keep _ _ _ _ _ _ E2 p) as (H4 & H5 & H6); [by rewrite (eff_page _ _ _ _ _ _ _ E1)|done|done|].
    split_and!; try done. intros x Hx. by rewrite H6, H3.
  - etrans; [apply E2|apply E1].
  - intros p Hp. by apply E2, E1.
Qed.

Lemma pt_eff_ext pgdir k ps k' ps' f g :
  pt_eff pgdir k ps k' ps' f → (∀ n, 0 ≤ n < 2 ^ 20 → f n = g n) → pt_eff pgdir k ps k' ps' g.
Proof. intros [H1 H2 H3 H4 H5 H6] Hfg. split; try done. intros n Hn. by rewrite H3, Hfg. Qed.

(** ** Memory changes *)

Lemma kmem_ok_ext k k' ps :
  kmem_ok k ps → k_img k' = k_img k → k_freelist k' = k_freelist k →
  (∀ p x, p ∈ ps → in_page p x → k_mem k' x = k_mem k x) → kmem_ok k' ps.
Proof.
  intros [C1 C2 C3] Ei Ef Hm. split; [|unfold page_ok in *; by rewrite Ei|done]. rewrite Ef.
  eapply chain_ext; [|done]. intros p x Hp Hx. apply (Hm p); [done|]. unfold in_page. lia.
Qed.

Lemma word_in_page p i : 0 ≤ i < 1024 → ∀ x, p + 4 * i ≤ x < p + 4 * i + 4 → in_page p x.
Proof. intros Hi x Hx. unfold in_page. lia. Qed.

Lemma pde_same m m' pgdir d : (∀ x, in_page pgdir x → m' x = m x) → 0 ≤ d < 1024 → pde m' pgdir d = pde m pgdir d.
Proof. intros Hm Hd. apply load32_ext. intros x Hx. apply Hm. by eapply word_in_page. Qed.

Lemma pages_apart k p q x : page_ok k p → page_ok k q → in_page p x → in_page q x → p = q.
Proof.
  intros Hp Hq H1 H2. destruct (decide (p = q)) as [|Hne]; [done|].
  destruct (page_disjoint k p q Hp Hq Hne); unfold in_page, PGSIZE in *; lia.
Qed.

Lemma vpn_parts n : 0 ≤ n < 2 ^ 20 → 0 ≤ n / 1024 < 1024 ∧ 0 ≤ n mod 1024 < 1024.
Proof. intros Hn. zlia. Qed.

(** Memory that is the same in the directory and the tables. *)
Lemma tables_same m m' pgdir :
  (∀ p, pt_page m pgdir p → ∀ x, in_page p x → m' x = m x) →
  (∀ d, 0 ≤ d < 1024 → pde m' pgdir d = pde m pgdir d) ∧
  (∀ n, 0 ≤ n < 2 ^ 20 → ent m' pgdir n = ent m pgdir n) ∧
  (∀ p, pt_page m' pgdir p ↔ pt_page m pgdir p).
Proof.
  intros Hsame. assert (∀ d, 0 ≤ d < 1024 → pde m' pgdir d = pde m pgdir d) as Hd.
  { intros d Hd. apply pde_same; [|done]. apply Hsame. by left. }
  split_and!; [done|intros n Hn|].
  - destruct (vpn_parts n Hn) as [Hv1 Hv2]. unfold ent, tab. rewrite Hd by done. destruct (present _) eqn:Ep; [|done].
    apply load32_ext. intros x Hin. apply (Hsame (tab m pgdir (n / 1024))); [right; by exists (n / 1024)|].
    by eapply word_in_page.
  - intros p. unfold pt_page, tab. split; (intros [->|(d & Hdd & H1 & ->)]; [by left|right; exists d]).
    + rewrite !Hd in * by done. done.
    + rewrite !Hd by done. done.
Qed.

(** The invariant in another state whose directory entries are the same. *)
Lemma pt_ok_same k k' ps ps' pgdir :
  pt_ok k ps pgdir → k_img k' = k_img k → kmem_ok k' ps' → kmem_quiet k' → mem_ok (k_mem k') →
  (∀ d, 0 ≤ d < 1024 → pde (k_mem k') pgdir d = pde (k_mem k) pgdir d) →
  (∀ p, pt_page (k_mem k) pgdir p → p ∉ ps') → pt_ok k' ps' pgdir.
Proof.
  intros [H1 H2 H3 H4 H5 H6] Ei Hk Hq Hm Hd Hn. unfold tab in *. split; try done.
  - intros p Hp. assert (pt_page (k_mem k) pgdir p) as Hp'.
    { destruct Hp as [->|(d & Hdd & P1 & ->)]; [by left|right; exists d]. unfold tab in *. by rewrite !Hd in * by done. }
    split; [|by apply Hn]. destruct (H4 p Hp') as [Hpo _]. unfold page_ok in *. by rewrite Ei.
  - intros d Hdd. unfold tab. rewrite Hd by done. by apply H5.
  - intros d d' Hdd Hdd'. unfold tab. rewrite !Hd by done. by apply H6.
Qed.

(** Memory that changes in one page only, which is not free and not a table. *)
Lemma pt_same k k' ps pgdir q :
  pt_ok k ps pgdir → k' = k <| k_mem := k_mem k' |> → mem_ok (k_mem k') → page_ok k q → q ∉ ps →
  ¬ pt_page (k_mem k) pgdir q → (∀ x, ¬ in_page q x → k_mem k' x = k_mem k x) →
  pt_ok k' ps pgdir ∧ (∀ n, 0 ≤ n < 2 ^ 20 → ent (k_mem k') pgdir n = ent (k_mem k) pgdir n) ∧
  (∀ d, 0 ≤ d < 1024 → pde (k_mem k') pgdir d = pde (k_mem k) pgdir d).
Proof.
  intros H Ek Hm Hq Hn Hnt Hx.
  assert (∀ p, page_ok k p → p ≠ q → ∀ x, in_page p x → k_mem k' x = k_mem k x) as Hsame.
  { intros p Hp Hne x Hin. apply Hx. intros Hin'. by rewrite (pages_apart k p q x) in Hne. }
  destruct (tables_same (k_mem k) (k_mem k') pgdir) as (Hd & He & _).
  { intros p Hp. apply Hsame; [by apply (po_page _ _ _ H)|by intros ->]. }
  split_and!; try done. eapply (pt_ok_same k); try done; [by rewrite Ek|..|by rewrite Ek; apply (kmem_quiet_ext k _ (po_quiet _ _ _ H))|].
  - eapply (kmem_ok_ext k); [apply H|by rewrite Ek..|]. intros p x Hp. pose proof (ko_pages _ _ (po_kmem _ _ _ H)) as Hps.
    rewrite Forall_forall in Hps. apply Hsame; [by apply Hps|congruence].
  - intros p Hp. by apply (po_page _ _ _ H).
Qed.

(** Storing an entry in a table that is there. *)
Lemma set_pte k ps pgdir n v :
  pt_ok k ps pgdir → 0 ≤ n < 2 ^ 20 → present (pde (k_mem k) pgdir (n / 1024)) = true →
  pt_eff pgdir k ps (set_mem (λ m, store32 m (tab (k_mem k) pgdir (n / 1024) + 4 * (n mod 1024)) v) k) ps
    (λ n', if decide (n' = n) then u32 v else ent (k_mem k) pgdir n').
Proof.
  intros H Hn Hpr. destruct (vpn_parts n Hn) as [Hv1 Hv2]. set (d := n / 1024) in *.
  set (t := tab (k_mem k) pgdir d) in *. set (w := t + 4 * (n mod 1024)). set (m' := store32 (k_mem k) w v).
  assert (pt_page (k_mem k) pgdir t) as Ht by (right; by exists d).
  destruct (po_page _ _ _ H t Ht) as [Htp Htn]. destruct (po_page _ _ _ H pgdir (or_introl eq_refl)) as [Hdp _].
  assert (∀ x, ¬ in_page t x → m' x = k_mem k x) as Hout.
  { intros x Hx. apply store32_outside. unfold in_page, w in *. lia. }
  assert (∀ p, page_ok k p → p ≠ t → ∀ x, in_page p x → m' x = k_mem k x) as Hpage.
  { intros p Hp Hne x Hx. apply Hout. intros Hx'. by rewrite (pages_apart k p t x) in Hne. }
  assert (∀ d, 0 ≤ d < 1024 → pde m' pgdir d = pde (k_mem k) pgdir d) as Hd.
  { intros d' Hd'. apply pde_same; [|done]. apply Hpage; [done|]. intros E. by apply (po_dir _ _ _ H d Hv1 Hpr). }
  split; [done| | | |done|].
  - eapply (pt_ok_same k); try done; [..|by apply (kmem_quiet_ext k _ (po_quiet _ _ _ H))|exact (store32_ok _ _ _ (po_mem _ _ _ H))|].
    + eapply (kmem_ok_ext k); [apply H|done..|]. intros p x Hp. pose proof (ko_pages _ _ (po_kmem _ _ _ H)) as Hps.
      rewrite Forall_forall in Hps. apply Hpage; [by apply Hps|congruence].
    + intros p Hp. by apply (po_page _ _ _ H).
  - intros n' Hn'. destruct (vpn_parts n' Hn') as [Hw1 Hw2]. change (k_mem (set_mem _ k)) with m'.
    unfold ent, tab. rewrite Hd by done. fold (tab (k_mem k) pgdir (n' / 1024)). case_decide as E.
    + subst n'. fold d. rewrite Hpr. apply load32_store32_eq.
    + destruct (present (pde (k_mem k) pgdir (n' / 1024))) eqn:Ep; [|done]. destruct (decide (n' / 1024 = d)) as [Ed|Ed].
      * rewrite Ed. apply load32_store32_ne. unfold w. fold t. fold d in Ed. assert (n' mod 1024 ≠ n mod 1024) by (subst d; zlia). lia.
      * apply load32_ext. intros x Hx. apply (Hpage (tab (k_mem k) pgdir (n' / 1024))).
        -- apply (po_page _ _ _ H). right. by exists (n' / 1024).
        -- intros Et. apply Ed. by apply (po_inj _ _ _ H).
        -- by eapply word_in_page.
  - intros p Hp Hpn Hnt. split; [done|]. split; [|apply Hpage; [done|by intros ->]].
    intros [->|(d' & Hd' & P1 & ->)]; apply Hnt; [by left|right; exists d']. change (k_mem (set_mem _ k)) with m' in *.
    unfold tab in *. by rewrite !Hd in * by done.
  - change (k_mem (set_mem _ k)) with m'. intros p [Hp|[->|(d' & Hd' & P1 & ->)]]; [by left|by right; left|].
    right. right. exists d'. unfold tab. by rewrite !Hd by done.
Qed.

(** Entering a zeroed page as the table of directory entry [d]. *)
Lemma set_pde k ps pgdir d q :
  pt_ok k ps pgdir → 0 ≤ d < 1024 → present (pde (k_mem k) pgdir d) = false →
  page_ok k q → q ∉ ps → ¬ pt_page (k_mem k) pgdir q → (∀ x, in_page q x → k_mem k x = 0) →
  ∀ k', k' = set_mem (λ m, store32 m (pgdir + 4 * d) (Z.lor (Z.lor (Z.lor (V2P q) PTE_P) PTE_W) PTE_U)) k →
  pt_ok k' ps pgdir ∧ (∀ n, 0 ≤ n < 2 ^ 20 → ent (k_mem k') pgdir n = ent (k_mem k) pgdir n) ∧
  present (pde (k_mem k') pgdir d) = true ∧ tab (k_mem k') pgdir d = q ∧
  (∀ p, pt_page (k_mem k') pgdir p ↔ p = q ∨ pt_page (k_mem k) pgdir p) ∧
  (∀ x, ¬ in_page pgdir x → k_mem k' x = k_mem k x).
Proof.
  intros H Hd Hab Hq Hqn Hqt Hz k' Ek'.
  destruct (page_V2P k q Hq) as (Q1 & Q2 & Q3).
  assert (Z.lor (Z.lor (Z.lor (V2P q) PTE_P) PTE_W) PTE_U = V2P q + 7) as Ev.
  { rewrite <- !Z.lor_assoc. by apply lor_page. }
  rewrite Ev in Ek'. destruct (po_page _ _ _ H pgdir (or_introl eq_refl)) as [Hdp Hdn].
  assert (q ≠ pgdir) as Hqd by (intros ->; apply Hqt; by left).
  assert (∀ x, ¬ in_page pgdir x → k_mem k' x = k_mem k x) as Hout.
  { intros x Hx. subst k'. apply store32_outside. unfold in_page in *. lia. }
  assert (∀ p, page_ok k p → p ≠ pgdir → ∀ x, in_page p x → k_mem k' x = k_mem k x) as Hpage.
  { intros p Hp Hne x Hx. apply Hout. intros Hx'. by rewrite (pages_apart k p pgdir x) in Hne. }
  assert (∀ d', 0 ≤ d' < 1024 → pde (k_mem k') pgdir d' = if decide (d' = d) then V2P q + 7 else pde (k_mem k) pgdir d') as Hpde.
  { intros d' Hd'. subst k'. unfold pde. simpl. case_decide as E.
    - subst. rewrite load32_store32_eq. rewrite u32_small; [done|]. unfold PHYSTOP in *. lia.
    - apply load32_store32_ne. lia. }
  assert (present (V2P q + 7) = true ∧ P2V (PTE_ADDR (V2P q + 7)) = q) as [Hpres Htab].
  { rewrite present_odd, PTE_ADDR_spec. replace ((V2P q + 7) / 4096 * 4096) with (V2P q) by zlia. split; [|done].
    rewrite Zodd_mod. apply Z.eqb_eq. zlia. }
  assert (∀ p, pt_page (k_mem k') pgdir p ↔ p = q ∨ pt_page (k_mem k) pgdir p) as Hpt.
  { intros p. unfold pt_page, tab. split.
    - intros [->|(d' & Hdd & H1 & ->)]; [by right; left|]. rewrite Hpde in * by done. case_decide; [by left|].
      right. right. by exists d'.
    - intros [->|[->|(d' & Hdd & H1 & ->)]]; [|by left|].
      + right. exists d. rewrite Hpde, decide_True by done. done.
      + right. exists d'. rewrite Hpde by done. case_decide; [congruence|done]. }
  split_and!; try done.
  - destruct H as [H1 H2 H3 H4 H5 H6]. rewrite Ek'. split; simpl; try done.
    + eapply (kmem_ok_ext k); try done. intros p x Hp Hx. rewrite <- Ek'. apply (Hpage p); [|congruence|done].
      destruct H1 as [_ Hps _]. rewrite Forall_forall in Hps. by apply Hps.
    + by eapply (kmem_quiet_ext k).
    + by apply store32_ok.
    + intros p Hp. assert (pt_page (k_mem k') pgdir p) as Hp' by (by rewrite Ek'). apply Hpt in Hp' as [->|Hp']; [done|]. by apply H4.
    + intros d' Hdd. change (present (pde (k_mem (set_mem (λ m, store32 m (pgdir + 4 * d) (V2P q + 7)) k)) pgdir d') = true →
        tab (k_mem (set_mem (λ m, store32 m (pgdir + 4 * d) (V2P q + 7)) k)) pgdir d' ≠ pgdir). rewrite <- Ek'. unfold tab.
      rewrite Hpde by done. case_decide; [by rewrite Htab|]. by apply H5.
    + intros d1 d2 Hd1 Hd2. change (store32 (k_mem k) (pgdir + 4 * d) (V2P q + 7))
        with (k_mem (set_mem (λ m, store32 m (pgdir + 4 * d) (V2P q + 7)) k)). rewrite <- Ek'. unfold tab. rewrite !Hpde by done.
      repeat case_decide; subst; rewrite ?Htab; try done; [| |by apply H6]; intros P1 P2 Et; exfalso; apply Hqt; right;
        eexists; (split; [|split; [done|]]); done.
  - intros n Hn. destruct (vpn_parts n Hn) as [Hw1 Hw2]. unfold ent, tab. rewrite Hpde by done. case_decide as E.
    + rewrite E, Hpres, Hab, Htab. unfold load32. rewrite !(Hpage q), !Hz by (try done; unfold in_page; lia). done.
    + destruct (present (pde (k_mem k) pgdir (n / 1024))) eqn:Ep; [|done]. apply load32_ext. intros x Hx.
      apply (Hpage (tab (k_mem k) pgdir (n / 1024))); [|by apply (po_dir _ _ _ H)|by eapply word_in_page].
      apply (po_page _ _ _ H). right. by exists (n / 1024).
  - by rewrite Hpde, decide_True by done.
  - unfold tab. by rewrite Hpde, decide_True by done.
Qed.

#[local] Opaque memset store32 load32.

(** ** Walking *)

Lemma memset_ok m a c n : mem_ok m → 0 ≤ n → mem_ok (memset m a c n).
Proof. intros Hm Hn x. rewrite memset_spec by done. case_decide; [zlia|apply Hm]. Qed.

Lemma kalloc_pt k q ps pgdir :
  pt_ok k (q :: ps) pgdir → ∃ fl, kalloc k = (Ok q, k <| k_freelist := fl |>) ∧
    pt_ok (k <| k_freelist := fl |>) ps pgdir ∧ page_ok k q ∧ q ∉ ps ∧ ¬ pt_page (k_mem k) pgdir q ∧ q ≠ 0.
Proof.
  intros [H1 H2 H3 H4 H5 H6]. destruct (kalloc_spec k _ H1 H2) as [E Hk]. exists (load32 (k_mem k) q). split; [done|].
  pose proof H1 as [_ Hps Hnd]. apply Forall_cons in Hps as [Hq _]. apply NoDup_cons in Hnd as [Hn _].
  split; [|split; [done|split; [done|split]]].
  - split; [exact Hk|by eapply (kmem_quiet_ext k)|done| |done|done]. intros p Hp. destruct (H4 p Hp) as [Hp1 Hp2]. split; [done|]. set_solver.
  - intros Hp%H4. set_solver.
  - pose proof (page_ok_range _ _ Hq). lia.
Qed.

Lemma kalloc_empty k pgdir : pt_ok k [] pgdir → kalloc k = (Ok 0, k).
Proof. intros [H1 H2 _ _ _ _]. by destruct (kalloc_spec k _ H1 H2) as [E _]. Qed.

Lemma set_mem_frame f k : set_mem f k = k <| k_mem := k_mem (set_mem f k) |>.
Proof. done. Qed.

(** Filling a page that is neither free nor a table. *)
Lemma zero_pt k ps pgdir q :
  pt_ok k ps pgdir → page_ok k q → q ∉ ps → ¬ pt_page (k_mem k) pgdir q →
  pt_ok (set_mem (λ m, memset m q 0 PGSIZE) k) ps pgdir ∧
  (∀ n, 0 ≤ n < 2 ^ 20 → ent (k_mem (set_mem (λ m, memset m q 0 PGSIZE) k)) pgdir n = ent (k_mem k) pgdir n) ∧
  (∀ d, 0 ≤ d < 1024 → pde (k_mem (set_mem (λ m, memset m q 0 PGSIZE) k)) pgdir d = pde (k_mem k) pgdir d) ∧
  (∀ x, in_page q x → k_mem (set_mem (λ m, memset m q 0 PGSIZE) k) x = 0) ∧
  (∀ x, ¬ in_page q x → k_mem (set_mem (λ m, memset m q 0 PGSIZE) k) x = k_mem k x).
Proof.
  intros H Hq Hn Ht. assert (∀ x, k_mem (set_mem (λ m, memset m q 0 PGSIZE) k) x =
    if decide (in_page q x) then 0 else k_mem k x) as Hx.
  { intros x. simpl. rewrite memset_spec by (unfold PGSIZE; lia). unfold in_page, PGSIZE. by repeat case_decide. }
  assert (∀ x, ¬ in_page q x → k_mem (set_mem (λ m, memset m q 0 PGSIZE) k) x = k_mem k x) as Hout.
  { intros x Hnx. by rewrite Hx, decide_False. }
  assert (mem_ok (k_mem (set_mem (λ m, memset m q 0 PGSIZE) k))) as Hmo.
  { exact (memset_ok _ q 0 PGSIZE (po_mem _ _ _ H) ltac:(done)). }
  pose proof (pt_same k _ ps pgdir q H (set_mem_frame _ k) Hmo Hq Hn Ht Hout) as (H1 & H2 & H3).
  split; [exact H1|split; [exact H2|split; [exact H3|split; [|exact Hout]]]]. intros x Hin. by rewrite Hx, decide_True.
Qed.

(** The number of pages it takes to have a table at [d]. *)
Definition absent (m : mem) (pgdir d : Z) : nat := if present (pde m pgdir d) then 0 else 1.

Section walk.
Context (pgdir va n : Z) (Hva : 0 ≤ va < 2 ^ 32) (Hn : n = va / 4096).
Notation slot m := (tab m pgdir (n / 1024) + 4 * (n mod 1024)).

Lemma walk_n : 0 ≤ n < 2 ^ 20.
Proof. subst. zlia. Qed.

Lemma walkpgdir_find k :
  walkpgdir pgdir va false k =
  (Ok (if present (pde (k_mem k) pgdir (n / 1024)) then Some (slot (k_mem k)) else None), k).
Proof.
  unfold walkpgdir, ld32. rewrite bind_gets, PDX_spec, PTX_spec by done. subst n. fold (pde (k_mem k) pgdir (va / 4096 / 1024)).
  by destruct (present _).
Qed.

(** With [alloc], the table is created if it is absent and a page is free. *)
Lemma walkpgdir_alloc k ps :
  pt_ok k ps pgdir →
  (∃ k' ps', walkpgdir pgdir va true k = (Ok (Some (slot (k_mem k'))), k') ∧
     pt_eff pgdir k ps k' ps' (ent (k_mem k) pgdir) ∧ present (pde (k_mem k') pgdir (n / 1024)) = true ∧
     length ps = (length ps' + absent (k_mem k) pgdir (n / 1024))%nat) ∨
  (ps = [] ∧ present (pde (k_mem k) pgdir (n / 1024)) = false ∧ walkpgdir pgdir va true k = (Ok None, k)).
Proof.
  intros H. pose proof walk_n as Hw. destruct (vpn_parts n Hw) as [Hv1 Hv2].
  unfold walkpgdir, ld32. rewrite bind_gets, PDX_spec, PTX_spec by done. rewrite <- Hn.
  fold (pde (k_mem k) pgdir (n / 1024)). destruct (present (pde (k_mem k) pgdir (n / 1024))) eqn:Ep.
  { left. exists k, ps. split; [done|]. split; [by apply pt_eff_refl|]. split; [done|]. unfold absent. rewrite Ep. lia. }
  cbn [negb]. destruct ps as [|q ps]; [right; by mstep (kalloc_empty _ _ H)|left].
  destruct (kalloc_pt _ _ _ _ H) as (fl & E & H1 & Hq & Hqn & Hqt & Hq0). mstep E. rewrite decide_False by done.
  set (k1 := k <| k_freelist := fl |>) in *. destruct (zero_pt k1 ps pgdir q H1 Hq Hqn Hqt) as (H2 & E2 & P2 & Z2 & O2).
  set (k2 := set_mem (λ m, memset m q 0 PGSIZE) k1) in *. unfold zero_page. rewrite bind_modify. fold k2. unfold st32. rewrite bind_modify.
  set (k3 := set_mem _ k2).
  assert (¬ pt_page (k_mem k2) pgdir q) as Hqt2.
  { intros [Eq|(d & Hd & Hp & Eq)]; apply Hqt; [by left|]. right. exists d. unfold tab in *. by rewrite P2 in Hp, Eq by done. }
  destruct (set_pde k2 ps pgdir (n / 1024) q H2 Hv1 ltac:(by rewrite P2) Hq Hqn Hqt2 Z2 k3 eq_refl) as (H3 & E3 & P3 & T3 & Pt3 & O3).
  exists k3, ps. split; [by rewrite T3|]. split; [|split; [done|unfold absent; rewrite Ep; simpl; lia]]. split.
  - done.
  - done.
  - intros n' Hn'. by rewrite E3, E2.
  - intros p Hp Hpn Hnt. assert (p ≠ q) as Hpq by set_solver. assert (p ≠ pgdir) as Hpd by (intros ->; apply Hnt; by left).
    split; [set_solver|]. split.
    + intros [->|[->|(d & Hd & Hpp & Eq)]]%Pt3; [done|done|]. apply Hnt. right. exists d. unfold tab in *. by rewrite P2 in Hpp, Eq by done.
    + intros x Hx. rewrite O3, O2; [done| |]; intros Hx'; [by rewrite (pages_apart k p q x) in Hpq|].
      destruct (po_page _ _ _ H pgdir (or_introl eq_refl)) as [Hdp _]. by rewrite (pages_apart k p pgdir x) in Hpd.
  - by exists [q].
  - intros p Hp. rewrite Pt3. apply or_assoc. destruct Hp as [[->|Hp]%elem_of_cons|Hp]; [by left; right|by left; left|].
    right. destruct Hp as [->|(d & Hd & Hpp & ->)]; [by left|right]. exists d. unfold tab. by rewrite P2.
Qed.
End walk.

(** ** Mapping *)

(** The entries [f] with [cnt] pages from [v] on mapped to the frames from [pa] on. *)
Definition mapped (f : Z → Z) (v pa perm cnt : Z) (n : Z) : Z :=
  if decide (v ≤ n < v + cnt) then pa + 4096 * (n - v) + Z.lor perm 1 else f n.

Lemma mapped_step f v pa perm cnt n :
  1 ≤ cnt →
  mapped (λ n, if decide (n = v) then pa + Z.lor perm 1 else f n) (v + 1) (pa + 4096) perm (cnt - 1) n =
  mapped f v pa perm cnt n.
Proof. intros Hc. unfold mapped. repeat case_decide; lia. Qed.

Lemma set_entry pgdir k ps n pa perm :
  pt_ok k ps pgdir → 0 ≤ n < 2 ^ 20 → present (pde (k_mem k) pgdir (n / 1024)) = true →
  pa mod 4096 = 0 → 0 ≤ pa < 2 ^ 32 → 0 ≤ perm < 4096 →
  pt_eff pgdir k ps
    (set_mem (λ m, store32 m (tab (k_mem k) pgdir (n / 1024) + 4 * (n mod 1024)) (Z.lor (Z.lor pa perm) PTE_P)) k) ps
    (λ n', if decide (n' = n) then pa + Z.lor perm 1 else ent (k_mem k) pgdir n').
Proof.
  intros H Hn Hp H1 H2 H3. destruct (make_pte pa perm H1 H2 H3) as (fl & -> & _ & -> & _ & _ & Eu).
  eapply pt_eff_ext; [by apply set_pte|]. intros n' _. simpl. by repeat case_decide.
Qed.

(** One page of [mappages]: its table is found or made, and its entry stored. *)
Lemma map_step {A} pgdir v pa perm k ps (rest : K A) (fail : A) :
  pt_ok k ps pgdir → 0 ≤ v < 2 ^ 20 → pa mod 4096 = 0 → 0 ≤ pa < 2 ^ 32 → 0 ≤ perm < 4096 →
  present (ent (k_mem k) pgdir v) = false →
  (∃ k' ps', (pte ← walkpgdir pgdir (4096 * v) true;
       match pte with
       | None => mret fail
       | Some ptea =>
           e ← ld32 ptea;
           if present e then panic "remap" else
           st32 ptea (Z.lor (Z.lor pa perm) PTE_P);; rest
       end) k = rest k' ∧
     pt_eff pgdir k ps k' ps' (λ n, if decide (n = v) then pa + Z.lor perm 1 else ent (k_mem k) pgdir n) ∧
     length ps = (length ps' + absent (k_mem k) pgdir (v / 1024))%nat ∧ absent (k_mem k') pgdir (v / 1024) = O) ∨
  (ps = [] ∧ absent (k_mem k) pgdir (v / 1024) = 1%nat ∧
     (pte ← walkpgdir pgdir (4096 * v) true;
       match pte with
       | None => mret fail
       | Some ptea =>
           e ← ld32 ptea;
           if present e then panic "remap" else
           st32 ptea (Z.lor (Z.lor pa perm) PTE_P);; rest
       end) k = (Ok fail, k)).
Proof.
  intros H Hv Ha Hpa Hperm Hun.
  destruct (walkpgdir_alloc pgdir (4096 * v) v ltac:(lia) ltac:(rewrite Z.mul_comm, Z.div_mul by lia; done) k ps H)
    as [(k1 & ps1 & E1 & F1 & P1 & L1)|(-> & P1 & E1)]; [left|right; unfold absent; rewrite P1; by mstep E1].
  mstep E1. unfold ld32. rewrite bind_gets.
  assert (load32 (k_mem k1) (tab (k_mem k1) pgdir (v / 1024) + 4 * (v mod 1024)) = ent (k_mem k) pgdir v) as ->
    by (rewrite <- (pe_ent _ _ _ _ _ _ F1) by lia; unfold ent; by rewrite P1).
  rewrite Hun. unfold st32. rewrite bind_modify. set (k2 := set_mem _ k1). exists k2, ps1. split; [done|].
  assert (pt_eff pgdir k ps k2 ps1 (λ n', if decide (n' = v) then pa + Z.lor perm 1 else ent (k_mem k) pgdir n')) as F2.
  { eapply pt_eff_trans; [exact F1|]. eapply pt_eff_ext; [apply set_entry; try done; apply F1|].
    intros n Hn. simpl. case_decide; [done|]. by rewrite (pe_ent _ _ _ _ _ _ F1). }
  split; [done|]. split; [done|]. pose proof (pe_ent _ _ _ _ _ _ F2 v Hv) as Ev. cbn beta in Ev. destruct (decide (v = v)) as [_|]; [|done].
  destruct (make_pte pa perm Ha Hpa Hperm) as (fl & _ & _ & -> & Pp & _). unfold absent.
  unfold ent in Ev. destruct (present (pde (k_mem k2) pgdir (v / 1024))); [done|]. by rewrite <- Ev in Pp.
Qed.

(** The free pages that mapping [N + 1] pages from [v] on can take. *)
Definition need (m : mem) (pgdir v N : Z) : Z := (v + N) / 1024 - v / 1024 + Z.of_nat (absent m pgdir (v / 1024)).

Lemma need_step m m' pgdir v N :
  0 ≤ N → absent m' pgdir (v / 1024) = O →
  Z.of_nat (absent m pgdir (v / 1024)) + need m' pgdir (v + 1) N ≤ need m pgdir v (N + 1).
Proof.
  intros HN Ha. unfold need. replace (v + (N + 1)) with (v + 1 + N) by lia. destruct (decide ((v + 1) / 1024 = v / 1024)) as [E|E].
  - rewrite E, Ha. lia.
  - assert ((v + 1) / 1024 = v / 1024 + 1) as -> by zlia.
    assert (absent m' pgdir (v / 1024 + 1) ≤ 1)%nat by (unfold absent; destruct (present _); lia). lia.
Qed.

Lemma mappages_loop_spec N pgdir v pa perm k ps :
  pt_ok k ps pgdir → 0 ≤ v → v + Z.of_nat N < 2 ^ 20 → pa mod 4096 = 0 → 0 ≤ pa → pa + 4096 * Z.of_nat N < 2 ^ 32 →
  0 ≤ perm < 4096 → (∀ n, v ≤ n ≤ v + Z.of_nat N → present (ent (k_mem k) pgdir n) = false) →
  ∃ k' ps',
    (mappages_loop N pgdir (4096 * v) (4096 * (v + Z.of_nat N)) pa perm k = (Ok 0, k') ∧
     pt_eff pgdir k ps k' ps' (mapped (ent (k_mem k) pgdir) v pa perm (Z.of_nat N + 1)) ∧
     Z.of_nat (length ps) ≤ Z.of_nat (length ps') + need (k_mem k) pgdir v (Z.of_nat N)) ∨
    (mappages_loop N pgdir (4096 * v) (4096 * (v + Z.of_nat N)) pa perm k = (Ok (-1), k') ∧ ps' = [] ∧
     Z.of_nat (length ps) < need (k_mem k) pgdir v (Z.of_nat N) ∧
     ∃ j, 0 ≤ j ≤ Z.of_nat N ∧ pt_eff pgdir k ps k' [] (mapped (ent (k_mem k) pgdir) v pa perm j)).
Proof.
  revert v pa k ps. induction N as [|N IH]; intros v pa k ps H Hv HvN Ha Hpa HpaN Hperm Hun; cbn [mappages_loop];
    match goal with |- context [mbind (λ _, ?r) (st32 _ _)] => set (rest := r) end;
    destruct (map_step pgdir v pa perm k ps rest (-1) H ltac:(lia) Ha ltac:(lia) Hperm (Hun v ltac:(lia)))
       as [(k1 & ps1 & -> & F1 & L1 & A1)|(-> & A1 & ->)]; subst rest.
  - rewrite decide_True by lia. exists k1, ps1. left. split; [done|]. split; [|unfold need; zlia].
    eapply pt_eff_ext; [exact F1|]. intros n Hn. unfold mapped. simpl. repeat case_decide; lia.
  - exists k, []. right. split; [done|]. split; [done|]. split; [unfold need; simpl; rewrite A1; zlia|]. exists 0. split; [lia|].
    eapply pt_eff_ext; [by apply pt_eff_refl|]. intros n Hn. unfold mapped. by rewrite decide_False by lia.
  - rewrite decide_False by lia.
    replace (u32 (4096 * v + PGSIZE)) with (4096 * (v + 1)) by (rewrite u32_small; unfold PGSIZE; lia).
    replace (u32 (pa + PGSIZE)) with (pa + 4096) by (rewrite u32_small; unfold PGSIZE; lia).
    replace (4096 * (v + Z.of_nat (S N))) with (4096 * (v + 1 + Z.of_nat N)) by lia.
    destruct (IH (v + 1) (pa + 4096) k1 ps1) as (k' & ps' & IHc); try lia; try done.
    { apply F1. } { rewrite Z.add_mod, Ha by lia. done. }
    { intros n Hn. rewrite (pe_ent _ _ _ _ _ _ F1) by lia. rewrite decide_False by lia. apply Hun. lia. }
    assert (∀ cnt, 0 ≤ cnt → pt_eff pgdir k1 ps1 k' ps' (mapped (ent (k_mem k1) pgdir) (v + 1) (pa + 4096) perm cnt) →
      pt_eff pgdir k ps k' ps' (mapped (ent (k_mem k) pgdir) v pa perm (cnt + 1))) as Hlift.
    { intros cnt Hc F3. eapply pt_eff_ext; [eapply pt_eff_trans; [exact F1|exact F3]|]. intros n Hn.
      rewrite <- (mapped_step (ent (k_mem k) pgdir) v pa perm (cnt + 1) n) by lia. replace (cnt + 1 - 1) with cnt by lia.
      unfold mapped. case_decide; [done|]. by rewrite (pe_ent _ _ _ _ _ _ F1). }
    pose proof (need_step (k_mem k) (k_mem k1) pgdir v (Z.of_nat N) ltac:(lia) A1) as Hneed.
    rewrite Nat2Z.inj_succ. unfold Z.succ.
    exists k', ps'. destruct IHc as [(E3 & F3 & L3)|(E3 & -> & L3 & j & Hj & F3)].
    + left. split; [done|]. split; [|lia]. apply Hlift; [lia|done].
    + right. split; [done|]. split; [done|]. split; [lia|]. exists (j + 1). split; [lia|]. apply Hlift; [lia|done].
  - exists k, []. right. split; [done|]. split; [done|]. split; [unfold need; simpl; rewrite A1; zlia|]. exists 0. split; [lia|].
    eapply pt_eff_ext; [by apply pt_eff_refl|]. intros n Hn. unfold mapped. by rewrite decide_False by lia.
Qed.

(** [mappages] on whole pages is its loop. *)
Lemma mappages_pages pgdir v N pa perm :
  0 ≤ v → v + Z.of_nat N < 2 ^ 20 →
  mappages pgdir (4096 * v) (4096 * (Z.of_nat N + 1)) pa perm =
  mappages_loop N pgdir (4096 * v) (4096 * (v + Z.of_nat N)) pa perm.
Proof.
  intros Hv Hn. unfold mappages. rewrite !PGROUNDDOWN_spec, (u32_small (_ + _ - 1)) by lia. change PGSIZE with 4096.
  replace (4096 * v / 4096 * 4096) with (4096 * v) by zlia.
  replace ((4096 * v + 4096 * (Z.of_nat N + 1) - 1) / 4096 * 4096) with (4096 * (v + Z.of_nat N)) by zlia.
  rewrite u32_small by lia. replace ((4096 * (v + Z.of_nat N) - 4096 * v) / 4096) with (Z.of_nat N) by zlia. by rewrite Nat2Z.id.
Qed.

(** [mappages] on a page table in good order enters exactly the pages that
    the byte range touches, in order, each with its own frame, permission and the
    present bit; no other entry of the address space changes, no page outside the
    tables is touched, and the tables stay in good order.  It fails with -1 only
    when there are fewer free pages than tables to make. *)
Theorem mappages_correct pgdir va size pa perm k ps :
  pt_ok k ps pgdir → 0 ≤ va → 0 < size → va + size ≤ 2 ^ 32 → pa mod 4096 = 0 → 0 ≤ pa →
  va mod 4096 + size + pa ≤ 2 ^ 32 → 0 ≤ perm < 4096 →
  (∀ n, va / 4096 ≤ n ≤ (va + size - 1) / 4096 → present (ent (k_mem k) pgdir n) = false) →
  ∃ r k' ps' cnt, mappages pgdir va size pa perm k = (Ok r, k') ∧
    pt_eff pgdir k ps k' ps' (mapped (ent (k_mem k) pgdir) (va / 4096) pa perm cnt) ∧
    (r = 0 ∧ cnt = (va + size - 1) / 4096 - va / 4096 + 1 ∨
     r = -1 ∧ ps' = [] ∧ 0 ≤ cnt ≤ (va + size - 1) / 4096 - va / 4096 ∧
     Z.of_nat (length ps) < need (k_mem k) pgdir (va / 4096) ((va + size - 1) / 4096 - va / 4096)).
Proof.
  intros H Hv Hs Hvs Ha Hpa Hfit Hperm Hun. unfold mappages.
  rewrite !PGROUNDDOWN_spec. rewrite (u32_small (va + size - 1)) by lia. change PGSIZE with 4096.
  set (v := va / 4096) in *. set (l := (va + size - 1) / 4096) in *.
  assert (0 ≤ v ≤ l ∧ l < 2 ^ 20) as Hvl by (unfold v, l; zlia).
  rewrite u32_small by lia. replace (l * 4096 - v * 4096) with ((l - v) * 4096) by lia. rewrite Z.div_mul by lia.
  assert (pa + 4096 * (l - v) < 2 ^ 32) as Hb by (unfold v, l in *; zlia).
  destruct (mappages_loop_spec (Z.to_nat (l - v)) pgdir v pa perm k ps) as (k' & ps' & Hm); try done; try lia.
  { intros n Hn. apply Hun. lia. }
  rewrite !(Z.mul_comm _ 4096). rewrite !Z2Nat.id in Hm by lia. replace (v + (l - v)) with l in Hm by lia.
  destruct Hm as [(E & F & _)|(E & -> & HL & j & Hj & F)].
  - exists 0, k', ps', (l - v + 1). split; [done|]. split; [done|]. by left.
  - exists (-1), k', [], j. split; [done|]. split; [done|]. right. split_and!; try done; lia.
Qed.

#[local] Transparent load32.

(** A machine with [N] free pages and an empty page directory. *)
Definition demo_base : Z := KERNBASE + 0x400000.
Definition page_run (base N : Z) : list Z := map (λ i, base + 4096 * i) (seqZ 0 N).
Definition run_mem (base N : Z) : mem := λ a,
  let i := (a - base) / 4096 in let o := (a - base) mod 4096 in
  if decide (0 ≤ i < N - 1 ∧ o < 4) then u8 ((base + 4096 * (i + 1)) / 2 ^ (8 * o)) else 0.
Definition demo_vm (N : Z) : kernel := boot0 <| k_mem := run_mem demo_base N |> <| k_freelist := demo_base |>.
Definition demo_pgdir : Z := KERNBASE + 0x3ff000.

Lemma run_mem_next base N i :
  0 ≤ base → base + 4096 * N < 2 ^ 32 → 0 ≤ i < N →
  load32 (run_mem base N) (base + 4096 * i) = if decide (i < N - 1) then base + 4096 * (i + 1) else 0.
Proof.
  intros Hb Hn Hi. unfold load32, run_mem.
  assert (∀ j, 0 ≤ j < 4 → (base + 4096 * i + j - base) / 4096 = i ∧ (base + 4096 * i + j - base) mod 4096 = j) as Hj.
  { intros j Hj. replace (base + 4096 * i + j - base) with (j + i * 4096) by lia.
    rewrite Z.div_add, Z.mod_add by lia. by rewrite Z.div_small, Z.mod_small by lia. }
  pose proof (Hj 0 ltac:(lia)) as [E1 E2]. rewrite Z.add_0_r in E1, E2. rewrite E1, E2.
  destruct (Hj 1 ltac:(lia)) as [-> ->], (Hj 2 ltac:(lia)) as [-> ->], (Hj 3 ltac:(lia)) as [-> ->].
  destruct (decide (i < N - 1)).
  - rewrite !decide_True by lia. change (2 ^ (8 * 0)) with 1. change (2 ^ (8 * 1)) with 256. change (2 ^ (8 * 2)) with 65536.
    change (2 ^ (8 * 3)) with 16777216. rewrite Z.div_1_r. zlia.
  - by rewrite !decide_False by lia.
Qed.

Lemma run_chain base N i n :
  0 ≤ base → base + 4096 * N < 2 ^ 32 → 0 ≤ i → i + Z.of_nat n = N →
  chain (run_mem base N) (if decide (i < N) then base + 4096 * i else 0) (map (λ i, base + 4096 * i) (seqZ i (Z.of_nat n))).
Proof.
  intros Hb HN. revert i. induction n as [|n IH]; intros i Hi Hn.
  { rewrite decide_False by lia. done. }
  rewrite seqZ_cons by lia. replace (Z.pred (Z.of_nat (S n))) with (Z.of_nat n) by lia. cbn [map chain].
  rewrite decide_True by lia. split; [done|]. rewrite run_mem_next by lia.
  specialize (IH (Z.succ i) ltac:(lia) ltac:(lia)). unfold Z.succ in *. by repeat case_decide; try lia.
Qed.

Lemma demo_kmem N : 0 < N < 50000 → kmem_ok (demo_vm N) (page_run demo_base N) ∧ kmem_quiet (demo_vm N).
Proof.
  intros HN. split.
  - split.
    + pose proof (run_chain demo_base N 0 (Z.to_nat N) ltac:(done)) as C. rewrite decide_True in C by lia.
      rewrite Z2Nat.id, Z.mul_0_r, Z.add_0_r in C by lia. apply C; unfold demo_base, KERNBASE; lia.
    + apply Forall_forall. intros p (i & -> & Hi%elem_of_seqZ)%list_elem_of_fmap.
      unfold page_ok, demo_base, KERNBASE, PGSIZE, PHYSTOP. split_and!; [|simpl; unfold KERNBASE; lia|lia|lia].
      replace (2147483648 + 4194304 + 4096 * i) with ((525312 + i) * 4096) by lia. apply Z.mod_mul. lia.
    + apply NoDup_fmap_2; [intros x y E; lia|]. apply NoDup_seqZ.
  - exists O, cpu0. split; [split; try done; simpl; lia|]. split; [simpl; lia|done].
Qed.

Lemma demo_zero N a : a < demo_base → k_mem (demo_vm N) a = 0.
Proof.
  intros Ha. unfold demo_vm, run_mem, upd. simpl. rewrite decide_False; [done|]. intros [[H _] _].
  assert ((a - demo_base) / 4096 < 0) by (apply Z.div_lt_upper_bound; lia). lia.
Qed.

Lemma demo_pde N d : 0 ≤ d < 1024 → pde (k_mem (demo_vm N)) demo_pgdir d = 0.
Proof. intros Hd. unfold pde, load32. rewrite !demo_zero by (unfold demo_pgdir, demo_base, KERNBASE; lia). done. Qed.

Lemma demo_pt N : 0 < N < 50000 →
  pt_ok (demo_vm N) (page_run demo_base N) demo_pgdir ∧ (∀ n, 0 ≤ n < 2 ^ 20 → ent (k_mem (demo_vm N)) demo_pgdir n = 0).
Proof.
  intros HN. destruct (demo_kmem N HN) as [H1 H2].
  pose proof (demo_pde N) as Hz.
  split.
  - split; try done.
    + intros a. unfold demo_vm, run_mem, upd. simpl. case_decide; zlia.
    + intros p [->|(d & Hd & Hp & _)]; [|by rewrite Hz in Hp].
      split; [split; [reflexivity|]; vm_compute; intuition discriminate|].
      intros (i & E & Hi%elem_of_seqZ)%list_elem_of_fmap. unfold demo_pgdir, demo_base, KERNBASE in E. lia.
    + intros d Hd Hp. by rewrite Hz in Hp.
    + intros d d' Hd Hd' Hp. by rewrite Hz in Hp.
  - intros n Hn. unfold ent. by rewrite Hz by (apply vpn_parts; done).
Qed.

Lemma mappages_correct_witness :
  ∃ r k' ps' cnt, mappages demo_pgdir 0x1234 0x5000 0x200000 2 (demo_vm 5) = (Ok r, k') ∧
    pt_eff demo_pgdir (demo_vm 5) (page_run demo_base 5) k' ps'
      (mapped (ent (k_mem (demo_vm 5)) demo_pgdir) (0x1234 / 4096) 0x200000 2 cnt) ∧
    (r = 0 ∧ cnt = (0x1234 + 0x5000 - 1) / 4096 - 0x1234 / 4096 + 1 ∨
     r = -1 ∧ ps' = [] ∧ 0 ≤ cnt ≤ (0x1234 + 0x5000 - 1) / 4096 - 0x1234 / 4096 ∧
     Z.of_nat (length (page_run demo_base 5)) <
       need (k_mem (demo_vm 5)) demo_pgdir (0x1234 / 4096) ((0x1234 + 0x5000 - 1) / 4096 - 0x1234 / 4096)).
Proof.
  apply (mappages_correct demo_pgdir 0x1234 0x5000 0x200000 2 (demo_vm 5) (page_run demo_base 5)).
  - apply demo_pt. lia.
  - lia.
  - lia.
  - lia.
  - reflexivity.
  - lia.
  - vm_compute. discriminate.
  - lia.
  - intros n Hn. rewrite (proj2 (demo_pt 5 ltac:(lia))); [reflexivity|].
    change (0x1234 / 4096) with 1 in Hn. change ((0x1234 + 0x5000 - 1) / 4096) with 6 in Hn. lia.
Defined.
