(* ===== verification/Proc.v ===== *)
(** * Processes (proc.c)

    Creation, exit and waiting, and the scheduler.  Trap frames and saved contexts
    are bytes of the kernel stack at [p_tf] and [p_context].  A routine that gives
    up the processor ends in [Swtch]; [wait_loop] and [scheduler_resume] are where
    it goes on. *)

From S2P Require Import Prelude Memory Strings State Spinlock Cons Sched Kalloc Sleeplock BufList Bio Log Fs Pipe File Vm.

(** ** Trap frames and contexts in memory *)

(** Offsets in struct trapframe and struct context. *)
Notation tf_ebx := 16 (only parsing).
Notation tf_edx := 20 (only parsing).
Notation tf_ecx := 24 (only parsing).
Notation tf_eax := 28 (only parsing).
Notation tf_es := 40 (only parsing).
Notation tf_ds := 44 (only parsing).
Notation tf_trapno := 48 (only parsing).
Notation tf_err := 52 (only parsing).
Notation tf_eip := 56 (only parsing).
Notation tf_cs := 60 (only parsing).
Notation tf_eflags := 64 (only parsing).
Notation tf_esp := 68 (only parsing).
Notation tf_ss := 72 (only parsing).
Definition tf_size : Z := 76.
Notation context_ebp := 12 (only parsing).
Notation context_eip := 16 (only parsing).
Definition context_size : Z := 20.

Definition store16 (m : mem) (a v : Z) : mem := store8 (store8 m a v) (a + 1) (v / 2 ^ 8).
Definition load16 (m : mem) (a : Z) : Z := m a + 2 ^ 8 * m (a + 1).
Definition st16 (a v : Z) : K unit := modify (set_mem (λ m, store16 m a v)).
Definition ld16 (a : Z) : K Z := gets (λ k, load16 (k_mem k) a).

(** Segment selectors and the interrupt flag (mmu.h). *)
Definition SEG_UCODE : Z := 3.
Definition SEG_UDATA : Z := 4.
Definition DPL_USER : Z := 3.
Definition FL_IF : Z := 0x200.

(** *np->tf = *curproc->tf. *)
Definition copy_tf (dst src : Z) : K unit :=
  modify (set_mem (λ m, write_bytes m dst (read_bytes m src (Z.to_nat tf_size)))).

(** safestrcpy(dst, src, 16) on the buffer of a process name. *)
Definition copy_name (dst src : list Z) : list Z := splice dst 0 (safestrcpy_bytes (at_bytes src) 16).

(** ** Creation *)

Fixpoint unused_proc (l : list proc) (i : nat) : option nat :=
  match l with
  | [] => None
  | p :: l' => if decide (p_state p = UNUSED) then Some i else unused_proc l' (S i)
  end.

Definition allocproc : K (option nat) :=
  acquire L_ptable;;
  l ← gets k_procs;
  match unused_proc l 0 with
  | None => release L_ptable;; mret None
  | Some i =>
      pid ← gets k_nextpid;
      modify (λ k, k <| k_nextpid := i32 (pid + 1) |>);;
      upd_proc i (λ p, p <| p_state := EMBRYO |> <| p_pid := pid |>);;
      release L_ptable;;
      ks ← kalloc;
      upd_proc i (λ p, p <| p_kstack := ks |>);;
      if decide (ks = 0) then
        upd_proc i (λ p, p <| p_state := UNUSED |>);;
        mret None
      else
      img ← gets k_img;
      let tf := ks + KSTACKSIZE - tf_size in
      upd_proc i (λ p, p <| p_tf := tf |>);;
      st32 (tf - 4) (img_trapret img);;
      let cx := tf - 4 - context_size in
      upd_proc i (λ p, p <| p_context := cx |>);;
      modify (set_mem (λ m, memset m cx 0 context_size));;
      st32 (cx + context_eip) (img_forkret img);;
      upd_proc i (λ p, p <| p_isthread := false |>);;
      mret (Some i)
  end.

Definition set_runnable (i : nat) : K unit :=
  acquire L_ptable;;
  upd_proc i (λ p, p <| p_state := RUNNABLE |>);;
  release L_ptable.

Definition initcode_name : list Z := [105; 110; 105; 116; 99; 111; 100; 101].

Section userinit.
Context `{DevSw}.
Definition userinit : K unit :=
  o ← allocproc;
  match o with
  | None => wild
  | Some i =>
      modify (λ k, k <| k_initproc := Some i |>);;
      pgdir ← setupkvm;
      upd_proc i (λ p, p <| p_pgdir := pgdir |>);;
      if decide (pgdir = 0) then panic "userinit: out of memory?" else
      img ← gets k_img;
      inituvm pgdir (img_initcode img) (Z.of_nat (length (img_initcode img)));;
      upd_proc i (λ p, p <| p_sz := PGSIZE |>);;
      p ← the_proc i;
      let tf := p_tf p in
      modify (set_mem (λ m, memset m tf 0 tf_size));;
      st16 (tf + tf_cs) (Z.lor (Z.shiftl SEG_UCODE 3) DPL_USER);;
      st16 (tf + tf_ds) (Z.lor (Z.shiftl SEG_UDATA 3) DPL_USER);;
      ds ← ld16 (tf + tf_ds);
      st16 (tf + tf_es) ds;;
      st16 (tf + tf_ss) ds;;
      st32 (tf + tf_eflags) FL_IF;;
      st32 (tf + tf_esp) PGSIZE;;
      st32 (tf + tf_eip) 0;;
      upd_proc i (λ p, p <| p_name ::= λ n, copy_name n initcode_name |>);;
      cwd ← namei [SLASH];
      upd_proc i (λ p, p <| p_cwd := cwd |>);;
      set_runnable i
  end.
End userinit.

Definition growproc (n : Z) : K Z :=
  c ← curproc;
  p ← the_proc c;
  let sz := p_sz p in
  r ← (if decide (n > 0) then allocuvm (p_pgdir p) sz (u32 (sz + n)) else
       if decide (n < 0) then deallocuvm (p_pgdir p) sz (u32 (sz + n)) else mret sz);
  if decide (n ≠ 0 ∧ r = 0) then mret (-1) else
  upd_proc c (λ p, p <| p_sz := r |>);;
  switchuvm (Some c);;
  mret 0.

(** One iteration of the loop of [fork] over the open files. *)
Definition fork_file (c np : nat) (i : nat) : K unit :=
  p ← the_proc c;
  match nth i (p_ofile p) None with
  | Some f => f' ← filedup f; upd_proc np (λ p, p <| p_ofile ::= <[i := Some f']> |>)
  | None => mret tt
  end.

Definition fork : K Z :=
  c ← curproc;
  o ← allocproc;
  match o with
  | None => mret (-1)
  | Some np =>
      p ← the_proc c;
      d ← copyuvm (p_pgdir p) (p_sz p);
      upd_proc np (λ p, p <| p_pgdir := d |>);;
      q ← the_proc np;
      if decide (d = 0) then
        kfree (p_kstack q);;
        upd_proc np (λ p, p <| p_kstack := 0 |> <| p_state := UNUSED |>);;
        mret (-1)
      else
      upd_proc np (λ q, q <| p_sz := p_sz p |> <| p_parent := Some c |>);;
      copy_tf (p_tf q) (p_tf p);;
      st32 (p_tf q + tf_eax) 0;;
      each (fork_file c np) (seq 0 NOFILE);;
      cwd ← (match p_cwd p with Some i => idup i | None => wild end);
      upd_proc np (λ q, q <| p_cwd := Some cwd |>);;
      upd_proc np (λ q, q <| p_name ::= λ n, copy_name n (p_name p) |>);;
      q ← the_proc np;
      let pid := p_pid q in
      set_runnable np;;
      mret pid
  end.

(** A thread: a process that shares the page table and the open files. *)
Definition clone (stack size : Z) : K Z :=
  c ← curproc;
  o ← allocproc;
  match o with
  | None => mret (-1)
  | Some np =>
      p ← the_proc c;
      upd_proc np (λ q, q <| p_pgdir := p_pgdir p |> <| p_sz := p_sz p |> <| p_parent := Some c |>);;
      q ← the_proc np;
      copy_tf (p_tf q) (p_tf p);;
      upd_proc np (λ q, q <| p_stack := stack |> <| p_isthread := true |> <| p_stacksize := size |>);;
      st32 (p_tf q + tf_eax) 0;;
      st32 (p_tf q + tf_esp) (u32 (stack + size));;
      each (λ i, upd_proc np (λ q, q <| p_ofile ::= <[i := nth i (p_ofile p) None]> |>)) (seq 0 NOFILE);;
      upd_proc np (λ q, q <| p_cwd := p_cwd p |>);;
      upd_proc np (λ q, q <| p_name ::= λ n, copy_name n (p_name p) |>);;
      q ← the_proc np;
      let pid := p_pid q in
      set_runnable np;;
      mret pid
  end.

(** ** Exit and wait *)

(** One iteration of the loop of [exit] over the open files. *)
Definition exit_file (c : nat) (fd : nat) : K unit :=
  p ← the_proc c;
  match nth fd (p_ofile p) None with
  | Some f => fileclose f;; upd_proc c (λ p, p <| p_ofile ::= <[fd := None]> |>)
  | None => mret tt
  end.

(** wakeup1 on a process pointer, which may be null. *)
Definition wakeup1_proc (p : option nat) : K unit :=
  match p with
  | Some i => wakeup1 (C_proc i)
  | None => each (λ i, upd_proc i (λ p,
      if decide (p_state p = SLEEPING ∧ p_chan p = None) then p <| p_state := RUNNABLE |> else p)) (seq 0 NPROC)
  end.

(** One iteration of the loop of [exit] that passes children to init. *)
Definition exit_child (c : nat) (i : nat) : K unit :=
  p ← the_proc i;
  init ← gets k_initproc;
  when (bool_decide (p_parent p = Some c))
    (upd_proc i (λ p, p <| p_parent := init |>);;
     when (bool_decide (p_state p = ZOMBIE)) (wakeup1_proc init)).

Definition exit : K unit :=
  c ← curproc;
  init ← gets k_initproc;
  if decide (init = Some c) then panic "init exiting" else
  p ← the_proc c;
  when (negb (p_isthread p)) (each (exit_file c) (seq 0 NOFILE));;
  begin_op;;
  when (negb (p_isthread p)) (match p_cwd p with Some i => iput i | None => wild end);;
  end_op;;
  upd_proc c (λ p, p <| p_cwd := None |>);;
  acquire L_ptable;;
  p ← the_proc c;
  wakeup1_proc (p_parent p);;
  each (exit_child c) (seq 0 NPROC);;
  upd_proc c (λ p, p <| p_state := ZOMBIE |>);;
  sched;;
  panic "zombie exit".

(** The entry of a reaped child. *)
Definition reaped (p : proc) : proc :=
  p <| p_kstack := 0 |> <| p_pid := 0 |> <| p_parent := None |> <| p_name ::= <[O := 0]> |>
    <| p_killed := false |> <| p_state := UNUSED |>.

(** The scan of [wait]: the pid of a child that has exited, or whether there is a child. *)
Fixpoint wait_scan (c : nat) (l : list nat) (havekids : bool) : K (Z + bool) :=
  match l with
  | [] => mret (inr havekids)
  | i :: l' =>
      p ← the_proc i;
      if decide (p_parent p ≠ Some c) then wait_scan c l' havekids else
      if decide (p_state p = ZOMBIE) then
        kfree (p_kstack p);;
        when (negb (p_isthread p)) (freevm (p_pgdir p));;
        upd_proc i reaped;;
        release L_ptable;;
        mret (inl (p_pid p))
      else wait_scan c l' true
  end.
Definition wait_loop (c : nat) : K Z :=
  r ← wait_scan c (seq 0 NPROC) false;
  match r with
  | inl pid => mret pid
  | inr havekids =>
      p ← the_proc c;
      if negb havekids || p_killed p then release L_ptable;; mret (-1) else
      sleep (C_proc c) L_ptable;;
      mret 0
  end.
Definition wait : K Z :=
  c ← curproc;
  acquire L_ptable;;
  wait_loop c.
Definition wait_resume (c : nat) (intena : bool) : K Z :=
  sleep_return L_ptable intena;;
  wait_loop c.

(** ** The scheduler

    [scheduler_scan] returns the process the processor switches to; it runs until
    it switches back, and [scheduler_resume] goes on behind it. *)

Definition scheduler_start : K nat :=
  c ← mycpu;
  upd_cpu c (λ x, x <| c_proc := None |>);;
  mret c.
Fixpoint scheduler_scan (c : nat) (l : list nat) : K (option nat) :=
  match l with
  | [] => release L_ptable;; mret None
  | i :: l' =>
      p ← the_proc i;
      if decide (p_state p ≠ RUNNABLE) then scheduler_scan c l' else
      upd_cpu c (λ x, x <| c_proc := Some i |>);;
      switchuvm (Some i);;
      upd_proc i (λ p, p <| p_state := RUNNING |>);;
      mret (Some i)
  end.
Definition scheduler_round (c : nat) : K (option nat) :=
  sti;;
  acquire L_ptable;;
  scheduler_scan c (seq 0 NPROC).
Definition scheduler_resume (c i : nat) : K (option nat) :=
  switchkvm;;
  upd_cpu c (λ x, x <| c_proc := None |>);;
  scheduler_scan c (seq (S i) (NPROC - S i)).

Definition forkret : K unit :=
  release L_ptable;;
  first ← gets k_first;
  when first
    (modify (λ k, k <| k_first := false |>);;
     iinit ROOTDEV;;
     initlog ROOTDEV).

(** ** Listing *)

(** spinlock.c: getcallerpcs(v, pcs), the return addresses found by following the
    saved %ebp chain from [v - 2] words, padded with zeros to ten. *)
Fixpoint callerpcs_loop (m : mem) (ebp : Z) (n : nat) : list Z :=
  match n with
  | O => []
  | S n' =>
      if decide (ebp = 0 ∨ ebp < KERNBASE ∨ ebp = 0xffffffff) then replicate n 0
      else load32 m (ebp + 4) :: callerpcs_loop m (load32 m ebp) n'
  end.
Definition getcallerpcs (m : mem) (v : Z) : list Z := callerpcs_loop m (u32 (v - 8)) 10.

Definition state_name (s : procstate) : string :=
  match s with
  | UNUSED => "unused" | EMBRYO => "embryo" | SLEEPING => "sleep "
  | RUNNABLE => "runble" | RUNNING => "run   " | ZOMBIE => "zombie"
  end.
Definition procdump : K unit :=
  each (λ i,
    p ← the_proc i;
    when (bool_decide (p_state p ≠ UNUSED))
      (cprintf "%d %s %s" [PInt (p_pid p); PStr (ascii_codes (state_name (p_state p))); PStr (p_name p)];;
       m ← gets k_mem;
       when (bool_decide (p_state p = SLEEPING))
         (each (λ pc, cprintf " %p" [PInt pc])
            (until_zero (getcallerpcs m (load32 m (p_context p + context_ebp) + 8))));;
       cprintf nl [])) (seq 0 NPROC).
