(* ===== verification/Syscall.v ===== *)
(** * System call arguments (syscall.c) and process calls (sysproc.c)

    The arguments are words of the user stack, read through the page table in use.
    A string argument is returned as its characters: the code returns a pointer
    and reads the characters when it uses them.  An error return of -1 with an
    output argument is [None]. *)

From S2P Require Import Prelude Memory Strings State Spinlock Sched Kalloc Sleeplock BufList Bio Log Fs Pipe File Vm Proc.

(** ** Fetching *)

Definition fetchint (addr : Z) : K (option Z) :=
  c ← curproc;
  p ← the_proc c;
  if decide (p_sz p ≤ addr ∨ u32 (addr + 4) > p_sz p) then mret None else
  pgdir ← cur_pgdir;
  bs ← user_read pgdir addr 4;
  mret (Some (i32 (get32 bs 0))).

(** The scan of [fetchstr] over at most [n] bytes. *)
Fixpoint fetchstr_loop (n : nat) (pgdir s : Z) (acc : list Z) : K (option (list Z)) :=
  match n with
  | O => mret None
  | S n' =>
      b ← user_read8 pgdir s;
      if decide (b = 0) then mret (Some acc) else fetchstr_loop n' pgdir (s + 1) (acc ++ [b])
  end.
Definition fetchstr (addr : Z) : K (option (list Z)) :=
  c ← curproc;
  p ← the_proc c;
  if decide (p_sz p ≤ addr) then mret None else
  pgdir ← cur_pgdir;
  fetchstr_loop (Z.to_nat (p_sz p - addr)) pgdir addr [].

Definition argint (n : Z) : K (option Z) :=
  c ← curproc;
  p ← the_proc c;
  esp ← ld32 (p_tf p + tf_esp);
  fetchint (u32 (esp + 4 + 4 * n)).

Definition argptr (n size : Z) : K (option Z) :=
  c ← curproc;
  p ← the_proc c;
  i ← argint n;
  match i with
  | None => mret None
  | Some i =>
      if decide (size < 0 ∨ p_sz p ≤ u32 i ∨ u32 (u32 i + size) > p_sz p) then mret None
      else mret (Some (u32 i))
  end.

Definition argstr (n : Z) : K (option (list Z)) :=
  a ← argint n;
  match a with
  | None => mret None
  | Some a => fetchstr (u32 a)
  end.

(** Go on with a fetched argument, or return -1. *)
Definition with_arg {A} (m : K (option A)) (f : A → K Z) : K Z :=
  a ← m;
  match a with Some a => f a | None => mret (-1) end.
Notation "'let?' x := m 'in' f" := (with_arg m (λ x, f))
  (at level 200, x name, right associativity).

(** ** sysproc.c *)

Definition sys_fork : K Z := fork.
Definition sys_exit : K Z := exit;; mret 0.
Definition sys_wait : K Z := wait.
Definition sys_kill : K Z := let? pid := argint 0 in kill pid.
Definition sys_getpid : K Z := c ← curproc; p ← the_proc c; mret (p_pid p).

Definition sys_sbrk : K Z :=
  let? n := argint 0 in
  c ← curproc;
  p ← the_proc c;
  let addr := i32 (p_sz p) in
  r ← growproc n;
  if decide (r < 0) then mret (-1) else mret addr.

(** The loop of [sys_sleep]; the comparison is unsigned. *)
Definition sys_sleep_loop (ticks0 n : Z) : K Z :=
  t ← gets k_ticks;
  if decide (u32 (t - ticks0) < u32 n) then
    c ← curproc;
    p ← the_proc c;
    if p_killed p then release L_ticks;; mret (-1) else
    sleep C_ticks L_ticks;;
    mret 0
  else release L_ticks;; mret 0.
Definition sys_sleep : K Z :=
  let? n := argint 0 in
  acquire L_ticks;;
  ticks0 ← gets k_ticks;
  sys_sleep_loop ticks0 n.
Definition sys_sleep_resume (ticks0 n : Z) (intena : bool) : K Z :=
  sleep_return L_ticks intena;;
  sys_sleep_loop ticks0 n.

Definition sys_uptime : K Z :=
  acquire L_ticks;;
  x ← gets k_ticks;
  release L_ticks;;
  mret (i32 x).

Definition sys_clone : K Z :=
  let? stackptr := argint 0 in
  let? stacksize := argint 1 in
  clone (u32 stackptr) stacksize.
