(* ===== verification/Exec.v ===== *)
(** * Loading programs (exec.c)

    The ELF headers are read from the file as bytes; [argv] is a list of strings. *)

From S2P Require Import Prelude Memory Strings State Spinlock Cons Sched Kalloc Sleeplock BufList Bio Log Fs Pipe File Vm Proc.

(** ** elf.h *)

Definition ELF_MAGIC : Z := 0x464C457F.
Definition ELF_PROG_LOAD : Z := 1.
Record elfhdr := Elfhdr { elf_magic : Z; elf_entry : Z; elf_phoff : Z; elf_phnum : Z }.
Definition sizeof_elfhdr : Z := 52.
Definition get_elfhdr (d : list Z) : elfhdr := Elfhdr (get32 d 0) (get32 d 24) (get32 d 28) (get16 d 44).
Record proghdr := Proghdr { ph_type : Z; ph_off : Z; ph_vaddr : Z; ph_filesz : Z; ph_memsz : Z }.
Definition sizeof_proghdr : Z := 32.
Definition get_proghdr (d : list Z) : proghdr :=
  Proghdr (get32 d 0) (get32 d 4) (get32 d 8) (get32 d 16) (get32 d 20).

(** ** exec *)

(** The exit at the label bad. *)
Definition exec_bad (pgdir : Z) (ip : option nat) : K Z :=
  when (bool_decide (pgdir ≠ 0)) (freevm pgdir);;
  (match ip with Some i => iunlockput i;; end_op | None => mret tt end);;
  mret (-1).

(** The path element behind the last slash. *)
Fixpoint last_elem (s last : list Z) : list Z :=
  match s with
  | [] => last
  | c :: s' => if decide (c = SLASH) then last_elem s' s' else last_elem s' last
  end.

(** A word of the array [ustack] as bytes. *)
Definition word_bytes (v : Z) : list Z := put32 (replicate 4 0) 0 v.

(** The loop that pushes the argument strings: the stack pointer and the addresses. *)
Fixpoint push_args (pgdir : Z) (argv : list (list Z)) (argc : nat) (sp : Z) (ustack : list Z) :
    K (option (Z * list Z)) :=
  match argv with
  | [] => mret (Some (sp, ustack))
  | a :: argv' =>
      if decide (MAXARG ≤ argc)%nat then mret None else
      let sp := Z.land (u32 (sp - (Z.of_nat (length a) + 1))) (Z.lnot 3) in
      r ← copyout pgdir sp (a ++ [0]);
      if decide (r < 0) then mret None else
      push_args pgdir argv' (S argc) sp (ustack ++ [sp])
  end.

Section exec.
Context `{DevSw}.

(** The loop over the program headers: [n] are left, the next one is at [off]. *)
Fixpoint load_segments (n : nat) (ip : nat) (pgdir off sz : Z) : K (option Z) :=
  match n with
  | O => mret (Some sz)
  | S n' =>
      '(r, d) ← readi ip (u32 off) sizeof_proghdr;
      if decide (r ≠ sizeof_proghdr) then mret None else
      let ph := get_proghdr d in
      if decide (ph_type ph ≠ ELF_PROG_LOAD) then load_segments n' ip pgdir (off + sizeof_proghdr) sz else
      if decide (ph_memsz ph < ph_filesz ph) then mret None else
      if decide (u32 (ph_vaddr ph + ph_memsz ph) < ph_vaddr ph) then mret None else
      sz ← allocuvm pgdir sz (u32 (ph_vaddr ph + ph_memsz ph));
      if decide (sz = 0) then mret None else
      if decide (ph_vaddr ph mod PGSIZE ≠ 0) then mret None else
      r ← loaduvm pgdir (ph_vaddr ph) ip (ph_off ph) (ph_filesz ph);
      if decide (r < 0) then mret None else
      load_segments n' ip pgdir (off + sizeof_proghdr) sz
  end.

(** From the stack on: the new image has the size [sz]. *)
Definition exec_commit (path : list Z) (argv : list (list Z)) (pgdir sz entry : Z) : K Z :=
  let sz := PGROUNDUP sz in
  sz ← allocuvm pgdir sz (u32 (sz + 2 * PGSIZE));
  if decide (sz = 0) then exec_bad pgdir None else
  clearpteu pgdir (u32 (sz - 2 * PGSIZE));;
  a ← push_args pgdir argv 0 sz [];
  match a with
  | None => exec_bad pgdir None
  | Some (sp, args) =>
      let argc := Z.of_nat (length args) in
      let ustack := [0xffffffff; argc; u32 (sp - (argc + 1) * 4)] ++ args ++ [0] in
      let sp := u32 (sp - (3 + argc + 1) * 4) in
      r ← copyout pgdir sp (concat (map word_bytes ustack));
      if decide (r < 0) then exec_bad pgdir None else
      c ← curproc;
      upd_proc c (λ p, p <| p_name ::= λ n, copy_name n (last_elem path path) |>);;
      p ← the_proc c;
      let oldpgdir := p_pgdir p in
      upd_proc c (λ p, p <| p_pgdir := pgdir |> <| p_sz := sz |>);;
      st32 (p_tf p + tf_eip) entry;;
      st32 (p_tf p + tf_esp) sp;;
      switchuvm (Some c);;
      freevm oldpgdir;;
      mret 0
  end.

Definition exec (path : list Z) (argv : list (list Z)) : K Z :=
  begin_op;;
  o ← namei path;
  match o with
  | None => end_op;; cprintf ("exec: fail" +:+ nl) [];; mret (-1)
  | Some ip =>
      ilock ip;;
      '(r, d) ← readi ip 0 sizeof_elfhdr;
      if decide (r ≠ sizeof_elfhdr) then exec_bad 0 (Some ip) else
      let elf := get_elfhdr d in
      if decide (elf_magic elf ≠ ELF_MAGIC) then exec_bad 0 (Some ip) else
      pgdir ← setupkvm;
      if decide (pgdir = 0) then exec_bad 0 (Some ip) else
      s ← load_segments (Z.to_nat (elf_phnum elf)) ip pgdir (i32 (elf_phoff elf)) 0;
      match s with
      | None => exec_bad pgdir (Some ip)
      | Some sz =>
          iunlockput ip;;
          end_op;;
          exec_commit path argv pgdir sz (elf_entry elf)
      end
  end.
End exec.
