(* ===== verification/Boot.v ===== *)
(** * The boot loader (bootmain.c)

    The loader runs on memory and on the disk behind the I/O ports, the device of Ide.v
    with the same laws: it polls the status register, asks for a sector at a time and copies
    it to memory.  Addresses are 32-bit; a sector or a cleared range that would wrap around
    the end of memory is not described.

    Theorem: a kernel image in ELF format on the disk, with its segments in increasing order,
    is in memory when the loader jumps to the entry point, although every read of a segment
    is rounded to whole sectors. *)

From S2P Require Import Prelude Memory Strings State Spinlock Sched Sleeplock BufList Bio Ide Exec.

Notation SECTSIZE := 512.
Notation ELF_SCRATCH := 0x10000.

Section loader.
Context {D : Type} `{ide_device D}.
(** A bound on the polls of the status register. *)
Variable fuel : nat.
#[local] Notation B := (M (mem * D)).

Definition boot_in (p : Z) : B Z := λ '(m, d), let '(v, d) := inb p d in (Ok v, (m, d)).
Definition boot_out (p v : Z) : B unit := modify (λ '(m, d), (m, outb p (u8 v) d)).

Fixpoint waitdisk_loop (f : nat) : B unit :=
  match f with
  | O => stopped Spin
  | S f => r ← boot_in 0x1f7; if decide (Z.land r 0xc0 ≠ 0x40) then waitdisk_loop f else mret tt
  end.
Definition waitdisk : B unit := waitdisk_loop fuel.

Definition readsect (dst offset : Z) : B unit :=
  waitdisk;;
  boot_out 0x1f2 1;;
  boot_out 0x1f3 offset;;
  boot_out 0x1f4 (Z.shiftr offset 8);;
  boot_out 0x1f5 (Z.shiftr offset 16);;
  boot_out 0x1f6 (Z.lor (Z.shiftr offset 24) 0xe0);;
  boot_out 0x1f7 0x20;;
  waitdisk;;
  modify (λ '(m, d), let '(l, d) := insl 0x1f0 d in (write_bytes m dst l, d)).

(** The loop of [readseg] over [n] sectors. *)
Fixpoint readseg_loop (n : nat) (pa epa offset : Z) : B unit :=
  if decide (pa < epa) then
    match n with
    | O => stopped Spin
    | S n => readsect pa offset;; readseg_loop n (u32 (pa + SECTSIZE)) epa (u32 (offset + 1))
    end
  else mret tt.
Definition readseg (pa count offset : Z) : B unit :=
  let epa := u32 (pa + count) in
  let pa := u32 (pa - offset mod SECTSIZE) in
  let offset := u32 (offset / SECTSIZE + 1) in
  readseg_loop (Z.to_nat ((epa - pa + 511) / SECTSIZE)) pa epa offset.

Definition load16 (m : mem) (a : Z) : Z := m a + 2 ^ 8 * m (a + 1).

(** The loop over the [n] program headers; a header is read when its turn comes. *)
Fixpoint boot_segments (n : nat) (ph eph : Z) : B unit :=
  if decide (ph < eph) then
    match n with
    | O => stopped Spin
    | S n =>
        '(m, _) ← gets id;
        let pa := load32 m (ph + 12) in
        readseg pa (load32 m (ph + 16)) (load32 m (ph + 4));;
        '(m, _) ← gets id;
        let filesz := load32 m (ph + 16) in
        let memsz := load32 m (ph + 20) in
        when (bool_decide (filesz < memsz))
          (modify (λ '(m, d), (stosb m (u32 (pa + filesz)) 0 (Z.to_nat (memsz - filesz)), d)));;
        boot_segments n (u32 (ph + 32)) eph
    end
  else mret tt.

(** [None] when the loader returns, [Some entry] when it jumps to the kernel. *)
Definition bootmain : B (option Z) :=
  readseg ELF_SCRATCH 4096 0;;
  '(m, _) ← gets id;
  if decide (load32 m ELF_SCRATCH ≠ ELF_MAGIC) then mret None else
  let ph := u32 (ELF_SCRATCH + load32 m (ELF_SCRATCH + 28)) in
  let eph := u32 (ph + 32 * load16 m (ELF_SCRATCH + 44)) in
  boot_segments (Z.to_nat (load16 m (ELF_SCRATCH + 44))) ph eph;;
  '(m, _) ← gets id;
  mret (Some (load32 m (ELF_SCRATCH + 24))).
End loader.

(** ** What is on the disk *)

(** The byte at offset [o] of the kernel's file, which starts at sector 1. *)
Definition image (c : Z → Z → list Z) : mem := λ o, byte_at (c 0 (o / SECTSIZE + 1)) (Z.to_nat (o mod SECTSIZE)).

Record segment := Segment { sg_off : Z; sg_paddr : Z; sg_filesz : Z; sg_memsz : Z }.
Definition segment_at (m : mem) (ph : Z) : segment :=
  Segment (load32 m (ph + 4)) (load32 m (ph + 12)) (load32 m (ph + 16)) (load32 m (ph + 20)).
Fixpoint segments (n : nat) (m : mem) (ph : Z) : list segment :=
  match n with O => [] | S n => segment_at m ph :: segments n m (ph + 32) end.

(** The first byte that the read of a segment touches, and the end of the segment. *)
Definition sg_first (s : segment) : Z := sg_paddr s - sg_off s mod SECTSIZE.
Definition sg_end (s : segment) : Z := sg_paddr s + Z.max (sg_filesz s) (sg_memsz s).

(** The segments are in order from [lo] on, and end below the last sector of memory. *)
Fixpoint ordered (lo : Z) (l : list segment) : Prop :=
  match l with
  | [] => True
  | s :: l => lo ≤ sg_first s ∧ 0 ≤ sg_off s < 2 ^ 32 ∧ 0 ≤ sg_filesz s ∧ 0 ≤ sg_memsz s ∧ sg_end s + SECTSIZE ≤ 2 ^ 32 ∧
      ordered (sg_end s) l
  end.

Definition loaded (I : mem) (s : segment) (m : mem) : Prop :=
  ∀ o, (0 ≤ o < sg_filesz s → m (sg_paddr s + o) = I (sg_off s + o)) ∧
       (sg_filesz s ≤ o < sg_memsz s → m (sg_paddr s + o) = 0).

Section boot.
Context {D : Type} {HD : ide_device D} {HL : ide_laws D}.
Variable fuel : nat.
Hypothesis delay_fuel : ∀ d : D, (delay d < fuel)%nat.

(** The disk is idle, with these sectors. *)
Definition disk_is (c : Z → Z → list Z) (d : D) : Prop := phase_of d = Idle ∧ ∀ dv l, contents d dv l = c dv l.

Lemma waitdisk_ok m d :
  ∃ d', waitdisk fuel (m, d) = (Ok tt, (m, d')) ∧ same_disk d d' ∧ delay d' = O.
Proof.
  unfold waitdisk. pose proof (delay_fuel d) as Hd. revert d Hd.
  generalize fuel as f. intros f. induction f as [|f IH]; intros d Hd; [lia|]. cbn [waitdisk_loop].
  destruct (inb 0x1f7 d) as [r d'] eqn:E. rewrite (bind_ok _ _ _ r (m, d')) by (unfold boot_in; by rewrite E).
  destruct (status_law _ _ _ E) as (Hc & Hp & HZ & HS). change (Z.lor IDE_BSY IDE_DRDY) with 0xc0 in *.
  destruct (delay d) as [|n] eqn:Em.
  - destruct (HZ eq_refl) as (Hd' & Hr & He). rewrite decide_False by tauto. exists d'. by split_and!.
  - destruct (HS n eq_refl) as (Hd' & Hr). rewrite decide_True by done.
    destruct (IH d') as (d2 & Hrun & [Hc2 Hp2] & Hz); [lia|]. exists d2. split; [exact Hrun|]. split; [|done].
    split; [|congruence]. intros dv l. by rewrite Hc2.
Qed.

Lemma sector_regs r o :
  0 ≤ o < 2 ^ 24 → r 0x1f3 = u8 o → r 0x1f4 = u8 (Z.shiftr o 8) → r 0x1f5 = u8 (Z.shiftr o 16) →
  r 0x1f6 = u8 (Z.lor (Z.shiftr o 24) 0xe0) → lba_of r = o ∧ drive_of r = 0.
Proof.
  intros Ho E3 E4 E5 E6. unfold lba_of, drive_of. rewrite E3, E4, E5, E6.
  assert (Z.shiftr o 24 = 0) as -> by (rewrite Z.shiftr_div_pow2 by lia; apply Z.div_small; lia).
  split; [|by vm_compute]. change (Z.land (u8 (Z.lor 0 0xe0)) 0x0f) with 0.
  rewrite !Z.shiftl_mul_pow2, !Z.shiftr_div_pow2 by lia. zlia.
Qed.

Lemma readsect_ok c m d dst o :
  disk_is c d → 0 ≤ o < 2 ^ 24 →
  ∃ d', readsect fuel dst o (m, d) = (Ok tt, (write_bytes m dst (c 0 o), d')) ∧ disk_is c d'.
Proof.
  intros [Hp Hc] Ho. unfold readsect. destruct (waitdisk_ok m d) as (d0 & Hw & [Hc0 Hp0] & Hd0). mstep Hw.
  rewrite Hp in Hp0. unfold boot_out. rewrite !bind_modify.
  destruct (task_law d0 0x1f2 (u8 1) Hd0 Hp0 ltac:(set_solver)) as (C1 & P1 & D1 & R1 & F1). set (d1 := outb 0x1f2 (u8 1) d0) in *.
  destruct (task_law d1 0x1f3 (u8 o) D1 P1 ltac:(set_solver)) as (C2 & P2 & D2 & R2 & F2). set (d2 := outb 0x1f3 (u8 o) d1) in *.
  destruct (task_law d2 0x1f4 (u8 (Z.shiftr o 8)) D2 P2 ltac:(set_solver)) as (C3 & P3 & D3 & R3 & F3). set (d3 := outb 0x1f4 _ d2) in *.
  destruct (task_law d3 0x1f5 (u8 (Z.shiftr o 16)) D3 P3 ltac:(set_solver)) as (C4 & P4 & D4 & R4 & F4). set (d4 := outb 0x1f5 _ d3) in *.
  destruct (task_law d4 0x1f6 (u8 (Z.lor (Z.shiftr o 24) 0xe0)) D4 P4 ltac:(set_solver)) as (C5 & P5 & D5 & R5 & F5). set (d5 := outb 0x1f6 _ d4) in *.
  destruct (sector_regs (regs d5) o Ho) as [El Ed].
  { by rewrite F5, F4, F3. } { by rewrite F5, F4. } { by rewrite F5. } { done. }
  destruct (read_law d5 D5 P5 ltac:(by rewrite F5, F4, F3, F2)) as [C6 P6]. change (u8 0x20) with IDE_CMD_READ.
  set (d6 := outb 0x1f7 IDE_CMD_READ d5) in *. rewrite El, Ed in P6.
  destruct (waitdisk_ok m d6) as (d7 & Hw7 & [C7 P7] & D7). mstep Hw7. rewrite P6 in P7.
  destruct (data_in_law d7 _ _ D7 P7) as (d8 & E8 & P8 & C8). exists d8.
  assert (∀ dv l, contents d7 dv l = c dv l) as Hc7 by (intros; by rewrite C7, C6, C5, C4, C3, C2, C1, Hc0, Hc).
  split; [unfold modify; by rewrite E8, Hc7|]. split; [done|]. intros dv l. by rewrite C8, Hc7.
Qed.


(** What the loop has read: from [pa] on, [k] sectors that start with [o]. *)
Definition sectors_at (c : Z → Z → list Z) (pa o : Z) (k : nat) (m : mem) : mem := λ x,
  if decide (pa ≤ x < pa + SECTSIZE * Z.of_nat k) then byte_at (c 0 (o + (x - pa) / SECTSIZE)) (Z.to_nat ((x - pa) mod SECTSIZE))
  else m x.

Lemma readseg_loop_ok c k pa epa o m d :
  disk_is c d → (∀ l, length (c 0 l) = 512%nat) → 0 ≤ pa → epa + SECTSIZE ≤ 2 ^ 32 → 0 ≤ o → o + Z.of_nat k < 2 ^ 24 →
  epa ≤ pa + SECTSIZE * Z.of_nat k → (pa + SECTSIZE * Z.of_nat k < epa + SECTSIZE) ∨ k = O →
  ∃ m' d', readseg_loop fuel k pa epa o (m, d) = (Ok tt, (m', d')) ∧ disk_is c d' ∧ ∀ x, m' x = sectors_at c pa o k m x.
Proof.
  intros Hd Hlen. revert pa o m d Hd. induction k as [|k IH]; intros pa o m d Hd Hpa He Ho Hk Hge Hlt; cbn [readseg_loop].
  - rewrite decide_False by lia. exists m, d. split_and!; [done|done|]. intros x. unfold sectors_at. by rewrite decide_False by lia.
  - rewrite decide_True by lia. destruct (readsect_ok c m d pa o Hd ltac:(lia)) as (d1 & E1 & Hd1). mstep E1.
    rewrite !u32_small by lia. destruct (IH (pa + SECTSIZE) (o + 1) (write_bytes m pa (c 0 o)) d1 Hd1) as (m' & d' & E & Hd' & Hm); try lia.
    exists m', d'. split_and!; [done|done|]. intros x. rewrite Hm. unfold sectors_at, write_bytes. rewrite Hlen.
    replace (x - pa) with ((x - (pa + SECTSIZE)) + 1 * SECTSIZE) by lia. rewrite Z.div_add, Z_mod_plus_full by lia.
    case_decide as H1; [rewrite decide_True by lia; by replace (o + 1 + _) with (o + ((x - (pa + SECTSIZE)) / SECTSIZE + 1)) by lia|].
    change (Z.of_nat 512) with SECTSIZE. case_decide as H2; [|by rewrite decide_False by lia]. rewrite decide_True by lia.
    assert ((x - (pa + SECTSIZE)) / SECTSIZE = -1) as -> by zlia. replace (o + (-1 + 1)) with o by lia.
    unfold byte_at. f_equal. f_equal. zlia.
Qed.

(** [readseg] reads the bytes asked for, and whole sectors around them. *)
Lemma readseg_ok c pa count off m d :
  disk_is c d → (∀ l, length (c 0 l) = 512%nat) → 0 ≤ pa - off mod SECTSIZE → 0 ≤ off < 2 ^ 32 → 0 ≤ count → pa + count + SECTSIZE ≤ 2 ^ 32 →
  ∃ m' d', readseg fuel pa count off (m, d) = (Ok tt, (m', d')) ∧ disk_is c d' ∧
    (∀ x, pa ≤ x < pa + count → m' x = image c (off + (x - pa))) ∧
    (∀ x, x < pa - off mod SECTSIZE → m' x = m x).
Proof.
  intros Hd Hlen Hpa Hoff Hc He. pose proof (Z.mod_pos_bound off SECTSIZE ltac:(lia)) as Hr. unfold readseg.
  assert (0 ≤ off / SECTSIZE < 2 ^ 23) as Hq by zlia.
  rewrite !u32_small by lia. set (k := Z.to_nat _).
  assert (Hk : pa + count ≤ pa - off mod SECTSIZE + SECTSIZE * Z.of_nat k ∧ (pa - off mod SECTSIZE + SECTSIZE * Z.of_nat k < pa + count + SECTSIZE)).
  { unfold k. rewrite Z2Nat.id by zlia. zlia. }
  destruct (readseg_loop_ok c k (pa - off mod SECTSIZE) (pa + count) (off / SECTSIZE + 1) m d Hd Hlen) as (m' & d' & E & Hd' & Hm); try lia.
  exists m', d'. split_and!; [done|done| |].
  - intros x Hx. rewrite Hm. unfold sectors_at, image. rewrite decide_True by lia.
    assert (off + (x - pa) = (x - (pa - off mod SECTSIZE)) + (off / SECTSIZE) * SECTSIZE) as -> by (pose proof (Z.div_mod off SECTSIZE); lia).
    rewrite Z.div_add, Z_mod_plus_full by lia. by replace (off / SECTSIZE + 1 + _) with ((x - (pa - off mod SECTSIZE)) / SECTSIZE + off / SECTSIZE + 1) by lia.
  - intros x Hx. rewrite Hm. unfold sectors_at. by rewrite decide_False by lia.
Qed.

(** ** Segments *)

Lemma segment_at_ext m m' ph : (∀ x, ph ≤ x < ph + 32 → m x = m' x) → segment_at m ph = segment_at m' ph.
Proof. intros Hx. unfold segment_at. by rewrite !(load32_ext m m') by (intros; apply Hx; lia). Qed.

Lemma segments_ext n m m' ph : (∀ x, ph ≤ x < ph + 32 * Z.of_nat n → m x = m' x) → segments n m ph = segments n m' ph.
Proof.
  revert ph. induction n as [|n IH]; intros ph Hx; [done|]. cbn [segments]. f_equal; [apply segment_at_ext|apply IH]; intros; apply Hx; lia.
Qed.

(** One round of the loop over the headers. *)
Lemma boot_segment_ok c n ph eph m d :
  let s := segment_at m ph in
  disk_is c d → (∀ l, length (c 0 l) = 512%nat) → 0 ≤ ph < eph → eph ≤ sg_first s → ordered 0 [s] →
  ph + 32 ≤ eph → eph < 2 ^ 32 →
  ∃ m' d', boot_segments fuel (S n) ph eph (m, d) = boot_segments fuel n (ph + 32) eph (m', d') ∧ disk_is c d' ∧
    loaded (image c) s m' ∧ (∀ x, x < sg_first s → m' x = m x).
Proof.
  intros s Hd Hlen Hph Hlo (H0 & Hoff & Hf & Hme & Hend & _) Hp He. cbn [boot_segments]. rewrite decide_True by lia.
  unfold sg_first, sg_end in *. subst s. cbn [sg_off sg_paddr sg_filesz sg_memsz segment_at] in *.
  set (off := load32 m (ph + 4)) in *. set (pa := load32 m (ph + 12)) in *. set (filesz := load32 m (ph + 16)) in *. set (memsz := load32 m (ph + 20)) in *.
  rewrite bind_gets. cbn [id]. destruct (readseg_ok c pa filesz off m d Hd Hlen ltac:(lia) Hoff Hf ltac:(lia)) as (m1 & d1 & E1 & Hd1 & Hin & Hout).
  mstep E1. rewrite bind_gets. cbn [id].
  assert (load32 m1 (ph + 16) = filesz) as -> by (apply load32_ext; intros; apply Hout; lia).
  assert (load32 m1 (ph + 20) = memsz) as -> by (apply load32_ext; intros; apply Hout; lia).
  pose proof (Z.mod_pos_bound off SECTSIZE ltac:(lia)) as Hr.
  rewrite (u32_small (ph + 32)) by lia. case_bool_decide as Hz; cbn [when].
  - rewrite bind_modify, u32_small by lia. eexists _, d1. split; [done|]. split_and!; [done| |].
    + intros o. rewrite stosb_spec. split; intros Ho; cbn [sg_off sg_paddr sg_filesz sg_memsz segment_at] in *.
      * rewrite decide_False by lia. rewrite Hin by lia. f_equal. lia.
      * by rewrite decide_True by lia.
    + intros x Hx. rewrite stosb_spec, decide_False by lia. by apply Hout.
  - exists m1, d1. split; [done|]. split_and!; [done| |done].
    intros o. split; intros Ho; cbn [sg_off sg_paddr sg_filesz sg_memsz segment_at] in *; [|lia]. rewrite Hin by lia. f_equal. lia.
Qed.


Lemma boot_segments_ok c n ph eph lo m d :
  disk_is c d → (∀ l, length (c 0 l) = 512%nat) → 0 ≤ ph → eph = ph + 32 * Z.of_nat n → eph ≤ lo → eph < 2 ^ 32 →
  ordered lo (segments n m ph) →
  ∃ m' d', boot_segments fuel n ph eph (m, d) = (Ok tt, (m', d')) ∧ disk_is c d' ∧
    (∀ x, x < lo → m' x = m x) ∧ ∀ s, s ∈ segments n m ph → loaded (image c) s m'.
Proof.
  intros Hd Hlen. revert ph lo m d Hd. induction n as [|n IH]; intros ph lo m d Hd Hph He Hlo Hmax Hord.
  - cbn [boot_segments]. rewrite decide_False by lia. exists m, d. split_and!; [done|done|done|]. intros s Hs. by apply not_elem_of_nil in Hs.
  - cbn [segments ordered] in Hord. destruct Hord as (H1 & H2 & H3 & H4 & H5 & Hord). pose proof (Z.mod_pos_bound (sg_off (segment_at m ph)) SECTSIZE ltac:(lia)) as Hr.
    assert (sg_first (segment_at m ph) ≤ sg_end (segment_at m ph)) as Hfe by (unfold sg_first, sg_end; lia).
    destruct (boot_segment_ok c n ph eph m d Hd Hlen) as (m1 & d1 & -> & Hd1 & Hl1 & Hf1); try lia; [by split_and!; try lia|].
    assert (Es : segments n m1 (ph + 32) = segments n m (ph + 32)) by (apply segments_ext; intros; apply Hf1; lia).
    destruct (IH (ph + 32) (sg_end (segment_at m ph)) m1 d1 Hd1) as (m' & d' & E & Hd' & Hf & Hl); [lia|lia|lia|lia|by rewrite Es|].
    rewrite Es in Hl. exists m', d'. split_and!; [done|done| |].
    + intros x Hx. rewrite Hf by lia. apply Hf1. lia.
    + intros s Hs. cbn [segments] in Hs. apply elem_of_cons in Hs as [->|Hs]; [|by apply Hl].
      intros o. unfold sg_end in Hf. split; intros Ho; rewrite Hf by lia; by apply Hl1.
Qed.

End boot.

(** The copy of the first page of the file in the scratch page. *)
Section scratch.
Context (m1 I : mem) (Hs : ∀ o, 0 ≤ o < 4096 → m1 (ELF_SCRATCH + o) = I o).

Lemma load32_copy o : 0 ≤ o → o + 4 ≤ 4096 → load32 m1 (ELF_SCRATCH + o) = load32 I o.
Proof using Hs. intros. unfold load32. rewrite <- !Z.add_assoc. by rewrite !Hs by lia. Qed.

Lemma segments_copy n p : 0 ≤ p → p + 32 * Z.of_nat n ≤ 4096 → segments n m1 (ELF_SCRATCH + p) = segments n I p.
Proof using Hs.
  revert p. induction n as [|n IH]; intros p H0 Hb; [done|]. cbn [segments]. unfold segment_at. rewrite <- !Z.add_assoc.
  rewrite !load32_copy by lia. f_equal. apply IH; lia.
Qed.
End scratch.

(** C-BOOT: the boot loader loads the kernel.  On an idle disk, whatever memory holds: when the
    file that starts at sector 1 is no ELF file, [bootmain] returns to bootasm.S.  When it
    is one whose program headers lie in its first page and whose segments lie in
    increasing order above the scratch page, it jumps to the entry point of the header with
    every segment in its place, the file's bytes and then zeros up to its size in memory:
    what a read writes around its segment, down and up to whole sectors, harms none of the
    others. *)
Theorem bootmain_loads {D} `{HD : ide_device D} `{HL : !ide_laws D} fuel c m (d : D) :
  (∀ d : D, (delay d < fuel)%nat) → disk_is c d →
  let I := image c in
  let phoff := load32 I 28 in
  let segs := segments (Z.to_nat (load16 I 44)) I phoff in
  (load32 I 0 ≠ ELF_MAGIC → ∃ s, bootmain fuel (m, d) = (Ok None, s)) ∧
  (load32 I 0 = ELF_MAGIC → 0 ≤ load16 I 44 → 0 ≤ phoff → phoff + 32 * load16 I 44 ≤ 4096 → ordered (ELF_SCRATCH + 4096) segs →
   ∃ m' d', bootmain fuel (m, d) = (Ok (Some (load32 I 24)), (m', d')) ∧ ∀ s, s ∈ segs → loaded I s m').
Proof.
  intros Hf Hd I phoff segs. assert (∀ l, length (c 0 l) = 512%nat) as Hlen by (intros l; rewrite <- (proj2 Hd); apply contents_length).
  unfold bootmain. destruct (readseg_ok fuel Hf c ELF_SCRATCH 4096 0 m d Hd Hlen) as (m1 & d1 & E1 & Hd1 & Hin & _); [by vm_compute|lia..|].
  mstep E1. rewrite bind_gets. cbn [id].
  assert (∀ o, 0 ≤ o < 4096 → m1 (ELF_SCRATCH + o) = I o) as Hs by (intros o Ho; rewrite Hin by lia; unfold I; f_equal; lia).
  pose proof (load32_copy _ _ Hs) as Hw. pose proof (Hw 0 ltac:(lia) ltac:(lia)) as W0.
  change (ELF_SCRATCH + 0) with ELF_SCRATCH in W0. rewrite W0, (Hw 28) by lia.
  assert (load16 m1 (ELF_SCRATCH + 44) = load16 I 44) as -> by (unfold load16; rewrite <- !Z.add_assoc; by rewrite !Hs by lia).
  split; intros Hmag; [rewrite decide_True by done; by eexists|]. intros Hn Hp0 Hp Hord. rewrite decide_False by tauto. fold phoff.
  rewrite (u32_small (ELF_SCRATCH + phoff)), u32_small by lia.
  set (n := Z.to_nat (load16 I 44)) in *.
  assert (Es : segments n m1 (ELF_SCRATCH + phoff) = segs) by (apply segments_copy; [done|done|lia]).
  destruct (boot_segments_ok fuel Hf c n (ELF_SCRATCH + phoff) (ELF_SCRATCH + phoff + 32 * load16 I 44) (ELF_SCRATCH + 4096) m1 d1 Hd1 Hlen)
    as (m' & d' & E & _ & Hfr & Hl); [lia|lia|lia|lia|by rewrite Es|].
  mstep E. rewrite bind_gets. cbn [id]. eexists m', d'. rewrite Es in Hl. split; [|done].
  by rewrite (load32_ext m' m1), Hw by (intros; try apply Hfr; lia).
Qed.

(** A kernel of two segments on a disk: the text, 8 bytes long at 1 MB, from offset 600 of the
    file, and the data, 4 bytes and 4 zeros, 8 bytes further up, from offset 608. *)
Definition demo_header : list Z :=
  concat (map word_bytes [ELF_MAGIC; 0; 0; 0; 0; 0; 0x10000c; 52; 0; 0; 0x200000; 2; 0;
    1; 600; 0; 0x100000 + 88; 8; 8; 0; 0;
    1; 608; 0; 0x100200 + 96; 4; 8; 0; 0]).
Definition demo_sectors (dv l : Z) : list Z :=
  if decide (l = 1) then demo_header else if decide (l = 2) then replicate 512 7 else [].
Definition demo_disk : pio false := Pio (λ _, 0) demo_sectors Idle false.

Lemma bootmain_loads_witness :
  let c := contents demo_disk in
  ∃ m' d', bootmain 2 ((λ _, 255), demo_disk) = (Ok (Some 0x10000c), (m', d')) ∧
    loaded (image c) (Segment 600 (0x100000 + 88) 8 8) m' ∧ loaded (image c) (Segment 608 (0x100200 + 96) 4 8) m'.
Proof.
  intros c. destruct (bootmain_loads 2 c (λ _, 255) demo_disk pio_fuel ltac:(by split)) as [_ H].
  assert (segments (Z.to_nat (load16 (image c) 44)) (image c) (load32 (image c) 28) =
    [Segment 600 (0x100000 + 88) 8 8; Segment 608 (0x100200 + 96) 4 8]) as Es by (vm_compute; reflexivity).
  assert (load32 (image c) 24 = 0x10000c) as Ee by (vm_compute; reflexivity).
  cbn zeta in H. rewrite Es, Ee in H. destruct H as (m' & d' & E & Hl).
  - vm_compute. reflexivity.
  - vm_compute. discriminate.
  - vm_compute. discriminate.
  - vm_compute. discriminate.
  - unfold ordered, sg_first, sg_end. cbn [sg_off sg_paddr sg_filesz sg_memsz]. change (600 mod SECTSIZE) with 88. change (608 mod SECTSIZE) with 96. lia.
  - exists m', d'. split; [exact E|]. split; apply Hl; [left|right; left].
Defined.
