(* ===== verification/Sysfile.v ===== *)
(** * File system calls (sysfile.c)

    Each call fetches its arguments, and works on files, inodes and directories
    inside a transaction.  A local array [name] starts with unknown bytes, which
    no call reads: it is the argument [junk] of the calls that have one. *)

From S2P Require Import Prelude Memory Strings State Spinlock Cons Sched Kalloc Sleeplock BufList Bio Log Fs Pipe File Vm Proc.
From S2P Require Import Syscall Exec.

(** ** File descriptors *)

Definition argfd (n : Z) : K (option (nat * nat)) :=
  a ← argint n;
  match a with
  | None => mret None
  | Some fd =>
      if decide (fd < 0 ∨ Z.of_nat NOFILE ≤ fd) then mret None else
      c ← curproc;
      p ← the_proc c;
      match nth (Z.to_nat fd) (p_ofile p) None with
      | None => mret None
      | Some f => mret (Some (Z.to_nat fd, f))
      end
  end.

Fixpoint free_fd (l : list (option nat)) (i : nat) : option nat :=
  match l with
  | [] => None
  | None :: _ => Some i
  | Some _ :: l' => free_fd l' (S i)
  end.
Definition set_fd (fd : nat) (f : option nat) : K unit :=
  c ← curproc;
  upd_proc c (λ p, p <| p_ofile ::= <[fd := f]> |>).
Definition fdalloc (f : nat) : K (option nat) :=
  c ← curproc;
  p ← the_proc c;
  match free_fd (p_ofile p) 0 with
  | Some fd => set_fd fd (Some f);; mret (Some fd)
  | None => mret None
  end.

Definition sys_dup : K Z :=
  let? fa := argfd 0 in
  let f := fa.2 in
  let? fd := fdalloc f in
  filedup f;;
  mret (Z.of_nat fd).

Definition sys_close : K Z :=
  let? fa := argfd 0 in
  let '(fd, f) := fa in
  set_fd fd None;;
  fileclose f;;
  mret 0.

(** The fields of struct stat go to their places; the padding is not written. *)
Definition put_stat (pgdir st : Z) (s : stat) : K unit :=
  user_write pgdir st (put16 (replicate 2 0) 0 (st_type s));;
  user_write pgdir (u32 (st + 4)) (word_bytes (st_dev s));;
  user_write pgdir (u32 (st + 8)) (word_bytes (st_ino s));;
  user_write pgdir (u32 (st + 12)) (put16 (replicate 2 0) 0 (st_nlink s));;
  user_write pgdir (u32 (st + 16)) (word_bytes (st_size s)).
Definition sizeof_stat : Z := 20.
Definition sys_fstat : K Z :=
  let? fa := argfd 0 in
  let f := fa.2 in
  let? st := argptr 1 sizeof_stat in
  s ← filestat f;
  match s with
  | Some s => pgdir ← cur_pgdir; put_stat pgdir st s;; mret 0
  | None => mret (-1)
  end.

Definition sys_pipe : K Z :=
  let? fd := argptr 0 8 in
  let? ends := pipealloc in
  let '(rf, wf) := ends in
  o0 ← fdalloc rf;
  o1 ← (match o0 with Some _ => fdalloc wf | None => mret None end);
  match o0, o1 with
  | Some fd0, Some fd1 =>
      pgdir ← cur_pgdir;
      user_write pgdir fd (word_bytes (Z.of_nat fd0));;
      user_write pgdir (u32 (fd + 4)) (word_bytes (Z.of_nat fd1));;
      mret 0
  | _, _ =>
      (match o0 with Some fd0 => set_fd fd0 None | None => mret tt end);;
      fileclose rf;;
      fileclose wf;;
      mret (-1)
  end.

(** ** Open modes (fcntl.h) and the entries of a fresh directory *)

Definition O_RDONLY : Z := 0x000.
Definition O_WRONLY : Z := 0x001.
Definition O_RDWR : Z := 0x002.
Definition O_CREATE : Z := 0x200.
Definition has_flag (omode flag : Z) : bool := negb (Z.land omode flag =? 0).
Definition DOT : list Z := [46].
Definition DOTDOT : list Z := [46; 46].

Section calls.
Context `{DevSw}.
Context (junk : list Z).

Definition sys_read : K Z :=
  let? fa := argfd 0 in
  let f := fa.2 in
  let? n := argint 2 in
  let? p := argptr 1 n in
  '(r, bs) ← fileread f n;
  pgdir ← cur_pgdir;
  user_write pgdir p bs;;
  mret r.

Definition sys_write : K Z :=
  let? fa := argfd 0 in
  let f := fa.2 in
  let? n := argint 2 in
  let? p := argptr 1 n in
  pgdir ← cur_pgdir;
  bs ← user_read pgdir p (Z.to_nat n);
  filewrite f bs n.

(** The exit of [sys_link] at the label bad. *)
Definition link_bad (ip : nat) : K Z :=
  ilock ip;;
  upd_inode ip (λ x, x <| i_nlink ::= λ n, i16 (n - 1) |>);;
  iupdate ip;;
  iunlockput ip;;
  end_op;;
  mret (-1).
Definition link_into (new : list Z) (ip : nat) : K Z :=
  '(o, name) ← nameiparent new junk;
  match o with
  | None => link_bad ip
  | Some dp =>
      ilock dp;;
      x ← the_inode ip;
      d ← the_inode dp;
      r ← (if decide (i_dev d ≠ i_dev x) then mret (-1) else dirlink dp name (i_inum x));
      if decide (r < 0) then iunlockput dp;; link_bad ip else
      iunlockput dp;;
      iput ip;;
      end_op;;
      mret 0
  end.
Definition sys_link : K Z :=
  let? old := argstr 0 in
  let? new := argstr 1 in
  begin_op;;
  o ← namei old;
  match o with
  | None => end_op;; mret (-1)
  | Some ip =>
      ilock ip;;
      x ← the_inode ip;
      if decide (i_type x = T_DIR) then iunlockput ip;; end_op;; mret (-1) else
      upd_inode ip (λ x, x <| i_nlink ::= λ n, i16 (n + 1) |>);;
      iupdate ip;;
      iunlock ip;;
      link_into new ip
  end.

(** Is the directory empty except for "." and ".."? *)
Definition isdirempty (dp : nat) : K bool :=
  x ← the_inode dp;
  r ← scan (λ off,
    '(r, de) ← readi dp off 16;
    if decide (r ≠ 16) then panic "isdirempty: readi" else
    if decide (de_inum de ≠ 0) then mret (inl tt) else mret (inr tt))
    (drop 2 (dirent_offs (i_size x)));
  mret (match r with Some _ => false | None => true end).

(** The exit of [sys_unlink] at the label bad. *)
Definition unlink_bad (dp : nat) : K Z := iunlockput dp;; end_op;; mret (-1).
Definition unlink_entry (dp ip : nat) (off : Z) : K Z :=
  x ← the_inode ip;
  if decide (i_nlink x < 1) then panic "unlink: nlink < 1" else
  full ← (if decide (i_type x = T_DIR) then e ← isdirempty ip; mret (negb e) else mret false);
  if full : bool then iunlockput ip;; unlink_bad dp else
  r ← writei dp (replicate 16 0) off 16;
  if decide (r ≠ 16) then panic "unlink: writei" else
  when (bool_decide (i_type x = T_DIR))
    (upd_inode dp (λ d, d <| i_nlink ::= λ n, i16 (n - 1) |>);; iupdate dp);;
  iunlockput dp;;
  upd_inode ip (λ x, x <| i_nlink ::= λ n, i16 (n - 1) |>);;
  iupdate ip;;
  iunlockput ip;;
  end_op;;
  mret 0.
Definition sys_unlink : K Z :=
  let? path := argstr 0 in
  begin_op;;
  '(o, name) ← nameiparent path junk;
  match o with
  | None => end_op;; mret (-1)
  | Some dp =>
      ilock dp;;
      if decide (namecmp name DOT = 0 ∨ namecmp name DOTDOT = 0) then unlink_bad dp else
      f ← dirlookup dp name;
      match f with
      | None => unlink_bad dp
      | Some (ip, off) =>
          ilock ip;;
          unlink_entry dp ip off
      end
  end.

(** The new inode gets its links and directory entries. *)
Definition create_fill (dp ip : nat) (name : list Z) (type major minor : Z) : K (option nat) :=
  ilock ip;;
  upd_inode ip (λ x, x <| i_major := major |> <| i_minor := minor |> <| i_nlink := 1 |>);;
  iupdate ip;;
  x ← the_inode ip;
  d ← the_inode dp;
  when (bool_decide (type = T_DIR))
    (upd_inode dp (λ d, d <| i_nlink ::= λ n, i16 (n + 1) |>);;
     iupdate dp;;
     r ← dirlink ip DOT (i_inum x);
     r ← (if decide (r < 0) then mret r else dirlink ip DOTDOT (i_inum d));
     if decide (r < 0) then panic "create dots" else mret tt);;
  r ← dirlink dp name (i_inum x);
  if decide (r < 0) then panic "create: dirlink" else
  iunlockput dp;;
  mret (Some ip).
Definition create (path : list Z) (type major minor : Z) : K (option nat) :=
  '(o, name) ← nameiparent path junk;
  match o with
  | None => mret None
  | Some dp =>
      ilock dp;;
      f ← dirlookup dp name;
      match f with
      | Some (ip, _) =>
          iunlockput dp;;
          ilock ip;;
          x ← the_inode ip;
          if decide (type = T_FILE ∧ i_type x = T_FILE) then mret (Some ip) else
          iunlockput ip;;
          mret None
      | None =>
          d ← the_inode dp;
          ip ← ialloc (i_dev d) type;
          create_fill dp ip name type major minor
      end
  end.

(** The inode [sys_open] opens, locked. *)
Definition open_inode (path : list Z) (omode : Z) : K (option nat) :=
  if has_flag omode O_CREATE then create path T_FILE 0 0 else
  o ← namei path;
  match o with
  | None => mret None
  | Some ip =>
      ilock ip;;
      x ← the_inode ip;
      if decide (i_type x = T_DIR ∧ omode ≠ O_RDONLY) then iunlockput ip;; mret None
      else mret (Some ip)
  end.
Definition sys_open : K Z :=
  let? path := argstr 0 in
  let? omode := argint 1 in
  begin_op;;
  o ← open_inode path omode;
  match o with
  | None => end_op;; mret (-1)
  | Some ip =>
      f ← filealloc;
      fd ← (match f with Some f => fdalloc f | None => mret None end);
      match f, fd with
      | Some f, Some fd =>
          iunlock ip;;
          end_op;;
          upd_file f (λ f, f <| f_type := FD_INODE |> <| f_ip := ip |> <| f_off := 0 |>
            <| f_readable := negb (has_flag omode O_WRONLY) |>
            <| f_writable := has_flag omode O_WRONLY || has_flag omode O_RDWR |>);;
          mret (Z.of_nat fd)
      | _, _ =>
          (match f with Some f => fileclose f | None => mret tt end);;
          iunlockput ip;;
          end_op;;
          mret (-1)
      end
  end.

(** Create the node that the fetched arguments describe; [None] ends the call. *)
Definition finish_node (o : option nat) : K Z :=
  match o with
  | None => end_op;; mret (-1)
  | Some ip => iunlockput ip;; end_op;; mret 0
  end.
Definition sys_mkdir : K Z :=
  begin_op;;
  a ← argstr 0;
  o ← (match a with Some path => create path T_DIR 0 0 | None => mret None end);
  finish_node o.
Definition sys_mknod : K Z :=
  begin_op;;
  a ← argstr 0;
  o ← (match a with
       | None => mret None
       | Some path =>
           ma ← argint 1;
           match ma with
           | None => mret None
           | Some major =>
               mi ← argint 2;
               match mi with
               | None => mret None
               | Some minor => create path T_DEV (i16 major) (i16 minor)
               end
           end
       end);
  finish_node o.

Definition sys_chdir : K Z :=
  c ← curproc;
  begin_op;;
  a ← argstr 0;
  o ← (match a with Some path => namei path | None => mret None end);
  match o with
  | None => end_op;; mret (-1)
  | Some ip =>
      ilock ip;;
      x ← the_inode ip;
      if decide (i_type x ≠ T_DIR) then iunlockput ip;; end_op;; mret (-1) else
      iunlock ip;;
      p ← the_proc c;
      (match p_cwd p with Some i => iput i | None => wild end);;
      end_op;;
      upd_proc c (λ p, p <| p_cwd := Some ip |>);;
      mret 0
  end.

(** The loop of [sys_exec] over the argument vector; [n] more entries fit. *)
Fixpoint fetch_argv (n : nat) (uargv : Z) (acc : list (list Z)) : K (option (list (list Z))) :=
  match n with
  | O => mret None
  | S n' =>
      a ← fetchint uargv;
      match a with
      | None => mret None
      | Some uarg =>
          if decide (uarg = 0) then mret (Some acc) else
          s ← fetchstr (u32 uarg);
          match s with
          | None => mret None
          | Some s => fetch_argv n' (u32 (uargv + 4)) (acc ++ [s])
          end
      end
  end.
Definition sys_exec : K Z :=
  let? path := argstr 0 in
  let? uargv := argint 1 in
  let? argv := fetch_argv MAXARG (u32 uargv) [] in
  exec path argv.

(** ** Dispatch (syscall.c) *)

Definition syscalls (num : Z) : option (K Z) :=
  match num with
  | 1 => Some sys_fork | 2 => Some sys_exit | 3 => Some sys_wait | 4 => Some sys_pipe
  | 5 => Some sys_read | 6 => Some sys_kill | 7 => Some sys_exec | 8 => Some sys_fstat
  | 9 => Some sys_chdir | 10 => Some sys_dup | 11 => Some sys_getpid | 12 => Some sys_sbrk
  | 13 => Some sys_sleep | 14 => Some sys_uptime | 15 => Some sys_open | 16 => Some sys_write
  | 17 => Some sys_mknod | 18 => Some sys_unlink | 19 => Some sys_link | 20 => Some sys_mkdir
  | 21 => Some sys_close | 22 => Some sys_clone
  | _ => None
  end.
Definition set_eax (c : nat) (v : Z) : K unit := p ← the_proc c; st32 (p_tf p + tf_eax) v.
Definition syscall : K unit :=
  c ← curproc;
  p ← the_proc c;
  eax ← ld32 (p_tf p + tf_eax);
  match syscalls (i32 eax) with
  | Some f => r ← f; set_eax c r
  | None =>
      cprintf ("%d %s: unknown sys call %d" +:+ nl) [PInt (p_pid p); PStr (p_name p); PInt (i32 eax)];;
      set_eax c (-1)
  end.
End calls.
