(* ===== verification/Kbd.v ===== *)
(** * The keyboard (kbd.c, kbd.h)

    [kbdgetc] turns a scan code into a character.  Its static variable [shift] is
    an argument and a result; the two port reads are the argument [port]: the
    data byte, or nothing when the status port says that there is none. *)

From S2P Require Import Prelude.

Notation SHIFT := (Z.shiftl 1 0) (only parsing).
Notation CTL := (Z.shiftl 1 1) (only parsing).
Notation ALT := (Z.shiftl 1 2) (only parsing).
Notation CAPSLOCK := (Z.shiftl 1 3) (only parsing).
Notation NUMLOCK := (Z.shiftl 1 4) (only parsing).
Notation SCROLLLOCK := (Z.shiftl 1 5) (only parsing).
Notation E0ESC := (Z.shiftl 1 6) (only parsing).
Notation NO := 0 (only parsing).
Notation KEY_HOME := 0xE0 (only parsing).
Notation KEY_END := 0xE1 (only parsing).
Notation KEY_UP := 0xE2 (only parsing).
Notation KEY_DN := 0xE3 (only parsing).
Notation KEY_LF := 0xE4 (only parsing).
Notation KEY_RT := 0xE5 (only parsing).
Notation KEY_PGUP := 0xE6 (only parsing).
Notation KEY_PGDN := 0xE7 (only parsing).
Notation KEY_INS := 0xE8 (only parsing).
Notation KEY_DEL := 0xE9 (only parsing).

(** Control-x. *)
Definition C (x : Z) : Z := u8 (x - 64).

(** A table: the first entries in order, then designated ones, and zeros. *)
Definition table (first : list Z) (rest : list (Z * Z)) (i : Z) : Z :=
  match list_find (λ e : Z * Z, e.1 = i) rest with
  | Some (_, e) => e.2
  | None => nth (Z.to_nat i) first 0
  end.

Definition shiftcode : Z → Z :=
  table [] [(0x1D, CTL); (0x2A, SHIFT); (0x36, SHIFT); (0x38, ALT); (0x9D, CTL); (0xB8, ALT)].
Definition togglecode : Z → Z :=
  table [] [(0x3A, CAPSLOCK); (0x45, NUMLOCK); (0x46, SCROLLLOCK)].

Definition special : list (Z * Z) :=
  [(0xC8, KEY_UP); (0xD0, KEY_DN); (0xC9, KEY_PGUP); (0xD1, KEY_PGDN); (0xCB, KEY_LF);
   (0xCD, KEY_RT); (0x97, KEY_HOME); (0xCF, KEY_END); (0xD2, KEY_INS); (0xD3, KEY_DEL)].

(** Characters as their codes: the rows of the tables in kbd.h. *)
Definition keypad : list Z :=
  [NO; 32; NO; NO; NO; NO; NO; NO;
   NO; NO; NO; NO; NO; NO; NO; 55;
   56; 57; 45; 52; 53; 54; 43; 49;
   50; 51; 48; 46; NO; NO; NO; NO].
Definition normalmap : Z → Z := table
  ([NO; 0x1B; 49; 50; 51; 52; 53; 54;
    55; 56; 57; 48; 45; 61; 8; 9;
    113; 119; 101; 114; 116; 121; 117; 105;
    111; 112; 91; 93; 10; NO; 97; 115;
    100; 102; 103; 104; 106; 107; 108; 59;
    39; 96; NO; 92; 122; 120; 99; 118;
    98; 110; 109; 44; 46; 47; NO; 42] ++ keypad)
  ([(0x9C, 10); (0xB5, 47)] ++ special).
Definition shiftmap : Z → Z := table
  ([NO; 27; 33; 64; 35; 36; 37; 94;
    38; 42; 40; 41; 95; 43; 8; 9;
    81; 87; 69; 82; 84; 89; 85; 73;
    79; 80; 123; 125; 10; NO; 65; 83;
    68; 70; 71; 72; 74; 75; 76; 58;
    34; 126; NO; 124; 90; 88; 67; 86;
    66; 78; 77; 60; 62; 63; NO; 42] ++ keypad)
  ([(0x9C, 10); (0xB5, 47)] ++ special).
Definition ctlmap : Z → Z := table
  [NO; NO; NO; NO; NO; NO; NO; NO;
   NO; NO; NO; NO; NO; NO; NO; NO;
   C 81; C 87; C 69; C 82; C 84; C 89; C 85; C 73;
   C 79; C 80; NO; NO; 13; NO; C 65; C 83;
   C 68; C 70; C 71; C 72; C 74; C 75; C 76; NO;
   NO; NO; NO; C 92; C 90; C 88; C 67; C 86;
   C 66; C 78; C 77; NO; NO; C 47; NO; NO]
  ([(0x9C, 13); (0xB5, C 47)] ++ special).

Definition charcode (s : Z) : Z → Z :=
  match s with 0 => normalmap | 1 => shiftmap | _ => ctlmap end.

Definition kbdgetc (shift : Z) (port : option Z) : Z * Z :=
  match port with
  | None => (-1, shift)
  | Some data =>
      if decide (data = 0xE0) then (0, Z.lor shift E0ESC) else
      if decide (Z.land data 0x80 ≠ 0) then
        let data := if decide (Z.land shift E0ESC ≠ 0) then data else Z.land data 0x7F in
        (0, Z.land shift (Z.lnot (Z.lor (shiftcode data) E0ESC)))
      else
      let '(data, shift) :=
        if decide (Z.land shift E0ESC ≠ 0) then (Z.lor data 0x80, Z.land shift (Z.lnot E0ESC))
        else (data, shift) in
      let shift := Z.lxor (Z.lor shift (shiftcode data)) (togglecode data) in
      let c := charcode (Z.land shift (Z.lor CTL SHIFT)) data in
      let c := if decide (Z.land shift CAPSLOCK ≠ 0) then
                 if decide (97 ≤ c ≤ 122) then c + (65 - 97) else
                 if decide (65 ≤ c ≤ 90) then c + (97 - 65) else c
               else c in
      (c, shift)
  end.

(** The characters of a sequence of scan codes. *)
Fixpoint kbd_run (shift : Z) (codes : list Z) : list Z * Z :=
  match codes with
  | [] => ([], shift)
  | d :: l => let '(c, s) := kbdgetc shift (Some d) in let '(cs, s') := kbd_run s l in (c :: cs, s')
  end.

(** ** The letters *)

(** The scan code of each letter and its position in the alphabet. *)
Definition letter_codes : list (Z * Z) :=
  [(0x1E, 0); (0x30, 1); (0x2E, 2); (0x20, 3); (0x12, 4); (0x21, 5); (0x22, 6); (0x23, 7); (0x17, 8);
   (0x24, 9); (0x25, 10); (0x26, 11); (0x32, 12); (0x31, 13); (0x18, 14); (0x19, 15); (0x10, 16);
   (0x13, 17); (0x1F, 18); (0x14, 19); (0x16, 20); (0x2F, 21); (0x11, 22); (0x2D, 23); (0x15, 24); (0x2C, 25)].
(** What a letter key should give with the modifiers held. *)
Definition letter_spec (n : Z) (shift ctl caps : bool) : Z :=
  if ctl then n + 1 else if xorb shift caps then 65 + n else 97 + n.
Definition mods (shift ctl alt caps num scroll : bool) : Z :=
  Z.b2z shift + 2 * Z.b2z ctl + 4 * Z.b2z alt + 8 * Z.b2z caps + 16 * Z.b2z num + 32 * Z.b2z scroll.

Definition letter_ok (s c a ca nu sc : bool) (e : Z * Z) : bool :=
  bool_decide (kbd_run (mods s c a ca nu sc) [e.1; Z.lor e.1 0x80] =
    ([letter_spec e.2 s c ca; 0], mods s c a ca nu sc)).

Lemma letters_ok s c a ca nu sc : forallb (letter_ok s c a ca nu sc) letter_codes = true.
Proof. destruct s, c, a, ca, nu, sc; vm_compute; reflexivity. Qed.

(** In every state of the modifier and lock keys, pressing and releasing
    the key of a letter gives the letter in lower case, in upper case when exactly
    one of Shift and CapsLock is on, and the control character when Control is
    held; the release gives nothing, and the modifiers are as before. *)
Theorem letter_keys code n s c a ca nu sc :
  (code, n) ∈ letter_codes →
  kbd_run (mods s c a ca nu sc) [code; Z.lor code 0x80] = ([letter_spec n s c ca; 0], mods s c a ca nu sc).
Proof.
  intros Hin. pose proof (letters_ok s c a ca nu sc) as HC. rewrite forallb_forall in HC.
  specialize (HC (code, n) (proj1 (list_elem_of_In _ _) Hin)). unfold letter_ok in HC. by rewrite bool_decide_eq_true in HC.
Qed.

Lemma letter_keys_witness :
  kbd_run (mods true false false true false false) [0x1E; 0x9E] = ([97; 0], mods true false false true false false).
Proof. apply (letter_keys 0x1E 0). left. Defined.

(** ** The static variable stays in range *)

Definition kbd_ok (shift data : Z) : bool :=
  let '(c, s) := kbdgetc shift (Some data) in (0 <=? s) && (s <? 128) && (0 <=? c) && (c <? 256).

Lemma kbd_all_ok : forallb (λ s, forallb (kbd_ok s) (seqZ 0 256)) (seqZ 0 128) = true.
Proof. vm_compute. reflexivity. Qed.

Lemma seqZ_in n a : 0 ≤ a < n → In a (seqZ 0 n).
Proof. intros H. apply list_elem_of_In, elem_of_seqZ. lia. Qed.

Lemma kbdgetc_range shift data :
  0 ≤ shift < 128 → 0 ≤ data < 256 →
  0 ≤ (kbdgetc shift (Some data)).2 < 128 ∧ 0 ≤ (kbdgetc shift (Some data)).1 < 256.
Proof.
  intros Hs Hd. pose proof kbd_all_ok as HC. rewrite forallb_forall in HC. specialize (HC shift (seqZ_in _ _ Hs)).
  rewrite forallb_forall in HC. specialize (HC data (seqZ_in _ _ Hd)). unfold kbd_ok in HC.
  destruct (kbdgetc shift (Some data)) as [c s]. rewrite !andb_true_iff in HC. simpl. lia.
Qed.


