(* ===== verification/Console.v ===== *)
(** * Console input and the console device (console.c, kbd.c: kbdintr, uart.c: uartintr)

    [consoleintr] takes the characters that its argument [getc] returns one after
    the other, up to the first negative result.  A reader that has to wait stops
    with [Swtch]; [consoleread_resume] is what it does when it runs again.  The
    console is entry [CONSOLE] of the device switch table. *)

From S2P Require Import Prelude Ring State Spinlock Cons Sched Sleeplock Fs Kbd Pipe Proc.

Definition INPUT_BUF : Z := 128.

Definition upd_input (f : input → input) : K unit := modify (λ k, k <| k_input ::= f |>).
(** input.buf[i % INPUT_BUF] *)
Definition in_at (x : input) (i : Z) : Z := nth (Z.to_nat (i mod INPUT_BUF)) (in_buf x) 0.

(** ** The interrupt handler *)

(** The loop of control-U.  It ends at [input.w] at the latest, which is what the
    fuel counts. *)
Fixpoint kill_line (fuel : nat) : K unit :=
  match fuel with
  | O => mret tt
  | S f =>
      x ← gets k_input;
      if decide (in_e x ≠ in_w x ∧ in_at x (u32 (in_e x - 1)) ≠ 10) then
        upd_input (λ x, x <| in_e := u32 (in_e x - 1) |>);;
        consputc BACKSPACE;;
        kill_line f
      else mret tt
  end.

Definition in_put (c : Z) (x : input) : input :=
  x <| in_buf ::= <[Z.to_nat (in_e x mod INPUT_BUF) := u8 c]> |> <| in_e := u32 (in_e x + 1) |>.

(** One character: the switch, which answers whether a process listing was asked
    for. *)
Definition intr_char (c : Z) : K bool :=
  if decide (c = C 80) then mret true else
  x ← gets k_input;
  (if decide (c = C 85) then kill_line (Z.to_nat (u32 (in_e x - in_w x)))
   else if decide (c = C 72 ∨ c = 127) then
     when (bool_decide (in_e x ≠ in_w x))
       (upd_input (λ x, x <| in_e := u32 (in_e x - 1) |>);;
        consputc BACKSPACE)
   else when (bool_decide (c ≠ 0 ∧ u32 (in_e x - in_r x) < INPUT_BUF))
     (let c := if decide (c = 13) then 10 else c in
      upd_input (in_put c);;
      consputc c;;
      x ← gets k_input;
      when (bool_decide (c = 10 ∨ c = C 68 ∨ in_e x = u32 (in_r x + INPUT_BUF)))
        (upd_input (λ x, x <| in_w := in_e x |>);;
         wakeup C_input)));;
  mret false.

Fixpoint intr_loop (cs : list Z) (doprocdump : bool) : K bool :=
  match cs with
  | [] => mret doprocdump
  | c :: cs' =>
      if decide (c < 0) then mret doprocdump else
      d ← intr_char c;
      intr_loop cs' (doprocdump || d)
  end.

Definition consoleintr (cs : list Z) : K unit :=
  acquire L_cons;;
  doprocdump ← intr_loop cs false;
  release L_cons;;
  when doprocdump procdump.

(** The keyboard interrupt with the scan codes the controller has, and the serial
    interrupt with the bytes the line has. *)
Definition kbdintr (codes : list Z) : K unit :=
  shift ← gets k_shift;
  let '(cs, shift') := kbd_run shift codes in
  modify (λ k, k <| k_shift := shift' |>);;
  consoleintr cs.
Definition uartintr (bytes : list Z) : K unit := consoleintr bytes.

(** ** The device *)

(** The end of [consoleread]. *)
Definition consoleread_done (ip : nat) (target n : Z) (dst : list Z) : K (Z * list Z) :=
  release L_cons;;
  ilock ip;;
  mret (i32 (target - n), dst).

(** The loop of [consoleread]: [dst] has been read, [n] bytes are still wanted. *)
Fixpoint consoleread_loop (ip : nat) (m : nat) (target n : Z) (dst : list Z) : K (Z * list Z) :=
  match m with
  | O => consoleread_done ip target n dst
  | S m' =>
      x ← gets k_input;
      if decide (in_r x = in_w x) then
        killed ← my_killed;
        if (killed : bool) then release L_cons;; ilock ip;; mret (-1, dst) else
        sleep C_input L_cons;;
        mret (0, dst)
      else
        let c := in_at x (in_r x) in
        upd_input (λ x, x <| in_r := u32 (in_r x + 1) |>);;
        if decide (c = C 68) then
          when (bool_decide (n < target)) (upd_input (λ x, x <| in_r := u32 (in_r x - 1) |>));;
          consoleread_done ip target n dst
        else if decide (c = 10) then consoleread_done ip target (n - 1) (dst ++ [c])
        else consoleread_loop ip m' target (n - 1) (dst ++ [c])
  end.
Definition consoleread (ip : nat) (n : Z) : K (Z * list Z) :=
  iunlock ip;;
  acquire L_cons;;
  consoleread_loop ip (Z.to_nat n) (u32 n) n [].
Definition consoleread_resume (ip : nat) (target n : Z) (dst : list Z) (intena : bool) : K (Z * list Z) :=
  sleep_return L_cons intena;;
  consoleread_loop ip (Z.to_nat n) target n dst.

Definition consolewrite (ip : nat) (buf : list Z) : K Z :=
  iunlock ip;;
  acquire L_cons;;
  each (λ c, consputc (Z.land c 0xff)) buf;;
  release L_cons;;
  ilock ip;;
  mret (Z.of_nat (length buf)).

Definition consoleinit : K unit :=
  initlock L_cons;;
  modify (λ k, k <| k_locking := true |>).

Definition CONSOLE : Z := 1.
#[global] Instance devsw : DevSw := {|
  dev_read := λ major, if decide (major = CONSOLE) then Some consoleread else None;
  dev_write := λ major, if decide (major = CONSOLE) then Some consolewrite else None |}.

(** ** The line discipline

    The input as a queue [q] of characters that readers can have, followed by the
    line [l] being edited. *)

(** What typing one character does to it, and what is echoed. *)
Definition key_abs (c : Z) (q l : list Z) : list Z * list Z * list Z :=
  if decide (c = 21) then (q, [], replicate (length l) BACKSPACE)
  else if decide (c = 8 ∨ c = 127) then
    match l with [] => (q, l, []) | _ => (q, removelast l, [BACKSPACE]) end
  else if decide (c = 0 ∨ (128 ≤ length q + length l)%nat) then (q, l, [])
  else
    let c := if decide (c = 13) then 10 else c in
    if decide (c = 10 ∨ c = 4 ∨ (length q + length l = 127)%nat)
    then (q ++ l ++ [c], [], [c]) else (q, l ++ [c], [c]).

Record input_rep (x : input) (q l : list Z) : Prop := {
  ir_ring : ring INPUT_BUF (in_buf x) (in_r x) (q ++ l);
  ir_r : 0 ≤ in_r x < 2 ^ 32;
  ir_w : in_w x = u32 (in_r x + Z.of_nat (length q));
  ir_e : in_e x = u32 (in_r x + Z.of_nat (length q) + Z.of_nat (length l));
  ir_line : 10 ∉ l }.

Lemma input_div : (INPUT_BUF | 2 ^ 32).
Proof. by exists (2 ^ 25). Qed.

Lemma ir_max x q l : input_rep x q l → (length q + length l ≤ 128)%nat.
Proof. intros [[_ M _] _ _ _ _]. rewrite length_app in M. unfold INPUT_BUF in M. lia. Qed.

Lemma ir_count x q l : input_rep x q l → u32 (in_e x - in_w x) = Z.of_nat (length l).
Proof. intros R. pose proof (ir_max _ _ _ R). destruct R as [_ H1 H2 H3 _]. rewrite H2, H3. zlia. Qed.

Lemma ir_edit x q l : input_rep x q l → in_e x = in_w x ↔ l = [].
Proof.
  intros R. pose proof (ir_count _ _ _ R) as E. split.
  - intros Ee. rewrite Ee, Z.sub_diag in E. destruct l; [done|]. simpl in E. change (u32 0) with 0 in E. lia.
  - intros ->. destruct R as [_ H1 H2 H3 _]. rewrite H2, H3. simpl. by rewrite Z.add_0_r.
Qed.

Lemma ir_used x q l : input_rep x q l → u32 (in_e x - in_r x) = Z.of_nat (length q + length l).
Proof. intros R. pose proof (ir_max _ _ _ R). destruct R as [_ H1 H2 H3 _]. rewrite H3. zlia. Qed.

Lemma ir_readable x q l : input_rep x q l → in_r x = in_w x ↔ q = [].
Proof.
  intros R. pose proof (ir_max _ _ _ R). destruct R as [_ H1 H2 _ _]. rewrite H2. split.
  - intros E. destruct q as [|c q]; [done|]. exfalso. cbn [length] in *. zwidth. Z.div_mod_to_equations. lia.
  - intros ->. rewrite Z.add_0_r, u32_small; done.
Qed.

(** Taking back the last character of the line. *)
Lemma ir_back x q l c :
  input_rep x q (l ++ [c]) →
  input_rep (x <| in_e := u32 (in_e x - 1) |>) q l ∧ in_at x (u32 (in_e x - 1)) = c.
Proof.
  intros [D H1 H2 H3 H4]. rewrite app_assoc in D.
  destruct (ring_unput _ _ _ _ _ D) as [Ec D'].
  assert (u32 (in_e x - 1) = u32 (in_r x + Z.of_nat (length q) + Z.of_nat (length l))) as E.
  { rewrite H3, length_app. simpl. zlia. }
  split.
  - unfold upd. split; simpl; try done. intros H. apply H4. apply elem_of_app. by left.
  - unfold in_at. rewrite E, (u32_mod_ring INPUT_BUF ltac:(done) input_div). rewrite length_app in Ec. rewrite <- Ec. do 3 f_equal. lia.
Qed.

(** Appending a character to the line. *)
Lemma ir_put x q l c :
  input_rep x q l → (length q + length l < 128)%nat → 0 ≤ c < 256 →
  ring INPUT_BUF (in_buf (in_put c x)) (in_r x) (q ++ l ++ [c]) ∧
  in_e (in_put c x) = u32 (in_r x + Z.of_nat (length q) + Z.of_nat (length (l ++ [c]))).
Proof.
  intros [D H1 H2 H3 H4] Hl Hc. unfold in_put, upd. simpl. split.
  - assert (u8 c = c) as -> by zlia. rewrite app_assoc. apply ring_put; try done.
    + apply input_div.
    + rewrite length_app. unfold INPUT_BUF. lia.
    + rewrite H3, length_app. f_equal. lia.
  - rewrite H3, u32_add_l, length_app. simpl. f_equal. lia.
Qed.

(** Reading the first character. *)
Lemma ir_get x q l c :
  input_rep x (c :: q) l → in_at x (in_r x) = c ∧ input_rep (x <| in_r := u32 (in_r x + 1) |>) q l.
Proof.
  intros [D H1 H2 H3 H4]. destruct (ring_pop INPUT_BUF ltac:(done) input_div _ _ _ _ D) as [Ec D']. split; [done|].
  unfold upd. split; simpl; [done|apply u32_range| | |done].
  - rewrite H2, u32_add_l. f_equal. simpl. lia.
  - rewrite H3. symmetry. rewrite <- Z.add_assoc, u32_add_l. f_equal. simpl. lia.
Qed.

(** ** The routines *)

(** The kernel with this input and output. *)
Definition with_in (x : input) (o : list Z) (k : kernel) : kernel := k <| k_input := x |> <| k_out := o |>.
(** [k'] is [k] after some sleepers for input have been woken. *)
Definition maybe_woken (k k' : kernel) : Prop :=
  k' = k ∨ k' = k <| k_procs ::= map (wake C_input) |>.

Lemma wake_wake ch p : wake ch (wake ch p) = wake ch p.
Proof. unfold wake. by repeat case_decide. Qed.

Lemma maybe_woken_trans k1 k2 k3 : maybe_woken k1 k2 → maybe_woken k2 k3 → maybe_woken k1 k3.
Proof.
  intros [->| ->] [->| ->]; [by left|by right|by right|right].
  unfold upd. simpl. rewrite map_map. f_equal. apply map_ext. intros. apply wake_wake.
Qed.

Lemma maybe_woken_ctx pid k k' : ctx k pid → maybe_woken k k' → ctx k' pid.
Proof. intros Hx [->| ->]; [done|]. by eapply (ctx_wake C_input k). Qed.

Lemma maybe_woken_cpu c cp k k' : cpu_at k c cp → maybe_woken k k' → cpu_at k' c cp.
Proof. intros Hx [->| ->]; [done|]. by eapply (cpu_at_ext k). Qed.

Lemma with_in_same k : with_in (k_input k) (k_out k) k = k.
Proof. by destruct k. Qed.

Section input.
Context (pid : Z) (c : nat) (cp : cpu).
Notation at_ x o k := (locked L_cons c (with_in x o k)).

Lemma upd_input_at f x o k : upd_input f (at_ x o k) = (Ok tt, at_ (f x) o k).
Proof. done. Qed.

Lemma consputc_at ch x o k : consputc ch (at_ x o k) = (Ok tt, at_ x (o ++ [ch]) k).
Proof. done. Qed.

Lemma kill_line_spec x q l o k :
  input_rep x q l →
  ∃ x', kill_line (length l) (at_ x o k) = (Ok tt, at_ x' (o ++ replicate (length l) BACKSPACE) k) ∧ input_rep x' q [].
Proof.
  revert x o. induction l as [|l ch IH] using rev_ind; intros x o R.
  { exists x. simpl. by rewrite app_nil_r. }
  rewrite length_app, Nat.add_comm. cbn [length Nat.add kill_line]. rewrite bind_gets.
  change (k_input (at_ x o k)) with x. destruct (ir_back _ _ _ _ R) as [R' Ec].
  rewrite decide_True.
  - mstep (upd_input_at _ _ _ _). mstep (consputc_at _ _ _ _). destruct (IH _ (o ++ [BACKSPACE]) R') as (x' & E & R'').
    exists x'. split; [|done]. rewrite E. by rewrite <- app_assoc.
  - split; [rewrite (ir_edit _ _ _ R); by intros [_ ?]%app_nil|]. rewrite Ec. intros ->. apply (ir_line _ _ _ R). apply elem_of_app. right. left.
Qed.

Lemma backspace_spec x q l o k :
  input_rep x q l → l ≠ [] →
  ∃ x', (upd_input (λ x, x <| in_e := u32 (in_e x - 1) |>);; consputc BACKSPACE) (at_ x o k) =
    (Ok tt, at_ x' (o ++ [BACKSPACE]) k) ∧ input_rep x' q (removelast l).
Proof.
  intros R Hl. destruct l as [|l ch _] using rev_ind; [done|]. rewrite removelast_last.
  destruct (ir_back _ _ _ _ R) as [R' _]. eexists. split; [done|exact R'].
Qed.

(** A character that goes into the line. *)
Lemma type_spec x q l o k ch :
  ctx k pid → cpu_at k c cp → c_ncli cp = 0 → input_rep x q l → (length q + length l < 128)%nat → 0 ≤ ch < 256 →
  ∃ x' k', (upd_input (in_put ch);; consputc ch;; x ← gets k_input;
      when (bool_decide (ch = 10 ∨ ch = C 68 ∨ in_e x = u32 (in_r x + INPUT_BUF)))
        (upd_input (λ x, x <| in_w := in_e x |>);; wakeup C_input)) (at_ x o k) =
    (Ok tt, at_ x' (o ++ [ch]) k') ∧ maybe_woken k k' ∧
    (if decide (ch = 10 ∨ ch = 4 ∨ (length q + length l = 127)%nat)
     then input_rep x' (q ++ l ++ [ch]) [] else input_rep x' q (l ++ [ch])).
Proof.
  intros Hx Hc Hz R Hl Hch. destruct (ir_put _ _ _ ch R Hl Hch) as [D E].
  mstep (upd_input_at _ _ _ _). mstep (consputc_at _ _ _ _). rewrite bind_gets.
  change (k_input (at_ _ _ _)) with (in_put ch x). set (y := in_put ch x) in *.
  assert (in_r y = in_r x ∧ in_w y = in_w x) as [Er Ew] by done. rewrite <- Er in D, E.
  assert (in_e y = u32 (in_r y + INPUT_BUF) ↔ (length q + length l = 127)%nat) as Hfull.
  { rewrite E, length_app. simpl. unfold INPUT_BUF. split; [|intros; f_equal; lia].
    intros H. zwidth. Z.div_mod_to_equations. lia. }
  change (C 68) with 4. destruct R as [_ H1 H2 H3 H4].
  destruct (decide (ch = 10 ∨ ch = 4 ∨ (length q + length l = 127)%nat)) as [Hd|Hd].
  - rewrite bool_decide_true by (by rewrite Hfull). unfold when. mstep (upd_input_at _ _ _ _).
    set (y' := y <| in_w := in_e y |>). assert (ctx (with_in y' (o ++ [ch]) k) pid) as Hx' by (by eapply (ctx_ext k)).
    rewrite (wakeup_locked L_cons C_input _ pid c cp Hx' ltac:(by eapply (cpu_at_ext k)) Hz ltac:(done)).
    eexists y', (k <| k_procs ::= map (wake C_input) |>). split; [done|]. split; [by right|].
    unfold y', upd. split; simpl; [by rewrite app_nil_r|done| | |set_solver].
    + etransitivity; [exact E|]. rewrite !length_app. f_equal. simpl. lia.
    + etransitivity; [exact E|]. rewrite !length_app. f_equal. simpl. lia.
  - rewrite bool_decide_false by (by rewrite Hfull). exists y, k. split; [done|]. split; [by left|].
    split; [done..|]. intros [H|H%list_elem_of_singleton]%elem_of_app; [done|]. naive_solver.
Qed.

Lemma intr_char_spec x q l o k ch :
  ctx k pid → cpu_at k c cp → c_ncli cp = 0 → input_rep x q l → 0 ≤ ch < 256 → ch ≠ 16 →
  ∃ x' k', intr_char ch (at_ x o k) = (Ok false, at_ x' (o ++ (key_abs ch q l).2) k') ∧ maybe_woken k k' ∧
    input_rep x' (key_abs ch q l).1.1 (key_abs ch q l).1.2.
Proof.
  intros Hx Hc Hz R Hch Hne. unfold intr_char, key_abs. rewrite decide_False by done. rewrite bind_gets.
  change (k_input (at_ _ _ _)) with x. change (C 85) with 21. change (C 72) with 8.
  destruct (decide (ch = 21)).
  { rewrite (ir_count _ _ _ R), Nat2Z.id. destruct (kill_line_spec x q l o k R) as (x' & E & R'). mstep E.
    exists x', k. split; [done|]. split; [by left|done]. }
  destruct (decide (ch = 8 ∨ ch = 127)).
  { destruct l as [|c1 l].
    - rewrite bool_decide_false by (rewrite (ir_edit _ _ _ R); tauto). exists x, k. simpl. rewrite app_nil_r.
      split; [done|]. split; [by left|done].
    - rewrite bool_decide_true by (by rewrite (ir_edit _ _ _ R)). unfold when.
      destruct (backspace_spec x q (c1 :: l) o k R ltac:(done)) as (x' & E & R'). mstep E.
      exists x', k. split; [done|]. split; [by left|done]. }
  destruct (decide (ch = 0 ∨ (128 ≤ length q + length l)%nat)) as [Hd|Hd].
  { rewrite bool_decide_false by (rewrite (ir_used _ _ _ R); unfold INPUT_BUF; lia). exists x, k. simpl. rewrite app_nil_r.
    split; [done|]. split; [by left|done]. }
  rewrite bool_decide_true by (rewrite (ir_used _ _ _ R); unfold INPUT_BUF; lia). unfold when at 1.
  set (ch' := if decide (ch = 13) then 10 else ch). assert (0 ≤ ch' < 256) as Hch' by (unfold ch'; case_decide; lia).
  destruct (type_spec x q l o k ch' Hx Hc Hz R ltac:(lia) Hch') as (x' & k' & E & Hw & R'). mstep E.
  exists x', k'. split; [|split; [done|]]; by repeat case_decide.
Qed.
End input.

(** Typing several characters. *)
Fixpoint keys_abs (cs q l o : list Z) : list Z * list Z * list Z :=
  match cs with
  | [] => (q, l, o)
  | c :: cs' => let '(q', l', e) := key_abs c q l in keys_abs cs' q' l' (o ++ e)
  end.

(** Reading: up to a newline, a control-D or the count; a control-D after some
    characters stays for the next read.  [None]: the reader has to wait. *)
Fixpoint read_abs (n : nat) (first : bool) (q : list Z) : option (list Z * list Z) :=
  match n, q with
  | O, _ => Some ([], q)
  | S n', [] => None
  | S n', c :: q' =>
      if decide (c = 4) then Some ([], if first then q' else q)
      else if decide (c = 10) then Some ([c], q')
      else '(bs, q'') ← read_abs n' false q'; Some (c :: bs, q'')
  end.

Lemma read_abs_length n first q bs q' : read_abs n first q = Some (bs, q') → (length bs ≤ n)%nat.
Proof.
  revert first q bs. induction n as [|n IH]; intros first q bs E; simpl in E; [naive_solver|].
  destruct q as [|c q]; [done|]. repeat case_decide; [naive_solver lia..|].
  destruct (read_abs n false q) as [[bs' q'']|] eqn:E'; [|done]. simpl in E. injection E as <- <-.
  specialize (IH _ _ _ E'). simpl. lia.
Qed.

(** The inode of the device, locked by the process. *)
Definition inode_held (ip : nat) (pid : Z) (k : kernel) : Prop :=
  ∃ x, k_icache k !! ip = Some x ∧ 1 ≤ i_ref x ∧ i_valid x = true ∧ i_lock x = Sleeplock true pid.
Definition inode_free (ip : nat) (k : kernel) : Prop :=
  ∃ x, k_icache k !! ip = Some x ∧ 1 ≤ i_ref x ∧ i_valid x = true ∧ i_lock x = Sleeplock false 0.

Section device.
Context (ip : nat) (pid : Z).

Lemma put_inode_lock (lk : sleeplock) k k' x :
  k_icache k !! ip = Some x → 1 ≤ i_ref x → i_valid x = true →
  k_icache k' = alter (λ x, x <| i_lock := lk |>) ip (k_icache k) →
  ∃ y, k_icache k' !! ip = Some y ∧ 1 ≤ i_ref y ∧ i_valid y = true ∧ i_lock y = lk.
Proof. intros Hx Hr Hv E. exists (x <| i_lock := lk |>). by rewrite E, list_lookup_alter_eq, Hx. Qed.

Lemma iunlock_spec k :
  ctx k pid → inode_held ip pid k →
  ∃ k', iunlock ip k = (Ok tt, k') ∧ ctx k' pid ∧ inode_free ip k' ∧ k_input k' = k_input k ∧ k_out k' = k_out k.
Proof.
  intros Hx (x & E & Hr & Hv & Hl). unfold iunlock. mstep (holdingsleep_spec (SL_inode ip) k pid Hx).
  cbn [get_sl]. rewrite E, Hl. cbn [sl_locked sl_pid andb]. rewrite bool_decide_true by done.
  erewrite bind_ok; [|by apply at_index_ok]. rewrite bool_decide_false by lia. cbn [negb orb].
  rewrite (releasesleep_spec _ _ _ Hx). eexists. split; [done|].
  set (k1 := put_sl (SL_inode ip) (Sleeplock false 0) k). assert (ctx k1 pid) as Hx1 by (by eapply (ctx_ext k)).
  split; [by eapply (ctx_wake (C_inode ip) k1)|]. split; [|done]. by eapply (put_inode_lock _ k).
Qed.

Lemma ilock_spec k :
  ctx k pid → inode_free ip k →
  ∃ k', ilock ip k = (Ok tt, k') ∧ ctx k' pid ∧ inode_held ip pid k' ∧ k_input k' = k_input k ∧ k_out k' = k_out k.
Proof.
  intros Hx (x & E & Hr & Hv & Hl). unfold ilock. erewrite bind_ok; [|by apply at_index_ok]. rewrite decide_False by lia.
  erewrite bind_ok; [|eapply acquiresleep_spec; [done|]]; [|cbn [get_sl]; by rewrite E, Hl].
  set (k1 := put_sl (SL_inode ip) (Sleeplock true pid) k). assert (ctx k1 pid) as Hx1 by (by eapply (ctx_ext k)).
  assert (inode_held ip pid k1) as (y & E1 & Hr1 & Hv1 & Hl1) by (by eapply (put_inode_lock _ k)).
  erewrite bind_ok; [|by apply at_index_ok]. rewrite Hv1. exists k1. split; [done|]. split; [done|]. split; [|done]. by exists y.
Qed.

Lemma console_section k c cp :
  ctx k pid → cpu_at k c cp → c_ncli cp = 0 → release L_cons (locked L_cons c k) = (Ok tt, k).
Proof. intros Hx Hc Hz. eapply release_spec; [done|by rewrite Hz|by eapply ctx_free]. Qed.

Lemma consoleread_done_spec k c cp target n dst x o :
  ctx k pid → cpu_at k c cp → c_ncli cp = 0 → inode_free ip k →
  ∃ k', consoleread_done ip target n dst (locked L_cons c (with_in x o k)) = (Ok (i32 (target - n), dst), k') ∧
    ctx k' pid ∧ inode_held ip pid k' ∧ k_input k' = x ∧ k_out k' = o.
Proof.
  intros Hx Hc Hz Hf. unfold consoleread_done. assert (ctx (with_in x o k) pid) as Hx' by (by eapply (ctx_ext k)).
  mstep (console_section _ c cp Hx' ltac:(by eapply (cpu_at_ext k)) Hz).
  destruct (ilock_spec (with_in x o k) Hx' Hf) as (k' & E & H1 & H2 & H3 & H4). mstep E. by exists k'.
Qed.

Lemma consoleread_loop_spec k c cp m target n dst x q l o bs q' :
  ctx k pid → cpu_at k c cp → c_ncli cp = 0 → inode_free ip k → input_rep x q l → m = Z.to_nat n → 0 ≤ n ≤ target →
  read_abs m (bool_decide (n = target)) q = Some (bs, q') →
  ∃ k', consoleread_loop ip m target n dst (locked L_cons c (with_in x o k)) =
      (Ok (i32 (target - n + Z.of_nat (length bs)), dst ++ bs), k') ∧
    ctx k' pid ∧ inode_held ip pid k' ∧ input_rep (k_input k') q' l ∧ k_out k' = o.
Proof.
  intros Hx Hc Hz Hf. revert n dst x q bs. induction m as [|m IH]; intros n dst x q bs R Hm Hn E; cbn [consoleread_loop].
  { simpl in E. injection E as <- <-. cbn [length]. rewrite Z.add_0_r, app_nil_r.
    destruct (consoleread_done_spec k c cp target n dst x o Hx Hc Hz Hf) as (k' & E & H1 & H2 & H3 & H4).
    exists k'. by rewrite H3. }
  rewrite bind_gets. change (k_input (locked _ _ _)) with x. destruct q as [|ch q]; [done|]. cbn [read_abs] in E.
  rewrite decide_False by (by rewrite (ir_readable _ _ _ R)). destruct (ir_get _ _ _ _ R) as [Ec R']. rewrite Ec.
  change (C 68) with 4. mstep (upd_input_at c _ x o k). destruct (decide (ch = 4)) as [->|].
  - injection E as <- <-. cbn [length]. rewrite Z.add_0_r, app_nil_r. destruct (decide (n = target)) as [->|].
    + rewrite bool_decide_false, (bool_decide_true (target = target)) by lia.
      destruct (consoleread_done_spec k c cp target target dst (x <| in_r := u32 (in_r x + 1) |>) o Hx Hc Hz Hf)
        as (k' & E & H1 & H2 & H3 & H4). exists k'. by rewrite H3.
    + rewrite bool_decide_true, (bool_decide_false (n = target)) by lia. unfold when. mstep (upd_input_at c _ _ o k).
      set (y := x <| in_r := u32 (in_r x + 1) |>).
      destruct (consoleread_done_spec k c cp target n dst (y <| in_r := u32 (in_r y - 1) |>) o Hx Hc Hz Hf)
        as (k' & E & H1 & H2 & H3 & H4). exists k'. split_and!; try done. rewrite H3.
      assert (y <| in_r := u32 (in_r y - 1) |> = x) as ->; [|done].
      destruct R as [_ Hr _ _ _]. unfold y. destruct x. unfold upd. simpl in *. f_equal. zlia.
  - destruct (decide (ch = 10)) as [->|].
    + injection E as <- <-.
      destruct (consoleread_done_spec k c cp target (n - 1) (dst ++ [10]) (x <| in_r := u32 (in_r x + 1) |>) o Hx Hc Hz Hf)
        as (k' & E & H1 & H2 & H3 & H4). exists k'. rewrite H3. split_and!; try done. rewrite E.
      by replace (target - (n - 1)) with (target - n + Z.of_nat (length [10])) by (simpl; lia).
    + destruct (read_abs m false q) as [[bs1 q1]|] eqn:E1; [|done]. simpl in E. injection E as <- <-.
      assert (bool_decide (n - 1 = target) = false) as Hb by (apply bool_decide_false; lia).
      destruct (IH (n - 1) (dst ++ [ch]) (x <| in_r := u32 (in_r x + 1) |>) q bs1 R') as (k' & E & H1);
        [lia|lia|by rewrite Hb|]. exists k'. split; [|done]. rewrite E, <- app_assoc. cbn [length].
      by replace (target - (n - 1) + Z.of_nat (length bs1)) with (target - n + Z.of_nat (S (length bs1))) by lia.
Qed.
End device.

(** ** Printing *)

Lemma putchars_spec cs k : each consputc cs k = (Ok tt, k <| k_out ::= λ o, o ++ cs |>).
Proof.
  revert k. induction cs as [|c cs IH]; intros k; cbn [each].
  - unfold mret, M_ret, upd. rewrite app_nil_r. by destruct k.
  - rewrite (bind_ok _ _ k tt (k <| k_out ::= λ o, o ++ [c] |>) eq_refl), IH. unfold upd. simpl. by rewrite <- app_assoc.
Qed.

Lemma cprintf_spec fmt args cs k pid :
  ctx k pid → cprintf_chars (ascii_codes fmt) args = Some cs →
  cprintf fmt args k = (Ok tt, k <| k_out ::= λ o, o ++ cs |>).
Proof.
  intros Hx E. destruct (ctx_cpu _ _ Hx) as (c & cp & Hc & Hz). unfold cprintf. rewrite bind_gets, E.
  destruct (k_locking k); unfold when.
  - mstep (acquire_spec L_cons k c cp Hc ltac:(lia) (ctx_free _ _ _ Hx)). mstep (putchars_spec cs _).
    set (k1 := k <| k_out ::= λ o, o ++ cs |>).
    change (release L_cons (locked L_cons c k1) = (Ok tt, k1)). eapply console_section; [|by eapply (cpu_at_ext k)|done].
    by eapply (ctx_ext k).
  - rewrite bind_ret. by mstep (putchars_spec cs k).
Qed.

(** ** The console as a device *)

Inductive cop := T_keys (cs : list Z) | T_read (n : Z) | T_write (bs : list Z).

(** The effect of an operation on the queue, the line and the output, with its
    result.  Characters are bytes, and not control-P, which lists the processes. *)
Definition cop_abs (op : cop) (st : list Z * list Z * list Z) : option (Z * list Z * (list Z * list Z * list Z)) :=
  let '(q, l, o) := st in
  match op with
  | T_keys cs => if decide (Forall (λ c, 0 ≤ c < 256 ∧ c ≠ 16) cs) then Some (0, [], keys_abs cs q l o) else None
  | T_read n =>
      if decide (0 ≤ n < 2 ^ 31) then
        '(bs, q') ← read_abs (Z.to_nat n) true q; Some (Z.of_nat (length bs), bs, (q', l, o))
      else None
  | T_write bs => Some (Z.of_nat (length bs), [], (q, l, o ++ map (λ c, Z.land c 255) bs))
  end.
Fixpoint cops_abs (ops : list cop) (st : list Z * list Z * list Z) :
    option (list (Z * list Z) * (list Z * list Z * list Z)) :=
  match ops with
  | [] => Some ([], st)
  | op :: ops' =>
      '(r, bs, st') ← cop_abs op st;
      '(rs, st'') ← cops_abs ops' st';
      Some ((r, bs) :: rs, st'')
  end.

Definition cop_run (ip : nat) (op : cop) : K (Z * list Z) :=
  match op with
  | T_keys cs => consoleintr cs;; mret (0, [])
  | T_read n => consoleread ip n
  | T_write bs => r ← consolewrite ip bs; mret (r, [])
  end.
Fixpoint cops_run (ip : nat) (ops : list cop) : K (list (Z * list Z)) :=
  match ops with
  | [] => mret []
  | op :: ops' => r ← cop_run ip op; rs ← cops_run ip ops'; mret (r :: rs)
  end.

Definition console_holds (ip : nat) (pid : Z) (k : kernel) (st : list Z * list Z * list Z) : Prop :=
  ctx k pid ∧ inode_held ip pid k ∧ input_rep (k_input k) st.1.1 st.1.2 ∧ k_out k = st.2.

Lemma intr_loop_spec pid c cp cs x q l o k :
  ctx k pid → cpu_at k c cp → c_ncli cp = 0 → input_rep x q l → Forall (λ c, 0 ≤ c < 256 ∧ c ≠ 16) cs →
  ∃ x' k' q' l' o', intr_loop cs false (locked L_cons c (with_in x o k)) = (Ok false, locked L_cons c (with_in x' o' k')) ∧
    maybe_woken k k' ∧ keys_abs cs q l o = (q', l', o') ∧ input_rep x' q' l'.
Proof.
  intros Hx Hc Hz. revert x q l o k Hx Hc. induction cs as [|ch cs IH]; intros x q l o k Hx Hc R HF.
  { exists x, k, q, l, o. split; [done|]. split; [by left|done]. }
  inversion_clear HF as [|? ? [H1 H2] HF']. cbn [intr_loop keys_abs]. rewrite decide_False by lia.
  destruct (intr_char_spec pid c cp x q l o k ch Hx Hc Hz R H1 H2) as (x1 & k1 & E & Hw & R1). mstep E.
  destruct (key_abs ch q l) as [[q1 l1] e1]. simpl in *.
  destruct (IH x1 q1 l1 (o ++ e1) k1) as (x2 & k2 & q2 & l2 & o2 & E2 & Hw2 & Ha & R2);
    [by eapply maybe_woken_ctx|by eapply maybe_woken_cpu|done|done|].
  exists x2, k2, q2, l2, o2. split_and!; try done. by eapply maybe_woken_trans.
Qed.

Lemma consoleintr_spec ip pid cs k st :
  console_holds ip pid k st → Forall (λ c, 0 ≤ c < 256 ∧ c ≠ 16) cs →
  ∃ k', consoleintr cs k = (Ok tt, k') ∧ console_holds ip pid k' (keys_abs cs st.1.1 st.1.2 st.2).
Proof.
  intros (Hx & Hi & R & Ho) HF. destruct (ctx_cpu _ _ Hx) as (c & cp & Hc & Hz). unfold consoleintr.
  mstep (acquire_spec L_cons k c cp Hc ltac:(lia) (ctx_free _ _ _ Hx)).
  destruct (intr_loop_spec pid c cp cs _ _ _ st.2 k Hx Hc Hz R HF) as (x' & k' & q' & l' & o' & E & Hw & Ha & R').
  rewrite <- Ho in E at 1. rewrite with_in_same in E. mstep E.
  assert (ctx (with_in x' o' k') pid) as Hx' by (eapply (ctx_ext k'); [by eapply maybe_woken_ctx|done..]).
  mstep (console_section pid _ c cp Hx' ltac:(eapply (cpu_at_ext k'); [done|done|by eapply maybe_woken_cpu]) Hz).
  eexists. split; [done|]. rewrite Ha. split; [done|]. split; [|done]. by destruct Hw as [->| ->].
Qed.

Lemma consoleread_spec ip pid k st n bs q' :
  console_holds ip pid k st → 0 ≤ n < 2 ^ 31 → read_abs (Z.to_nat n) true st.1.1 = Some (bs, q') →
  ∃ k', consoleread ip n k = (Ok (Z.of_nat (length bs), bs), k') ∧ console_holds ip pid k' (q', st.1.2, st.2).
Proof.
  intros (Hx & Hi & R & Ho) Hn E. unfold consoleread.
  destruct (iunlock_spec ip pid k Hx Hi) as (k1 & E1 & Hx1 & Hf & Ei & Eo). mstep E1.
  destruct (ctx_cpu _ _ Hx1) as (c & cp & Hc & Hz).
  mstep (acquire_spec L_cons k1 c cp Hc ltac:(lia) (ctx_free _ _ _ Hx1)). rewrite u32_small by lia.
  destruct (consoleread_loop_spec ip pid k1 c cp (Z.to_nat n) n n [] (k_input k1) st.1.1 st.1.2 (k_out k1) bs q')
    as (k2 & E2 & H1 & H2 & H3 & H4); [done|done|done|done|by rewrite Ei|done|lia|by rewrite bool_decide_true|].
  rewrite with_in_same in E2. exists k2. rewrite E2. pose proof (read_abs_length _ _ _ _ _ E).
  rewrite Z.sub_diag, Z.add_0_l, i32_small by lia. split; [done|]. split_and!; try done. simpl. congruence.
Qed.

Lemma each_consputc c bs x o k :
  each (λ ch, consputc (Z.land ch 0xff)) bs (locked L_cons c (with_in x o k)) =
  (Ok tt, locked L_cons c (with_in x (o ++ map (λ ch, Z.land ch 255) bs) k)).
Proof.
  revert o. induction bs as [|b bs IH]; intros o; [simpl; by rewrite app_nil_r|].
  cbn [each]. mstep (consputc_at c _ x o k). rewrite IH. by rewrite <- app_assoc.
Qed.

Lemma consolewrite_spec ip pid k st bs :
  console_holds ip pid k st →
  ∃ k', consolewrite ip bs k = (Ok (Z.of_nat (length bs)), k') ∧
    console_holds ip pid k' (st.1, st.2 ++ map (λ c, Z.land c 255) bs).
Proof.
  intros (Hx & Hi & R & Ho). unfold consolewrite.
  destruct (iunlock_spec ip pid k Hx Hi) as (k1 & E1 & Hx1 & Hf & Ei & Eo). mstep E1.
  destruct (ctx_cpu _ _ Hx1) as (c & cp & Hc & Hz).
  mstep (acquire_spec L_cons k1 c cp Hc ltac:(lia) (ctx_free _ _ _ Hx1)).
  pose proof (each_consputc c bs (k_input k1) (k_out k1) k1) as E. rewrite with_in_same in E. mstep E.
  set (k2 := with_in _ _ k1). assert (ctx k2 pid) as Hx2 by (by eapply (ctx_ext k1)).
  mstep (console_section pid k2 c cp Hx2 ltac:(by eapply (cpu_at_ext k1)) Hz).
  destruct (ilock_spec ip pid k2 Hx2 Hf) as (k3 & E3 & H1 & H2 & H3 & H4). mstep E3.
  exists k3. split; [done|]. split_and!; try done; [by rewrite H3; unfold k2; simpl; rewrite Ei|].
  rewrite H4. unfold k2. simpl. by rewrite Eo, Ho.
Qed.

Lemma cop_refines ip pid op k st r bs st' :
  console_holds ip pid k st → cop_abs op st = Some (r, bs, st') →
  ∃ k', cop_run ip op k = (Ok (r, bs), k') ∧ console_holds ip pid k' st'.
Proof.
  intros Hh Ha. destruct st as [[q l] o]. destruct op as [cs|n|ws]; simpl in Ha.
  - case_decide as Hd; [|done]. injection Ha as <- <- <-.
    destruct (consoleintr_spec _ _ _ _ _ Hh Hd) as (k' & E & Hh'). simpl. mstep E. by exists k'.
  - case_decide as Hd; [|done]. destruct (read_abs (Z.to_nat n) true q) as [[bs1 q1]|] eqn:E1; [|done].
    simpl in Ha. injection Ha as <- <- <-. by apply (consoleread_spec _ _ _ _ _ _ _ Hh Hd E1).
  - injection Ha as <- <- <-. destruct (consolewrite_spec _ _ _ _ ws Hh) as (k' & E & Hh'). simpl. mstep E. by exists k'.
Qed.


(** Typing "ab^Hc", return and "x", and reading a line, with counters about to
    wrap. *)
Definition demo_console : kernel :=
  demo_pipe_state
    <| k_icache ::= <[O := inode0 <| i_ref := 1 |> <| i_valid := true |> <| i_lock := Sleeplock true 1 |>]> |>
    <| k_input := Input (replicate 128 0) (2 ^ 32 - 1) (2 ^ 32 - 1) (2 ^ 32 - 1) |>.

