(* ===== verification/VmSpace.v ===== *)
(** * Address spaces (properties of vm.c)

    The user part of a page table as a memory of its own: [uview] is what a user
    address shows, the flags of its page and its byte.  [as_ok] adds to [pt_ok]
    that the user pages are distinct pages of the allocator that belong to this
    address space alone; [as_eff] is what an operation on the address space does to
    it, that it does nothing to anyone else's pages and that it loses no page. *)

From S2P Require Import Prelude Memory Strings State Spinlock Cons Sched Kalloc Sleeplock Pipe Vm VmTable Console.

#[local] Opaque memset store32 load32.

(** Virtual page numbers of user addresses are below this. *)
Notation UPN := (2 ^ 19).

Definition frame (m : mem) (pgdir n : Z) : Z := P2V (PTE_ADDR (ent m pgdir n)).
Definition mapped_at (m : mem) (pgdir n : Z) : Prop := present (ent m pgdir n) = true.
Definition uview (m : mem) (pgdir va : Z) : option (Z * Z) :=
  if present (ent m pgdir (va / 4096))
  then Some (PTE_FLAGS (ent m pgdir (va / 4096)), m (frame m pgdir (va / 4096) + va mod 4096)) else None.

(** The pages of an address space. *)
Definition owned (m : mem) (pgdir p : Z) : Prop :=
  pt_page m pgdir p ∨ ∃ n, 0 ≤ n < UPN ∧ mapped_at m pgdir n ∧ p = frame m pgdir n.

Record as_ok (k : kernel) (ps : list Z) (pgdir : Z) : Prop := {
  so_pt : pt_ok k ps pgdir;
  so_frame : ∀ n, 0 ≤ n < UPN → mapped_at (k_mem k) pgdir n →
    page_ok k (frame (k_mem k) pgdir n) ∧ frame (k_mem k) pgdir n ∉ ps ∧ ¬ pt_page (k_mem k) pgdir (frame (k_mem k) pgdir n);
  so_inj : ∀ n n', 0 ≤ n < UPN → 0 ≤ n' < UPN → mapped_at (k_mem k) pgdir n → mapped_at (k_mem k) pgdir n' →
    frame (k_mem k) pgdir n = frame (k_mem k) pgdir n' → n = n' }.

Record as_eff (pgdir : Z) (k : kernel) (ps : list Z) (k' : kernel) (ps' : list Z) (g : Z → option (Z * Z)) : Prop := {
  ae_frame : k' = k <| k_mem := k_mem k' |> <| k_freelist := k_freelist k' |> <| k_out := k_out k' |>;
  ae_ok : as_ok k' ps' pgdir;
  ae_view : ∀ va, 0 ≤ va < KERNBASE → uview (k_mem k') pgdir va = g va;
  ae_kern : ∀ n, UPN ≤ n < 2 ^ 20 → ent (k_mem k') pgdir n = ent (k_mem k) pgdir n;
  ae_keep : ∀ p, page_ok k p → p ∉ ps → ¬ owned (k_mem k) pgdir p →
    p ∉ ps' ∧ ¬ owned (k_mem k') pgdir p ∧ ∀ x, in_page p x → k_mem k' x = k_mem k x;
  ae_all : ∀ p, p ∈ ps ∨ owned (k_mem k) pgdir p → p ∈ ps' ∨ owned (k_mem k') pgdir p }.

Lemma as_page pgdir k ps k' ps' g p : as_eff pgdir k ps k' ps' g → page_ok k' p ↔ page_ok k p.
Proof. intros E. rewrite (ae_frame _ _ _ _ _ _ E). done. Qed.

Lemma as_eff_refl pgdir k ps : as_ok k ps pgdir → as_eff pgdir k ps k ps (uview (k_mem k) pgdir).
Proof. intros H. split; try done. by destruct k. Qed.

Lemma as_eff_trans pgdir k ps k1 ps1 g1 k2 ps2 g2 :
  as_eff pgdir k ps k1 ps1 g1 → as_eff pgdir k1 ps1 k2 ps2 g2 → as_eff pgdir k ps k2 ps2 g2.
Proof.
  intros E1 E2. split.
  - rewrite (ae_frame _ _ _ _ _ _ E2) at 1. rewrite (ae_frame _ _ _ _ _ _ E1) at 1. done.
  - apply E2.
  - apply E2.
  - intros n Hn. by rewrite (ae_kern _ _ _ _ _ _ E2), (ae_kern _ _ _ _ _ _ E1).
  - intros p Hp Hn Hf. destruct (ae_keep _ _ _ _ _ _ E1 p Hp Hn Hf) as (H1 & H2 & H3).
    destruct (ae_keep _ _ _ _ _ _ E2 p) as (H4 & H5 & H6); [by rewrite (as_page _ _ _ _ _ _ _ E1)|done|done|].
    split_and!; try done. intros x Hx. by rewrite H6, H3.
  - intros p Hp. by apply E2, E1.
Qed.

Lemma as_eff_ext pgdir k ps k' ps' g h :
  as_eff pgdir k ps k' ps' g → (∀ va, 0 ≤ va < KERNBASE → g va = h va) → as_eff pgdir k ps k' ps' h.
Proof. intros [H1 H2 H3 H4 H5 H6] Hgh. split; try done. intros va Hva. by rewrite H3, Hgh. Qed.

Lemma user_vpn va : 0 ≤ va < KERNBASE → 0 ≤ va / 4096 < UPN.
Proof. unfold KERNBASE. zlia. Qed.

(** ** Stores in the pages of the address space *)

Lemma frame_same m m' pgdir n : ent m' pgdir n = ent m pgdir n → frame m' pgdir n = frame m pgdir n.
Proof. unfold frame. by intros ->. Qed.

Lemma in_frame f va : in_page f (f + va mod 4096).
Proof. unfold in_page. pose proof (Z.mod_pos_bound va 4096 ltac:(lia)). lia. Qed.

(** Memory changes in one user page. *)
Lemma as_write pgdir k ps m n :
  as_ok k ps pgdir → 0 ≤ n < UPN → mapped_at (k_mem k) pgdir n → mem_ok m →
  (∀ x, ¬ in_page (frame (k_mem k) pgdir n) x → m x = k_mem k x) →
  as_eff pgdir k ps (k <| k_mem := m |>) ps
    (λ va, if decide (va / 4096 = n)
           then Some (PTE_FLAGS (ent (k_mem k) pgdir n), m (frame (k_mem k) pgdir n + va mod 4096))
           else uview (k_mem k) pgdir va).
Proof.
  intros H Hn Hmap Hm Hx. set (f := frame (k_mem k) pgdir n) in *.
  destruct (so_frame _ _ _ H n Hn Hmap) as (Hf1 & Hf2 & Hf3). fold f in Hf1, Hf2, Hf3.
  assert (∀ p, page_ok k p → p ≠ f → ∀ x, in_page p x → m x = k_mem k x) as Hpage.
  { intros p Hp Hne x Hin. apply Hx. intros Hin'. by rewrite (pages_apart k p f x) in Hne. }
  destruct (tables_same (k_mem k) m pgdir) as (Hd & He & Hpt).
  { intros p Hp. apply Hpage; [by apply (po_page _ _ _ (so_pt _ _ _ H))|by intros ->]. }
  destruct (pt_same k (k <| k_mem := m |>) ps pgdir f (so_pt _ _ _ H) eq_refl Hm Hf1 Hf2 Hf3 Hx) as (Hok & _ & _).
  assert (∀ n', 0 ≤ n' < UPN → ent m pgdir n' = ent (k_mem k) pgdir n') as Heu by (intros n' Hn'; apply He; lia).
  split; [by destruct k| | |intros n' Hn'; apply He; lia| |].
  - destruct H as [H1 H2 H3]. unfold mapped_at, frame in *. split; [done| |]; simpl.
    + intros n' Hn'. unfold mapped_at, frame. rewrite Heu by done. intros Hp. destruct (H2 n' Hn' Hp) as (P1 & P2 & P3).
      split; [done|]. split; [done|]. by rewrite Hpt.
    + intros n1 n2 Hn1 Hn2. unfold mapped_at, frame. rewrite !Heu by done. by apply H3.
  - intros va Hva. simpl. unfold uview, frame. pose proof (user_vpn va Hva) as Hv. rewrite Heu by done. case_decide as E.
    + rewrite E. by rewrite Hmap.
    + destruct (present _) eqn:Ep; [|done]. fold (frame (k_mem k) pgdir (va / 4096)).
      rewrite (Hpage (frame (k_mem k) pgdir (va / 4096))); [done| | |apply in_frame].
      * by apply (so_frame _ _ _ H).
      * intros Ef. apply E. by apply (so_inj _ _ _ H).
  - intros p Hp Hpn Hno. split; [done|]. split.
    + intros [Hp'|(n' & Hn' & Hp' & ->)]; apply Hno; [left; by apply Hpt|]. right. exists n'. simpl in *.
      unfold mapped_at, frame in *. by rewrite Heu in * by done.
    + apply Hpage; [done|]. intros ->. apply Hno. right. by exists n.
  - intros p [Hp|[Hp|(n' & Hn' & Hp & ->)]]; [by left|right; left; by apply Hpt|]. right. right. exists n'. simpl.
    unfold mapped_at, frame in *. by rewrite Heu by done.
Qed.

(** Memory changes in a page that is neither free nor in the address space. *)
Lemma as_other pgdir k ps m q :
  as_ok k ps pgdir → page_ok k q → q ∉ ps → ¬ owned (k_mem k) pgdir q → mem_ok m →
  (∀ x, ¬ in_page q x → m x = k_mem k x) →
  as_ok (k <| k_mem := m |>) ps pgdir ∧ (∀ n, 0 ≤ n < 2 ^ 20 → ent m pgdir n = ent (k_mem k) pgdir n) ∧
  (∀ va, 0 ≤ va < KERNBASE → uview m pgdir va = uview (k_mem k) pgdir va) ∧
  (∀ p, owned m pgdir p ↔ owned (k_mem k) pgdir p).
Proof.
  intros H Hq Hqn Hqo Hm Hx.
  assert (∀ p, page_ok k p → p ≠ q → ∀ x, in_page p x → m x = k_mem k x) as Hpage.
  { intros p Hp Hne x Hin. apply Hx. intros Hin'. by rewrite (pages_apart k p q x) in Hne. }
  assert (¬ pt_page (k_mem k) pgdir q) as Hqt by (intros Hp; apply Hqo; by left).
  destruct (tables_same (k_mem k) m pgdir) as (Hd & He & Hpt).
  { intros p Hp. apply Hpage; [by apply (po_page _ _ _ (so_pt _ _ _ H))|by intros ->]. }
  destruct (pt_same k (k <| k_mem := m |>) ps pgdir q (so_pt _ _ _ H) eq_refl Hm Hq Hqn Hqt Hx) as (Hok & _ & _).
  assert (∀ n', 0 ≤ n' < UPN → ent m pgdir n' = ent (k_mem k) pgdir n') as Heu by (intros n' Hn'; apply He; lia).
  split_and!; [|done| |].
  - destruct H as [H1 H2 H3]. unfold mapped_at, frame in *. split; [done| |]; simpl.
    + intros n' Hn'. unfold mapped_at, frame. rewrite Heu by done. intros Hp. destruct (H2 n' Hn' Hp) as (P1 & P2 & P3).
      split; [done|]. split; [done|]. by rewrite Hpt.
    + intros n1 n2 Hn1 Hn2. unfold mapped_at, frame. rewrite !Heu by done. by apply H3.
  - intros va Hva. unfold uview, frame. pose proof (user_vpn va Hva) as Hv. rewrite Heu by done.
    destruct (present _) eqn:Ep; [|done]. fold (frame (k_mem k) pgdir (va / 4096)).
    rewrite (Hpage (frame (k_mem k) pgdir (va / 4096))); [done| | |apply in_frame].
    + by apply (so_frame _ _ _ H).
    + intros <-. apply Hqo. right. by exists (va / 4096).
  - intros p. unfold owned, mapped_at, frame. rewrite Hpt.
    split; (intros [Hp|(n & Hn & Hp & ->)]; [by left|right; exists n]); by rewrite ?Heu in * by done.
Qed.

Lemma as_kalloc k q ps pgdir :
  as_ok k (q :: ps) pgdir → ∃ fl, kalloc k = (Ok q, k <| k_freelist := fl |>) ∧
    as_ok (k <| k_freelist := fl |>) ps pgdir ∧ page_ok k q ∧ q ∉ ps ∧ ¬ owned (k_mem k) pgdir q ∧ q ≠ 0.
Proof.
  intros H. destruct (kalloc_pt _ _ _ _ (so_pt _ _ _ H)) as (fl & E & H1 & Hq & Hqn & Hqt & Hq0).
  exists fl. split; [done|]. destruct H as [_ H2 H3]. split_and!; try done.
  - split; [done| |done]. intros n Hn Hp. destruct (H2 n Hn Hp) as (P1 & P2 & P3). split_and!; try done. set_solver.
  - intros [Hp|(n & Hn & Hp & ->)]; [done|]. destruct (H2 n Hn Hp) as (_ & P2 & _). set_solver.
Qed.

Lemma as_kalloc_empty k pgdir : as_ok k [] pgdir → kalloc k = (Ok 0, k).
Proof. intros H. exact (kalloc_empty _ _ (so_pt _ _ _ H)). Qed.

Lemma PTE_FLAGS_spec e : PTE_FLAGS e = e mod 4096.
Proof. unfold PTE_FLAGS. change 0xFFF with (Z.ones 12). by rewrite Z.land_ones by lia. Qed.

(** The entry made for a page of the allocator. *)
Lemma page_pte k q perm :
  page_ok k q → 0 ≤ perm < 4096 →
  present (V2P q + Z.lor perm 1) = true ∧ P2V (PTE_ADDR (V2P q + Z.lor perm 1)) = q ∧
  PTE_FLAGS (V2P q + Z.lor perm 1) = Z.lor perm 1.
Proof.
  intros Hq Hp. destruct (page_V2P k q Hq) as (Q1 & Q2 & Q3).
  destruct (make_pte (V2P q) perm Q1 ltac:(unfold PHYSTOP in *; lia) Hp) as (fl & _ & Hf & -> & P1 & P2 & _).
  rewrite P2, PTE_FLAGS_spec. split_and!; [done|done|zlia].
Qed.

(** A page that was not in the address space is entered at [n]. *)
Lemma as_map pgdir k ps k' ps' n q perm :
  as_ok k ps pgdir → 0 ≤ n < UPN → ¬ mapped_at (k_mem k) pgdir n → page_ok k q → q ∉ ps → ¬ owned (k_mem k) pgdir q →
  0 ≤ perm < 4096 → pt_eff pgdir k ps k' ps' (mapped (ent (k_mem k) pgdir) n (V2P q) perm 1) →
  as_ok k' ps' pgdir ∧
  (∀ va, 0 ≤ va < KERNBASE → uview (k_mem k') pgdir va =
     if decide (va / 4096 = n) then Some (Z.lor perm 1, k_mem k (q + va mod 4096)) else uview (k_mem k) pgdir va) ∧
  (∀ n, UPN ≤ n < 2 ^ 20 → ent (k_mem k') pgdir n = ent (k_mem k) pgdir n) ∧
  (∀ p, page_ok k p → p ∉ ps → ¬ owned (k_mem k) pgdir p → p ≠ q →
     p ∉ ps' ∧ ¬ owned (k_mem k') pgdir p ∧ ∀ x, in_page p x → k_mem k' x = k_mem k x) ∧
  (∀ p, p = q ∨ p ∈ ps ∨ owned (k_mem k) pgdir p → p ∈ ps' ∨ owned (k_mem k') pgdir p).
Proof.
  intros H Hn Hun Hq Hqn Hqo Hperm F. destruct (page_pte k q perm Hq Hperm) as (Q1 & Q2 & Q3).
  assert (∀ n', 0 ≤ n' < 2 ^ 20 → ent (k_mem k') pgdir n' =
    if decide (n' = n) then V2P q + Z.lor perm 1 else ent (k_mem k) pgdir n') as He.
  { intros n' Hn'. rewrite (pe_ent _ _ _ _ _ _ F) by done. unfold mapped. repeat case_decide; lia. }
  assert (∀ n', 0 ≤ n' < UPN → mapped_at (k_mem k) pgdir n' → n' ≠ n) as Hne by (intros n' Hn' Hp ->; done).
  assert (∀ n', 0 ≤ n' < UPN → mapped_at (k_mem k) pgdir n' → frame (k_mem k) pgdir n' ≠ q) as Hnq
    by (intros n' Hn' Hp <-; apply Hqo; right; by exists n').
  assert (∀ p, page_ok k p → p ∉ ps → ¬ pt_page (k_mem k) pgdir p → p ∉ ps' ∧ ¬ pt_page (k_mem k') pgdir p ∧
    ∀ x, in_page p x → k_mem k' x = k_mem k x) as Hkeep by apply F.
  destruct (Hkeep q Hq Hqn ltac:(intros Hp; apply Hqo; by left)) as (Hq1 & Hq2 & Hq3).
  split_and!.
  - split; [apply F| |].
    + intros n' Hn'. unfold mapped_at, frame. rewrite (He n') by lia. case_decide as E.
      * intros _. rewrite Q2. split; [by rewrite (eff_page _ _ _ _ _ _ _ F)|done].
      * intros Hp. destruct (so_frame _ _ _ H n' Hn' Hp) as (P1 & P2 & P3).
        destruct (Hkeep _ P1 P2 P3) as (P4 & P5 & _). split; [by rewrite (eff_page _ _ _ _ _ _ _ F)|done].
    + intros n1 n2 Hn1 Hn2. unfold mapped_at, frame. rewrite !He by lia. repeat case_decide; subst; rewrite ?Q2; try done.
      * intros _ Hp Ef. exfalso. by apply (Hnq n2 Hn2 Hp).
      * intros Hp _ Ef. exfalso. by apply (Hnq n1 Hn1 Hp).
      * by apply (so_inj _ _ _ H).
  - intros va Hva. pose proof (user_vpn va Hva) as Hv. unfold uview, frame. rewrite He by lia. case_decide as E.
    + rewrite Q1, Q2, Q3. by rewrite Hq3 by apply in_frame.
    + destruct (present (ent (k_mem k) pgdir (va / 4096))) eqn:Ep; [|done].
      destruct (so_frame _ _ _ H _ Hv Ep) as (P1 & P2 & P3). destruct (Hkeep _ P1 P2 P3) as (_ & _ & P6).
      fold (frame (k_mem k) pgdir (va / 4096)). by rewrite P6 by apply in_frame.
  - intros n' Hn'. rewrite He by lia. by rewrite decide_False by lia.
  - intros p Hp Hpn Hpo Hpq. destruct (Hkeep p Hp Hpn ltac:(intros Hpt; apply Hpo; by left)) as (P1 & P2 & P3).
    split; [done|]. split; [|done]. intros [Ht|(n' & Hn' & Hm & ->)]; [done|]. apply Hpo. right. exists n'.
    unfold mapped_at, frame in *. rewrite !He in * by lia. case_decide; [by rewrite Q2 in Hpq|done].
  - intros p [->|[Hp|[Hp|(n' & Hn' & Hp & ->)]]].
    + right. right. exists n. unfold mapped_at, frame. rewrite He, decide_True by lia. by rewrite Q2.
    + destruct (pe_all _ _ _ _ _ _ F p (or_introl Hp)) as [?|?]; [by left|by right; left].
    + destruct (pe_all _ _ _ _ _ _ F p (or_intror Hp)) as [?|?]; [by left|by right; left].
    + right. right. exists n'. unfold mapped_at, frame. rewrite He, decide_False by (lia || by apply Hne). done.
Qed.

(** ** Freeing *)

Lemma freed_out f k x : ¬ in_page f x → k_mem (freed f k) x = k_mem k x.
Proof. intros Hx. rewrite freed_mem. unfold in_page, PGSIZE in *. by rewrite !decide_False by lia. Qed.

Lemma freed_frame f k : freed f k = k <| k_mem := k_mem (freed f k) |> <| k_freelist := k_freelist (freed f k) |>.
Proof. reflexivity. Qed.

Lemma free_pt k ps pgdir f :
  pt_ok k ps pgdir → page_ok k f → f ∉ ps → ¬ pt_page (k_mem k) pgdir f →
  kfree f k = (Ok tt, freed f k) ∧ pt_ok (freed f k) (f :: ps) pgdir ∧
  (∀ d, 0 ≤ d < 1024 → pde (k_mem (freed f k)) pgdir d = pde (k_mem k) pgdir d) ∧
  (∀ n, 0 ≤ n < 2 ^ 20 → ent (k_mem (freed f k)) pgdir n = ent (k_mem k) pgdir n) ∧
  (∀ p, pt_page (k_mem (freed f k)) pgdir p ↔ pt_page (k_mem k) pgdir p).
Proof.
  intros H Hf Hn Ht. split; [by apply (kfree_spec k f (po_quiet _ _ _ H))|].
  destruct (tables_same (k_mem k) (k_mem (freed f k)) pgdir) as (Hd & He & Hpt).
  { intros p Hp x Hx. apply freed_out. intros Hx'. destruct (po_page _ _ _ H p Hp) as [Hpp _].
    by rewrite (pages_apart k p f x) in Hp. }
  split_and!; try done. eapply (pt_ok_same k); try done.
  - apply freed_ok; try done. apply H.
  - by apply (kmem_quiet_ext k _ (po_quiet _ _ _ H)).
  - apply freed_mem_ok, H.
  - intros p Hp. apply not_elem_of_cons. split; [by intros ->|]. by apply (po_page _ _ _ H).
Qed.

(** [kfree] of the frame of page [n], and its entry cleared. *)
Definition unmap_at (pgdir n : Z) (k : kernel) : kernel :=
  set_mem (λ m, store32 m (tab (k_mem k) pgdir (n / 1024) + 4 * (n mod 1024)) 0) (freed (frame (k_mem k) pgdir n) k).

Lemma as_unmap pgdir k ps n :
  as_ok k ps pgdir → 0 ≤ n < UPN → mapped_at (k_mem k) pgdir n →
  kfree (frame (k_mem k) pgdir n) k = (Ok tt, freed (frame (k_mem k) pgdir n) k) ∧
  as_eff pgdir k ps (unmap_at pgdir n k) (frame (k_mem k) pgdir n :: ps)
    (λ va, if decide (va / 4096 = n) then None else uview (k_mem k) pgdir va) ∧
  (∀ n', 0 ≤ n' < 2 ^ 20 → ent (k_mem (unmap_at pgdir n k)) pgdir n' = if decide (n' = n) then 0 else ent (k_mem k) pgdir n').
Proof.
  intros H Hn Hmap. set (f := frame (k_mem k) pgdir n). destruct (so_frame _ _ _ H n Hn Hmap) as (Hf1 & Hf2 & Hf3). fold f in Hf1, Hf2, Hf3.
  destruct (free_pt k ps pgdir f (so_pt _ _ _ H) Hf1 Hf2 Hf3) as (E & H1 & Hd & He & Hpt). split; [done|].
  destruct (vpn_parts n ltac:(lia)) as [Hv1 Hv2].
  assert (present (pde (k_mem k) pgdir (n / 1024)) = true) as Hpr.
  { unfold mapped_at, ent in Hmap. by destruct (present (pde (k_mem k) pgdir (n / 1024))). }
  pose proof (set_pte (freed f k) (f :: ps) pgdir n 0 H1 ltac:(lia) ltac:(by rewrite Hd)) as F.
  assert (tab (k_mem (freed f k)) pgdir (n / 1024) = tab (k_mem k) pgdir (n / 1024)) as Et by (unfold tab; by rewrite Hd).
  rewrite Et in F. change (set_mem _ (freed f k)) with (unmap_at pgdir n k) in F. set (k' := unmap_at pgdir n k) in *.
  assert (∀ n', 0 ≤ n' < 2 ^ 20 → ent (k_mem k') pgdir n' = if decide (n' = n) then 0 else ent (k_mem k) pgdir n') as Hent.
  { intros n' Hn'. rewrite (pe_ent _ _ _ _ _ _ F) by done. case_decide; [done|]. by apply He. }
  assert (∀ p, page_ok k p → p ∉ ps → p ≠ f → ¬ pt_page (k_mem k) pgdir p → p ∉ f :: ps ∧ ¬ pt_page (k_mem k') pgdir p ∧
    ∀ x, in_page p x → k_mem k' x = k_mem k x) as Hkeep.
  { intros p Hp Hpn Hpf Hpp. assert (p ∉ f :: ps) as Hpn' by (by apply not_elem_of_cons).
    destruct (pe_keep _ _ _ _ _ _ F p Hp Hpn' ltac:(by intros ?%Hpt)) as (_ & P2 & P3). split_and!; try done.
    intros x Hx. rewrite P3 by done. apply freed_out. intros Hx'. by rewrite (pages_apart k p f x) in Hpf. }
  assert (∀ n', 0 ≤ n' < UPN → mapped_at (k_mem k) pgdir n' → n' ≠ n → frame (k_mem k) pgdir n' ≠ f) as Hnf.
  { intros n' Hn' Hp Hne Ef. apply Hne. by apply (so_inj _ _ _ H). }
  split; [|exact Hent]. split.
  - rewrite (pe_frame _ _ _ _ _ _ F) at 1. rewrite (freed_frame f k) at 1. reflexivity.
  - split; [apply F| |].
    + intros n' Hn'. unfold mapped_at, frame. rewrite Hent by lia. case_decide as E'; [done|]. intros Hp.
      destruct (so_frame _ _ _ H n' Hn' Hp) as (P1 & P2 & P3).
      destruct (Hkeep _ P1 P2 (Hnf n' Hn' Hp E') P3) as (P4 & P5 & _). done.
    + intros n1 n2 Hn1 Hn2. unfold mapped_at, frame. rewrite !Hent by lia. repeat case_decide; try done. by apply (so_inj _ _ _ H).
  - intros va Hva. pose proof (user_vpn va Hva) as Hv. unfold uview, frame. rewrite Hent by lia. case_decide as E'; [done|].
    destruct (present (ent (k_mem k) pgdir (va / 4096))) eqn:Ep; [|done].
    destruct (so_frame _ _ _ H _ Hv Ep) as (P1 & P2 & P3).
    destruct (Hkeep _ P1 P2 (Hnf _ Hv Ep E') P3) as (_ & _ & P6).
    fold (frame (k_mem k) pgdir (va / 4096)). by rewrite P6 by apply in_frame.
  - intros n' Hn'. rewrite Hent by lia. by rewrite decide_False by lia.
  - intros p Hp Hpn Hpo. assert (p ≠ f) as Hpf by (intros ->; apply Hpo; right; by exists n).
    destruct (Hkeep p Hp Hpn Hpf ltac:(intros Hpt'; apply Hpo; by left)) as (P1 & P2 & P3). split; [done|]. split; [|done].
    intros [Ht|(n' & Hn' & Hm & ->)]; [done|]. apply Hpo. right. exists n'. unfold mapped_at, frame in *.
    rewrite !Hent in * by lia. by case_decide.
  - intros p [Hp|[Hp|(n' & Hn' & Hp & ->)]]; [left; by right| |].
    + destruct (pe_all _ _ _ _ _ _ F p (or_intror (proj2 (Hpt p) Hp))) as [?|?]; [by left|by right; left].
    + destruct (decide (n' = n)) as [E'|E']; [left; rewrite E'; by left|]. right. right. exists n'.
      unfold mapped_at, frame. by rewrite Hent, decide_False by lia.
Qed.

(** The view with the pages from [v] to [w] gone. *)
Definition cut_view (v w : Z) (g : Z → option (Z * Z)) (va : Z) : option (Z * Z) :=
  if decide (v ≤ va / 4096 < w) then None else g va.

Lemma absent_table m pgdir n n' :
  present (pde m pgdir (n / 1024)) = false → n' / 1024 = n / 1024 → present (ent m pgdir n') = false.
Proof. intros Hp E. unfold ent. by rewrite E, Hp. Qed.

Lemma eff_img pgdir k ps k' ps' g : as_eff pgdir k ps k' ps' g → k_img k' = k_img k.
Proof. intros E. by rewrite (ae_frame _ _ _ _ _ _ E). Qed.

(** The jump of the loop over a whole absent table. *)
Lemma next_table v : 0 ≤ v < UPN → u32 (PGADDR (PDX (4096 * v) + 1) 0 0 - PGSIZE + PGSIZE) = 4096 * (1024 * (v / 1024 + 1)).
Proof.
  intros Hv. rewrite Z.sub_add, PDX_spec by lia. rewrite Z.mul_comm, Z.div_mul by lia. unfold PGADDR.
  rewrite !Z.lor_0_r, Z.shiftl_mul_pow2 by lia. assert (0 ≤ v / 1024 < 512) by zlia.
  rewrite u32_u32, u32_small; lia.
Qed.

Lemma deallocuvm_loop_spec fuel pgdir v w oldsz k ps :
  as_ok k ps pgdir → KERNBASE < img_end (k_img k) → 0 ≤ v ≤ UPN → w = (oldsz + 4095) / 4096 → 0 ≤ oldsz ≤ KERNBASE →
  w - v ≤ Z.of_nat fuel →
  ∃ k' ps', deallocuvm_loop fuel pgdir (4096 * v) oldsz k = (Ok tt, k') ∧
    as_eff pgdir k ps k' ps' (cut_view v w (uview (k_mem k) pgdir)) ∧
    (∀ p, p ∈ ps' ↔ p ∈ ps ∨ ∃ n, v ≤ n < w ∧ mapped_at (k_mem k) pgdir n ∧ p = frame (k_mem k) pgdir n).
Proof.
  revert v k ps. induction fuel as [|fuel IH]; intros v k ps H Himg Hv Hw Ho Hfu.
  { exists k, ps. cbn [deallocuvm_loop]. rewrite decide_False by zlia. split; [done|]. split.
    - eapply as_eff_ext; [by apply as_eff_refl|]. intros va _. unfold cut_view. by rewrite decide_False by lia.
    - intros p. split; [by left|]. intros [Hp|(n & Hn & _)]; [done|lia]. }
  cbn [deallocuvm_loop]. destruct (decide (4096 * v < oldsz)) as [Hlt|Hge].
  2:{ exists k, ps. split; [done|]. split.
      - eapply as_eff_ext; [by apply as_eff_refl|]. intros va _. unfold cut_view. by rewrite decide_False by zlia.
      - intros p. split; [by left|]. intros [Hp|(n & Hn & _)]; [done|zlia]. }
  assert (w ≤ UPN) as HwU by (unfold KERNBASE in *; zlia). assert (v < UPN) as HvU by zlia. assert (v < w) as Hvw by zlia.
  mstep (walkpgdir_find pgdir (4096 * v) v ltac:(lia) ltac:(rewrite Z.mul_comm, Z.div_mul by lia; done) k).
  destruct (present (pde (k_mem k) pgdir (v / 1024))) eqn:Epd.
  - unfold ld32. rewrite bind_gets.
    assert (load32 (k_mem k) (tab (k_mem k) pgdir (v / 1024) + 4 * (v mod 1024)) = ent (k_mem k) pgdir v) as ->
      by (unfold ent; by rewrite Epd).
    replace (u32 (4096 * v + PGSIZE)) with (4096 * (v + 1)) by (rewrite u32_small; unfold PGSIZE; lia).
    destruct (present (ent (k_mem k) pgdir v)) eqn:Ep; unfold when.
    + destruct (so_frame _ _ _ H v ltac:(lia) Ep) as ((_ & Hpg & _) & _ & _).
      rewrite decide_False by (intros E0; unfold frame in Hpg; rewrite E0 in Hpg; change (P2V 0) with KERNBASE in Hpg; lia).
      fold (frame (k_mem k) pgdir v). destruct (as_unmap pgdir k ps v H ltac:(lia) Ep) as (E & F & He). rewrite bind_assoc. mstep E.
      unfold st32. rewrite bind_modify. change (set_mem _ (freed _ k)) with (unmap_at pgdir v k).
      destruct (IH (v + 1) (unmap_at pgdir v k) (frame (k_mem k) pgdir v :: ps)) as (k' & ps' & E2 & F2 & Hps); try lia; try done.
      { apply F. }
      exists k', ps'. split; [done|]. split.
      * eapply as_eff_ext; [eapply as_eff_trans; [exact F|exact F2]|]. intros va Hva. unfold cut_view.
        rewrite (ae_view _ _ _ _ _ _ F) by done. destruct (decide (va / 4096 = v)); repeat case_decide; done || lia.
      * intros p. rewrite Hps, elem_of_cons. unfold mapped_at, frame. split.
        -- intros [[->|Hp]|(n & Hn & Hp & ->)]; [right; exists v; split; [lia|done]|by left|].
           rewrite He in * by lia. rewrite decide_False in * by lia. right. exists n. split; [lia|done].
        -- intros [Hp|(n & Hn & Hp & ->)]; [by left; right|]. destruct (decide (n = v)) as [->|Hne]; [by left; left|].
           right. exists n. rewrite He, decide_False by lia. split; [lia|done].
    + destruct (IH (v + 1) k ps) as (k' & ps' & E2 & F2 & Hps); try lia; try done.
      exists k', ps'. split; [done|]. split.
      * eapply as_eff_ext; [exact F2|]. intros va Hva. unfold cut_view.
        destruct (decide (va / 4096 = v)) as [E|]; [|by repeat case_decide; try lia].
        rewrite decide_False, decide_True by lia. unfold uview. by rewrite E, Ep.
      * intros p. rewrite Hps. split; (intros [Hp|(n & Hn & Hp & ->)]; [by left|right; exists n; split; [|done]]); [lia|].
        assert (n ≠ v) by (intros ->; unfold mapped_at in Hp; congruence). lia.
  - rewrite next_table by lia. set (v' := 1024 * (v / 1024 + 1)). assert (v < v' ≤ UPN) as Hv' by (unfold v'; zlia).
    assert (∀ n, v ≤ n < v' → present (ent (k_mem k) pgdir n) = false) as Hgap.
    { intros n Hn. apply (absent_table _ _ v); [done|]. unfold v' in Hn. zlia. }
    destruct (IH v' k ps) as (k' & ps' & E2 & F2 & Hps); try lia; try done.
    exists k', ps'. split; [done|]. split.
    + eapply as_eff_ext; [exact F2|]. intros va Hva. unfold cut_view.
      destruct (decide (v ≤ va / 4096 < v')) as [E|]; [|by repeat case_decide; try lia].
      rewrite decide_False by lia. case_decide; [|done]. unfold uview. by rewrite Hgap by lia.
    + intros p. rewrite Hps. split; (intros [Hp|(n & Hn & Hp & ->)]; [by left|right; exists n; split; [|done]]); [lia|].
      assert (¬ (v ≤ n < v')) by (intros Hg; unfold mapped_at in Hp; rewrite Hgap in Hp; done). lia.
Qed.

Lemma deallocuvm_spec pgdir oldsz newsz k ps :
  as_ok k ps pgdir → KERNBASE < img_end (k_img k) → 0 ≤ newsz < oldsz → oldsz ≤ KERNBASE →
  ∃ k' ps', deallocuvm pgdir oldsz newsz k = (Ok newsz, k') ∧
    as_eff pgdir k ps k' ps' (cut_view ((newsz + 4095) / 4096) ((oldsz + 4095) / 4096) (uview (k_mem k) pgdir)) ∧
    (∀ p, p ∈ ps' ↔ p ∈ ps ∨ ∃ n, (newsz + 4095) / 4096 ≤ n < (oldsz + 4095) / 4096 ∧
       mapped_at (k_mem k) pgdir n ∧ p = frame (k_mem k) pgdir n).
Proof.
  intros H Himg Hs Ho. unfold deallocuvm. rewrite decide_False by lia.
  rewrite PGROUNDUP_spec by (unfold PGSIZE, KERNBASE in *; lia). change PGSIZE with 4096.
  replace (newsz + 4096 - 1) with (newsz + 4095) by lia. set (v := (newsz + 4095) / 4096). rewrite (Z.mul_comm v).
  assert (0 ≤ v ≤ UPN) as Hv by (unfold v, KERNBASE in *; zlia).
  destruct (deallocuvm_loop_spec (Z.to_nat ((oldsz - 4096 * v) / 4096 + 1)) pgdir v ((oldsz + 4095) / 4096) oldsz k ps)
    as (k' & ps' & E & F); try done; [lia|zlia|]. exists k', ps'. split; [|done]. by mstep E.
Qed.

(** ** Allocating *)

Lemma mappages_one pgdir n pa perm k ps :
  pt_ok k ps pgdir → 0 ≤ n < 2 ^ 20 → pa mod 4096 = 0 → 0 ≤ pa < 2 ^ 32 → 0 ≤ perm < 4096 →
  present (ent (k_mem k) pgdir n) = false →
  ∃ k' ps',
    (mappages pgdir (4096 * n) PGSIZE pa perm k = (Ok 0, k') ∧
     pt_eff pgdir k ps k' ps' (mapped (ent (k_mem k) pgdir) n pa perm 1) ∧ (length ps ≤ length ps' + 1)%nat) ∨
    (mappages pgdir (4096 * n) PGSIZE pa perm k = (Ok (-1), k') ∧ ps = [] ∧ ps' = [] ∧ pt_eff pgdir k ps k' [] (ent (k_mem k) pgdir)).
Proof.
  intros H Hn Ha Hpa Hperm Hun.
  pose proof (mappages_pages pgdir n 0 pa perm ltac:(lia) ltac:(lia)) as Eq. change (4096 * (Z.of_nat 0 + 1)) with PGSIZE in Eq. rewrite !Eq.
  assert (need (k_mem k) pgdir n (Z.of_nat 0) ≤ 1) as Hneed
    by (unfold need, absent; change (Z.of_nat 0) with 0; rewrite Z.add_0_r; clear; destruct (present _); lia).
  destruct (mappages_loop_spec 0 pgdir n pa perm k ps) as (k' & ps' & [(E & F & L)|(E & -> & L & j & Hj & F)]); try lia; try done.
  { intros n' Hn'. by replace n' with n by lia. }
  - exists k', ps'. left. split; [done|]. split; [done|lia].
  - exists k', []. right. split; [done|]. split; [apply nil_length_inv; lia|]. split; [done|]. eapply pt_eff_ext; [exact F|]. intros n' _.
    unfold mapped. by rewrite decide_False by lia.
Qed.

(** New tables that change no entry. *)
Lemma as_tables pgdir k ps k' ps' :
  as_ok k ps pgdir → pt_eff pgdir k ps k' ps' (ent (k_mem k) pgdir) → as_eff pgdir k ps k' ps' (uview (k_mem k) pgdir).
Proof.
  intros H F. pose proof (pe_ent _ _ _ _ _ _ F) as He. pose proof (pe_keep _ _ _ _ _ _ F) as Hkeep.
  assert (∀ n, 0 ≤ n < UPN → ent (k_mem k') pgdir n = ent (k_mem k) pgdir n) as Heu by (intros n Hn; apply He; lia).
  split.
  - rewrite (pe_frame _ _ _ _ _ _ F) at 1. by rewrite (pe_frame _ _ _ _ _ _ F).
  - split; [apply F| |].
    + intros n Hn. unfold mapped_at, frame. rewrite Heu by done. intros Hp.
      destruct (so_frame _ _ _ H n Hn Hp) as (P1 & P2 & P3). destruct (Hkeep _ P1 P2 P3) as (P4 & P5 & _).
      split; [by rewrite (eff_page _ _ _ _ _ _ _ F)|done].
    + intros n1 n2 Hn1 Hn2. unfold mapped_at, frame. rewrite !Heu by done. by apply (so_inj _ _ _ H).
  - intros va Hva. pose proof (user_vpn va Hva) as Hv. unfold uview, frame. rewrite Heu by done.
    destruct (present (ent (k_mem k) pgdir (va / 4096))) eqn:Ep; [|done].
    destruct (so_frame _ _ _ H _ Hv Ep) as (P1 & P2 & P3). destruct (Hkeep _ P1 P2 P3) as (_ & _ & P6).
    fold (frame (k_mem k) pgdir (va / 4096)). by rewrite P6 by apply in_frame.
  - intros n Hn. apply He. lia.
  - intros p Hp Hpn Hpo. destruct (Hkeep p Hp Hpn ltac:(intros Hpt; apply Hpo; by left)) as (P1 & P2 & P3).
    split; [done|]. split; [|done]. intros [Ht|(n & Hn & Hm & ->)]; [done|]. apply Hpo. right. exists n.
    unfold mapped_at, frame in *. by rewrite !Heu in * by done.
  - intros p [Hp|[Hp|(n & Hn & Hp & ->)]].
    + destruct (pe_all _ _ _ _ _ _ F p (or_introl Hp)) as [?|?]; [by left|by right; left].
    + destruct (pe_all _ _ _ _ _ _ F p (or_intror Hp)) as [?|?]; [by left|by right; left].
    + right. right. exists n. unfold mapped_at, frame. by rewrite !Heu.
Qed.

(** The view with page [n] showing [b] at offset [o], for [b] a function of [o]. *)
Definition page_view (n fl : Z) (b : Z → Z) (g : Z → option (Z * Z)) (va : Z) : option (Z * Z) :=
  if decide (va / 4096 = n) then Some (fl, b (va mod 4096)) else g va.

(** One round of [allocuvm], and of the other users of fresh pages: a page is
    allocated, filled (by [fill], which writes nowhere else) and mapped at [n]. *)
Lemma fresh_page pgdir k q ps n perm fill :
  as_ok k (q :: ps) pgdir → 0 ≤ n < UPN → ¬ mapped_at (k_mem k) pgdir n → 0 ≤ perm < 4096 →
  (∀ m, mem_ok m → mem_ok (fill m)) → (∀ m x, mem_ok m → ¬ in_page q x → fill m x = m x) →
  ∃ fl k3 ps', kalloc k = (Ok q, k <| k_freelist := fl |>) ∧ q ≠ 0 ∧
    ((mappages pgdir (4096 * n) PGSIZE (V2P q) perm (set_mem fill (k <| k_freelist := fl |>)) = (Ok 0, k3) ∧
      as_eff pgdir k (q :: ps) k3 ps'
        (page_view n (Z.lor perm 1) (λ o, fill (k_mem k) (q + o)) (uview (k_mem k) pgdir)) ∧
      (length (q :: ps) ≤ length ps' + 2)%nat ∧ frame (k_mem k3) pgdir n = q) ∨
     (mappages pgdir (4096 * n) PGSIZE (V2P q) perm (set_mem fill (k <| k_freelist := fl |>)) = (Ok (-1), k3) ∧ ps = [] ∧ ps' = [] ∧
      as_ok k3 [] pgdir ∧ page_ok k3 q ∧ ¬ owned (k_mem k3) pgdir q ∧
      k3 = k <| k_mem := k_mem k3 |> <| k_freelist := k_freelist k3 |> ∧
      (∀ va, 0 ≤ va < KERNBASE → uview (k_mem k3) pgdir va = uview (k_mem k) pgdir va) ∧
      (∀ n, UPN ≤ n < 2 ^ 20 → ent (k_mem k3) pgdir n = ent (k_mem k) pgdir n) ∧
      (∀ p, page_ok k p → p ∉ q :: ps → ¬ owned (k_mem k) pgdir p →
         ¬ owned (k_mem k3) pgdir p ∧ ∀ x, in_page p x → k_mem k3 x = k_mem k x) ∧
      (∀ p, p ∈ q :: ps ∨ owned (k_mem k) pgdir p → p = q ∨ owned (k_mem k3) pgdir p))).
Proof.
  intros H Hn Hun Hperm Hfo Hfx. destruct (as_kalloc _ _ _ _ H) as (fl & E & H1 & Hq & Hqn & Hqo & Hq0).
  set (k1 := k <| k_freelist := fl |>) in *. pose proof (Hfo _ (po_mem _ _ _ (so_pt _ _ _ H))) as Hm.
  assert (∀ x, ¬ in_page q x → fill (k_mem k1) x = k_mem k1 x) as Hf1 by (intros x Hx; apply Hfx; [apply (so_pt _ _ _ H)|done]).
  destruct (as_other pgdir k1 ps (fill (k_mem k1)) q H1 Hq Hqn Hqo Hm Hf1) as (H2 & He2 & Hv2 & Ho2).
  change (k1 <| k_mem := fill (k_mem k1) |>) with (set_mem fill k1) in H2. set (k2 := set_mem fill k1) in *.
  destruct (page_V2P k q Hq) as (Q1 & Q2 & _).
  assert (¬ owned (k_mem k2) pgdir q) as Hqo2 by (intros Hp; apply Hqo; by apply Ho2).
  destruct (mappages_one pgdir n (V2P q) perm k2 ps) as (k3 & ps' & Hm1); try done; [apply H2|lia|unfold PHYSTOP in *; lia| |].
  { change (k_mem k2) with (fill (k_mem k1)). rewrite He2 by lia. unfold mapped_at in Hun. by destruct (present _). }
  exists fl, k3, ps'. split; [done|]. split; [done|].
  assert (∀ p, page_ok k p → p ∉ q :: ps → ¬ owned (k_mem k) pgdir p →
    page_ok k2 p ∧ p ∉ ps ∧ p ≠ q ∧ ¬ owned (k_mem k2) pgdir p ∧ ∀ x, in_page p x → k_mem k2 x = k_mem k x) as Hstep.
  { intros p Hp Hpn Hpo. rewrite not_elem_of_cons in Hpn. destruct Hpn as [Hpq Hpn]. split_and!; try done.
    - intros Hp'. apply Hpo. by apply Ho2.
    - intros x Hx. apply Hf1. intros Hx'. by rewrite (pages_apart k p q x) in Hpq. }
  destruct Hm1 as [(E3 & F & L)|(E3 & -> & -> & F)]; [left|right]; (split; [done|]).
  - destruct (as_map pgdir k2 ps k3 ps' n q perm H2 Hn) as (A1 & A2 & A3 & A4 & A5); try done.
    { unfold mapped_at in *. change (k_mem k2) with (fill (k_mem k1)). by rewrite He2 by lia. }
    split; [|split; [simpl; lia|]; unfold frame; rewrite (pe_ent _ _ _ _ _ _ F) by lia; unfold mapped; rewrite decide_True by lia;
      destruct (page_pte k2 q perm Hq Hperm) as (_ & R2 & _); etrans; [|exact R2]; do 2 f_equal; lia].
    split; [|done| | | |].
    + rewrite (pe_frame _ _ _ _ _ _ F) at 1. by rewrite (pe_frame _ _ _ _ _ _ F).
    + intros va Hva. rewrite A2 by done. unfold page_view. case_decide; [done|]. by apply Hv2.
    + intros n' Hn'. rewrite A3 by done. apply He2. lia.
    + intros p Hp Hpn Hpo. destruct (Hstep p Hp Hpn Hpo) as (P1 & P2 & P3 & P4 & P5).
      destruct (A4 p P1 P2 P4 P3) as (R1 & R2 & R3). split_and!; try done. intros x Hx. by rewrite R3, P5.
    + intros p Hp. apply A5. change (k_mem k2) with (fill (k_mem k1)). rewrite Ho2. rewrite elem_of_cons in Hp. tauto.
  - split; [done|]. split; [done|]. pose proof (as_tables _ _ _ _ _ H2 F) as G. destruct (ae_keep _ _ _ _ _ _ G q Hq Hqn Hqo2) as (G1 & G2 & G3).
    split_and!; try done.
    + apply G.
    + by rewrite (as_page _ _ _ _ _ _ _ G).
    + rewrite (pe_frame _ _ _ _ _ _ F) at 1. done.
    + intros va Hva. rewrite (ae_view _ _ _ _ _ _ G) by done. by apply Hv2.
    + intros n' Hn'. rewrite (ae_kern _ _ _ _ _ _ G) by done. apply He2. lia.
    + intros p Hp Hpn Hpo. destruct (Hstep p Hp Hpn Hpo) as (P1 & P2 & P3 & P4 & P5).
      destruct (ae_keep _ _ _ _ _ _ G p P1 P2 P4) as (R1 & R2 & R3). split; [done|]. intros x Hx. by rewrite R3, P5.
    + intros p Hp. rewrite elem_of_cons in Hp. destruct (decide (p = q)) as [|Hpq]; [by left|right].
      destruct (ae_all _ _ _ _ _ _ G p) as [?%elem_of_nil|?]; [|done|done].
      change (k_mem k2) with (fill (k_mem k1)). rewrite Ho2. tauto.
Qed.

(** Freeing a page that is not in the address space. *)
Lemma as_free_other pgdir k ps q :
  as_ok k ps pgdir → page_ok k q → q ∉ ps → ¬ owned (k_mem k) pgdir q →
  kfree q k = (Ok tt, freed q k) ∧ as_ok (freed q k) (q :: ps) pgdir ∧
  (∀ va, 0 ≤ va < KERNBASE → uview (k_mem (freed q k)) pgdir va = uview (k_mem k) pgdir va) ∧
  (∀ n, 0 ≤ n < 2 ^ 20 → ent (k_mem (freed q k)) pgdir n = ent (k_mem k) pgdir n) ∧
  (∀ p, owned (k_mem (freed q k)) pgdir p ↔ owned (k_mem k) pgdir p).
Proof.
  intros H Hq Hqn Hqo. assert (¬ pt_page (k_mem k) pgdir q) as Hqt by (intros Hp; apply Hqo; by left).
  destruct (free_pt k ps pgdir q (so_pt _ _ _ H) Hq Hqn Hqt) as (E & Hpt & _). split; [done|].
  destruct (as_other pgdir k ps (k_mem (freed q k)) q H Hq Hqn Hqo) as (A1 & A2 & A3 & A4).
  { apply freed_mem_ok, (so_pt _ _ _ H). } { intros x Hx. by apply freed_out. }
  split_and!; try done. destruct A1 as [_ B2 B3]. split; [done| |done].
  intros n Hn Hp. destruct (B2 n Hn Hp) as (P1 & P2 & P3). split; [done|]. split; [|done].
  apply not_elem_of_cons. split; [|done]. intros Ef. apply Hqo. apply A4. right. exists n. split; [done|]. split; [done|]. by symmetry.
Qed.

Lemma as_print pgdir k ps o : as_ok k ps pgdir → as_eff pgdir k ps (k <| k_out := o |>) ps (uview (k_mem k) pgdir).
Proof.
  intros H. split; [by destruct k| |done|done|done|done]. destruct H as [[P1 P2 P3 P4 P5 P6] H2 H3]. split; [split|..]; try done.
  - by eapply (kmem_ok_ext k).
  - by eapply (kmem_quiet_ext k).
Qed.

Lemma print_frame k k' f :
  k' = k <| k_mem := k_mem k' |> <| k_freelist := k_freelist k' |> →
  k' <| k_out ::= f |> = k <| k_mem := k_mem (k' <| k_out ::= f |>) |> <| k_freelist := k_freelist (k' <| k_out ::= f |>) |>
    <| k_out := k_out (k' <| k_out ::= f |>) |>.
Proof. intros E. destruct k, k'. unfold upd in *. simpl in *. by inversion E. Qed.

Lemma eff_ctx pgdir k ps k' ps' g pid : as_eff pgdir k ps k' ps' g → ctx k pid → ctx k' pid.
Proof. intros E Hx. rewrite (ae_frame _ _ _ _ _ _ E). by eapply (ctx_ext k). Qed.

Section alloc.
Context (pgdir pid oldsz newsz v0 w : Z).
Context (Hsz : 0 ≤ oldsz ≤ newsz) (Hnew : newsz < KERNBASE).
Context (Hv0 : v0 = (oldsz + 4095) / 4096) (Hw : w = (newsz + 4095) / 4096).
Context (k0 : kernel) (ps0 : list Z) (Hctx : ctx k0 pid) (Himg : KERNBASE < img_end (k_img k0)).
Context (Hun : ∀ n, v0 ≤ n < w → ¬ mapped_at (k_mem k0) pgdir n).

(** The new pages up to [v] show zeros and can be read and written. *)
Definition grown_view (v : Z) (va : Z) : option (Z * Z) :=
  if decide (v0 ≤ va / 4096 < v) then Some (7, 0) else uview (k_mem k0) pgdir va.

Lemma cut_grown v va : v ≤ w → cut_view v0 w (grown_view v) va = uview (k_mem k0) pgdir va.
Proof.
  intros Hv. unfold cut_view, grown_view. repeat case_decide; try lia; try done.
  unfold uview. destruct (present _) eqn:Ep; [|done]. exfalso. by apply (Hun (va / 4096)).
Qed.

(** Out of memory: what has been allocated is given back. *)
Lemma alloc_undo v k ps :
  as_eff pgdir k0 ps0 k ps (grown_view v) → v ≤ w → oldsz < newsz →
  ∃ k' ps', deallocuvm pgdir newsz oldsz k = (Ok oldsz, k') ∧ as_eff pgdir k0 ps0 k' ps' (uview (k_mem k0) pgdir) ∧
    (∀ p, page_ok k p → p ∉ ps → ¬ owned (k_mem k) pgdir p → p ∉ ps' ∧ ¬ owned (k_mem k') pgdir p).
Proof.
  intros F Hv Hlt. destruct (deallocuvm_spec pgdir newsz oldsz k ps) as (k' & ps' & E & F' & _); try lia.
  { apply F. } { by rewrite (eff_img _ _ _ _ _ _ F). }
  exists k', ps'. split; [done|]. split.
  - eapply as_eff_ext; [eapply as_eff_trans; [exact F|exact F']|]. intros va Hva. rewrite <- Hv0, <- Hw.
    rewrite <- (cut_grown v va Hv). unfold cut_view. case_decide; [done|]. by rewrite (ae_view _ _ _ _ _ _ F).
  - intros p Hp Hpn Hpo. by destruct (ae_keep _ _ _ _ _ _ F' p Hp Hpn Hpo) as (? & ? & _).
Qed.

(** Out of memory in the middle of a page: the page itself is given back too. *)
Lemma alloc_undo_page v k q ps k3 :
  as_eff pgdir k0 ps0 k (q :: ps) (grown_view v) → v ≤ w → oldsz < newsz →
  as_ok k3 [] pgdir → page_ok k3 q → ¬ owned (k_mem k3) pgdir q →
  k3 = k <| k_mem := k_mem k3 |> <| k_freelist := k_freelist k3 |> <| k_out := k_out k3 |> →
  (∀ va, 0 ≤ va < KERNBASE → uview (k_mem k3) pgdir va = uview (k_mem k) pgdir va) →
  (∀ n, UPN ≤ n < 2 ^ 20 → ent (k_mem k3) pgdir n = ent (k_mem k) pgdir n) →
  (∀ p, page_ok k p → p ∉ q :: ps → ¬ owned (k_mem k) pgdir p →
     ¬ owned (k_mem k3) pgdir p ∧ ∀ x, in_page p x → k_mem k3 x = k_mem k x) →
  (∀ p, p ∈ q :: ps ∨ owned (k_mem k) pgdir p → p = q ∨ owned (k_mem k3) pgdir p) →
  ∃ k' ps', (deallocuvm pgdir newsz oldsz;; kfree q;; (mret 0 : K Z)) k3 = (Ok 0, k') ∧
    as_eff pgdir k0 ps0 k' ps' (uview (k_mem k0) pgdir).
Proof.
  intros F Hv Hlt H3 Hq Hqo Hfr Hview Hkern Hkeep Hall.
  assert (k_img k3 = k_img k0) as Ei by (rewrite Hfr, <- (eff_img _ _ _ _ _ _ F); done).
  destruct (deallocuvm_spec pgdir newsz oldsz k3 []) as (k4 & ps4 & E & F4 & _); try done; try lia; [by rewrite Ei|].
  mstep E. destruct (ae_keep _ _ _ _ _ _ F4 q Hq ltac:(set_solver) Hqo) as (Q1 & Q2 & _).
  destruct (as_free_other pgdir k4 ps4 q) as (E5 & A1 & A2 & A3 & A4); try done; [apply F4|by rewrite (as_page _ _ _ _ _ _ _ F4)|].
  mstep E5. exists (freed q k4), (q :: ps4). split; [done|]. split; [|done|..].
  - rewrite (freed_frame q k4) at 1. rewrite (ae_frame _ _ _ _ _ _ F4) at 1. rewrite Hfr at 1. rewrite (ae_frame _ _ _ _ _ _ F) at 1. reflexivity.
  - intros va Hva. rewrite A2, (ae_view _ _ _ _ _ _ F4) by done. rewrite <- (cut_grown v va Hv). rewrite <- Hv0, <- Hw.
    unfold cut_view. case_decide; [done|]. by rewrite Hview, (ae_view _ _ _ _ _ _ F).
  - intros n Hn. rewrite A3 by lia. by rewrite (ae_kern _ _ _ _ _ _ F4), Hkern, (ae_kern _ _ _ _ _ _ F).
  - intros p Hp Hpn Hpo. destruct (ae_keep _ _ _ _ _ _ F p Hp Hpn Hpo) as (P1 & P2 & P3).
    assert (page_ok k p) as Hp1 by (by rewrite (as_page _ _ _ _ _ _ _ F)). destruct (Hkeep p Hp1 P1 P2) as (P4 & P5).
    assert (page_ok k3 p) as Hp3 by (rewrite Hfr; done).
    destruct (ae_keep _ _ _ _ _ _ F4 p Hp3 ltac:(set_solver) P4) as (P6 & P7 & P8).
    assert (p ≠ q) as Hpq by set_solver. split; [by apply not_elem_of_cons|]. split; [by intros ?%A4|].
    intros x Hx. rewrite freed_out, P8, P5, P3; try done. intros Hx'. rewrite Hfr in Hq.
    by rewrite (pages_apart k p q x) in Hpq.
  - intros p Hp%(ae_all _ _ _ _ _ _ F)%Hall. rewrite elem_of_cons, A4. destruct Hp as [|Hp]; [by left; left|].
    destruct (ae_all _ _ _ _ _ _ F4 p (or_intror Hp)); tauto.
Qed.

Lemma allocuvm_loop_spec fuel v k ps :
  as_eff pgdir k0 ps0 k ps (grown_view v) → v0 ≤ v → w - v ≤ Z.of_nat fuel → (v ≤ w ∨ v = v0) →
  Z.of_nat (length ps0) ≤ Z.of_nat (length ps) + 2 * (v - v0) →
  ∃ r k' ps', allocuvm_loop fuel pgdir (4096 * v) oldsz newsz k = (Ok r, k') ∧
    (r = newsz ∧ as_eff pgdir k0 ps0 k' ps' (grown_view w) ∧
       Z.of_nat (length ps0) ≤ Z.of_nat (length ps') + 2 * (w `max` v0 - v0) ∨
     r = 0 ∧ as_eff pgdir k0 ps0 k' ps' (uview (k_mem k0) pgdir) ∧ Z.of_nat (length ps0) < 2 * (w - v0)).
Proof.
  revert v k ps. induction fuel as [|fuel IH]; intros v k ps F Hv Hfu Hvw HL; cbn [allocuvm_loop].
  { rewrite decide_False by zlia. exists newsz, k, ps. split; [done|]. left. split; [done|]. split; [|lia].
    eapply as_eff_ext; [exact F|]. intros va _. unfold grown_view. repeat case_decide; try lia; done. }
  destruct (decide (4096 * v < newsz)) as [Hlt|Hge].
  2:{ exists newsz, k, ps. split; [done|]. left. split; [done|]. split; [|zlia]. eapply as_eff_ext; [exact F|]. intros va _.
      unfold grown_view. repeat case_decide; try done; zlia. }
  assert (v < w) as Hvw' by zlia. assert (oldsz < newsz) as Hon by zlia. assert (w ≤ UPN) as HwU by (unfold KERNBASE in *; zlia).
  assert (0 ≤ v) as Hvp by zlia. pose proof (eff_ctx _ _ _ _ _ _ _ F Hctx) as Hx. destruct ps as [|q ps].
  - mstep (as_kalloc_empty k pgdir (ae_ok _ _ _ _ _ _ F)). rewrite decide_True by done.
    mstep (cprintf_spec ("allocuvm out of memory" +:+ nl) [] _ _ pid Hx eq_refl).
    set (k1 := k <| k_out ::= _ |>). assert (as_eff pgdir k0 ps0 k1 [] (grown_view v)) as F1.
    { eapply as_eff_ext; [eapply as_eff_trans; [exact F|apply (as_print pgdir k), F]|]. apply F. }
    destruct (alloc_undo v k1 [] F1 ltac:(lia) Hon) as (k' & ps' & E & F' & _). mstep E. exists 0, k', ps'. split; [done|]. right. simpl in HL. split; [done|]. split; [done|lia].
  - assert (¬ mapped_at (k_mem k) pgdir v) as Hnm.
    { pose proof (ae_view _ _ _ _ _ _ F (4096 * v) ltac:(unfold KERNBASE in *; lia)) as Hvw2. unfold uview, grown_view in Hvw2.
      replace (4096 * v / 4096) with v in Hvw2 by zlia. rewrite decide_False in Hvw2 by lia. unfold mapped_at.
      intros Ep. rewrite Ep in Hvw2. symmetry in Hvw2. unfold uview in Hvw2. replace (4096 * v / 4096) with v in Hvw2 by zlia.
      destruct (present (ent (k_mem k0) pgdir v)) eqn:E0; [|done]. by apply (Hun v); [lia|]. }
    destruct (fresh_page pgdir k q ps v 6 (λ m, memset m q 0 PGSIZE)) as (fl & k3 & ps' & E & Hq0 & Hcase); try done; try lia.
    { apply F. } { intros m Hm. by apply memset_ok. }
    { intros m x _ Hx'. rewrite memset_spec by done. unfold in_page, PGSIZE in *. by rewrite decide_False by lia. }
    mstep E. rewrite decide_False by done. unfold zero_page. rewrite bind_modify. change (Z.lor PTE_W PTE_U) with 6.
    destruct Hcase as [(E3 & F3 & L3 & _)|(E3 & -> & -> & A1 & A2 & A3 & A4 & A5 & A6 & A7 & A8)]; mstep E3.
    + rewrite decide_False by done. replace (u32 (4096 * v + PGSIZE)) with (4096 * (v + 1)) by (rewrite u32_small; unfold PGSIZE; lia).
      apply (IH (v + 1) k3 ps'); try lia. eapply as_eff_ext; [eapply as_eff_trans; [exact F|exact F3]|]. intros va Hva.
      unfold page_view. rewrite (ae_view _ _ _ _ _ _ F) by done. unfold grown_view. case_decide as Ev.
      * rewrite decide_True by lia. rewrite memset_spec by done. rewrite decide_True by (unfold PGSIZE; zlia). done.
      * repeat case_decide; try lia; done.
    + rewrite decide_True by done. assert (ctx k3 pid) as Hx3 by (rewrite A4; by eapply (ctx_ext k)).
      mstep (cprintf_spec ("allocuvm out of memory (2)" +:+ nl) [] _ _ pid Hx3 eq_refl). set (k4 := k3 <| k_out ::= _ |>).
      destruct (alloc_undo_page v k q [] k4 F) as (k' & ps'' & E4 & F4); try done; try lia.
      { apply (as_print pgdir k3 [] _ A1). } { by apply print_frame. }
      rewrite E4. exists 0, k', ps''. split; [done|]. right. simpl in HL. split; [done|]. split; [done|lia].
Qed.
End alloc.

Lemma allocuvm_spec pgdir pid oldsz newsz k ps :
  as_ok k ps pgdir → ctx k pid → KERNBASE < img_end (k_img k) → 0 ≤ oldsz ≤ newsz → newsz < KERNBASE →
  (∀ n, (oldsz + 4095) / 4096 ≤ n < (newsz + 4095) / 4096 → ¬ mapped_at (k_mem k) pgdir n) →
  ∃ r k' ps', allocuvm pgdir oldsz newsz k = (Ok r, k') ∧
    (r = newsz ∧ as_eff pgdir k ps k' ps' (grown_view pgdir ((oldsz + 4095) / 4096) k ((newsz + 4095) / 4096)) ∧
       Z.of_nat (length ps) ≤ Z.of_nat (length ps') + 2 * ((newsz + 4095) / 4096 - (oldsz + 4095) / 4096) ∨
     r = 0 ∧ as_eff pgdir k ps k' ps' (uview (k_mem k) pgdir) ∧
       Z.of_nat (length ps) < 2 * ((newsz + 4095) / 4096 - (oldsz + 4095) / 4096)).
Proof.
  intros H Hx Himg Hsz Hnew Hun. unfold allocuvm. rewrite decide_False by lia. rewrite decide_False by lia.
  rewrite PGROUNDUP_spec by (unfold PGSIZE, KERNBASE in *; lia). change PGSIZE with 4096.
  replace (oldsz + 4096 - 1) with (oldsz + 4095) by lia. set (v0 := (oldsz + 4095) / 4096) in *. rewrite (Z.mul_comm v0).
  set (w := (newsz + 4095) / 4096) in *. assert (v0 ≤ w) as Hvw by (unfold v0, w; zlia).
  pose proof (allocuvm_loop_spec pgdir pid oldsz newsz v0 w) as L. rewrite (Z.max_l w v0) in L by lia.
  apply L with (ps := ps); try done; try lia; clear L.
  - eapply as_eff_ext; [by apply as_eff_refl|]. intros va _. unfold grown_view. by rewrite decide_False by lia.
  - unfold w. zlia.
Qed.

(** C11: growing an address space from [oldsz] to [newsz] bytes, with the
    pages in between not mapped: [allocuvm] either returns [newsz], and then these
    pages show zeros and can be read and written by the process, while every other
    address shows what it did; or it runs out of memory and returns 0, and then
    every address shows what it did and there were fewer free pages than two for each
    new page (one for the page, one for its table).  In both cases no page of anybody else is
    touched and no page is lost, the kernel's part of the table is unchanged and the
    address space is in good order.  It terminates. *)
Theorem allocuvm_correct pgdir pid oldsz newsz k ps :
  as_ok k ps pgdir → ctx k pid → KERNBASE < img_end (k_img k) → 0 ≤ oldsz ≤ newsz → newsz < KERNBASE →
  (∀ n, (oldsz + 4095) / 4096 ≤ n < (newsz + 4095) / 4096 → ¬ mapped_at (k_mem k) pgdir n) →
  ∃ r k' ps', allocuvm pgdir oldsz newsz k = (Ok r, k') ∧
    (r = newsz ∧ as_eff pgdir k ps k' ps' (λ va,
       if decide ((oldsz + 4095) / 4096 ≤ va / 4096 < (newsz + 4095) / 4096) then Some (7, 0) else uview (k_mem k) pgdir va) ∨
     r = 0 ∧ as_eff pgdir k ps k' ps' (uview (k_mem k) pgdir) ∧
       Z.of_nat (length ps) < 2 * ((newsz + 4095) / 4096 - (oldsz + 4095) / 4096)).
Proof.
  intros H Hx Himg Hsz Hnew Hun. destruct (allocuvm_spec pgdir pid oldsz newsz k ps) as (r & k' & ps' & E & Hr); try done.
  exists r, k', ps'. split; [done|]. destruct Hr as [(? & ? & _)|?]; [by left|by right].
Qed.

(** A process in the machine with [N] free pages and an empty address space. *)
Definition demo_as (N : Z) : kernel :=
  demo_vm N <| k_cpus := k_cpus demo_pipe_state |> <| k_procs := k_procs demo_pipe_state |>.

Lemma demo_as_ctx N : ctx (demo_as N) 1.
Proof. eapply (ctx_ext demo_pipe_state); [apply demo_pipe_ctx|done..]. Qed.

Lemma demo_as_ok N : 0 < N < 50000 →
  as_ok (demo_as N) (page_run demo_base N) demo_pgdir ∧ ∀ n, 0 ≤ n < UPN → ¬ mapped_at (k_mem (demo_as N)) demo_pgdir n.
Proof.
  intros HN. destruct (demo_pt N HN) as [H Hz]. assert (∀ n, 0 ≤ n < UPN → ¬ mapped_at (k_mem (demo_as N)) demo_pgdir n) as Hun.
  { intros n Hn. unfold mapped_at. change (k_mem (demo_as N)) with (k_mem (demo_vm N)). by rewrite Hz by lia. }
  split; [|done]. split; [|intros n Hn Hp; by apply Hun in Hp|intros n n' Hn _ Hp; by apply Hun in Hp].
  destruct H as [H1 H2 H3 H4 H5 H6]. split; [by eapply (kmem_ok_ext (demo_vm N))| |done..].
  destruct (ctx_cpu _ _ (demo_as_ctx N)) as (c & cp & Hc & Hcz). exists c, cp. split; [done|]. split; [lia|done].
Qed.

Lemma allocuvm_correct_witness :
  ∃ r k' ps', allocuvm demo_pgdir 0 10000 (demo_as 8) = (Ok r, k') ∧
    (r = 10000 ∧ as_eff demo_pgdir (demo_as 8) (page_run demo_base 8) k' ps' (λ va,
       if decide ((0 + 4095) / 4096 ≤ va / 4096 < (10000 + 4095) / 4096) then Some (7, 0)
       else uview (k_mem (demo_as 8)) demo_pgdir va) ∨
     r = 0 ∧ as_eff demo_pgdir (demo_as 8) (page_run demo_base 8) k' ps' (uview (k_mem (demo_as 8)) demo_pgdir) ∧
       Z.of_nat (length (page_run demo_base 8)) < 2 * ((10000 + 4095) / 4096 - (0 + 4095) / 4096)).
Proof.
  apply (allocuvm_correct demo_pgdir 1 0 10000 (demo_as 8) (page_run demo_base 8)).
  - apply demo_as_ok. lia.
  - apply demo_as_ctx.
  - reflexivity.
  - lia.
  - reflexivity.
  - change ((0 + 4095) / 4096) with 0. change ((10000 + 4095) / 4096) with 3. intros n Hn. apply demo_as_ok; lia.
Defined.

(** The same process after it has grown to three pages. *)
Definition demo_user : kernel := (allocuvm demo_pgdir 0 10000 (demo_as 300)).2.
#[local] Opaque allocuvm demo_as.

Lemma demo_user_ok :
  ∃ ps, as_ok demo_user ps demo_pgdir ∧ ctx demo_user 1 ∧ k_img demo_user = img0 ∧ k_procs demo_user = k_procs demo_pipe_state ∧
    k_cpus demo_user = k_cpus demo_pipe_state ∧ (294 ≤ length ps)%nat ∧
    ∀ va, 0 ≤ va < KERNBASE → uview (k_mem demo_user) demo_pgdir va = if decide (va < 12288) then Some (7, 0) else None.
Proof.
  destruct (demo_as_ok 300 ltac:(lia)) as [H Hun].
  assert (∀ n, (0 + 4095) / 4096 ≤ n < (10000 + 4095) / 4096 → ¬ mapped_at (k_mem (demo_as 300)) demo_pgdir n) as Hfree.
  { change ((0 + 4095) / 4096) with 0. change ((10000 + 4095) / 4096) with 3. intros n Hn. apply Hun. lia. }
  destruct (allocuvm_spec demo_pgdir 1 0 10000 _ _ H (demo_as_ctx 300) eq_refl ltac:(lia) eq_refl Hfree) as (r & k' & ps' & E & Hr).
  change ((0 + 4095) / 4096) with 0 in Hr. change ((10000 + 4095) / 4096) with 3 in Hr.
  assert (length (page_run demo_base 300) = 300%nat) as EL by (unfold page_run; by rewrite length_map, length_seqZ).
  rewrite EL in Hr. destruct Hr as [(_ & F & L)|(_ & _ & L)]; [|lia]. unfold demo_user. rewrite E. exists ps'. cbn [snd].
  split; [apply F|]. split; [exact (eff_ctx _ _ _ _ _ _ _ F (demo_as_ctx 300))|]. split; [by rewrite (ae_frame _ _ _ _ _ _ F)|].
  split; [by rewrite (ae_frame _ _ _ _ _ _ F)|]. split; [by rewrite (ae_frame _ _ _ _ _ _ F)|]. split; [lia|].
  intros va Hva. rewrite (ae_view _ _ _ _ _ _ F) by done. unfold grown_view.
  destruct (decide (va < 12288)); [by rewrite decide_True by zlia|]. rewrite decide_False by zlia.
  unfold uview. destruct (present _) eqn:Ep; [|reflexivity]. exfalso. apply (Hun (va / 4096)); [by apply user_vpn|exact Ep].
Qed.
