(* ===== verification/VmKernel.v ===== *)
(** * Making and freeing address spaces (properties of vm.c)

    [setupkvm] gives a page directory whose kernel half maps every kernel address to
    itself; [freevm] gives all the pages of an address space back.  [heap_ok] is the
    state of the allocator, and [heap_eff] what an operation does to the pages that
    it neither takes nor frees: nothing. *)

From S2P Require Import Prelude Memory Strings State Spinlock Kalloc Vm VmTable VmSpace.

#[local] Opaque memset store32 load32.

Record heap_ok (k : kernel) (ps : list Z) : Prop := {
  ho_kmem : kmem_ok k ps;
  ho_quiet : kmem_quiet k;
  ho_mem : mem_ok (k_mem k) }.

Record heap_eff (k k' : kernel) (ps' : list Z) : Prop := {
  he_frame : k' = k <| k_mem := k_mem k' |> <| k_freelist := k_freelist k' |> <| k_out := k_out k' |>;
  he_ok : heap_ok k' ps';
  he_keep : ∀ p, page_ok k p → p ∉ ps' → ∀ x, in_page p x → k_mem k' x = k_mem k x }.

Lemma as_heap k ps pgdir : as_ok k ps pgdir → heap_ok k ps.
Proof. intros [[H1 H2 H3 _ _ _] _ _]. by split. Qed.

Lemma heap_free k ps p :
  heap_ok k ps → page_ok k p → p ∉ ps → kfree p k = (Ok tt, freed p k) ∧ heap_eff k (freed p k) (p :: ps).
Proof.
  intros [H1 H2 H3] Hp Hn. split; [by apply kfree_spec|]. split; [rewrite (freed_frame p k) at 1; reflexivity| |].
  - split; [by apply freed_ok|by apply (kmem_quiet_ext k)|by apply freed_mem_ok].
  - intros q Hq Hqn x Hx. apply freed_out. intros Hx'. rewrite (pages_apart k q p x) in Hqn by done. set_solver.
Qed.

(** Ownership can be decided by looking at the whole table. *)
Lemma bounded_or (P : Z → Prop) N : (∀ n, P n ∨ ¬ P n) → (∃ n, 0 ≤ n < N ∧ P n) ∨ ¬ (∃ n, 0 ≤ n < N ∧ P n).
Proof.
  intros HP. destruct (Z_lt_dec N 0) as [|HN]; [right; intros (n & ? & _); lia|].
  assert (0 ≤ N) as HN0 by lia. clear HN. pattern N. apply natlike_ind; [right; intros (n & ? & _); lia| |done].
  intros x Hx [(n & Hn & Hp)|Hno]; [left; exists n; split; [lia|done]|]. destruct (HP x) as [Hp|Hp]; [left; exists x; split; [lia|done]|].
  right. intros (n & Hn & Hpn). destruct (decide (n = x)) as [->|]; [done|]. apply Hno. exists n. split; [lia|done].
Qed.

Lemma owned_or m pgdir p : owned m pgdir p ∨ ¬ owned m pgdir p.
Proof.
  unfold owned, pt_page, mapped_at.
  destruct (bounded_or (λ d, present (pde m pgdir d) = true ∧ p = tab m pgdir d) 1024) as [H1|H1];
    [intros d; destruct (present (pde m pgdir d)), (decide (p = tab m pgdir d)); naive_solver|tauto|].
  destruct (bounded_or (λ n, present (ent m pgdir n) = true ∧ p = frame m pgdir n) UPN) as [H2|H2];
    [intros n; destruct (present (ent m pgdir n)), (decide (p = frame m pgdir n)); naive_solver|tauto|].
  destruct (decide (p = pgdir)); tauto.
Qed.

(** ** freevm *)

Section free_tables.
Context (pgdir : Z).
Notation body := (λ i, pde ← ld32 (pgdir + 4 * i); when (present pde) (kfree (P2V (PTE_ADDR pde)))).

Lemma free_tables l k ps :
  heap_ok k ps → page_ok k pgdir → pgdir ∉ ps → NoDup l → (∀ d, d ∈ l → 0 ≤ d < 1024) →
  (∀ d, d ∈ l → present (pde (k_mem k) pgdir d) = true →
     page_ok k (tab (k_mem k) pgdir d) ∧ tab (k_mem k) pgdir d ∉ ps ∧ tab (k_mem k) pgdir d ≠ pgdir) →
  (∀ d d', d ∈ l → d' ∈ l → present (pde (k_mem k) pgdir d) = true → present (pde (k_mem k) pgdir d') = true →
     tab (k_mem k) pgdir d = tab (k_mem k) pgdir d' → d = d') →
  ∃ k' ps', each body l k = (Ok tt, k') ∧ heap_eff k k' ps' ∧
    (∀ p, p ∈ ps' ↔ p ∈ ps ∨ ∃ d, d ∈ l ∧ present (pde (k_mem k) pgdir d) = true ∧ p = tab (k_mem k) pgdir d).
Proof.
  revert k ps. induction l as [|d l IH]; intros k ps H Hd Hdn Hnd Hl Htab Hinj; cbn [each].
  { exists k, ps. split; [done|]. split; [by split; [destruct k|..]|]. intros p. split; [by left|]. intros [Hp|(d & Hd' & _)]; set_solver. }
  apply NoDup_cons in Hnd as [Hdl Hnd]. unfold ld32. rewrite bind_assoc, bind_gets. fold (pde (k_mem k) pgdir d).
  fold (tab (k_mem k) pgdir d). destruct (present (pde (k_mem k) pgdir d)) eqn:Ep; unfold when.
  2:{ rewrite bind_ret. destruct (IH k ps) as (k' & ps' & E & F & Hps); try done.
      - intros d' Hd'. apply Hl. by right.
      - intros d' Hd'. apply Htab. by right.
      - intros d1 d2 H1 H2. apply Hinj; by right.
      - exists k', ps'. split; [done|]. split; [done|]. intros p. rewrite Hps.
        split; (intros [Hp|(d' & Hd' & P1 & ->)]; [by left|right; exists d']); [split; [by right|done]|].
        apply elem_of_cons in Hd' as [->|Hd']; [congruence|done]. }
  destruct (Htab d ltac:(left) Ep) as (T1 & T2 & T3). destruct (heap_free k ps _ H T1 T2) as [E1 F1]. mstep E1.
  set (k1 := freed (tab (k_mem k) pgdir d) k) in *.
  assert (∀ d', 0 ≤ d' < 1024 → pde (k_mem k1) pgdir d' = pde (k_mem k) pgdir d') as Hpde.
  { intros d' Hd'. apply pde_same; [|done]. apply (he_keep _ _ _ F1); [done|]. set_solver. }
  assert (∀ d', d' ∈ l → pde (k_mem k1) pgdir d' = pde (k_mem k) pgdir d') as Hpl by (intros d' Hd'; apply Hpde, Hl; by right).
  destruct (IH k1 (tab (k_mem k) pgdir d :: ps)) as (k' & ps' & E & F & Hps); try done; [apply F1|set_solver|intros d' Hd'; apply Hl; by right| | |].
  - intros d' Hd'. unfold tab. rewrite Hpl by done. fold (tab (k_mem k) pgdir d'). intros P1.
    destruct (Htab d' ltac:(by right) P1) as (S1 & S2 & S3). split; [done|]. split; [|done]. apply not_elem_of_cons.
    split; [|done]. intros Et. apply Hdl. rewrite (Hinj d d'); [done|by left|by right|done..|]. done.
  - intros d1 d2 H1 H2. unfold tab. rewrite !Hpl by done. apply Hinj; by right.
  - exists k', ps'. split; [done|]. split.
    + split; [|apply F|].
      * rewrite (he_frame _ _ _ F) at 1. rewrite (he_frame _ _ _ F1) at 1. reflexivity.
      * intros p Hp Hpn x Hx. rewrite (he_keep _ _ _ F p) by done. apply (he_keep _ _ _ F1 p); try done.
        intros Hp'. apply Hpn, Hps. by left.
    + intros p. rewrite Hps, elem_of_cons. split.
      * intros [[->|Hp]|(d' & Hd' & P1 & ->)]; [right; exists d; split; [by left|done]|by left|].
        right. exists d'. unfold tab in *. rewrite Hpl in * by done. split; [by right|done].
      * intros [Hp|(d' & Hd' & P1 & ->)]; [by left; right|]. apply elem_of_cons in Hd' as [->|Hd']; [by left; left|].
        right. exists d'. unfold tab. rewrite Hpl by done. done.
Qed.
End free_tables.

Lemma freevm_spec pgdir k ps :
  as_ok k ps pgdir → KERNBASE < img_end (k_img k) →
  ∃ k' ps', freevm pgdir k = (Ok tt, k') ∧ heap_eff k k' ps' ∧ (∀ p, p ∈ ps' ↔ p ∈ ps ∨ owned (k_mem k) pgdir p).
Proof.
  intros H Himg. destruct (po_page _ _ _ (so_pt _ _ _ H) pgdir (or_introl eq_refl)) as [Hd Hdn].
  unfold freevm. rewrite decide_False by (pose proof (page_ok_range _ _ Hd); lia).
  destruct (deallocuvm_spec pgdir KERNBASE 0 k ps H Himg ltac:(done) ltac:(done)) as (k1 & ps1 & E1 & F1 & Hps1). mstep E1.
  change ((0 + 4095) / 4096) with 0 in *. change ((KERNBASE + 4095) / 4096) with UPN in *.
  pose proof (ae_ok _ _ _ _ _ _ F1) as H1. destruct (po_page _ _ _ (so_pt _ _ _ H1) pgdir (or_introl eq_refl)) as [Hd1 Hdn1].
  assert (∀ d, d ∈ seqZ 0 NPDENTRIES → 0 ≤ d < 1024) as Hl by (intros d Hd'%elem_of_seqZ; unfold NPDENTRIES in *; lia).
  destruct (free_tables pgdir (seqZ 0 NPDENTRIES) k1 ps1) as (k2 & ps2 & E2 & F2 & Hps2); try done.
  { by eapply as_heap. } { apply NoDup_seqZ. }
  { intros d Hd2%Hl Hp. destruct (po_page _ _ _ (so_pt _ _ _ H1) (tab (k_mem k1) pgdir d)) as [P1 P2]; [right; by exists d|].
    split; [done|]. split; [done|]. by apply (po_dir _ _ _ (so_pt _ _ _ H1)). }
  { intros d d' Hd2%Hl Hd3%Hl. by apply (po_inj _ _ _ (so_pt _ _ _ H1)). }
  mstep E2. assert (pgdir ∉ ps2) as Hdn2.
  { intros [Hp|(d & Hd2%Hl & P1 & P2)]%Hps2; [done|]. by apply (po_dir _ _ _ (so_pt _ _ _ H1) d Hd2 P1). }
  assert (page_ok k2 pgdir) as Hd2 by (by rewrite (he_frame _ _ _ F2)).
  destruct (heap_free k2 ps2 pgdir (he_ok _ _ _ F2) Hd2 Hdn2) as [E3 F3]. rewrite E3.
  exists (freed pgdir k2), (pgdir :: ps2). split; [done|].
  assert (∀ p, p ∈ pgdir :: ps2 ↔ p ∈ ps1 ∨ pt_page (k_mem k1) pgdir p) as Hall.
  { intros p. rewrite elem_of_cons, Hps2. unfold pt_page. split.
    - intros [->|[Hp|(d & Hd3%Hl & P1 & P2)]]; [by right; left|by left|right; right; by exists d].
    - intros [Hp|[->|(d & Hd3 & P1 & P2)]]; [by right; left|by left|]. right. right. exists d.
      split; [|done]. apply elem_of_seqZ. unfold NPDENTRIES. lia. }
  split; [split; [|apply F3|]|].
  - rewrite (he_frame _ _ _ F3) at 1. rewrite (he_frame _ _ _ F2) at 1. rewrite (ae_frame _ _ _ _ _ _ F1) at 1. reflexivity.
  - intros p Hp Hpn x Hx. assert (p ∉ ps1 ∧ ¬ pt_page (k_mem k1) pgdir p) as [N1 N2] by (split; intros Hp'; apply Hpn, Hall; tauto).
    rewrite (he_keep _ _ _ F3 p); [|by rewrite (he_frame _ _ _ F2), (ae_frame _ _ _ _ _ _ F1)|done|done].
    rewrite (he_keep _ _ _ F2 p); [|by rewrite (ae_frame _ _ _ _ _ _ F1)|by intros Hp'; apply Hpn; right|done].
    destruct (decide (p ∈ ps)) as [Hps|Hps]; [exfalso; apply N1, Hps1; by left|].
    apply (ae_keep _ _ _ _ _ _ F1 p); try done. intros Hown.
    destruct (ae_all _ _ _ _ _ _ F1 p (or_intror Hown)) as [?|[?|(n & Hn & Hm & _)]]; [done|done|].
    pose proof (ae_view _ _ _ _ _ _ F1 (4096 * n) ltac:(unfold KERNBASE; lia)) as Hv. unfold uview, cut_view in Hv.
    replace (4096 * n / 4096) with n in Hv by zlia. rewrite Hm, decide_True in Hv by lia. done.
  - intros p. rewrite Hall. split.
    + intros [[Hp|(n & Hn & P1 & P2)]%Hps1|Hp]; [by left|right; right; by exists n|].
      destruct (decide (p ∈ ps)) as [?|Hn]; [by left|]. right. destruct (po_page _ _ _ (so_pt _ _ _ H1) p Hp) as [Hpp _].
      assert (page_ok k p) as Hpk by (by rewrite (ae_frame _ _ _ _ _ _ F1) in Hpp).
      destruct (owned_or (k_mem k) pgdir p) as [?|Ho]; [done|]. destruct (ae_keep _ _ _ _ _ _ F1 p Hpk Hn Ho) as (_ & Ho' & _).
      exfalso. apply Ho'. by left.
    + intros Hp. destruct (ae_all _ _ _ _ _ _ F1 p Hp) as [?|[?|(n & Hn & Hm & _)]]; [by left|by right|].
      pose proof (ae_view _ _ _ _ _ _ F1 (4096 * n) ltac:(unfold KERNBASE; lia)) as Hv. unfold uview, cut_view in Hv.
      replace (4096 * n / 4096) with n in Hv by zlia. rewrite Hm, decide_True in Hv by lia. done.
Qed.

(** A new address space: its pages come from the free list, and nothing else changes. *)
Record as_new (pgdir : Z) (k : kernel) (ps : list Z) (k' : kernel) (ps' : list Z) (g : Z → option (Z * Z)) : Prop := {
  an_frame : k' = k <| k_mem := k_mem k' |> <| k_freelist := k_freelist k' |> <| k_out := k_out k' |>;
  an_ok : as_ok k' ps' pgdir;
  an_view : ∀ va, 0 ≤ va < KERNBASE → uview (k_mem k') pgdir va = g va;
  an_keep : ∀ p, page_ok k p → p ∉ ps →
    p ∉ ps' ∧ ¬ owned (k_mem k') pgdir p ∧ ∀ x, in_page p x → k_mem k' x = k_mem k x;
  an_all : ∀ p, p ∈ ps → p ∈ ps' ∨ owned (k_mem k') pgdir p }.

Lemma owned_page k ps pgdir p : as_ok k ps pgdir → owned (k_mem k) pgdir p → page_ok k p ∧ p ∉ ps.
Proof.
  intros H [Hp|(n & Hn & Hm & ->)]; [by apply (po_page _ _ _ (so_pt _ _ _ H))|].
  by destruct (so_frame _ _ _ H n Hn Hm) as (? & ? & _).
Qed.

Lemma as_new_eff pgdir k ps k1 ps1 g1 k2 ps2 g2 :
  as_new pgdir k ps k1 ps1 g1 → as_eff pgdir k1 ps1 k2 ps2 g2 → as_new pgdir k ps k2 ps2 g2.
Proof.
  intros E1 E2. split.
  - rewrite (ae_frame _ _ _ _ _ _ E2) at 1. rewrite (an_frame _ _ _ _ _ _ E1) at 1. done.
  - apply E2.
  - apply E2.
  - intros p Hp Hn. destruct (an_keep _ _ _ _ _ _ E1 p Hp Hn) as (H1 & H2 & H3).
    destruct (ae_keep _ _ _ _ _ _ E2 p) as (H4 & H5 & H6); [by rewrite (an_frame _ _ _ _ _ _ E1)|done|done|].
    split_and!; try done. intros x Hx. by rewrite H6, H3.
  - intros p Hp. by apply E2, E1.
Qed.

(** Freeing a new address space undoes it. *)
Lemma as_new_free pgdir k ps k1 ps1 g :
  as_new pgdir k ps k1 ps1 g → KERNBASE < img_end (k_img k) →
  ∃ k' ps', freevm pgdir k1 = (Ok tt, k') ∧ heap_eff k k' ps' ∧ (∀ p, p ∈ ps' ↔ p ∈ ps).
Proof.
  intros H Himg. pose proof (an_ok _ _ _ _ _ _ H) as H1.
  destruct (freevm_spec pgdir k1 ps1 H1) as (k' & ps' & E & F & Hps); [by rewrite (an_frame _ _ _ _ _ _ H)|].
  assert (∀ p, page_ok k1 p ↔ page_ok k p) as Hpo by (intros p; by rewrite (an_frame _ _ _ _ _ _ H)).
  assert (∀ p, p ∈ ps' ↔ p ∈ ps) as Hall.
  { intros p. rewrite Hps. split; [|apply H]. intros Hp. destruct (decide (p ∈ ps)) as [|Hn]; [done|]. exfalso.
    assert (page_ok k p) as Hpk.
    { apply Hpo. destruct Hp as [Hp|Hp]; [|by eapply owned_page].
      pose proof (ko_pages _ _ (po_kmem _ _ _ (so_pt _ _ _ H1))) as Hf. rewrite Forall_forall in Hf. by apply Hf. }
    destruct (an_keep _ _ _ _ _ _ H p Hpk Hn) as (? & ? & _). tauto. }
  exists k', ps'. split; [done|]. split; [|done]. split; [|apply F|].
  - rewrite (he_frame _ _ _ F) at 1. rewrite (an_frame _ _ _ _ _ _ H) at 1. reflexivity.
  - intros p Hp Hn x Hx. rewrite (he_keep _ _ _ F p); [|by apply Hpo|done|done].
    apply (an_keep _ _ _ _ _ _ H p); [done| |done]. by rewrite <- Hall.
Qed.

(** ** setupkvm *)

(** A page of zeros is an empty directory. *)
Lemma new_dir k ps q :
  heap_ok k ps → page_ok k q → q ∉ ps → (∀ x, in_page q x → k_mem k x = 0) →
  pt_ok k ps q ∧ (∀ n, 0 ≤ n < 2 ^ 20 → ent (k_mem k) q n = 0) ∧ (∀ p, pt_page (k_mem k) q p ↔ p = q).
Proof.
  intros [H1 H2 H3] Hq Hn Hz.
  assert (∀ d, 0 ≤ d < 1024 → present (pde (k_mem k) q d) = false) as Hp.
  { intros d Hd. assert (pde (k_mem k) q d = load32 (λ _, 0) (q + 4 * d)) as ->.
    { apply load32_ext. intros x Hx. apply Hz. by eapply word_in_page. } done. }
  assert (∀ p, pt_page (k_mem k) q p ↔ p = q) as Hpt.
  { intros p. split; [|by left]. intros [?|(d & Hd & P1 & _)]; [done|]. by rewrite Hp in P1. }
  split_and!; [split; try done| |done].
  - by intros p ->%Hpt.
  - intros d Hd P1. by rewrite Hp in P1.
  - intros d d' Hd _ P1. by rewrite Hp in P1.
  - intros n Hn'. unfold ent. destruct (vpn_parts n Hn'). by rewrite Hp.
Qed.

(** The directory and the kernel's tables alone form an address space. *)
Lemma new_as k q ps k1 k' ps' f :
  heap_ok k (q :: ps) → k1 = k <| k_mem := k_mem k1 |> <| k_freelist := k_freelist k1 |> →
  (∀ x, ¬ in_page q x → k_mem k1 x = k_mem k x) → page_ok k q → q ∉ ps → (∀ p, pt_page (k_mem k1) q p ↔ p = q) →
  pt_eff q k1 ps k' ps' f → (∀ n, 0 ≤ n < UPN → f n = 0) → as_new q k (q :: ps) k' ps' (λ _, None).
Proof.
  intros H E1 Hout Hq Hqn Hpt F Hf.
  assert (∀ n, 0 ≤ n < UPN → present (ent (k_mem k') q n) = false) as He.
  { intros n Hn. rewrite (pe_ent _ _ _ _ _ _ F) by lia. by rewrite Hf. }
  assert (∀ p, owned (k_mem k') q p ↔ pt_page (k_mem k') q p) as Ho.
  { intros p. split; [|by left]. intros [?|(n & Hn & P1 & _)]; [done|]. unfold mapped_at in P1. by rewrite He in P1. }
  split.
  - assert (k_out k' = k_out k) as -> by (rewrite (pe_frame _ _ _ _ _ _ F); by rewrite E1).
    rewrite (pe_frame _ _ _ _ _ _ F) at 1. rewrite E1 at 1. reflexivity.
  - split; [apply F| |].
    + intros n Hn P1. unfold mapped_at in P1. by rewrite He in P1.
    + intros n n' Hn _ P1. unfold mapped_at in P1. by rewrite He in P1.
  - intros va Hva. unfold uview. by rewrite He by (by apply user_vpn).
  - intros p Hp Hpn. apply not_elem_of_cons in Hpn as [Hpq Hpn]. rewrite Ho.
    destruct (pe_keep _ _ _ _ _ _ F p) as (P1 & P2 & P3); [by rewrite E1|done|by rewrite Hpt|].
    split_and!; try done. intros x Hx. rewrite P3 by done. apply Hout. intros Hx'. by rewrite (pages_apart k p q x) in Hpq.
  - intros p Hp. rewrite Ho. apply (pe_all _ _ _ _ _ _ F). rewrite Hpt. by apply elem_of_cons in Hp as [?|?]; [right|left].
Qed.

Lemma kmap_step pgdir k1 ps1 k ps f c t v N pa perm :
  pt_eff pgdir k1 ps1 k ps f → Z.of_nat (length ps1) ≤ Z.of_nat (length ps) + c →
  0 ≤ v → v + Z.of_nat N < 2 ^ 20 → pa mod 4096 = 0 → 0 ≤ pa → pa + 4096 * Z.of_nat N < 2 ^ 32 → 0 ≤ perm < 4096 →
  (∀ n, v ≤ n ≤ v + Z.of_nat N → f n = 0) → (v + Z.of_nat N) / 1024 - v / 1024 + 1 ≤ t →
  ∃ k' ps' f', pt_eff pgdir k1 ps1 k' ps' f' ∧ (∀ n, n < v → f' n = f n) ∧
    (mappages pgdir (4096 * v) (4096 * (Z.of_nat N + 1)) pa perm k = (Ok 0, k') ∧
     f' = mapped f v pa perm (Z.of_nat N + 1) ∧ Z.of_nat (length ps1) ≤ Z.of_nat (length ps') + (c + t) ∨
     mappages pgdir (4096 * v) (4096 * (Z.of_nat N + 1)) pa perm k = (Ok (-1), k') ∧ Z.of_nat (length ps1) < c + t).
Proof.
  intros F HL Hv HN Ha Hpa Hpa2 Hperm Hun Ht. rewrite mappages_pages by done.
  pose proof (pe_ok _ _ _ _ _ _ F) as H. assert (need (k_mem k) pgdir v (Z.of_nat N) ≤ t) as Hneed.
  { assert (absent (k_mem k) pgdir (v / 1024) ≤ 1)%nat by (unfold absent; destruct (present _); lia). unfold need. lia. }
  assert (∀ k' ps' cnt, pt_eff pgdir k ps k' ps' (mapped (ent (k_mem k) pgdir) v pa perm cnt) →
    pt_eff pgdir k1 ps1 k' ps' (mapped f v pa perm cnt)) as Hlift.
  { intros k' ps' cnt F'. eapply pt_eff_ext; [eapply pt_eff_trans; [exact F|exact F']|]. intros n Hn. unfold mapped.
    case_decide; [done|]. by apply (pe_ent _ _ _ _ _ _ F). }
  assert (∀ cnt n, n < v → mapped f v pa perm cnt n = f n) as Hlow by (intros cnt n Hn; unfold mapped; by rewrite decide_False by lia).
  destruct (mappages_loop_spec N pgdir v pa perm k ps) as (k' & ps' & [(E & F' & L)|(E & -> & L & j & Hj & F')]); try done.
  { intros n Hn. rewrite (pe_ent _ _ _ _ _ _ F) by lia. by rewrite Hun. }
  - exists k', ps', (mapped f v pa perm (Z.of_nat N + 1)). split; [by apply Hlift|]. split; [by apply Hlow|].
    left. split; [done|]. split; [done|lia].
  - exists k', [], (mapped f v pa perm j). split; [by apply Hlift|]. split; [by apply Hlow|]. right. split; [done|lia].
Qed.

(** What the linker says of the image: the data start on a page after the text. *)
Record img_ok (img : image) : Prop := {
  io_align : img_data img mod 4096 = 0;
  io_data : KERNLINK < img_data img ≤ img_end img;
  io_end : img_end img < KERNBASE + PHYSTOP }.

(** The entries of the kernel half, for data that start at page [D]. *)
Definition kent (D n : Z) : Z :=
  mapped (mapped (mapped (mapped (λ _, 0) 0x80000 0 2 256) 0x80100 0x100000 0 (D - 0x80100))
    D (4096 * (D - 0x80000)) 2 (0x8e000 - D)) 0xfe000 DEVSPACE 2 0x2000 n.

(** The pages that the directory and its kernel tables can take. *)
Notation kvm_pages := 122.

(** The outcome of an attempt that stopped for want of memory: the free pages are
    the ones there were, fewer than [c]. *)
Definition gave_up (c : Z) (k : kernel) (ps : list Z) (k' : kernel) (ps' : list Z) : Prop :=
  heap_eff k k' ps' ∧ (∀ p, p ∈ ps' ↔ p ∈ ps) ∧ Z.of_nat (length ps) < c.

Lemma kmap_rows img :
  img_ok img →
  kmap img =
  [(4096 * 0x80000, 0, EXTMEM, PTE_W); (4096 * 0x80100, 0x100000, V2P (img_data img), 0);
   (4096 * (img_data img / 4096), V2P (img_data img), PHYSTOP, PTE_W); (4096 * 0xfe000, DEVSPACE, 0, PTE_W)] ∧
  V2P (img_data img) = 4096 * (img_data img / 4096 - 0x80000) ∧ 0x80100 < img_data img / 4096 < 0x8e000.
Proof.
  intros [I1 I2 I3]. unfold KERNLINK, KERNBASE, EXTMEM, PHYSTOP in *. set (D := img_data img / 4096).
  assert (img_data img = 4096 * D) as Ed by (unfold D; zlia). assert (0x80100 < D < 0x8e000) as HD by (unfold D; zlia).
  split_and!; try lia.
  - unfold kmap. by rewrite <- Ed.
  - unfold V2P, KERNBASE. rewrite Ed. rewrite u32_small; lia.
Qed.

Section rows.
(** [k1] is [k] after the page [q] has been allocated and cleared. *)
Context (k : kernel) (q : Z) (ps : list Z) (k1 : kernel).
Context (H : heap_ok k (q :: ps)) (Himg : KERNBASE < img_end (k_img k)).
Context (E1 : k1 = k <| k_mem := k_mem k1 |> <| k_freelist := k_freelist k1 |>).
Context (Hout : ∀ x, ¬ in_page q x → k_mem k1 x = k_mem k x) (Hq : page_ok k q) (Hqn : q ∉ ps).
Context (Hpt : ∀ p, pt_page (k_mem k1) q p ↔ p = q).

(** A row of the table is mapped, or everything is undone. *)
Lemma kmap_row k2 ps2 f c t v N pa perm size :
  pt_eff q k1 ps k2 ps2 f → Z.of_nat (length ps) ≤ Z.of_nat (length ps2) + c →
  UPN ≤ v → v + N < 2 ^ 20 → 0 ≤ N → size = 4096 * (N + 1) →
  pa mod 4096 = 0 → 0 ≤ pa → pa + 4096 * N < 2 ^ 32 → 0 ≤ perm < 4096 →
  (∀ n, v ≤ n ≤ v + N → f n = 0) → (∀ n, 0 ≤ n < UPN → f n = 0) → (v + N) / 1024 - v / 1024 + 1 ≤ t → c + t < kvm_pages →
  ∃ k' ps',
    ((r ← mappages q (4096 * v) size pa perm; if decide (r < 0) then freevm q;; mret (inl 0) else mret (inr tt)) k2
       = (Ok (inr tt), k') ∧ pt_eff q k1 ps k' ps' (mapped f v pa perm (N + 1)) ∧
     Z.of_nat (length ps) ≤ Z.of_nat (length ps') + (c + t)) ∨
    ((r ← mappages q (4096 * v) size pa perm; if decide (r < 0) then freevm q;; mret (inl 0) else mret (inr tt)) k2
       = (Ok (inl 0 : Z + unit), k') ∧ gave_up kvm_pages k (q :: ps) k' ps').
Proof.
  intros F HL Hv HN HN0 -> Ha Hpa Hpa2 Hperm Hun Hlow Ht Hc.
  destruct (kmap_step q k1 ps k2 ps2 f c t v (Z.to_nat N) pa perm F HL) as (k' & ps' & f' & F' & Hf' & Hr);
    rewrite ?Z2Nat.id by lia; try done; try lia. rewrite Z2Nat.id in Hr by lia.
  assert (∀ n, 0 ≤ n < UPN → f' n = 0) as Hlow' by (intros n Hn; rewrite Hf' by lia; by apply Hlow).
  destruct Hr as [(E & -> & L)|(E & L)]; mstep E.
  - exists k', ps'. left. by rewrite decide_False by done.
  - destruct (as_new_free q k (q :: ps) k' ps' (λ _, None)) as (k3 & ps3 & E3 & F3 & Hps); [by eapply new_as|done|].
    rewrite decide_True by done. mstep E3. exists k3, ps3. right. split; [done|]. split; [done|]. split; [done|]. simpl. lia.
Qed.
End rows.

Lemma setupkvm_spec k ps :
  heap_ok k ps → img_ok (k_img k) →
  ∃ r k' ps', setupkvm k = (Ok r, k') ∧
    (r ≠ 0 ∧ as_new r k ps k' ps' (λ _, None) ∧
       (∀ n, UPN ≤ n < 2 ^ 20 → ent (k_mem k') r n = kent (img_data (k_img k) / 4096) n) ∧
       Z.of_nat (length ps) ≤ Z.of_nat (length ps') + kvm_pages ∨
     r = 0 ∧ gave_up kvm_pages k ps k' ps').
Proof.
  intros H Himg. destruct (kmap_rows _ Himg) as (Hrows & Ev & HD). set (D := img_data (k_img k) / 4096) in *.
  assert (KERNBASE < img_end (k_img k)) as Hend by (destruct Himg; unfold KERNLINK, EXTMEM in *; lia).
  unfold setupkvm. destruct (kalloc_spec k ps (ho_kmem _ _ H) (ho_quiet _ _ H)) as [E Hk].
  destruct ps as [|q ps]; cbn [kalloc_abs kalloced fst snd] in E, Hk; mstep E.
  { rewrite decide_True by done. exists 0, k, []. split; [done|]. right. split; [done|]. split; [|by split; [|simpl]].
    split; [by destruct k|done|done]. }
  pose proof (ho_kmem _ _ H) as [_ Hpo Hnd]. apply Forall_cons in Hpo as [Hq _]. apply NoDup_cons in Hnd as [Hqn _].
  rewrite decide_False by (pose proof (page_ok_range _ _ Hq); lia). unfold zero_page. rewrite bind_modify.
  set (k1 := set_mem _ _). rewrite decide_False by done. rewrite bind_gets. change (k_img k1) with (k_img k). rewrite Hrows.
  assert (∀ x, k_mem k1 x = if decide (in_page q x) then 0 else k_mem k x) as Hx.
  { intros x. unfold k1, kalloced. simpl. rewrite memset_spec by (unfold PGSIZE; lia). unfold in_page, PGSIZE. by repeat case_decide. }
  assert (∀ x, ¬ in_page q x → k_mem k1 x = k_mem k x) as Hout by (intros x Hnx; by rewrite Hx, decide_False).
  assert (heap_ok k1 ps) as H1.
  { split; [|by apply (kmem_quiet_ext k _ (ho_quiet _ _ H))|intros x; rewrite Hx; case_decide; [lia|apply (ho_mem _ _ H)]].
    eapply (kmem_ok_ext (kalloced (q :: ps) k)); [done..|]. intros p x Hp Hxp. apply Hout. intros Hx'.
    pose proof (ko_pages _ _ Hk) as Hf. rewrite Forall_forall in Hf. by rewrite (pages_apart k p q x) in Hp by (try done; by apply Hf). }
  destruct (new_dir k1 ps q H1 Hq Hqn) as (P1 & Z1 & Hpt). { intros x Hin. by rewrite Hx, decide_True. }
  assert (k1 = k <| k_mem := k_mem k1 |> <| k_freelist := k_freelist k1 |>) as Ek1 by done.
  assert (pt_eff q k1 ps k1 ps (λ _, 0)) as F1 by (eapply pt_eff_ext; [by apply pt_eff_refl|done]).
  pose proof (kmap_row k q ps k1 H Hend Ek1 Hout Hq Hqn Hpt) as Row.
  assert (∀ f v pa perm cnt, UPN ≤ v → (∀ n, 0 ≤ n < UPN → f n = 0) → ∀ n, 0 ≤ n < UPN → mapped f v pa perm cnt n = 0) as Low.
  { intros f v pa perm cnt Hv Hf n Hn. unfold mapped. rewrite decide_False by lia. by apply Hf. }
  cbn [scan]. rewrite bind_assoc.
  destruct (Row k1 ps (λ _, 0) 0 1 0x80000 255 0 PTE_W (u32 (EXTMEM - 0)) F1) as (k2 & ps2 & [(E2 & F2 & L2)|(E2 & G)]);
    [lia|done|done|done|done|done|done|done|done|done|done|done|done| |mstep E2; exists 0, k2, ps2; split; [done|by right]].
  mstep E2. rewrite bind_assoc. change (255 + 1) with 256 in F2.
  destruct (Row k2 ps2 _ 1 56 0x80100 (D - 0x80101) 0x100000 0 (u32 (V2P (img_data (k_img k)) - 0x100000)) F2)
    as (k3 & ps3 & [(E3 & F3 & L3)|(E3 & G)]); [lia|done|lia|lia|rewrite Ev, u32_small; lia|done|lia|lia|done| |by apply Low|zlia|done| |
    mstep E3; exists 0, k3, ps3; split; [done|by right]].
  { intros n Hn. unfold mapped. by rewrite decide_False by lia. }
  mstep E3. rewrite bind_assoc. replace (D - 0x80101 + 1) with (D - 0x80100) in F3 by lia.
  destruct (Row k3 ps3 _ 57 56 D (0x8e000 - D - 1) (V2P (img_data (k_img k))) PTE_W (u32 (PHYSTOP - V2P (img_data (k_img k)))) F3)
    as (k4 & ps4 & [(E4 & F4 & L4)|(E4 & G)]); [lia|lia|lia|lia|unfold PHYSTOP; rewrite Ev, u32_small; lia|
    rewrite Ev, Z.mul_comm, Z.mod_mul; lia|lia|lia|done| |by apply Low, Low|zlia|done| |
    mstep E4; exists 0, k4, ps4; split; [done|by right]].
  { intros n Hn. unfold mapped. by rewrite !decide_False by lia. }
  mstep E4. rewrite bind_assoc. replace (0x8e000 - D - 1 + 1) with (0x8e000 - D) in F4 by lia.
  destruct (Row k4 ps4 _ 113 8 0xfe000 0x1fff DEVSPACE PTE_W (u32 (0 - DEVSPACE)) F4)
    as (k5 & ps5 & [(E5 & F5 & L5)|(E5 & G)]); [lia|done|done|done|done|done|done|done|done| |by apply Low, Low, Low; [lia|..]|done|done| |
    mstep E5; exists 0, k5, ps5; split; [done|by right]].
  { intros n Hn. unfold mapped. by rewrite !decide_False by lia. }
  mstep E5. exists q, k5, ps5. split; [done|]. left. split; [pose proof (page_ok_range _ _ Hq); lia|]. split; [|split; [|simpl; lia]].
  - eapply new_as; try done. apply Low, Low, Low, Low; done || lia.
  - intros n Hn. rewrite (pe_ent _ _ _ _ _ _ F5) by lia. unfold kent. by rewrite <- Ev.
Qed.

(** ** What the hardware sees *)

Lemma pte_bits a fl : 0 ≤ fl < 4096 →
  present (4096 * a + fl) = Z.odd fl ∧ PTE_ADDR (4096 * a + fl) = 4096 * a ∧ (4096 * a + fl) mod 4096 = fl.
Proof.
  intros Hf. rewrite present_odd, PTE_ADDR_spec. split_and!; [|zlia|zlia].
  rewrite Z.odd_add, Z.odd_mul. change (Z.odd 4096) with false. by rewrite andb_false_l, xorb_false_l.
Qed.

Lemma pte_writable a fl : 0 ≤ fl < 4096 → Z.land (4096 * a + fl) PTE_W = Z.land fl PTE_W.
Proof.
  intros Hf. assert (Z.land PTE_W (Z.ones 12) = PTE_W) as Ew by done.
  rewrite <- Ew, (Z.land_comm PTE_W), !Z.land_assoc, !Z.land_ones by lia. f_equal.
  change (2 ^ 12) with 4096. zlia.
Qed.

Lemma kent_mem D n : 0x80100 < D < 0x8e000 → 0x80000 ≤ n < 0x8e000 →
  kent D n = 4096 * (n - 0x80000) + (if decide (0x80100 ≤ n < D) then 1 else 3).
Proof.
  intros HD Hn. unfold kent, mapped. change (Z.lor 2 1) with 3. change (Z.lor 0 1) with 1. repeat case_decide; lia.
Qed.

(** What the hardware makes of these entries: every address of the kernel's memory and every
    device address is itself, and the text cannot be written. *)
Definition kernel_map (m : mem) (pgdir : Z) (img : image) : Prop :=
  (∀ x w, KERNBASE ≤ x < KERNBASE + PHYSTOP → translate m pgdir x w =
     if w && bool_decide (KERNLINK ≤ x < img_data img) then None else Some x) ∧
  (∀ x, DEVSPACE ≤ x < 2 ^ 32 → present (pte_at m pgdir x) = true ∧ PTE_ADDR (pte_at m pgdir x) + x mod 4096 = x).

Lemma kent_map m pgdir img :
  img_ok img → (∀ n, UPN ≤ n < 2 ^ 20 → ent m pgdir n = kent (img_data img / 4096) n) → kernel_map m pgdir img.
Proof.
  intros Himg H3. destruct (kmap_rows _ Himg) as (_ & _ & HD). destruct Himg as [Hal _ _]. set (data := img_data img) in *.
  assert (data = 4096 * (data / 4096)) as Ed by zlia. split.
  - intros x w Hx. unfold translate. rewrite pte_at_ent by (unfold KERNBASE, PHYSTOP in *; lia).
    unfold KERNBASE, PHYSTOP, KERNLINK, EXTMEM in *. rewrite H3, kent_mem by zlia.
    set (n := x / 4096). assert (4096 * n ≤ x < 4096 * n + 4096) as Hn by (unfold n; zlia).
    assert ((0x80100 ≤ n < data / 4096) ↔ KERNBASE + 0x100000 ≤ x < data) as Htext by (unfold KERNBASE; lia).
    assert (P2V (4096 * (n - 0x80000)) + x mod 4096 = x) as Eid.
    { unfold P2V, KERNBASE. rewrite u32_small by lia. unfold n. zlia. }
    unfold KERNBASE in Htext. destruct (decide (0x80100 ≤ n < data / 4096)) as [Hd|Hd];
      destruct (pte_bits (n - 0x80000) 1 ltac:(lia)) as (A1 & A2 & _), (pte_bits (n - 0x80000) 3 ltac:(lia)) as (B1 & B2 & _);
      rewrite ?A1, ?A2, ?B1, ?B2, pte_writable by lia; rewrite ?bool_decide_true, ?bool_decide_false by tauto;
      unfold PGSIZE; rewrite Eid; by destruct w.
  - intros x Hx. unfold DEVSPACE in *. rewrite pte_at_ent by lia. rewrite H3 by zlia.
    assert (kent (data / 4096) (x / 4096) = 4096 * (x / 4096) + 3) as ->.
    { unfold kent, mapped, DEVSPACE. change (Z.lor 2 1) with 3. rewrite decide_True by zlia. lia. }
    destruct (pte_bits (x / 4096) 3 ltac:(lia)) as (-> & -> & _). split; [done|]. zlia.
Qed.


Lemma demo_heap N : 0 < N < 50000 → heap_ok (demo_as N) (page_run demo_base N).
Proof. intros HN. eapply as_heap. by apply demo_as_ok. Qed.

Lemma demo_img N : img_ok (k_img (demo_as N)).
Proof. split; vm_compute; intuition discriminate. Qed.

