(* ===== verification/VmCopy.v ===== *)
(** * Copying between address spaces (properties of vm.c and of growproc)

    [copyuvm] gives a child the memory of its parent, in pages of its own; [copyout]
    writes to the memory of a process whose page table need not be the current one.
    Address spaces that own different pages do not see each other's changes. *)

From S2P Require Import Prelude Memory Strings State Spinlock Kalloc Vm VmTable VmSpace VmKernel.

#[local] Opaque memset store32 load32.

(** An address space whose pages keep their content, in a state that may otherwise
    have changed. *)
Lemma as_same k k' ps ps' pgdir :
  as_ok k ps pgdir → heap_ok k' ps' → k_img k' = k_img k →
  (∀ p, owned (k_mem k) pgdir p → p ∉ ps' ∧ ∀ x, in_page p x → k_mem k' x = k_mem k x) →
  as_ok k' ps' pgdir ∧ (∀ va, 0 ≤ va < KERNBASE → uview (k_mem k') pgdir va = uview (k_mem k) pgdir va) ∧
  (∀ n, 0 ≤ n < 2 ^ 20 → ent (k_mem k') pgdir n = ent (k_mem k) pgdir n) ∧
  (∀ p, owned (k_mem k') pgdir p ↔ owned (k_mem k) pgdir p).
Proof.
  intros H H' Ei Hown. destruct (tables_same (k_mem k) (k_mem k') pgdir) as (Hd & He & Hpt).
  { intros p Hp. apply Hown. by left. }
  assert (∀ n', 0 ≤ n' < UPN → ent (k_mem k') pgdir n' = ent (k_mem k) pgdir n') as Heu by (intros n' Hn'; apply He; lia).
  assert (∀ p, page_ok k' p ↔ page_ok k p) as Hpo by (intros p; unfold page_ok; by rewrite Ei).
  split_and!; [|intros va Hva|done|intros p].
  - split.
    + eapply (pt_ok_same k); try done; [apply H|apply H'..|]. intros p Hp. apply Hown. by left.
    + intros n Hn. unfold mapped_at, frame. rewrite Heu by done. intros Hp. destruct (so_frame _ _ _ H n Hn Hp) as (P1 & P2 & P3).
      rewrite Hpo, Hpt. split; [done|]. split; [|done]. apply Hown. right. by exists n.
    + intros n1 n2 Hn1 Hn2. unfold mapped_at, frame. rewrite !Heu by done. by apply (so_inj _ _ _ H).
  - pose proof (user_vpn va Hva) as Hv. unfold uview, frame. rewrite Heu by done. destruct (present _) eqn:Ep; [|done].
    fold (frame (k_mem k) pgdir (va / 4096)). do 2 f_equal. apply (Hown (frame (k_mem k) pgdir (va / 4096))); [|apply in_frame].
    right. by exists (va / 4096).
  - unfold owned, mapped_at, frame. rewrite Hpt.
    split; (intros [Hp|(n & Hn & Hp & ->)]; [by left|right; exists n]); by rewrite ?Heu in * by done.
Qed.

(** Two address spaces own different pages. *)
Definition apart (m : mem) (pgdir pgdir' : Z) : Prop := ∀ p, owned m pgdir p → ¬ owned m pgdir' p.

(** What happens in one leaves the other alone. *)
Lemma as_isolated pgdir pgdir' k ps k' ps' g :
  as_ok k ps pgdir' → apart (k_mem k) pgdir' pgdir → as_eff pgdir k ps k' ps' g →
  as_ok k' ps' pgdir' ∧ (∀ va, 0 ≤ va < KERNBASE → uview (k_mem k') pgdir' va = uview (k_mem k) pgdir' va) ∧
  apart (k_mem k') pgdir' pgdir.
Proof.
  intros H Hap F.
  assert (∀ p, owned (k_mem k) pgdir' p →
    p ∉ ps' ∧ ¬ owned (k_mem k') pgdir p ∧ ∀ x, in_page p x → k_mem k' x = k_mem k x) as Hkeep.
  { intros p Hp. destruct (owned_page _ _ _ _ H Hp) as [P1 P2]. apply (ae_keep _ _ _ _ _ _ F); try done. by apply Hap. }
  destruct (as_same k k' ps ps' pgdir' H) as (S1 & S2 & _ & S4); [eapply as_heap; apply F|by rewrite (ae_frame _ _ _ _ _ _ F)| |].
  { intros p Hp. by destruct (Hkeep p Hp) as (? & _ & ?). }
  split; [done|]. split; [done|]. intros p Hp%S4. by apply Hkeep.
Qed.

(** ** copyuvm *)

(** A page that could not be mapped is given back. *)
Lemma fresh_undo pgdir k q k3 :
  as_ok k [q] pgdir → as_ok k3 [] pgdir → page_ok k3 q → ¬ owned (k_mem k3) pgdir q →
  k3 = k <| k_mem := k_mem k3 |> <| k_freelist := k_freelist k3 |> →
  (∀ va, 0 ≤ va < KERNBASE → uview (k_mem k3) pgdir va = uview (k_mem k) pgdir va) →
  (∀ n, UPN ≤ n < 2 ^ 20 → ent (k_mem k3) pgdir n = ent (k_mem k) pgdir n) →
  (∀ p, page_ok k p → p ∉ [q] → ¬ owned (k_mem k) pgdir p →
     ¬ owned (k_mem k3) pgdir p ∧ ∀ x, in_page p x → k_mem k3 x = k_mem k x) →
  (∀ p, p ∈ [q] ∨ owned (k_mem k) pgdir p → p = q ∨ owned (k_mem k3) pgdir p) →
  kfree q k3 = (Ok tt, freed q k3) ∧ as_eff pgdir k [q] (freed q k3) [q] (uview (k_mem k) pgdir).
Proof.
  intros H H3 Hq Hqo Hfr Hview Hkern Hkeep Hall.
  destruct (as_free_other pgdir k3 [] q H3 Hq ltac:(set_solver) Hqo) as (E & A1 & A2 & A3 & A4). split; [done|].
  assert (page_ok k q) as Hq' by (by rewrite Hfr in Hq).
  split; [|done|intros va Hva; by rewrite A2, Hview|intros n Hn; by rewrite A3, Hkern by lia|..].
  - assert (k_out (freed q k3) = k_out k) as -> by (change (k_out (freed q k3)) with (k_out k3); by rewrite Hfr).
    rewrite (freed_frame q k3) at 1. rewrite Hfr at 1. reflexivity.
  - intros p Hp Hpn Hpo. destruct (Hkeep p Hp Hpn Hpo) as (P4 & P5). split; [done|]. split; [by intros ?%A4|].
    intros x Hx. rewrite freed_out; [by apply P5|]. intros Hx'. rewrite (pages_apart k p q x) in Hpn by done. set_solver.
  - intros p Hp%Hall. rewrite A4, list_elem_of_singleton. tauto.
Qed.

Lemma lor_odd fl : Z.odd fl = true → Z.lor fl 1 = fl.
Proof.
  intros Ho. apply Z.bits_inj'. intros n Hn. rewrite Z.lor_spec. destruct (decide (n = 0)) as [->|Hne].
  - rewrite <- Z.bit0_odd in Ho. by rewrite Ho.
  - change 1 with (2 ^ 0). rewrite Z.pow2_bits_false by lia. apply orb_false_r.
Qed.

Section copy.
Context (pgdir d : Z) (k0 : kernel) (ps0 : list Z) (H0 : as_ok k0 ps0 pgdir).
Context (N : Z) (HN : 0 ≤ N ≤ UPN) (Hall : ∀ n, 0 ≤ n < N → mapped_at (k_mem k0) pgdir n).

(** The first [n] pages. *)
Definition copy_view (n va : Z) : option (Z * Z) :=
  if decide (va / 4096 < n) then uview (k_mem k0) pgdir va else None.

(** The source is as it was while the copy grows. *)
Lemma source_same k ps g :
  as_new d k0 ps0 k ps g →
  as_ok k ps pgdir ∧ (∀ va, 0 ≤ va < KERNBASE → uview (k_mem k) pgdir va = uview (k_mem k0) pgdir va) ∧
  (∀ n, 0 ≤ n < 2 ^ 20 → ent (k_mem k) pgdir n = ent (k_mem k0) pgdir n) ∧ apart (k_mem k) pgdir d.
Proof.
  intros F. assert (∀ p, owned (k_mem k0) pgdir p →
    p ∉ ps ∧ ¬ owned (k_mem k) d p ∧ ∀ x, in_page p x → k_mem k x = k_mem k0 x) as Hkeep.
  { intros p Hp. destruct (owned_page _ _ _ _ H0 Hp) as [P1 P2]. by apply (an_keep _ _ _ _ _ _ F). }
  destruct (as_same k0 k ps0 ps pgdir H0) as (S1 & S2 & S3 & S4); [eapply as_heap; apply F|by rewrite (an_frame _ _ _ _ _ _ F)| |].
  { intros p Hp. by destruct (Hkeep p Hp) as (? & _ & ?). }
  split_and!; try done. intros p Hp%S4. by apply Hkeep.
Qed.

Lemma copy_body n k ps :
  as_new d k0 ps0 k ps (copy_view n) → 0 ≤ n < N →
  ∃ k' ps', (∀ n', UPN ≤ n' < 2 ^ 20 → ent (k_mem k') d n' = ent (k_mem k) d n') ∧
    (copyuvm_body pgdir d (n * PGSIZE) k = (Ok (inr tt), k') ∧ as_new d k0 ps0 k' ps' (copy_view (n + 1)) ∧
       (length ps ≤ length ps' + 2)%nat ∨
     copyuvm_body pgdir d (n * PGSIZE) k = (Ok (inl tt), k') ∧ as_new d k0 ps0 k' ps' (copy_view n) ∧ (length ps ≤ 1)%nat).
Proof.
  intros F Hn. destruct (source_same k ps _ F) as (S1 & S2 & S3 & S4). pose proof (an_ok _ _ _ _ _ _ F) as Hd.
  unfold copyuvm_body. change (n * PGSIZE) with (n * 4096). rewrite (Z.mul_comm n).
  assert (mapped_at (k_mem k) pgdir n) as Hm by (unfold mapped_at; rewrite S3 by lia; by apply Hall).
  mstep (walkpgdir_find pgdir (4096 * n) n ltac:(lia) ltac:(rewrite Z.mul_comm, Z.div_mul by lia; done) k).
  pose proof Hm as Hm'. unfold mapped_at, ent in Hm'. destruct (present (pde (k_mem k) pgdir (n / 1024))) eqn:Epd; [|done].
  unfold ld32. rewrite bind_gets.
  assert (load32 (k_mem k) (tab (k_mem k) pgdir (n / 1024) + 4 * (n mod 1024)) = ent (k_mem k) pgdir n) as Ee
    by (unfold ent; by rewrite Epd).
  rewrite Ee. rewrite Hm. cbn [negb]. fold (frame (k_mem k) pgdir n). set (fl := PTE_FLAGS (ent (k_mem k) pgdir n)).
  destruct (so_frame _ _ _ S1 n ltac:(lia) Hm) as (Hf & _ & _). set (f := frame (k_mem k) pgdir n) in *.
  destruct ps as [|q ps].
  { mstep (as_kalloc_empty k d Hd). rewrite decide_True by done. exists k, []. split; [done|]. right. split; [done|]. split; [done|simpl; lia]. }
  assert (¬ mapped_at (k_mem k) d n) as Hun.
  { pose proof (an_view _ _ _ _ _ _ F (4096 * n) ltac:(unfold KERNBASE; lia)) as Hv. unfold uview, copy_view in Hv.
    replace (4096 * n / 4096) with n in Hv by zlia. rewrite decide_False in Hv by lia. intros Hp. unfold mapped_at in Hp. by rewrite Hp in Hv. }
  assert (0 ≤ fl < 4096) as Hfl by (unfold fl; rewrite PTE_FLAGS_spec; zlia).
  assert (0 ≤ f ∧ f + 4096 < 2 ^ 32) as [Hf1 Hf2] by (destruct Hf as (_ & _ & Hf'); unfold KERNBASE, PHYSTOP in Hf'; lia).
  assert (∀ m, mem_ok m → ∀ x, memmove m q f PGSIZE x = if decide (in_page q x) then m (f + (x - q)) else m x) as Hmv.
  { intros m Hm1 x. rewrite memmove_spec by (try done; change PGSIZE with 4096; lia). done. }
  destruct (fresh_page d k q ps n fl (λ m, memmove m q f PGSIZE)) as (fl' & k3 & ps' & E & Hq0 & Hcase); try done; try lia.
  { intros m Hm1 x. rewrite Hmv by done. case_decide; apply Hm1. }
  { intros m x Hm1 Hx. by rewrite Hmv, decide_False. }
  mstep E. rewrite decide_False by done. rewrite bind_modify. change (4096 * n) with (4096 * n) in *.
  destruct Hcase as [(E3 & F3 & L3 & _)|(E3 & -> & -> & A1 & A2 & A3 & A4 & A5 & A6 & A7 & A8)]; mstep E3.
  - rewrite decide_False by done. exists k3, ps'. split; [apply F3|]. left. split; [done|]. split; [|done].
    pose proof (as_new_eff _ _ _ _ _ _ _ _ _ F F3) as [G1 G2 G3 G4 G5]. split; try done. intros va Hva. rewrite G3 by done.
    pose proof (so_pt _ _ _ Hd) as [_ _ Hmo _ _ _].
    unfold page_view. rewrite Hmv by done. case_decide as Ev.
    + rewrite decide_True by (unfold in_page; zlia). unfold copy_view. rewrite decide_True by lia. rewrite <- S2 by done.
      unfold uview. rewrite Ev, Hm. fold f. fold fl. rewrite lor_odd; [do 3 f_equal; lia|].
      unfold fl. rewrite PTE_FLAGS_spec. unfold mapped_at in Hm. rewrite present_odd in Hm. by rewrite <- Z.bit0_odd, (Z.mod_pow2_bits_low _ 12 0), Z.bit0_odd by lia.
    + rewrite (an_view _ _ _ _ _ _ F) by done. unfold copy_view. repeat case_decide; try done; lia.
  - rewrite decide_True by done. destruct (fresh_undo d k q k3 Hd) as [E4 F4]; try done. mstep E4.
    exists (freed q k3), [q]. split; [apply F4|]. right. split; [done|]. split; [|simpl; lia].
    pose proof (as_new_eff _ _ _ _ _ _ _ _ _ F F4) as [G1 G2 G3 G4 G5]. split; try done. intros va Hva. rewrite G3 by done.
    by apply (an_view _ _ _ _ _ _ F).
Qed.

Lemma copy_loop j n k ps :
  as_new d k0 ps0 k ps (copy_view n) → 0 ≤ n → n + Z.of_nat j = N →
  ∃ r k' ps', scan (copyuvm_body pgdir d) (map (λ i, i * PGSIZE) (seqZ n (Z.of_nat j))) k = (Ok r, k') ∧
    (∀ n', UPN ≤ n' < 2 ^ 20 → ent (k_mem k') d n' = ent (k_mem k) d n') ∧
    (r = None ∧ as_new d k0 ps0 k' ps' (copy_view N) ∨
     r = Some tt ∧ (∃ g, as_new d k0 ps0 k' ps' g) ∧ (length ps < 2 * j)%nat).
Proof.
  revert n k ps. induction j as [|j IH]; intros n k ps F Hn Hj.
  { exists None, k, ps. split; [done|]. split; [done|]. left. split; [done|]. by replace N with n by lia. }
  rewrite seqZ_cons by lia. replace (Z.pred (Z.of_nat (S j))) with (Z.of_nat j) by lia. cbn [map scan].
  destruct (copy_body n k ps F ltac:(lia)) as (k1 & ps1 & K1 & [(E & F1 & L)|(E & F1 & L)]); mstep E.
  - destruct (IH (Z.succ n) k1 ps1 F1 ltac:(lia) ltac:(lia)) as (r & k' & ps' & E2 & K2 & Hr). exists r, k', ps'. split; [done|].
    split; [intros n' Hn'; by rewrite K2, K1|]. destruct Hr as [?|(-> & G & L2)]; [by left|right]. split; [done|]. split; [done|lia].
  - exists (Some tt), k1, ps1. split; [done|]. split; [done|]. right. split; [done|]. split; [by eexists|lia].
Qed.
End copy.

(** C16: [copyuvm] of an address space whose pages below [sz] are mapped gives,
    unless fewer than 122 pages and two for each page of the process are free, a new
    address space in good order that shows the same bytes with the same permissions
    below [sz] and nothing above, and whose kernel half is the one of [setupkvm].  It
    shares no page with the old one.  Otherwise it returns 0 and has given back every
    page that it took.  In both cases the old address space is in good order and shows
    what it did. *)
Theorem copyuvm_correct pgdir sz k ps :
  as_ok k ps pgdir → img_ok (k_img k) → 0 ≤ sz ≤ KERNBASE →
  (∀ n, 0 ≤ n < (sz + 4095) / 4096 → mapped_at (k_mem k) pgdir n) →
  ∃ r k' ps', copyuvm pgdir sz k = (Ok r, k') ∧ as_ok k' ps' pgdir ∧
    (∀ va, 0 ≤ va < KERNBASE → uview (k_mem k') pgdir va = uview (k_mem k) pgdir va) ∧
    (r ≠ 0 ∧ as_new r k ps k' ps' (λ va, if decide (va / 4096 < (sz + 4095) / 4096) then uview (k_mem k) pgdir va else None) ∧
     (∀ n, UPN ≤ n < 2 ^ 20 → ent (k_mem k') r n = kent (img_data (k_img k) / 4096) n) ∧ apart (k_mem k') pgdir r ∨
     r = 0 ∧ gave_up (kvm_pages + 2 * ((sz + 4095) / 4096)) k ps k' ps').
Proof.
  intros H Himg Hsz Hall. set (N := (sz + 4095) / 4096) in *. assert (0 ≤ N ≤ UPN) as HN by (unfold N, KERNBASE in *; zlia).
  assert (KERNBASE < img_end (k_img k)) as Hend by (destruct Himg; unfold KERNLINK, EXTMEM in *; lia).
  assert (∀ k' ps', heap_eff k k' ps' → (∀ p, p ∈ ps' ↔ p ∈ ps) → as_ok k' ps' pgdir ∧
    ∀ va, 0 ≤ va < KERNBASE → uview (k_mem k') pgdir va = uview (k_mem k) pgdir va) as Hback.
  { intros k' ps' F Hps. destruct (as_same k k' ps ps' pgdir H) as (S1 & S2 & _); [apply F|by rewrite (he_frame _ _ _ F)| |done].
    intros p Hp. destruct (owned_page _ _ _ _ H Hp) as [P1 P2]. rewrite <- Hps in P2. split; [done|]. by apply (he_keep _ _ _ F). }
  unfold copyuvm. destruct (setupkvm_spec k ps (as_heap _ _ _ H) Himg) as (d & k1 & ps1 & E1 & [(Hd & F1 & K1 & L1)|(-> & G1 & G2 & G3)]); mstep E1.
  2:{ rewrite decide_True by done. exists 0, k1, ps1. split; [done|]. destruct (Hback k1 ps1 G1 G2) as [? ?].
      split; [done|]. split; [done|]. right. split; [done|]. split; [done|]. split; [done|lia]. }
  rewrite decide_False by done. unfold page_addrs. change ((sz + PGSIZE - 1) / PGSIZE) with ((sz + 4096 - 1) / 4096).
  replace (sz + 4096 - 1) with (sz + 4095) by lia. fold N.
  destruct (copy_loop pgdir d k ps H N HN Hall (Z.to_nat N) 0 k1 ps1) as (r & k2 & ps2 & E2 & K2 & Hr); [|lia|lia|].
  { destruct F1 as [A1 A2 A3 A4 A5]. split; try done. intros va Hva. rewrite A3 by done. unfold copy_view.
    by rewrite decide_False by (pose proof (user_vpn va Hva); lia). }
  rewrite Z2Nat.id in E2 by lia. mstep E2. destruct Hr as [(-> & F2)|(-> & (g & F2) & L2)].
  - exists d, k2, ps2. split; [done|]. destruct (source_same pgdir d k ps H k2 ps2 _ F2) as (S1 & S2 & S3 & S4).
    split; [done|]. split; [done|]. left. split; [done|]. split; [done|]. split; [|done]. intros n Hn. by rewrite K2, K1.
  - destruct (as_new_free d k ps k2 ps2 g F2 Hend) as (k3 & ps3 & E3 & F3 & Hps). mstep E3. exists 0, k3, ps3. split; [done|].
    destruct (Hback k3 ps3 F3 Hps) as [? ?]. split; [done|]. split; [done|]. right. split; [done|]. split; [done|]. split; [done|lia].
Qed.

Lemma copyuvm_correct_witness :
  ∃ ps, ∃ r k' ps', copyuvm demo_pgdir 10000 demo_user = (Ok r, k') ∧ as_ok k' ps' demo_pgdir ∧
    (∀ va, 0 ≤ va < KERNBASE → uview (k_mem k') demo_pgdir va = uview (k_mem demo_user) demo_pgdir va) ∧
    (r ≠ 0 ∧ as_new r demo_user ps k' ps' (λ va,
       if decide (va / 4096 < (10000 + 4095) / 4096) then uview (k_mem demo_user) demo_pgdir va else None) ∧
     (∀ n, UPN ≤ n < 2 ^ 20 → ent (k_mem k') r n = kent (img_data (k_img demo_user) / 4096) n) ∧ apart (k_mem k') demo_pgdir r ∨
     r = 0 ∧ gave_up (kvm_pages + 2 * ((10000 + 4095) / 4096)) demo_user ps k' ps').
Proof.
  destruct demo_user_ok as (ps & H & _ & Hi & _ & _ & _ & Hv). exists ps. apply (copyuvm_correct demo_pgdir 10000 demo_user ps H).
  - rewrite Hi. exact (demo_img 1).
  - vm_compute. split; discriminate.
  - change ((10000 + 4095) / 4096) with 3. intros n Hn. specialize (Hv (4096 * n) ltac:(unfold KERNBASE; lia)).
    rewrite decide_True in Hv by lia. unfold uview in Hv. replace (4096 * n / 4096) with n in Hv by zlia.
    unfold mapped_at. by destruct (present _).
Defined.

(** ** copyout *)

(** The view with [bs] written from [va] on. *)
Definition put_view (va : Z) (bs : list Z) (g : Z → option (Z * Z)) (x : Z) : option (Z * Z) :=
  match g x with
  | Some (fl, b) => Some (fl, if decide (va ≤ x < va + Z.of_nat (length bs)) then nth (Z.to_nat (x - va)) bs 0 else b)
  | None => None
  end.

Lemma put_view_app va bs1 bs2 g x :
  put_view (va + Z.of_nat (length bs1)) bs2 (put_view va bs1 g) x = put_view va (bs1 ++ bs2) g x.
Proof.
  unfold put_view. destruct (g x) as [[fl b]|]; [|done]. do 2 f_equal. rewrite length_app, Nat2Z.inj_add.
  destruct (decide (va ≤ x < va + Z.of_nat (length bs1))).
  - rewrite decide_False, decide_True by lia. by rewrite app_nth1 by lia.
  - case_decide.
    + rewrite decide_True by lia. rewrite app_nth2 by lia. f_equal. lia.
    + by rewrite decide_False by lia.
Qed.

(** Whether a user instruction may touch the byte. *)
Definition user_page (v : option (Z * Z)) : Prop := ∃ fl b, v = Some (fl, b) ∧ Z.land fl PTE_U ≠ 0.
Definition guard_page (v : option (Z * Z)) : Prop := ∃ fl b, v = Some (fl, b) ∧ Z.land fl PTE_U = 0.

Lemma flags_user e : Z.land (PTE_FLAGS e) PTE_U = Z.land e PTE_U.
Proof. unfold PTE_FLAGS. by rewrite <- Z.land_assoc. Qed.

Lemma uva2ka_spec k pgdir v fl b :
  0 ≤ v < UPN → uview (k_mem k) pgdir (4096 * v) = Some (fl, b) →
  mapped_at (k_mem k) pgdir v ∧ PTE_FLAGS (ent (k_mem k) pgdir v) = fl ∧
  uva2ka pgdir (4096 * v) k = (Ok (if decide (Z.land fl PTE_U = 0) then 0 else frame (k_mem k) pgdir v), k).
Proof.
  intros Hv. unfold uview. replace (4096 * v / 4096) with v by zlia. unfold mapped_at.
  destruct (present (ent (k_mem k) pgdir v)) eqn:Ep; [|done]. intros [= Ef _]. split; [done|]. split; [done|].
  unfold uva2ka. mstep (walkpgdir_find pgdir (4096 * v) v ltac:(lia) ltac:(rewrite Z.mul_comm, Z.div_mul by lia; done) k).
  pose proof Ep as Ep'. unfold ent in Ep'. destruct (present (pde (k_mem k) pgdir (v / 1024))) eqn:Epd; [|done].
  unfold ld32. rewrite bind_gets.
  assert (load32 (k_mem k) (tab (k_mem k) pgdir (v / 1024) + 4 * (v mod 1024)) = ent (k_mem k) pgdir v) as ->
    by (unfold ent; by rewrite Epd).
  rewrite decide_False by (unfold present in Ep; intros E0; by rewrite E0 in Ep).
  rewrite <- Ef, flags_user. by case_decide.
Qed.

(** A write inside one page. *)
Lemma write_page pgdir k ps va bs :
  as_ok k ps pgdir → 0 ≤ va < KERNBASE → mapped_at (k_mem k) pgdir (va / 4096) →
  va mod 4096 + Z.of_nat (length bs) ≤ 4096 → Forall (λ b, 0 ≤ b < 2 ^ 8) bs →
  as_eff pgdir k ps (set_mem (λ m, write_bytes m (frame (k_mem k) pgdir (va / 4096) + va mod 4096) bs) k) ps
    (put_view va bs (uview (k_mem k) pgdir)).
Proof.
  intros H Hva Hm Hfit Hb. pose proof (user_vpn va Hva) as Hv. set (f := frame (k_mem k) pgdir (va / 4096)).
  pose proof (Z.mod_pos_bound va 4096 ltac:(lia)) as Ho.
  eapply as_eff_ext; [apply (as_write pgdir k ps (write_bytes (k_mem k) (f + va mod 4096) bs) (va / 4096) H Hv Hm)|].
  - intros x. unfold write_bytes. case_decide; [|apply (so_pt _ _ _ H)]. rewrite Forall_forall in Hb. apply Hb.
    apply list_elem_of_In, nth_In. lia.
  - intros x Hx. unfold write_bytes. rewrite decide_False; [done|]. unfold in_page in Hx. fold f in Hx. lia.
  - intros x Hx. fold f. unfold put_view, uview. case_decide as Ev.
    + rewrite Ev, Hm. fold f. do 2 f_equal. unfold write_bytes. repeat case_decide; try done; try zlia.
      f_equal. zlia.
    + destruct (present _); [|done]. rewrite decide_False by zlia. done.
Qed.

Lemma uview_page m pgdir x y fl b :
  uview m pgdir x = Some (fl, b) → y / 4096 = x / 4096 → ∃ b', uview m pgdir y = Some (fl, b').
Proof. unfold uview. intros Hx ->. destruct (present _); [|done]. injection Hx as -> _. by eexists. Qed.

Lemma put_view_flags va bs g x : user_page (g x) ↔ user_page (put_view va bs g x).
Proof. unfold user_page, put_view. destruct (g x) as [[fl b]|]; naive_solver. Qed.

Lemma put_view_guard va bs g x : guard_page (g x) ↔ guard_page (put_view va bs g x).
Proof. unfold guard_page, put_view. destruct (g x) as [[fl b]|]; naive_solver. Qed.

Lemma put_view_nil va g x : put_view va [] g x = g x.
Proof. unfold put_view. destruct (g x) as [[fl b]|]; [|done]. by rewrite decide_False by (simpl; lia). Qed.

Lemma copyout_loop_spec fuel pgdir va bs m k ps :
  as_ok k ps pgdir → 0 ≤ va → va + Z.of_nat (length bs) ≤ KERNBASE → Forall (λ b, 0 ≤ b < 2 ^ 8) bs →
  (length bs ≤ fuel)%nat → (m ≤ length bs)%nat → (∀ x, va ≤ x < va + Z.of_nat m → user_page (uview (k_mem k) pgdir x)) →
  ((m < length bs)%nat → guard_page (uview (k_mem k) pgdir (va + Z.of_nat m))) →
  ∃ k', copyout_loop fuel pgdir va bs k = (Ok (if decide (m = length bs) then 0 else -1), k') ∧
    as_eff pgdir k ps k' ps (put_view va (take m bs) (uview (k_mem k) pgdir)).
Proof.
  revert va bs m k. induction fuel as [|fuel IH]; intros va bs m k H Hva Hfit Hb Hfu Hm Hus Hgu.
  { assert (bs = []) as -> by (apply nil_length_inv; lia). exists k. cbn [copyout_loop]. rewrite decide_True by (simpl in *; lia).
    split; [done|]. eapply as_eff_ext; [by apply as_eff_refl|]. intros x _. by rewrite take_nil, put_view_nil. }
  destruct (decide (bs = [])) as [->|Hne].
  { exists k. cbn [copyout_loop]. rewrite decide_True by (simpl in *; lia). split; [done|].
    eapply as_eff_ext; [by apply as_eff_refl|]. intros x _. by rewrite take_nil, put_view_nil. }
  assert (0 < length bs)%nat as Hlen by (destruct bs; simpl; [done|lia]).
  replace (copyout_loop (S fuel) pgdir va bs) with
    (pa0 ← uva2ka pgdir (PGROUNDDOWN va);
     if decide (pa0 = 0) then mret (-1) else
     let n := Z.to_nat (PGSIZE - (va - PGROUNDDOWN va)) in
     copy_in (pa0 + (va - PGROUNDDOWN va)) (take n bs);;
     copyout_loop fuel pgdir (u32 (PGROUNDDOWN va + PGSIZE)) (drop n bs)) by (by destruct bs).
  rewrite PGROUNDDOWN_spec. change PGSIZE with 4096. set (v := va / 4096). rewrite (Z.mul_comm v).
  assert (0 ≤ v < UPN ∧ va - 4096 * v = va mod 4096) as [Hv Ho] by (unfold v, KERNBASE in *; zlia). rewrite Ho.
  assert (va / 4096 = 4096 * v / 4096) as Evv by (unfold v; zlia).
  destruct m as [|m].
  { destruct (Hgu Hlen) as (fl & b & Eu & Hfl). simpl in Eu. rewrite Z.add_0_r in Eu.
    destruct (uview_page _ _ va (4096 * v) fl b Eu) as [b' Eu']; [unfold v; zlia|].
    destruct (uva2ka_spec k pgdir v fl b' Hv Eu') as (_ & _ & E). mstep E. rewrite (decide_True (P := Z.land fl PTE_U = 0)) by done.
    rewrite decide_True by done. exists k. rewrite decide_False by lia. split; [done|].
    eapply as_eff_ext; [by apply as_eff_refl|]. intros x _. by rewrite put_view_nil. }
  destruct (Hus va ltac:(lia)) as (fl & b & Eu & Hfl). destruct (uview_page _ _ va (4096 * v) fl b Eu) as [b' Eu']; [unfold v; zlia|].
  destruct (uva2ka_spec k pgdir v fl b' Hv Eu') as (Hmap & _ & E). mstep E. rewrite (decide_False (P := Z.land fl PTE_U = 0)) by done.
  destruct (so_frame _ _ _ H v Hv Hmap) as (Hf & _ & _). rewrite decide_False by (pose proof (page_ok_range _ _ Hf); lia).
  set (n := Z.to_nat (4096 - va mod 4096)). pose proof (Z.mod_pos_bound va 4096 ltac:(lia)) as Hob.
  assert (n `min` length bs ≤ S m)%nat as Hnm.
  { destruct (decide (n `min` length bs ≤ S m)%nat) as [|Hlt]; [done|]. exfalso.
    destruct (Hgu ltac:(lia)) as (fl2 & b2 & Eu2 & Hfl2).
    destruct (uview_page _ _ (va + Z.of_nat (S m)) va fl2 b2 Eu2) as [b3 Eu3]; [unfold n in *; zlia|]. congruence. }
  unfold copy_in. rewrite bind_modify.
  pose proof (write_page pgdir k ps va (take n bs) H ltac:(lia) Hmap) as F1. rewrite length_take in F1.
  specialize (F1 ltac:(unfold n; lia) ltac:(by apply Forall_take)). fold v in F1. set (k1 := set_mem _ k) in *.
  replace (u32 (4096 * v + 4096)) with (4096 * v + 4096) by (rewrite u32_small; lia).
  assert (∀ x, 0 ≤ x < KERNBASE → uview (k_mem k1) pgdir x = put_view va (take n bs) (uview (k_mem k) pgdir) x) as Hv1 by apply F1.
  destruct (IH (4096 * v + 4096) (drop n bs) (S m - n)%nat k1) as (k' & E2 & F2); try rewrite length_drop; try lia.
  { apply F1. } { unfold KERNBASE in *. unfold n. lia. } { by apply Forall_drop. }
  { intros x Hx. unfold n in Hx. rewrite Hv1 by (unfold KERNBASE in *; lia). rewrite <- put_view_flags. apply Hus. lia. }
  { intros Hlt. rewrite Hv1 by (unfold KERNBASE, n in *; lia). rewrite <- put_view_guard.
    replace (4096 * v + 4096 + Z.of_nat (S m - n)) with (va + Z.of_nat (S m)) by (unfold n in *; lia). apply Hgu. lia. }
  exists k'. rewrite E2. rewrite length_drop. split; [do 2 f_equal; repeat case_decide; lia|].
  eapply as_eff_ext; [eapply as_eff_trans; [exact F1|exact F2]|]. intros x Hx.
  destruct (decide (n ≤ length bs)%nat) as [Hn|Hn].
  - replace (take (S m) bs) with (take n bs ++ take (S m - n) (drop n bs)) by (rewrite take_take_drop; f_equal; lia).
    rewrite <- put_view_app. rewrite length_take. replace (n `min` length bs)%nat with n by lia.
    replace (va + Z.of_nat n) with (4096 * v + 4096) by (unfold n; lia). unfold put_view at 1 2. by rewrite Hv1.
  - rewrite drop_ge, take_nil, put_view_nil by lia. rewrite Hv1 by done. by rewrite !take_ge by lia.
Qed.

(** A load of the process sees the view. *)
Lemma user_read_spec pgdir k va bs :
  0 ≤ va → va + Z.of_nat (length bs) ≤ KERNBASE →
  (∀ i b, bs !! i = Some b → ∃ fl, uview (k_mem k) pgdir (va + Z.of_nat i) = Some (fl, b)) →
  user_read pgdir va (length bs) k = (Ok bs, k).
Proof.
  revert va. induction bs as [|b bs IH]; intros va Hva Hfit Hb; [done|]. cbn [length user_read].
  destruct (Hb 0%nat b eq_refl) as (fl & Hu). rewrite Z.add_0_r in Hu.
  assert (user_read8 pgdir va k = (Ok b, k)) as E.
  { unfold user_read8, translate. unfold KERNBASE in Hfit. simpl length in Hfit. rewrite pte_at_ent by lia. unfold uview in Hu.
    destruct (present _); [|done]. injection Hu as _ Hu. cbn [andb negb orb]. change PGSIZE with 4096.
    fold (frame (k_mem k) pgdir (va / 4096)). by rewrite Hu. }
  mstep E. simpl length in Hfit. rewrite u32_small by (unfold KERNBASE in Hfit; lia).
  assert (user_read pgdir (va + 1) (length bs) k = (Ok bs, k)) as E2.
  { apply IH; [lia|lia|]. intros i b' Hi. destruct (Hb (S i) b' Hi) as (fl' & Hu'). exists fl'. rewrite <- Hu'. f_equal. lia. }
  mstep E2. done.
Qed.


