(* ===== verification/VmProc.v ===== *)
(** * Memory of processes (properties of growproc in proc.c)

    [growproc], the body of the sbrk system call, on a process whose address space is
    in good order; what it does to a second thread of the same process, whose size
    field [clone] has copied; and the borders of its argument. *)

From S2P Require Import Prelude Memory Strings State Spinlock Sched Kalloc Sleeplock Pipe Vm VmTable Console VmSpace.
From S2P Require Import Proc.

#[local] Opaque memset store32 load32.

(** Process [i] runs on processor [c]. *)
Record running (k : kernel) (c : nat) (i : nat) (p : proc) : Prop := {
  rn_cpu : ∃ cp, cpu_at k c cp ∧ c_ncli cp = 0 ∧ c_proc cp = Some i;
  rn_proc : k_procs k !! i = Some p;
  rn_stack : p_kstack p ≠ 0;
  rn_pgdir : p_pgdir p ≠ 0 }.

(** The page table and the kernel stack of [p] in use on processor [c]. *)
Definition loaded (c : nat) (p : proc) (k : kernel) : kernel :=
  k <| k_cpus ::= alter (λ x, x <| c_esp0 := u32 (p_kstack p + KSTACKSIZE) |> <| c_cr3 := V2P (p_pgdir p) |>) c |>.

Lemma switchuvm_at k c cp i p :
  cpu_at k c cp → c_ncli cp + 1 < 2 ^ 30 → k_procs k !! i = Some p → p_kstack p ≠ 0 → p_pgdir p ≠ 0 →
  switchuvm (Some i) k = (Ok tt, loaded c p k).
Proof.
  intros Hc Hz Hp Hs Hd. unfold switchuvm. mstep (at_index_ok k_procs i p k Hp : the_proc i k = _).
  rewrite !decide_False by done. mstep (pushcli_spec _ _ _ Hc). pose proof (push_at _ _ _ Hc Hz) as Hpu.
  mstep (mycpu_at _ _ _ Hpu eq_refl). unfold upd_cpu. rewrite bind_modify. unfold lcr3. rewrite bind_modify.
  rewrite this_cpu_alter by done. rewrite (ca_this _ _ _ Hpu). rewrite cpus_alter_comp.
  replace (push c k <| k_cpus ::= _ |>) with (push c (loaded c p k)).
  2:{ unfold push, loaded. rewrite !cpus_alter_comp. unfold upd. simpl. done. }
  eapply popcli_spec. destruct Hc as [C1 C2 C3 C4 C5].
  destruct (cpu_at_alter (λ x, x <| c_esp0 := u32 (p_kstack p + KSTACKSIZE) |> <| c_cr3 := V2P (p_pgdir p) |>) k c cp C1 C2) as [T1 T2]; [done|].
  split; [exact T1|exact T2|done..].
Qed.

Lemma switchuvm_spec k c i p : running k c i p → switchuvm (Some i) k = (Ok tt, loaded c p k).
Proof. intros [(cp & Hc & Hz & _) Hp Hs Hd]. eapply switchuvm_at; [done|lia|done..]. Qed.

Lemma curproc_spec k c i p : running k c i p → curproc k = (Ok i, k).
Proof.
  intros [(cp & Hc & Hz & Hi) _ _ _]. unfold curproc. mstep (myproc_spec _ _ _ Hc ltac:(lia)). by rewrite Hi.
Qed.

(** The process changes its size and loads its table again. *)
Definition resized (c i : nat) (p : proc) (sz : Z) (k : kernel) : kernel :=
  loaded c p (k <| k_procs ::= alter (λ p, p <| p_sz := sz |>) i |>).

Lemma running_eff k c i p pgdir ps k' ps' g : running k c i p → as_eff pgdir k ps k' ps' g → running k' c i p.
Proof.
  intros [(cp & Hc & Hz & Hi) Hp Hs Hd] F. rewrite (ae_frame _ _ _ _ _ _ F). split; try done.
  exists cp. split; [|done]. by eapply cpu_at_ext; [..|exact Hc].
Qed.

Lemma resize_spec k c i p sz :
  running k c i p →
  (upd_proc i (λ p, p <| p_sz := sz |>);; switchuvm (Some i);; (mret 0 : K Z)) k = (Ok 0, resized c i p sz k).
Proof.
  intros H. mstep (upd_proc_ok i (λ p, p <| p_sz := sz |>) k). set (k1 := k <| k_procs ::= _ |>).
  assert (running k1 c i (p <| p_sz := sz |>)) as H1.
  { destruct H as [(cp & Hc & Hz & Hi) Hp Hs Hd]. split; try done.
    - exists cp. split; [|done]. by eapply cpu_at_ext; [..|exact Hc].
    - unfold k1, upd. simpl. by rewrite list_lookup_alter_eq, Hp. }
  by mstep (switchuvm_spec k1 c i _ H1).
Qed.

Section grow.
Context (k : kernel) (ps : list Z) (c i : nat) (p : proc) (pid : Z).
Context (Hx : ctx k pid) (Hrun : running k c i p) (H : as_ok k ps (p_pgdir p)) (Himg : KERNBASE < img_end (k_img k)).

Lemma growproc_up n :
  0 ≤ p_sz p → 0 < n → p_sz p + n < KERNBASE →
  (∀ v, (p_sz p + 4095) / 4096 ≤ v < (p_sz p + n + 4095) / 4096 → ¬ mapped_at (k_mem k) (p_pgdir p) v) →
  ∃ k1 ps1,
    (growproc n k = (Ok 0, resized c i p (p_sz p + n) k1) ∧
     as_eff (p_pgdir p) k ps k1 ps1 (grown_view (p_pgdir p) ((p_sz p + 4095) / 4096) k ((p_sz p + n + 4095) / 4096)) ∧
     Z.of_nat (length ps) ≤ Z.of_nat (length ps1) + 2 * ((p_sz p + n + 4095) / 4096 - (p_sz p + 4095) / 4096)) ∨
    (growproc n k = (Ok (-1), k1) ∧ as_eff (p_pgdir p) k ps k1 ps1 (uview (k_mem k) (p_pgdir p)) ∧
     Z.of_nat (length ps) < 2 * ((p_sz p + n + 4095) / 4096 - (p_sz p + 4095) / 4096)).
Proof.
  intros Hsz Hn Hnew Hun. unfold growproc. mstep (curproc_spec _ _ _ _ Hrun).
  mstep (at_index_ok k_procs i p k (rn_proc _ _ _ _ Hrun) : the_proc i k = _). rewrite decide_True by lia.
  rewrite u32_small by (unfold KERNBASE in *; lia).
  destruct (allocuvm_spec (p_pgdir p) pid (p_sz p) (p_sz p + n) k ps H Hx Himg ltac:(lia) ltac:(lia) Hun)
    as (r & k1 & ps1 & E & [(-> & F & L)|(-> & F & L)]); mstep E; exists k1, ps1.
  - left. rewrite decide_False by lia. rewrite (resize_spec k1 c i p); [done|]. by eapply running_eff.
  - right. by rewrite decide_True by lia.
Qed.

Lemma growproc_down n :
  n < 0 → 0 ≤ p_sz p + n → p_sz p ≤ KERNBASE →
  ∃ k1 ps1, growproc n k = (if decide (p_sz p + n = 0) then (Ok (-1), k1) else (Ok 0, resized c i p (p_sz p + n) k1)) ∧
    as_eff (p_pgdir p) k ps k1 ps1
      (cut_view ((p_sz p + n + 4095) / 4096) ((p_sz p + 4095) / 4096) (uview (k_mem k) (p_pgdir p))).
Proof.
  intros Hn Hnew Hsz. unfold growproc. mstep (curproc_spec _ _ _ _ Hrun).
  mstep (at_index_ok k_procs i p k (rn_proc _ _ _ _ Hrun) : the_proc i k = _). rewrite decide_False, decide_True by lia.
  rewrite u32_small by (unfold KERNBASE in *; lia).
  destruct (deallocuvm_spec (p_pgdir p) (p_sz p) (p_sz p + n) k ps H Himg ltac:(lia) Hsz) as (k1 & ps1 & E & F & _); mstep E.
  exists k1, ps1. split; [|done]. destruct (decide (p_sz p + n = 0)) as [E0|E0].
  - by rewrite decide_True by lia.
  - rewrite decide_False by lia. rewrite (resize_spec k1 c i p); [done|]. by eapply running_eff.
Qed.
End grow.

(** The user pages are the ones below [sz]. *)
Definition sized (m : mem) (pgdir sz : Z) : Prop :=
  ∀ v, 0 ≤ v < UPN → mapped_at m pgdir v ↔ v < (sz + 4095) / 4096.

Lemma mapped_view m pgdir v : 0 ≤ v < UPN → mapped_at m pgdir v ↔ is_Some (uview m pgdir (4096 * v)).
Proof.
  intros Hv. unfold mapped_at, uview. replace (4096 * v / 4096) with v by zlia. destruct (present _); [by split|].
  split; [done|]. by intros [? ?].
Qed.

(** The view of a process that goes from [sz] to [sz'] bytes. *)
Definition sbrk_view (sz sz' : Z) (g : Z → option (Z * Z)) (va : Z) : option (Z * Z) :=
  if decide (va / 4096 < (sz' + 4095) / 4096)
  then if decide (va / 4096 < (sz + 4095) / 4096) then g va else Some (7, 0) else None.

Lemma sized_view m m' pgdir sz sz' :
  sized m pgdir sz → (∀ va, 0 ≤ va < KERNBASE → uview m' pgdir va = sbrk_view sz sz' (uview m pgdir) va) → sized m' pgdir sz'.
Proof.
  intros Hs Hv v Hvr. rewrite mapped_view, Hv by (unfold KERNBASE; lia). unfold sbrk_view.
  replace (4096 * v / 4096) with v by zlia. case_decide; [|split; [by intros [? ?]|lia]].
  case_decide; [|by split]. rewrite <- mapped_view by done. rewrite (Hs v Hvr). lia.
Qed.

Lemma sized_none m pgdir sz va : sized m pgdir sz → 0 ≤ va < KERNBASE → (sz + 4095) / 4096 ≤ va / 4096 → uview m pgdir va = None.
Proof.
  intros Hs Hva Hge. pose proof (user_vpn va Hva) as Hv. unfold uview. destruct (present _) eqn:Ep; [|done].
  apply (Hs _ Hv) in Ep. lia.
Qed.

Lemma resized_ok k ps pgdir c i p sz : as_ok k ps pgdir → as_ok (resized c i p sz k) ps pgdir.
Proof.
  intros [[P1 P2 P3 P4 P5 P6] H2 H3]. split; [split|..]; try done.
  - by eapply (kmem_ok_ext k).
  - destruct P2 as (c' & cp & Hc & Hb & Hf). destruct Hc as [C1 C2 C3 C4 C5].
    exists c', (if decide (c' = c) then cp <| c_esp0 := u32 (p_kstack p + KSTACKSIZE) |> <| c_cr3 := V2P (p_pgdir p) |> else cp).
    assert (this_cpu (resized c i p sz k) = Some c') as T1 by (unfold resized, loaded; by rewrite this_cpu_alter).
    assert (k_cpus (resized c i p sz k) !! c' = Some (if decide (c' = c) then
      cp <| c_esp0 := u32 (p_kstack p + KSTACKSIZE) |> <| c_cr3 := V2P (p_pgdir p) |> else cp)) as T2.
    { unfold resized, loaded, upd. simpl. case_decide as E; [subst; by rewrite list_lookup_alter_eq, C2|by rewrite list_lookup_alter_ne]. }
    split; [|by case_decide]. by split; try done; case_decide.
Qed.

Lemma resized_running k c i p sz : running k c i p → running (resized c i p sz k) c i (p <| p_sz := sz |>).
Proof.
  intros [(cp & Hc & Hz & Hi) Hp Hs Hd]. split; try done.
  - destruct Hc as [C1 C2 C3 C4 C5]. eexists. split; [split|].
    + unfold resized, loaded. by rewrite this_cpu_alter.
    + unfold resized, loaded, upd. simpl. by rewrite list_lookup_alter_eq, C2.
    + done.
    + done.
    + done.
    + done.
  - unfold resized, loaded, upd. simpl. by rewrite list_lookup_alter_eq, Hp.
Qed.

(** A process with its address space, of the size the process table says. *)
Definition process_ok (k : kernel) (ps : list Z) (c i : nat) (p : proc) : Prop :=
  as_ok k ps (p_pgdir p) ∧ running k c i p ∧ sized (k_mem k) (p_pgdir p) (p_sz p).


(** ** Two threads *)

Lemma walkpgdir_present pgdir va n k :
  0 ≤ va < 2 ^ 32 → n = va / 4096 → present (pde (k_mem k) pgdir (n / 1024)) = true →
  walkpgdir pgdir va true k = (Ok (Some (tab (k_mem k) pgdir (n / 1024) + 4 * (n mod 1024))), k).
Proof.
  intros Hva Hn Hp. unfold walkpgdir, ld32. rewrite bind_gets, PDX_spec, PTX_spec by done. rewrite <- Hn.
  fold (pde (k_mem k) pgdir (n / 1024)). by rewrite Hp.
Qed.

Lemma mappages_remap pgdir n pa perm k :
  0 ≤ n < UPN → mapped_at (k_mem k) pgdir n → mappages pgdir (4096 * n) PGSIZE pa perm k = (Stop (Panicked "remap"), k).
Proof.
  intros Hn Hm. change PGSIZE with (4096 * (Z.of_nat 0 + 1)). rewrite mappages_pages by lia. cbn [mappages_loop].
  pose proof Hm as Hm'. unfold mapped_at, ent in Hm'. destruct (present (pde (k_mem k) pgdir (n / 1024))) eqn:Epd; [|done].
  mstep (walkpgdir_present pgdir (4096 * n) n k ltac:(lia) ltac:(zlia) Epd). unfold ld32. rewrite bind_gets. by rewrite Hm'.
Qed.

Lemma allocuvm_remap pgdir oldsz newsz k q ps :
  as_ok k (q :: ps) pgdir → 0 ≤ oldsz → newsz < KERNBASE → (oldsz + 4095) / 4096 < (newsz + 4095) / 4096 →
  mapped_at (k_mem k) pgdir ((oldsz + 4095) / 4096) →
  ∃ k', allocuvm pgdir oldsz newsz k = (Stop (Panicked "remap"), k').
Proof.
  intros H Ho Hnew Hlt Hm. unfold allocuvm. rewrite decide_False by lia. rewrite decide_False by zlia.
  rewrite PGROUNDUP_spec by (unfold PGSIZE, KERNBASE in *; zlia). change PGSIZE with 4096.
  replace (oldsz + 4096 - 1) with (oldsz + 4095) by lia. set (v := (oldsz + 4095) / 4096) in *. rewrite (Z.mul_comm v).
  assert (4096 * v < newsz) as Hvn by zlia. assert (0 ≤ v) as Hv0 by (unfold v; zlia). assert (0 ≤ v < UPN) as Hv by (unfold KERNBASE in *; lia).
  destruct (Z.to_nat _) as [|f] eqn:Ef; [zlia|]. cbn [allocuvm_loop]. rewrite decide_True by done.
  destruct (as_kalloc _ _ _ _ H) as (fl & E & H1 & Hq & Hqn & Hqo & Hq0). mstep E. rewrite decide_False by done.
  unfold zero_page. rewrite bind_modify. set (k1 := k <| k_freelist := fl |>) in *.
  destruct (as_other pgdir k1 ps (memset (k_mem k1) q 0 PGSIZE) q H1 Hq Hqn Hqo) as (_ & He & _).
  { apply memset_ok; [apply (so_pt _ _ _ H)|done]. }
  { intros x Hx. rewrite memset_spec by done. unfold in_page, PGSIZE in *. by rewrite decide_False by lia. }
  eexists. erewrite bind_stop; [done|]. apply mappages_remap; [done|]. unfold mapped_at. simpl. by rewrite He by lia.
Qed.

(** The processor goes on with thread [j]. *)
Definition switch_to (c j : nat) (k : kernel) : kernel := k <| k_cpus ::= alter (λ x, x <| c_proc := Some j |>) c |>.

Lemma switch_to_ok k ps pgdir c j : as_ok k ps pgdir → as_ok (switch_to c j k) ps pgdir.
Proof.
  intros [[P1 P2 P3 P4 P5 P6] H2 H3]. split; [split|..]; try done.
  - by eapply (kmem_ok_ext k).
  - destruct P2 as (c' & cp & Hc & Hb & Hf). destruct Hc as [C1 C2 C3 C4 C5].
    exists c', (if decide (c' = c) then cp <| c_proc := Some j |> else cp).
    assert (this_cpu (switch_to c j k) = Some c') as T1 by (unfold switch_to; by rewrite this_cpu_alter).
    assert (k_cpus (switch_to c j k) !! c' = Some (if decide (c' = c) then cp <| c_proc := Some j |> else cp)) as T2.
    { unfold switch_to, upd. simpl. case_decide as E; [subst; by rewrite list_lookup_alter_eq, C2|by rewrite list_lookup_alter_ne]. }
    split; [|by case_decide]. by split; try done; case_decide.
Qed.

Lemma switch_to_running k c i p j q :
  running k c i p → k_procs k !! j = Some q → p_kstack q ≠ 0 → p_pgdir q ≠ 0 → running (switch_to c j k) c j q.
Proof.
  intros [(cp & Hc & Hz & Hi) Hp Hs Hd] Hq Hqs Hqd. split; try done. destruct Hc as [C1 C2 C3 C4 C5].
  exists (cp <| c_proc := Some j |>). split; [|done]. split; try done.
  - unfold switch_to. by rewrite this_cpu_alter.
  - unfold switch_to, upd. simpl. by rewrite list_lookup_alter_eq, C2.
Qed.


(** ** The borders of the argument *)

(** [growproc] with the negated size frees the whole process and still
    reports failure, leaving the old size in the process table; with anything below
    that, where the new size wraps around, it reports success and shrinks nothing. *)
Theorem growproc_borders k ps c i p n :
  process_ok k ps c i p → KERNBASE < img_end (k_img k) → 0 < p_sz p ≤ KERNBASE → - 2 ^ 31 ≤ n ≤ - p_sz p →
  ∃ k', if decide (n = - p_sz p)
    then growproc n k = (Ok (-1), k') ∧ k_procs k' !! i = Some p ∧
      ∀ va, 0 ≤ va < KERNBASE → uview (k_mem k') (p_pgdir p) va = None
    else growproc n k = (Ok 0, k') ∧ k' = resized c i p (p_sz p) k.
Proof.
  intros (H & Hrun & Hs) Himg Hsz Hn. case_decide as E.
  - destruct (growproc_down k ps c i p Hrun H Himg n) as (k1 & ps1 & E1 & F); try lia. rewrite decide_True in E1 by lia.
    exists k1. split; [done|]. split; [by rewrite (ae_frame _ _ _ _ _ _ F); apply Hrun|]. intros va Hva.
    rewrite (ae_view _ _ _ _ _ _ F) by done. unfold cut_view. case_decide; [done|]. eapply sized_none; [done..|]. zlia.
  - exists (resized c i p (p_sz p) k). split; [|done]. unfold growproc. mstep (curproc_spec _ _ _ _ Hrun).
    mstep (at_index_ok k_procs i p k (rn_proc _ _ _ _ Hrun) : the_proc i k = _). unfold KERNBASE in *.
    rewrite decide_False, decide_True by lia. unfold deallocuvm. rewrite decide_True by zlia. rewrite bind_ret.
    rewrite decide_False by lia. by apply resize_spec.
Qed.

Lemma as_procs k ps pgdir f : as_ok k ps pgdir → as_ok (k <| k_procs ::= f |>) ps pgdir.
Proof.
  intros [[P1 P2 P3 P4 P5 P6] H2 H3]. split; [split|..]; try done; [by eapply (kmem_ok_ext k)|by eapply (kmem_quiet_ext k)].
Qed.

(** Two threads of a process of 10000 bytes. *)
Definition demo_thread : proc :=
  proc0 <| p_pid := 1 |> <| p_state := RUNNING |> <| p_pgdir := demo_pgdir |> <| p_sz := 10000 |> <| p_kstack := KERNBASE + 0x3fe000 |>.
Definition demo_threads : kernel :=
  demo_user <| k_procs ::= λ l, <[1%nat := demo_thread <| p_pid := 2 |>]> (<[O := demo_thread]> l) |>.
#[local] Opaque demo_user.

Lemma demo_threads_ok :
  ∃ ps, process_ok demo_threads ps 0 0 demo_thread ∧ ctx demo_threads 1 ∧ k_img demo_threads = img0 ∧ (294 ≤ length ps)%nat ∧
    k_procs demo_threads !! 1%nat = Some (demo_thread <| p_pid := 2 |>).
Proof.
  destruct demo_user_ok as (ps & H & Hx & Hi & Hpr & Ec & HL & Hv). exists ps.
  change (k_cpus demo_pipe_state) with [cpu0 <| c_proc := Some O |>] in Ec.
  assert (∃ cp, cpu_at demo_user 0 cp ∧ c_ncli cp = 0 ∧ c_proc cp = Some O) as (cp & Hc & Hz & Hp).
  { destruct Hx as [_ _ (c & cp & p & pr & Hc & Hz & Hp & _)].
    destruct Hc as [C1 C2 C3 C4 C5]. unfold this_cpu in C1. rewrite Ec in C1, C2.
    exists cp. destruct c as [|c]; [|discriminate C2]. split; [split|].
    - unfold this_cpu. rewrite Ec. exact C1.
    - rewrite Ec. exact C2.
    - exact C3.
    - exact C4.
    - exact C5.
    - split; [exact Hz|]. injection C2 as <-. reflexivity. }
  assert (k_procs demo_threads = <[1%nat := demo_thread <| p_pid := 2 |>]> (<[O := demo_thread]> (k_procs demo_pipe_state))) as Epr
    by (rewrite <- Hpr; reflexivity).
  assert (cpu_at demo_threads 0 cp) as Hc' by (eapply (cpu_at_ext demo_user); [reflexivity|reflexivity|exact Hc]).
  split_and!; [split; [|split]| |exact Hi|exact HL|rewrite Epr; reflexivity].
  - by apply as_procs.
  - split; [exists cp; exact (conj Hc' (conj Hz Hp))|rewrite Epr; reflexivity|discriminate|discriminate].
  - intros v Hvr. change (k_mem demo_threads) with (k_mem demo_user). rewrite mapped_view, Hv by (unfold KERNBASE; lia).
    change ((p_sz demo_thread + 4095) / 4096) with 3. case_decide; [split; [lia|by eexists]|]. split; [by intros [? ?]|lia].
  - destruct Hx as [X1 X2 _]. split; [exact X1|rewrite Epr; reflexivity|]. exists O, cp, O, demo_thread.
    rewrite Epr. exact (conj Hc' (conj Hz (conj Hp (conj eq_refl eq_refl)))).
Qed.



Lemma growproc_borders_witness :
  ∃ k', if decide (-10000 = - p_sz demo_thread)
    then growproc (-10000) demo_threads = (Ok (-1), k') ∧ k_procs k' !! O = Some demo_thread ∧
      ∀ va, 0 ≤ va < KERNBASE → uview (k_mem k') (p_pgdir demo_thread) va = None
    else growproc (-10000) demo_threads = (Ok 0, k') ∧ k' = resized 0 0 demo_thread (p_sz demo_thread) demo_threads.
Proof.
  destruct demo_threads_ok as (ps & H & _ & Hi & _ & _). apply (growproc_borders demo_threads ps 0 0 demo_thread (-10000) H).
  - rewrite Hi. reflexivity.
  - split; [reflexivity|discriminate].
  - split; discriminate.
Defined.
