(* ===== verification/ProcWait.v ===== *)
(** * Waiting for children (properties of wait in proc.c)

    [wait] of a process with a child that has exited: what it returns, what becomes of
    the child's entry and of its memory, and what that means for the threads that share
    the child's page directory. *)

From S2P Require Import Prelude Memory Strings State Spinlock Sched Kalloc Sleeplock Pipe Vm VmTable Console VmSpace VmKernel VmCopy.
From S2P Require Import Proc VmProc.

#[local] Opaque memset store32 load32.

(** Process [i] runs on processor [c] and holds no lock. *)
Record quiet_proc (k : kernel) (c i : nat) (p : proc) : Prop := {
  qp_run : running k c i p;
  qp_len : length (k_procs k) = NPROC;
  qp_ptable : free L_ptable k;
  qp_kmem : free L_kmem k }.

Lemma quiet_cpu k c i p : quiet_proc k c i p → ∃ cp, cpu_at k c cp ∧ c_ncli cp = 0 ∧ c_proc cp = Some i.
Proof. intros [[H _ _ _] _ _ _]. exact H. Qed.

(** The scan of [wait] passes over entries that are not children that have exited. *)
Definition not_done (i : nat) (p : proc) : Prop := p_parent p ≠ Some i ∨ p_state p ≠ ZOMBIE.

Lemma wait_scan_skip i k n a l h :
  (a + n ≤ length (k_procs k))%nat → (∀ j q, (a ≤ j < a + n)%nat → k_procs k !! j = Some q → not_done i q) →
  wait_scan i (seq a n ++ l) h k =
  wait_scan i l (h || existsb (λ q, bool_decide (p_parent q = Some i)) (take n (drop a (k_procs k)))) k.
Proof.
  revert a h. induction n as [|n IH]; intros a h Ha Hn; [by rewrite orb_false_r|]. cbn [seq app wait_scan].
  destruct (lookup_lt_is_Some_2 (k_procs k) a) as [q Hq]; [lia|].
  mstep (at_index_ok k_procs a q k Hq : the_proc a k = _). rewrite (drop_S _ _ _ Hq). cbn [take existsb].
  assert (∀ h, wait_scan i (seq (S a) n ++ l) h k =
    wait_scan i l (h || existsb (λ q, bool_decide (p_parent q = Some i)) (take n (drop (S a) (k_procs k)))) k) as IH'.
  { intros h'. apply IH; [lia|]. intros j q' Hj. apply Hn. lia. }
  destruct (decide (p_parent q = Some i)) as [Hp|Hp].
  - rewrite decide_False by tauto. destruct (Hn a q ltac:(lia) Hq) as [|Hz]; [done|]. rewrite decide_False by done.
    rewrite IH'. rewrite bool_decide_true by done. by rewrite orb_true_r.
  - rewrite decide_True by done. rewrite IH'. by rewrite bool_decide_false by done.
Qed.

(** The locked state looks the same to the allocator. *)
Lemma locked_heap lk k ps c cp :
  heap_ok k ps → cpu_at k c cp → c_ncli cp = 0 → lk ≠ L_kmem → free L_kmem k → heap_ok (locked lk c k) ps.
Proof.
  intros [H1 H2 H3] Hc Hz Hne Hf. split; [by eapply (kmem_ok_ext k)| |done].
  exists c, (pushed cp). split; [apply locked_at; [done|lia]|]. split; [simpl; lia|by apply free_locked].
Qed.

(** The child [z] of [i], whose memory is in order. *)
Record zombie_child (k : kernel) (ps : list Z) (i z : nat) (zp : proc) : Prop := {
  zc_proc : k_procs k !! z = Some zp;
  zc_parent : p_parent zp = Some i;
  zc_state : p_state zp = ZOMBIE;
  zc_first : ∀ j q, (j < z)%nat → k_procs k !! j = Some q → not_done i q;
  zc_heap : heap_ok k ps;
  zc_stack : page_ok k (p_kstack zp) ∧ p_kstack zp ∉ ps;
  zc_space : p_isthread zp = false → as_ok k ps (p_pgdir zp) ∧ ¬ owned (k_mem k) (p_pgdir zp) (p_kstack zp) }.

(** The pages that [wait] gives back. *)
Definition reclaimed (k : kernel) (zp : proc) (p : Z) : Prop :=
  p = p_kstack zp ∨ (p_isthread zp = false ∧ owned (k_mem k) (p_pgdir zp) p).

Lemma reap_memory k ps c cp i z zp :
  cpu_at k c cp → c_ncli cp = 0 → free L_kmem k → KERNBASE < img_end (k_img k) → zombie_child k ps i z zp →
  ∃ k' ps', (kfree (p_kstack zp);; when (negb (p_isthread zp)) (freevm (p_pgdir zp))) (locked L_ptable c k) = (Ok tt, locked L_ptable c k') ∧
    heap_eff k k' ps' ∧ ∀ p, p ∈ ps' ↔ p ∈ ps ∨ reclaimed k zp p.
Proof.
  intros Hc Hz Hf Himg [Z1 Z2 Z3 Z4 Z5 [Z6 Z6'] Z7].
  destruct (heap_free k ps (p_kstack zp) Z5 Z6 Z6') as [_ F1].
  destruct (heap_free (locked L_ptable c k) ps (p_kstack zp)) as [E1 _]; [by eapply locked_heap|done..|].
  change (freed (p_kstack zp) (locked L_ptable c k)) with (locked L_ptable c (freed (p_kstack zp) k)) in E1.
  set (k1 := freed (p_kstack zp) k) in *. mstep E1. unfold reclaimed. destruct (p_isthread zp) eqn:Et; unfold when; cbn [negb].
  { exists k1, (p_kstack zp :: ps). split; [done|]. split; [done|]. intros p. rewrite elem_of_cons. naive_solver. }
  destruct (Z7 eq_refl) as [Has Hno].
  assert (cpu_at k1 c cp) as Hc1 by (by eapply (cpu_at_ext k)).
  destruct (as_same k (locked L_ptable c k1) ps (p_kstack zp :: ps) (p_pgdir zp) Has) as (Has1 & _ & _ & Hown).
  { eapply locked_heap; [apply F1|done..]. } { done. }
  { intros p Hp. destruct (owned_page _ _ _ _ Has Hp) as [Q1 Q2].
    assert (p ∉ p_kstack zp :: ps) as Hp' by (apply not_elem_of_cons; split; [by intros ->|done]).
    split; [done|]. exact (he_keep _ _ _ F1 p Q1 Hp'). }
  destruct (freevm_spec (p_pgdir zp) _ _ Has1 Himg) as (k2 & ps2 & E2 & F2 & Hps).
  exists (k1 <| k_mem := k_mem k2 |> <| k_freelist := k_freelist k2 |> <| k_out := k_out k2 |>), ps2.
  split; [rewrite E2; f_equal; exact (he_frame _ _ _ F2)|]. split; [split; [reflexivity| |]|].
  - assert (k_img k2 = k_img k) as Ei by (by rewrite (he_frame _ _ _ F2)).
    destruct F2 as [_ [G1 _ G3] _]. split; [by eapply (kmem_ok_ext k2)| |done].
    destruct Z5 as [_ Hq _]. by eapply (kmem_quiet_ext k).
  - intros p Hp Hn x Hx. assert (p ∉ p_kstack zp :: ps) as Hp' by (intros ?; apply Hn, Hps; by left).
    rewrite <- (he_keep _ _ _ F1 p Hp Hp' x Hx). exact (he_keep _ _ _ F2 p Hp Hn x Hx).
  - intros p. rewrite Hps, Hown, elem_of_cons. naive_solver.
Qed.

(** The scan stops at the child, with the lock released. *)
Lemma wait_scan_reaps k ps c cp i z zp :
  cpu_at k c cp → c_ncli cp = 0 → length (k_procs k) = NPROC → free L_ptable k → free L_kmem k →
  KERNBASE < img_end (k_img k) → zombie_child k ps i z zp →
  ∃ k' ps', wait_scan i (seq 0 NPROC) false (locked L_ptable c k) = (Ok (inl (p_pid zp)), k' <| k_procs ::= alter reaped z |>) ∧
    heap_eff k k' ps' ∧ ∀ p, p ∈ ps' ↔ p ∈ ps ∨ reclaimed k zp p.
Proof.
  intros Hc Hn Hlen Hfp Hfm Himg Hz. destruct (reap_memory k ps c cp i z zp Hc Hn Hfm Himg Hz) as (k' & ps' & E & F & Hps).
  exists k', ps'. split; [|done]. pose proof Hz as [Z1 Z2 Z3 Z4 _ _ _].
  assert (z < NPROC)%nat as Hzl by (rewrite <- Hlen; by eapply lookup_lt_Some).
  replace (seq 0 NPROC) with (seq 0 z ++ z :: seq (S z) (NPROC - S z)).
  2:{ replace NPROC with (z + S (NPROC - S z))%nat at 2 by lia. by rewrite seq_app. }
  rewrite wait_scan_skip; [|change (k_procs (locked L_ptable c k)) with (k_procs k); lia|intros j q Hj; apply Z4; lia].
  cbn [wait_scan]. mstep (at_index_ok k_procs z zp (locked L_ptable c k) Z1 : the_proc z _ = _).
  rewrite decide_False by tauto. rewrite decide_True by done.
  assert (∀ A (m n : K unit) (R : K A) s, (m;; n;; R) s = ((m;; n);; R) s) as Hassoc by (intros; by rewrite bind_assoc).
  rewrite Hassoc. mstep E. mstep (upd_proc_ok _ _ _). set (k2 := k' <| k_procs ::= alter reaped z |>).
  change (locked L_ptable c k' <| k_procs ::= alter reaped z |>) with (locked L_ptable c k2).
  erewrite bind_ok; [done|]. eapply release_spec; [|by rewrite Hn|].
  - unfold k2. rewrite (he_frame _ _ _ F). by eapply (cpu_at_ext k).
  - unfold k2. by rewrite (he_frame _ _ _ F).
Qed.


(** A process, its child that has exited, and a thread of the child that still runs. *)
Definition demo_kstack : Z := KERNBASE + 0x3fe000.
Definition demo_child (st : procstate) (pid : Z) (thread : bool) : proc :=
  proc0 <| p_state := st |> <| p_pid := pid |> <| p_parent := Some O |> <| p_kstack := demo_kstack |>
    <| p_pgdir := demo_pgdir |> <| p_isthread := thread |>.
Definition demo_family : kernel :=
  demo_as 8 <| k_procs := (proc0 <| p_state := RUNNING |> <| p_pid := 1 |> <| p_kstack := 4096 |> <| p_pgdir := 4096 |>) ::
    demo_child RUNNABLE 3 true :: demo_child ZOMBIE 2 false :: replicate (NPROC - 3) proc0 |>.

Lemma demo_family_quiet : ∃ p, quiet_proc demo_family 0 0 p.
Proof.
  eexists. split; [|done|done|done]. split; [|reflexivity|done|done].
  exists (cpu0 <| c_proc := Some O |>). split; [|split; reflexivity]. split; try done; simpl; lia.
Qed.

Lemma demo_family_zombie : zombie_child demo_family (page_run demo_base 8) 0 2 (demo_child ZOMBIE 2 false).
Proof.
  destruct (demo_as_ok 8 ltac:(lia)) as [Has Hun].
  assert (heap_ok demo_family (page_run demo_base 8)) as Hh.
  { destruct (as_heap _ _ _ Has) as [H1 H2 H3]. split; [by eapply (kmem_ok_ext (demo_as 8))|by eapply (kmem_quiet_ext (demo_as 8))|done]. }
  split; [done|done|done| |done| |].
  - intros [|[|j]] q Hj Hq; [injection Hq as <-; by left|injection Hq as <-; by right|lia].
  - split; [split; [reflexivity|]; vm_compute; intuition discriminate|].
    intros (i & E & Hi%elem_of_seqZ)%list_elem_of_fmap. simpl in E. unfold demo_kstack, demo_base, KERNBASE in E. lia.
  - intros _. split.
    + apply (as_same (demo_as 8) demo_family _ _ demo_pgdir Has Hh eq_refl). intros p Hp.
      split; [|done]. by apply (owned_page _ _ _ _ Has Hp).
    + intros [[E|(d & Hd & Hp & _)]|(n & Hn & Hm & _)]; [done| |by apply (Hun n Hn)].
      change (present (pde (k_mem (demo_vm 8)) demo_pgdir d) = true) in Hp. by rewrite demo_pde in Hp.
Qed.

