(* ===== verification/Trap.v ===== *)
(** * Traps (trap.c)

    [trap] with the address of the trap frame on the kernel stack.  What the
    devices have to say is its argument: the scan codes in the keyboard controller
    and the bytes on the serial line.  Acknowledging an interrupt (lapiceoi) has no
    effect on the modelled state.  When the process gives up the processor in
    [yield], [trap_resume] goes on behind it. *)

From S2P Require Import Prelude Memory State Spinlock Cons Sched Kalloc Sleeplock Bio Log Fs Pipe File Vm Proc.
From S2P Require Import Syscall Exec Sysfile Kbd Console.

Notation T_SYSCALL := 64 (only parsing).
Notation T_IRQ0 := 32 (only parsing).
Notation IRQ_TIMER := 0 (only parsing).
Notation IRQ_KBD := 1 (only parsing).
Notation IRQ_COM1 := 4 (only parsing).
Notation IRQ_IDE := 14 (only parsing).
Notation IRQ_SPURIOUS := 31 (only parsing).

(** The descriptors [tvinit] writes lead every vector to [trap]. *)
Definition tvinit : K unit := initlock L_ticks.

(** memide.c: the memory disk never interrupts. *)
Definition ideintr : K unit := mret tt.

Record devices := Devices { dv_kbd : list Z; dv_uart : list Z; dv_cr2 : Z }.

(** [myproc() && myproc()->killed && (tf->cs&3) == DPL_USER] *)
Definition exit_if_killed (tf : Z) : K unit :=
  p ← myproc;
  match p with
  | None => mret tt
  | Some i =>
      pr ← the_proc i;
      cs ← ld16 (tf + tf_cs);
      when (p_killed pr && bool_decide (Z.land cs 3 = DPL_USER)) exit
  end.

(** The clock interrupt. *)
Definition clock_tick : K unit :=
  id ← cpuid;
  when (bool_decide (id = O))
    (acquire L_ticks;;
     modify (λ k, k <| k_ticks ::= λ t, u32 (t + 1) |>);;
     wakeup C_ticks;;
     release L_ticks).

(** The default case: a fault in the kernel is fatal, one in a process ends it. *)
Definition unexpected (dev : devices) (tf trapno : Z) : K unit :=
  p ← myproc;
  cs ← ld16 (tf + tf_cs);
  eip ← ld32 (tf + tf_eip);
  id ← cpuid;
  match p with
  | Some i =>
      if decide (Z.land cs 3 ≠ 0) then
        pr ← the_proc i;
        err ← ld32 (tf + tf_err);
        cprintf ("pid %d %s: trap %d err %d on cpu %d eip 0x%x addr 0x%x--kill proc" +:+ nl)
          [PInt (p_pid pr); PStr (p_name pr); PInt trapno; PInt err; PInt (Z.of_nat id); PInt eip; PInt (dv_cr2 dev)];;
        upd_proc i (λ p, p <| p_killed := true |>)
      else
        cprintf ("unexpected trap %d from cpu %d eip %x (cr2=0x%x)" +:+ nl)
          [PInt trapno; PInt (Z.of_nat id); PInt eip; PInt (dv_cr2 dev)];;
        panic "trap"
  | None =>
      cprintf ("unexpected trap %d from cpu %d eip %x (cr2=0x%x)" +:+ nl)
        [PInt trapno; PInt (Z.of_nat id); PInt eip; PInt (dv_cr2 dev)];;
      panic "trap"
  end.

Section trap.
(** What the system calls find in uninitialised buffers (Sysfile.v). *)
Context (junk : list Z).

Definition trap_syscall (tf : Z) : K unit :=
  c ← curproc;
  p ← the_proc c;
  when (p_killed p) exit;;
  c ← curproc;
  upd_proc c (λ p, p <| p_tf := tf |>);;
  syscall junk;;
  c ← curproc;
  p ← the_proc c;
  when (p_killed p) exit.

(** The switch on the trap number. *)
Definition trap_switch (dev : devices) (tf trapno : Z) : K unit :=
  if decide (trapno = T_IRQ0 + IRQ_TIMER) then clock_tick
  else if decide (trapno = T_IRQ0 + IRQ_IDE) then ideintr
  else if decide (trapno = T_IRQ0 + IRQ_IDE + 1) then mret tt
  else if decide (trapno = T_IRQ0 + IRQ_KBD) then kbdintr (dv_kbd dev)
  else if decide (trapno = T_IRQ0 + IRQ_COM1) then uartintr (dv_uart dev)
  else if decide (trapno = T_IRQ0 + 7 ∨ trapno = T_IRQ0 + IRQ_SPURIOUS) then
    id ← cpuid;
    cs ← ld16 (tf + tf_cs);
    eip ← ld32 (tf + tf_eip);
    cprintf ("cpu%d: spurious interrupt at %x:%x" +:+ nl) [PInt (Z.of_nat id); PInt cs; PInt eip]
  else unexpected dev tf trapno.

Definition trap (dev : devices) (tf : Z) : K unit :=
  trapno ← ld32 (tf + tf_trapno);
  if decide (trapno = T_SYSCALL) then trap_syscall tf else
  trap_switch dev tf trapno;;
  exit_if_killed tf;;
  p ← myproc;
  (match p with
   | Some i =>
       pr ← the_proc i;
       when (bool_decide (p_state pr = RUNNING ∧ trapno = T_IRQ0 + IRQ_TIMER)) yield
   | None => mret tt
   end);;
  exit_if_killed tf.
Definition trap_resume (tf : Z) (intena : bool) : K unit :=
  yield_return intena;;
  exit_if_killed tf.
End trap.

(** ** A process that exits does not come back *)

Lemma bind_never {S A B} (m : M S A) (f : A → M S B) s :
  (∀ a s', ∃ e s'', f a s' = (Stop e, s'')) → ∃ e s', (m ≫= f) s = (Stop e, s').
Proof. intros H. unfold mbind, M_bind. destruct (m s) as [[a|e] s']; [apply H|by eexists _, _]. Qed.

Lemma exit_never k : ∃ e k', exit k = (Stop e, k').
Proof.
  unfold exit. repeat (apply bind_never; intros; try case_decide; try (by eexists _, _)).
Qed.

(** ** The clock *)

Lemma cpuid_at k c cp : cpu_at k c cp → c_if cp = false → cpuid k = (Ok c, k).
Proof. intros Hc Hf. by eapply mycpu_at. Qed.

(** A process that has not been killed goes on. *)
Lemma exit_if_killed_spec tf k c cp i pr :
  cpu_at k c cp → c_ncli cp = 0 → c_proc cp = Some i → k_procs k !! i = Some pr → p_killed pr = false →
  exit_if_killed tf k = (Ok tt, k).
Proof.
  intros Hc Hz Hp Hpr Hk. unfold exit_if_killed. mstep (myproc_spec _ _ _ Hc ltac:(lia)). rewrite Hp.
  erewrite bind_ok; [|by apply at_index_ok]. unfold ld16. rewrite bind_gets. by rewrite Hk.
Qed.

(** The clock interrupt counts a tick on the first processor only. *)
Definition ticked (c : nat) (k : kernel) : kernel :=
  if decide (c = O) then k <| k_ticks ::= λ t, u32 (t + 1) |> <| k_procs ::= map (wake C_ticks) |> else k.

Lemma clock_tick_spec k pid c cp :
  ctx k pid → cpu_at k c cp → c_ncli cp = 0 → c_if cp = false → clock_tick k = (Ok tt, ticked c k).
Proof.
  intros Hx Hc Hz Hf. unfold clock_tick, ticked. mstep (cpuid_at _ _ _ Hc Hf). case_decide as E.
  - rewrite bool_decide_true by done. unfold when. mstep (acquire_spec L_ticks k c cp Hc ltac:(lia) (ctx_free _ _ _ Hx)).
    rewrite bind_modify. set (k1 := k <| k_ticks ::= λ t, u32 (t + 1) |>).
    change (upd k_ticks _ (locked L_ticks c k)) with (locked L_ticks c k1).
    assert (ctx k1 pid) as Hx1 by (by eapply (ctx_ext k)). assert (cpu_at k1 c cp) as Hc1 by (by eapply (cpu_at_ext k)).
    mstep (wakeup_locked L_ticks C_ticks k1 pid c cp Hx1 Hc1 Hz ltac:(done)).
    eapply release_spec; [by eapply (cpu_at_ext k1)|by rewrite Hz|]. by eapply ctx_free, (ctx_wake C_ticks k1).
  - by rewrite bool_decide_false by done.
Qed.

Lemma ticked_at k pid c cp i pr :
  ctx k pid → cpu_at k c cp → k_procs k !! i = Some pr → p_state pr = RUNNING →
  ctx (ticked c k) pid ∧ cpu_at (ticked c k) c cp ∧ k_procs (ticked c k) !! i = Some pr.
Proof.
  intros Hx Hc Hpr Hst. unfold ticked. case_decide; [|done]. set (k1 := k <| k_ticks ::= λ t, u32 (t + 1) |>).
  split; [eapply (ctx_wake C_ticks k1); [by eapply (ctx_ext k)|done..]|]. split; [by eapply (cpu_at_ext k)|].
  change (map (wake C_ticks) (k_procs k) !! i = Some pr). change (map (wake C_ticks) (k_procs k)) with (wake C_ticks <$> k_procs k).
  rewrite list_lookup_fmap, Hpr. simpl. unfold wake. rewrite decide_False by (rewrite Hst; naive_solver). done.
Qed.


(** A process in user mode on the first processor, interrupted by the clock. *)
Definition demo_cpu : cpu := cpu0 <| c_proc := Some O |> <| c_if := false |> <| c_intena := false |>.
Definition demo_timer : kernel :=
  demo_pipe_state <| k_cpus := [demo_cpu] |>
    <| k_mem := λ a, if decide (a = 4096 + tf_trapno) then 32 else 0 |>.

Lemma demo_timer_cpu : cpu_at demo_timer 0 demo_cpu.
Proof. split; try done; simpl; lia. Qed.


(** ** Faults *)

(** The numbers of the traps that [trap] handles. *)
Definition handled (trapno : Z) : bool :=
  bool_decide (trapno = T_SYSCALL) || bool_decide (trapno - T_IRQ0 ∈ [0; 1; 4; 7; 14; 15; 31]).

Lemma unhandled_switch dev tf trapno :
  handled trapno = false → trapno ≠ T_SYSCALL ∧ trap_switch dev tf trapno = unexpected dev tf trapno.
Proof.
  unfold handled. rewrite orb_false_iff, !bool_decide_eq_false. intros [H1 H2]. split; [done|].
  unfold trap_switch in *.
  rewrite !elem_of_cons in H2. repeat (rewrite decide_False by lia). done.
Qed.

Lemma unexpected_user dev tf trapno k pid c cp i pr :
  ctx k pid → cpu_at k c cp → c_ncli cp = 0 → c_if cp = false → c_proc cp = Some i → k_procs k !! i = Some pr →
  Z.land (load16 (k_mem k) (tf + tf_cs)) 3 = DPL_USER →
  ∃ out, unexpected dev tf trapno k =
    (Ok tt, k <| k_out ::= λ o, o ++ out |> <| k_procs ::= alter (λ p, p <| p_killed := true |>) i |>).
Proof.
  intros Hx Hc Hz Hf Hp Hpr Hcs. unfold unexpected. mstep (myproc_spec _ _ _ Hc ltac:(lia)). unfold ld16, ld32.
  rewrite !bind_gets. mstep (cpuid_at _ _ _ Hc Hf). rewrite Hp, Hcs. rewrite decide_True by done.
  erewrite bind_ok; [|by apply at_index_ok]. rewrite bind_gets. eexists.
  erewrite bind_ok; [|eapply cprintf_spec; [done|reflexivity]]. done.
Qed.


(** A page fault (vector 14) of the demo process. *)
Definition demo_fault : kernel :=
  demo_timer <| k_mem := λ a, if decide (a = 4096 + tf_trapno) then 14 else if decide (a = 4096 + tf_cs) then 27 else 0 |>.

