(* ===== verification/ProcTable.v ===== *)
(** * The process table stays in order

    An invariant of the whole kernel.  Every entry of the table that is in use for a
    process has a kernel stack and a page directory, a sleeping process has a channel,
    and the running process is marked as running.  The proof goes through all code that
    a trap can reach: [Frame] is the class of routines that touch neither the table nor
    the running process, [Keeps] the class of routines that keep the invariant; their
    instances for the combinators of the code compose them. *)

From S2P Require Import Prelude Memory Strings State Spinlock Cons Sched Kalloc Sleeplock BufList Bio Log Fs Pipe File Vm Proc.
From S2P Require Import Syscall Exec Sysfile Kbd Console Trap.

#[local] Transparent acquire release holding myproc mycpu pushcli popcli wakeup wakeup1 sleep sched kalloc kfree
  acquiresleep releasesleep holdingsleep mypid bread bwrite brelse bdata set_bdata pipewrite piperead.

(** ** The invariant *)

(** The process that the executing processor runs. *)
Definition cur (k : kernel) : option nat := this_cpu k ≫= λ c, k_cpus k !! c ≫= c_proc.

(** The executing processor and the process it runs. *)
Definition who (k : kernel) : option nat * option nat := (this_cpu k, cur k).

Definition active (p : proc) : Prop := p_state p ≠ UNUSED ∧ p_state p ≠ EMBRYO.

Record proc_ok (p : proc) : Prop := {
  po_ofile : length (p_ofile p) = NOFILE;
  po_ready : active p → p_kstack p ≠ 0 ∧ p_pgdir p ≠ 0;
  po_chan : p_state p = SLEEPING → is_Some (p_chan p) }.

Record table_ok (ps : list proc) : Prop := {
  to_len : length ps = NPROC;
  to_procs : Forall proc_ok ps }.

Definition run_ok (ps : list proc) (o : option nat) : Prop :=
  table_ok ps ∧ ∀ i, o = Some i → ∃ p, ps !! i = Some p ∧ p_state p = RUNNING.

(** ** Code that touches neither the process table nor the running process *)

Class Frame {A} (m : K A) : Prop := frame : ∀ k, k_procs (m k).2 = k_procs k ∧ who (m k).2 = who k.

Lemma frame_ret {A} (a : A) : Frame (mret a).
Proof. done. Qed.
Lemma frame_bind {A B} (m : K A) (f : A → K B) : Frame m → (∀ a, Frame (f a)) → Frame (m ≫= f).
Proof.
  intros Hm Hf k. specialize (Hm k). unfold mbind, M_bind. destruct (m k) as [[a|e] k1]; [|done].
  specialize (Hf a k1). simpl in *. destruct Hm, Hf. split; congruence.
Qed.
Lemma frame_gets {A} (f : kernel → A) : Frame (gets f).
Proof. done. Qed.
Lemma frame_stopped {A} e : Frame (stopped e : K A).
Proof. done. Qed.
Lemma frame_modify f : (∀ k, k_procs (f k) = k_procs k ∧ who (f k) = who k) → Frame (modify f).
Proof. intros H k. apply H. Qed.
Lemma frame_at_index {A} (f : kernel → list A) i : Frame (at_index f i).
Proof. intros k. unfold at_index. by destruct (f k !! i). Qed.
Lemma frame_each {I} (b : I → K unit) l : (∀ i, Frame (b i)) → Frame (each b l).
Proof. intros Hb. induction l; cbn [each]; [apply frame_ret|]. by apply frame_bind. Qed.
Lemma frame_scan {I A} (b : I → K (A + unit)) l : (∀ i, Frame (b i)) → Frame (scan b l).
Proof.
  intros Hb. induction l; cbn [scan]; [apply frame_ret|]. apply frame_bind; [done|]. intros [|]; [apply frame_ret|done].
Qed.
#[local] Hint Constants Opaque : typeclass_instances.
#[local] Existing Instances frame_ret frame_bind frame_gets frame_stopped frame_at_index frame_each frame_scan.

Lemma who_alter f c k :
  (∀ x, c_apicid (f x) = c_apicid x ∧ c_proc (f x) = c_proc x) → who (k <| k_cpus ::= alter f c |>) = who k.
Proof.
  intros Hf. unfold who, cur. rewrite this_cpu_alter by apply Hf. destruct (this_cpu k) as [i|]; [|done]. simpl.
  unfold upd. simpl. destruct (decide (c = i)) as [<-|Hne]; [|by rewrite list_lookup_alter_ne].
  rewrite list_lookup_alter_eq. destruct (k_cpus k !! c) as [x|]; [|done]. simpl. f_equal. apply Hf.
Qed.

Lemma frame_upd_cpu c f : (∀ x, c_apicid (f x) = c_apicid x ∧ c_proc (f x) = c_proc x) → Frame (upd_cpu c f).
Proof. intros Hf k. split; [done|]. by apply who_alter. Qed.

(** Split the code at its tests; the changes of one field of the kernel are plain. *)
Ltac code_step :=
  match goal with
  | |- context [match ?x with _ => _ end] => destruct x
  end.
#[local] Hint Extern 20 (Frame _) => progress cbv zeta : typeclass_instances.
#[local] Hint Extern 10 (Frame (modify _)) => apply frame_modify; intros; split; reflexivity : typeclass_instances.
#[local] Hint Extern 10 (Frame (upd_cpu _ _)) => apply frame_upd_cpu; intros; split; reflexivity : typeclass_instances.
#[local] Hint Extern 10 (Frame (match ?x with _ => _ end)) => destruct x : typeclass_instances.
#[local] Hint Extern 5 (Frame (panic _)) => apply frame_stopped : typeclass_instances.
#[local] Hint Extern 5 (Frame wild) => apply frame_stopped : typeclass_instances.
#[local] Hint Extern 5 (Frame (when _ _)) => unfold when : typeclass_instances.

(** Code without an instance of its own is opened. *)
Ltac open_code m :=
  lazymatch m with
  | ?f _ => open_code f
  | @mbind => fail
  | _ => unfold m
  end.
#[local] Hint Extern 50 (Frame ?m) => open_code m : typeclass_instances.

Tactic Notation "frames" smart_global(f) := unfold f; typeclasses eauto.

#[local] Instance frame_set_if b : Frame (set_if b).
Proof.
  apply frame_modify. intros k. destruct (this_cpu k); [|done]. split; [done|]. by apply who_alter.
Qed.
#[local] Instance frame_mycpu : Frame mycpu.
Proof. frames mycpu. Qed.
#[local] Instance frame_pushcli : Frame pushcli.
Proof. frames pushcli. Qed.
#[local] Instance frame_popcli : Frame popcli.
Proof. frames popcli. Qed.
#[local] Instance frame_holding lk : Frame (holding lk).
Proof. frames holding. Qed.
#[local] Instance frame_acquire lk : Frame (acquire lk).
Proof. frames acquire. Qed.
#[local] Instance frame_release lk : Frame (release lk).
Proof. frames release. Qed.
#[local] Instance frame_myproc : Frame myproc.
Proof. frames myproc. Qed.
#[local] Instance frame_curproc : Frame curproc.
Proof. frames curproc. Qed.
#[local] Instance frame_kfree a : Frame (kfree a).
Proof. frames kfree. Qed.
#[local] Instance frame_kalloc : Frame kalloc.
Proof. frames kalloc. Qed.
#[local] Instance frame_cprintf f l : Frame (cprintf f l).
Proof. frames cprintf. Qed.

(** *** Virtual memory *)

#[local] Instance frame_walkpgdir d va a : Frame (walkpgdir d va a).
Proof. frames walkpgdir. Qed.
#[local] Instance frame_mappages_loop n d a last pa perm : Frame (mappages_loop n d a last pa perm).
Proof. revert a pa. induction n; intros; cbn [mappages_loop]; typeclasses eauto. Qed.
#[local] Instance frame_mappages d va sz pa perm : Frame (mappages d va sz pa perm).
Proof. frames mappages. Qed.
#[local] Instance frame_deallocuvm_loop n d a old : Frame (deallocuvm_loop n d a old).
Proof. revert a. induction n; intros; cbn [deallocuvm_loop]; typeclasses eauto. Qed.
#[local] Instance frame_deallocuvm d a b : Frame (deallocuvm d a b).
Proof. frames deallocuvm. Qed.
#[local] Instance frame_freevm d : Frame (freevm d).
Proof. frames freevm. Qed.
#[local] Instance frame_setupkvm : Frame setupkvm.
Proof. frames setupkvm. Qed.
#[local] Instance frame_lcr3 a : Frame (lcr3 a).
Proof.
  apply frame_modify. intros k. destruct (this_cpu k); [|done]. split; [done|]. by apply who_alter.
Qed.
#[local] Instance frame_switchuvm o : Frame (switchuvm o).
Proof. frames switchuvm. Qed.
#[local] Instance frame_allocuvm_loop n d a old new : Frame (allocuvm_loop n d a old new).
Proof. revert a. induction n; intros; cbn [allocuvm_loop]; typeclasses eauto. Qed.
#[local] Instance frame_allocuvm d a b : Frame (allocuvm d a b).
Proof. frames allocuvm. Qed.
#[local] Instance frame_clearpteu d a : Frame (clearpteu d a).
Proof. frames clearpteu. Qed.
#[local] Instance frame_copyuvm d n : Frame (copyuvm d n).
Proof. unfold copyuvm, copyuvm_body. typeclasses eauto. Qed.
#[local] Instance frame_uva2ka d a : Frame (uva2ka d a).
Proof. frames uva2ka. Qed.
#[local] Instance frame_copyout_loop n d a b : Frame (copyout_loop n d a b).
Proof. revert a b. induction n; intros ? []; cbn [copyout_loop]; typeclasses eauto. Qed.
#[local] Instance frame_copyout d a b : Frame (copyout d a b).
Proof. frames copyout. Qed.
#[local] Instance frame_user_read8 d a : Frame (user_read8 d a).
Proof. intros k. unfold user_read8. by destruct (translate _ _ _ _). Qed.
#[local] Instance frame_user_write8 d a v : Frame (user_write8 d a v).
Proof. intros k. unfold user_write8. by destruct (translate _ _ _ _). Qed.
#[local] Instance frame_user_read d a n : Frame (user_read d a n).
Proof. revert a. induction n; intros; cbn [user_read]; typeclasses eauto. Qed.
#[local] Instance frame_user_write d a b : Frame (user_write d a b).
Proof. revert a. induction b; intros; cbn [user_write]; typeclasses eauto. Qed.

(** *** Arguments, files and inodes *)

#[local] Instance frame_fetchint a : Frame (fetchint a).
Proof. frames fetchint. Qed.
#[local] Instance frame_fetchstr_loop n d s acc : Frame (fetchstr_loop n d s acc).
Proof. revert s acc. induction n; intros; cbn [fetchstr_loop]; typeclasses eauto. Qed.
#[local] Instance frame_fetchstr a : Frame (fetchstr a).
Proof. frames fetchstr. Qed.
#[local] Instance frame_argint n : Frame (argint n).
Proof. frames argint. Qed.
#[local] Instance frame_argptr n sz : Frame (argptr n sz).
Proof. frames argptr. Qed.
#[local] Instance frame_argstr n : Frame (argstr n).
Proof. frames argstr. Qed.
#[local] Instance frame_argfd n : Frame (argfd n).
Proof. frames argfd. Qed.
#[local] Instance frame_filealloc : Frame filealloc.
Proof. frames filealloc. Qed.
#[local] Instance frame_filedup i : Frame (filedup i).
Proof. frames filedup. Qed.
#[local] Instance frame_idup i : Frame (idup i).
Proof. frames idup. Qed.
#[local] Instance frame_iget d n : Frame (iget d n).
Proof. frames iget. Qed.

(** ** Triples

    [triple P m Q]: from a state whose table and running process satisfy [P], [m]
    either returns a value and a state in [Q], or stops with the table in order. *)
Definition triple {A} (P : list proc → option nat → Prop) (m : K A) (Q : A → list proc → option nat → Prop) : Prop :=
  ∀ k, P (k_procs k) (cur k) →
    match m k with
    | (Ok a, k') => Q a (k_procs k') (cur k')
    | (Stop _, k') => table_ok (k_procs k')
    end.

(** The table is in order and [o] is running. *)
Definition during (o : option nat) (ps : list proc) (o' : option nat) : Prop := run_ok ps o ∧ o' = o.

Class Keeps {A} (m : K A) : Prop := keeps : ∀ o, triple (during o) m (λ _, during o).

Lemma triple_bind {A B} P (m : K A) Q (f : A → K B) R :
  triple P m Q → (∀ a, triple (Q a) (f a) R) → triple P (m ≫= f) R.
Proof.
  intros Hm Hf k Hk. specialize (Hm k Hk). unfold mbind, M_bind. destruct (m k) as [[a|e] k1]; [|done].
  by apply (Hf a).
Qed.

Lemma triple_ret {A} P (a : A) Q : (∀ ps o, P ps o → Q a ps o) → triple P (mret a) Q.
Proof. intros H k Hk. by apply H. Qed.

Lemma triple_mono {A} P P' (m : K A) Q Q' :
  triple P m Q → (∀ ps o, P' ps o → P ps o) → (∀ a ps o, Q a ps o → Q' a ps o) → triple P' m Q'.
Proof.
  intros H HP HQ k Hk. specialize (H k (HP _ _ Hk)). destruct (m k) as [[a|e] k']; [by apply HQ|done].
Qed.

Lemma triple_pre {A} P P' (m : K A) Q : triple P m Q → (∀ ps o, P' ps o → P ps o) → triple P' m Q.
Proof. intros H HP k Hk. by apply H, HP. Qed.

Lemma triple_pure {A} (φ : Prop) P (m : K A) Q :
  (∀ ps o, P ps o → φ) → (φ → triple P m Q) → triple P m Q.
Proof. intros Hφ H k Hk. apply H; [|done]. by eapply Hφ. Qed.

Lemma triple_frame {A} (m : K A) P : Frame m → (∀ ps o, P ps o → table_ok ps) → triple P m (λ _, P).
Proof.
  intros Hm HP k Hk. destruct (Hm k) as [E1 [= _ E2]]. destruct (m k) as [[a|e] k']; simpl in *; rewrite E1; [by rewrite E2|].
  by eapply HP.
Qed.

Lemma triple_stop {A} P (m : K A) Q : Frame m → (∀ k, ∃ e k', m k = (Stop e, k')) → (∀ ps o, P ps o → table_ok ps) → triple P m Q.
Proof.
  intros Hm Hs HP k Hk. destruct (Hm k) as [E1 _], (Hs k) as (e & k' & E). rewrite E in *. simpl in *. rewrite E1.
  by eapply HP.
Qed.

(** A fact that the running code knows about the table. *)
Lemma triple_gets {A B} P (g : kernel → A) (f : A → K B) R :
  (∀ k0, triple (λ ps o, P ps o ∧ ps = k_procs k0 ∧ o = cur k0) (f (g k0)) R) → triple P (gets g ≫= f) R.
Proof. intros H k Hk. rewrite bind_gets. by apply (H k). Qed.

Lemma triple_the_proc {B} P i (f : proc → K B) R :
  (∀ ps o, P ps o → table_ok ps) →
  (∀ p, triple (λ ps o, P ps o ∧ ps !! i = Some p) (f p) R) → triple P (the_proc i ≫= f) R.
Proof.
  intros HP H k Hk. unfold the_proc, mbind, M_bind, at_index. destruct (k_procs k !! i) as [p|] eqn:E; [by apply H|].
  simpl. by eapply HP.
Qed.

Lemma triple_upd_proc P i g Q :
  (∀ ps o, P ps o → Q tt (alter g i ps) o) → triple P (upd_proc i g) Q.
Proof. intros H k Hk. by apply H. Qed.

Lemma cur_myproc k o k' : myproc k = (Ok o, k') → o = cur k.
Proof.
  unfold myproc. intros H. apply bind_ok_inv in H as (? & k1 & H1 & H).
  apply bind_ok_inv in H as (c & k2 & H2 & H). apply bind_ok_inv in H as (cp & k3 & H3 & H).
  apply bind_ok_inv in H as (? & k4 & H4 & H). injection H as <- <-.
  destruct (frame (m := pushcli) k) as [_ [= _ E1]]. rewrite H1 in E1. simpl in E1. rewrite <- E1. clear E1.
  unfold mycpu in H2. apply bind_ok_inv in H2 as (on & k5 & H5 & H2). unfold gets in H5. injection H5 as <- <-.
  destruct (read_if k1); [done|]. apply bind_ok_inv in H2 as (i & k6 & H6 & H2). injection H6 as <- <-.
  unfold cur. destruct (this_cpu k1) as [i|]; [|done]. injection H2 as <- <-. simpl.
  unfold the_cpu, at_index in H3. destruct (k_cpus k1 !! i); [|done]. by injection H3 as <- <-.
Qed.

(** The running process, by its pointer. *)
Lemma triple_myproc {B} P (f : option nat → K B) R :
  (∀ ps o, P ps o → table_ok ps) →
  (∀ o, triple (λ ps o', P ps o' ∧ o' = o) (f o) R) → triple P (myproc ≫= f) R.
Proof.
  intros HP H k Hk. pose proof (triple_frame myproc P _ HP k Hk) as Hm. pose proof (cur_myproc k) as Hc.
  destruct (frame (m := myproc) k) as [E1 [= _ E2]].
  unfold mbind, M_bind. destruct (myproc k) as [[o|e] k1]; [|done]. simpl in *. apply H. split; [done|].
  rewrite E2. symmetry. by eapply Hc.
Qed.
Lemma triple_curproc {B} P (f : nat → K B) R :
  (∀ ps o, P ps o → table_ok ps) →
  (∀ i, triple (λ ps o', P ps o' ∧ o' = Some i) (f i) R) → triple P (curproc ≫= f) R.
Proof.
  intros HP H k Hk. unfold curproc. rewrite bind_assoc. revert k Hk. apply triple_myproc; [done|].
  intros [i|]; [|intros k [Hk _]; by eapply HP].
  intros k Hk. rewrite bind_ret. by apply H.
Qed.

Lemma during_ok o ps o' : during o ps o' → table_ok ps.
Proof. by intros [[H _] _]. Qed.
#[local] Hint Resolve during_ok : core.

(** ** The table after a change of one entry *)

Lemma alter_ok ps i g :
  table_ok ps → (∀ p, ps !! i = Some p → proc_ok p → proc_ok (g p)) → table_ok (alter g i ps).
Proof.
  intros [Hl Hf] Hg. split; [by rewrite length_alter|]. rewrite Forall_lookup in *. intros j p.
  destruct (decide (i = j)) as [<-|Hne]; [|rewrite list_lookup_alter_ne by done; apply Hf].
  rewrite list_lookup_alter_eq. destruct (ps !! i) as [q|] eqn:E; [|done]. intros [= <-]. by eapply Hg, Hf.
Qed.

Lemma during_alter o ps o' i g :
  during o ps o' →
  (∀ p, ps !! i = Some p → proc_ok p → proc_ok (g p) ∧ (o = Some i → p_state p = RUNNING → p_state (g p) = RUNNING)) →
  during o (alter g i ps) o'.
Proof.
  intros [[Ht Hr] ->] Hg. split; [|done]. split; [apply alter_ok; [done|]; intros; by eapply Hg|].
  intros j ->. destruct (Hr j eq_refl) as (p & Hp & Hst). destruct (decide (i = j)) as [<-|Hne].
  - exists (g p). rewrite list_lookup_alter_eq, Hp. split; [done|]. eapply Hg; try done.
    destruct Ht as [_ Hf]. rewrite Forall_lookup in Hf. by eapply Hf.
  - exists p. by rewrite list_lookup_alter_ne.
Qed.

Lemma table_ready ps i p : table_ok ps → ps !! i = Some p → active p → p_kstack p ≠ 0 ∧ p_pgdir p ≠ 0.
Proof. intros [_ Hf] Hp Ha. rewrite Forall_lookup in Hf. by apply (Hf _ _ Hp). Qed.

(** A process in use goes to another state in which it need not have a channel. *)
Lemma set_state_ok p st : proc_ok p → active p → st ≠ SLEEPING → proc_ok (p <| p_state := st |>).
Proof. intros [P1 P2 P3] Ha Hs. split; [done|intros _; by apply P2|done]. Qed.

(** A change that keeps an entry in order and a running process running. *)
Definition gentle (g : proc → proc) : Prop :=
  ∀ p, proc_ok p → proc_ok (g p) ∧ (p_state p = RUNNING → p_state (g p) = RUNNING).

Lemma gentle_fields g :
  (∀ p, p_state (g p) = p_state p ∧ p_kstack (g p) = p_kstack p ∧ p_pgdir (g p) = p_pgdir p ∧
        p_chan (g p) = p_chan p ∧ length (p_ofile (g p)) = length (p_ofile p)) → gentle g.
Proof.
  intros H p [P1 P2 P3]. destruct (H p) as (E1 & E2 & E3 & E4 & E5).
  split; [split; unfold active in *; rewrite ?E1, ?E2, ?E3, ?E4, ?E5; done|by rewrite E1].
Qed.

Lemma wake_gentle ch : gentle (wake ch).
Proof.
  intros p [P1 P2 P3]. unfold wake. case_decide as E; [|done]. destruct E as [E _]. split; [|congruence].
  split; [done| |done]. intros _. apply P2. split; congruence.
Qed.

(** ** Code that keeps the table in order *)

#[local] Instance keeps_frame {A} (m : K A) : Frame m → Keeps m | 100.
Proof. intros H o. apply triple_frame; [done|apply during_ok]. Qed.
#[local] Instance keeps_ret {A} (a : A) : Keeps (mret a).
Proof. intros o. by apply triple_ret. Qed.
#[local] Instance keeps_bind {A B} (m : K A) (f : A → K B) : Keeps m → (∀ a, Keeps (f a)) → Keeps (m ≫= f).
Proof. intros Hm Hf o. eapply triple_bind; [apply Hm|]. intros a. apply Hf. Qed.
#[local] Instance keeps_each {I} (b : I → K unit) l : (∀ i, Keeps (b i)) → Keeps (each b l).
Proof. intros Hb. induction l; cbn [each]; typeclasses eauto. Qed.
#[local] Instance keeps_scan {I A} (b : I → K (A + unit)) l : (∀ i, Keeps (b i)) → Keeps (scan b l).
Proof. intros Hb. induction l; cbn [scan]; [typeclasses eauto|]. apply keeps_bind; [done|]. intros []; [apply keeps_ret|done]. Qed.
Lemma keeps_upd_proc i g : gentle g → Keeps (upd_proc i g).
Proof.
  intros Hg o. apply triple_upd_proc. intros ps o' H. apply during_alter; [done|]. intros p _ Hp.
  destruct (Hg p Hp). split; auto.
Qed.
#[local] Hint Extern 10 (Keeps (upd_proc _ _)) =>
  apply keeps_upd_proc, gentle_fields; intros; split_and!; try reflexivity; apply length_insert : typeclass_instances.
#[local] Hint Extern 10 (Keeps (match ?x with _ => _ end)) => destruct x : typeclass_instances.
#[local] Hint Extern 5 (Keeps (when _ _)) => unfold when : typeclass_instances.
#[local] Hint Extern 20 (Keeps _) => progress cbv zeta : typeclass_instances.
#[local] Hint Extern 200 (Keeps ?m) => open_code m : typeclass_instances.
Tactic Notation "keeping" smart_global(f) := unfold f; typeclasses eauto.

(** *** Giving up the processor *)

Lemma sched_never k : ∃ e k', sched k = (Stop e, k').
Proof.
  unfold sched. do 4 (apply bind_never; intros; try case_match; try (by eexists _, _)).
  repeat (apply bind_never; intros; try case_match; try (by eexists _, _)).
Qed.
#[local] Instance frame_sched : Frame sched.
Proof. frames sched. Qed.

(** The running process changes its state and enters the scheduler. *)
Lemma triple_leave {A} o i g (f : unit → K A) Q :
  (∀ p, proc_ok p → p_state p = RUNNING → proc_ok (g p)) →
  triple (λ ps o', during o ps o' ∧ o' = Some i) (upd_proc i g;; (sched ≫= f)) Q.
Proof.
  intros Hg. eapply (triple_bind _ _ (λ _ ps _, table_ok ps)).
  - apply triple_upd_proc. intros ps o' [[[Ht Hr] ->] ->]. apply alter_ok; [done|]. intros p Hp Hok.
    destruct (Hr i eq_refl) as (q & Hq & Hst). rewrite Hp in Hq. injection Hq as <-. auto.
  - intros _. eapply (triple_bind _ _ (λ _ _ _, False)).
    + apply triple_stop; [apply _|apply sched_never|done].
    + intros ? k [].
Qed.

Lemma triple_leave_end o i g Q :
  (∀ p, proc_ok p → p_state p = RUNNING → proc_ok (g p)) →
  triple (λ ps o', during o ps o' ∧ o' = Some i) (upd_proc i g;; sched) Q.
Proof.
  intros Hg k Hk. pose proof (triple_leave o i g (λ u, mret u) Q Hg k Hk) as H. revert H.
  unfold mbind, M_bind, upd_proc, modify. by destruct (sched _) as [[[]|e] k'].
Qed.

Lemma proc_ok_leave p st ch :
  proc_ok p → p_state p = RUNNING → st ≠ SLEEPING ∨ is_Some ch → proc_ok (p <| p_chan := ch |> <| p_state := st |>).
Proof.
  intros [P1 P2 P3] Hst Hc. split; [done| |].
  - intros _. apply P2. split; congruence.
  - simpl. intros ->. by destruct Hc.
Qed.

#[local] Instance keeps_sleep ch lk : Keeps (sleep ch lk).
Proof.
  intros o. unfold sleep. apply triple_myproc; [apply during_ok|]. intros [i|].
  - eapply triple_bind; [apply (triple_frame _ (λ ps o', during o ps o' ∧ o' = Some i)); [typeclasses eauto|naive_solver]|].
    intros ?. apply triple_leave_end. intros p Hp Hst. apply (proc_ok_leave p SLEEPING (Some ch) Hp Hst). by right.
  - apply triple_stop; [apply _|by eexists _, _|naive_solver].
Qed.

#[local] Instance keeps_yield : Keeps yield.
Proof.
  intros o. unfold yield. eapply triple_bind; [apply triple_frame; [apply _|apply during_ok]|]. intros ?.
  apply triple_curproc; [apply during_ok|]. intros i. apply triple_leave_end. intros p Hp Hst.
  apply (proc_ok_leave p RUNNABLE (p_chan p) Hp Hst). by left.
Qed.

#[local] Instance keeps_wakeup1 ch : Keeps (wakeup1 ch).
Proof. apply keeps_each. intros i. apply keeps_upd_proc, wake_gentle. Qed.
#[local] Instance keeps_wakeup ch : Keeps (wakeup ch).
Proof. keeping wakeup. Qed.

#[local] Instance keeps_kill pid : Keeps (kill pid).
Proof.
  unfold kill. apply keeps_bind; [apply _|]. intros ?. apply keeps_bind; [|typeclasses eauto].
  apply keeps_scan. intros i o. apply triple_the_proc; [apply during_ok|]. intros p. case_decide.
  - eapply (triple_bind _ _ (λ _ ps o', during o ps o' ∧ ∃ q, ps !! i = Some q ∧ p_state q = p_state p)).
    + apply triple_upd_proc. intros ps o' [Hd Hp]. split.
      * apply during_alter; [done|]. intros q _ Hq. by destruct (gentle_fields (λ p, p <| p_killed := true |>) ltac:(done) q Hq).
      * rewrite list_lookup_alter_eq, Hp. by eexists.
    + intros ?. eapply (triple_bind _ _ (λ _, during o)); [|intros; apply (keeps (m := release L_ptable;; mret (inl 0)))].
      case_bool_decide as E; unfold when; [|apply triple_ret; naive_solver].
      apply triple_upd_proc. intros ps o' [Hd (q & Hq & Hst)]. apply during_alter; [done|].
      intros q' Hq' Hok. rewrite Hq in Hq'. injection Hq' as <-. split; [|congruence].
      destruct Hok as [P1 P2 P3]. split; [done| |done]. intros ?. apply P2. split; congruence.
  - eapply triple_mono; [apply (keeps (m := mret (inr tt) : K (Z + unit)))|naive_solver|done].
Qed.

(** *** Locks, buffers and the log *)

#[local] Instance frame_put_sl r l : Frame (modify (put_sl r l)).
Proof. by destruct r. Qed.
#[local] Instance keeps_acquiresleep r : Keeps (acquiresleep r).
Proof. keeping acquiresleep. Qed.
#[local] Instance keeps_releasesleep r : Keeps (releasesleep r).
Proof. keeping releasesleep. Qed.
#[local] Instance frame_holdingsleep r : Frame (holdingsleep r).
Proof. frames holdingsleep. Qed.
#[local] Instance frame_iderw b : Frame (iderw b).
Proof. unfold iderw, disk_write. typeclasses eauto. Qed.
#[local] Instance keeps_bget d b : Keeps (bget d b).
Proof. keeping bget. Qed.
#[local] Instance keeps_bread d b : Keeps (bread d b).
Proof. keeping bread. Qed.
#[local] Instance frame_bwrite b : Frame (bwrite b).
Proof. frames bwrite. Qed.
#[local] Instance keeps_brelse b : Keeps (brelse b).
Proof. keeping brelse. Qed.
#[local] Instance frame_log_write b : Frame (log_write b).
Proof. frames log_write. Qed.
#[local] Instance keeps_write_head : Keeps write_head.
Proof. keeping write_head. Qed.
#[local] Instance keeps_install_trans : Keeps install_trans.
Proof. unfold install_trans, install_body. typeclasses eauto. Qed.
#[local] Instance keeps_write_log : Keeps write_log.
Proof. unfold write_log, write_log_body. typeclasses eauto. Qed.
#[local] Instance keeps_commit : Keeps commit.
Proof. keeping commit. Qed.
#[local] Instance keeps_begin_op : Keeps begin_op.
Proof. unfold begin_op, begin_op_loop. typeclasses eauto. Qed.
#[local] Instance keeps_end_op : Keeps end_op.
Proof. keeping end_op. Qed.

(** *** The file system *)

#[local] Instance keeps_readsb d : Keeps (readsb d).
Proof. keeping readsb. Qed.
#[local] Instance keeps_balloc d : Keeps (balloc d).
Proof. unfold balloc, balloc_body, bzero. typeclasses eauto. Qed.
#[local] Instance keeps_bfree d b : Keeps (bfree d b).
Proof. keeping bfree. Qed.
#[local] Instance keeps_iupdate i : Keeps (iupdate i).
Proof. keeping iupdate. Qed.
#[local] Instance keeps_ialloc d t : Keeps (ialloc d t).
Proof. unfold ialloc, ialloc_body. typeclasses eauto. Qed.
#[local] Instance keeps_ilock i : Keeps (ilock i).
Proof. keeping ilock. Qed.
#[local] Instance keeps_iunlock i : Keeps (iunlock i).
Proof. keeping iunlock. Qed.
#[local] Instance keeps_bmap i b : Keeps (bmap i b).
Proof. unfold bmap, addr_or_alloc. typeclasses eauto. Qed.
#[local] Instance keeps_itrunc i : Keeps (itrunc i).
Proof. unfold itrunc, trunc_direct, trunc_indirect. typeclasses eauto. Qed.
#[local] Instance keeps_iput i : Keeps (iput i).
Proof. keeping iput. Qed.
#[local] Instance keeps_iunlockput i : Keeps (iunlockput i).
Proof. keeping iunlockput. Qed.
#[local] Instance keeps_readi_loop f i off n tot acc : Keeps (readi_loop f i off n tot acc).
Proof. revert off n tot acc. induction f; intros; cbn [readi_loop]; typeclasses eauto. Qed.
#[local] Instance keeps_writei_loop f i src off n tot : Keeps (writei_loop f i src off n tot).
Proof. revert src off n tot. induction f; intros; cbn [writei_loop]; typeclasses eauto. Qed.

(** *** Pipes *)

#[local] Instance frame_the_pipe p : Frame (the_pipe p).
Proof. intros k. unfold the_pipe. by destruct (k_pipes k !! p). Qed.
#[local] Instance keeps_pipeclose p w : Keeps (pipeclose p w).
Proof. keeping pipeclose. Qed.
#[local] Instance keeps_pipewrite_loop p n bs : Keeps (pipewrite_loop p n bs).
Proof. induction bs; cbn [pipewrite_loop]; typeclasses eauto. Qed.
#[local] Instance keeps_pipewrite p bs n : Keeps (pipewrite p bs n).
Proof. keeping pipewrite. Qed.
#[local] Instance keeps_piperead_copy p n acc : Keeps (piperead_copy p n acc).
Proof. revert acc. induction n; intros; cbn [piperead_copy]; typeclasses eauto. Qed.
#[local] Instance keeps_piperead p n : Keeps (piperead p n).
Proof. unfold piperead, piperead_wait. typeclasses eauto. Qed.

(** *** Files *)

#[local] Instance keeps_fileclose f : Keeps (fileclose f).
Proof. keeping fileclose. Qed.
#[local] Instance keeps_filestat f : Keeps (filestat f).
Proof. keeping filestat. Qed.
#[local] Instance keeps_pipealloc : Keeps pipealloc.
Proof. unfold pipealloc, pipealloc_bad. typeclasses eauto. Qed.

(** *** The console *)

#[local] Instance keeps_kill_line n : Keeps (kill_line n).
Proof. induction n; cbn [kill_line]; typeclasses eauto. Qed.
#[local] Instance keeps_intr_char c : Keeps (intr_char c).
Proof. keeping intr_char. Qed.
#[local] Instance keeps_intr_loop cs b : Keeps (intr_loop cs b).
Proof. revert b. induction cs; intros; cbn [intr_loop]; typeclasses eauto. Qed.
#[local] Instance keeps_consoleintr cs : Keeps (consoleintr cs).
Proof. keeping consoleintr. Qed.
#[local] Instance keeps_consoleread_loop i m t n d : Keeps (consoleread_loop i m t n d).
Proof. revert n d. induction m; intros; cbn [consoleread_loop]; typeclasses eauto. Qed.
#[local] Instance keeps_consoleread i n : Keeps (consoleread i n).
Proof. keeping consoleread. Qed.
#[local] Instance keeps_consolewrite i b : Keeps (consolewrite i b).
Proof. keeping consolewrite. Qed.

(** *** File contents, through the device switch *)

#[local] Instance keeps_dev_read major i n e : Keeps (match dev_read major with None => mret e | Some f => f i n end) | 5.
Proof. cbn [dev_read devsw]. destruct (decide (major = CONSOLE)); typeclasses eauto. Qed.
#[local] Instance keeps_dev_write major i b e : Keeps (match dev_write major with None => mret e | Some f => f i b end) | 5.
Proof. cbn [dev_write devsw]. destruct (decide (major = CONSOLE)); typeclasses eauto. Qed.
#[local] Instance keeps_readi i off n : Keeps (readi i off n).
Proof. keeping readi. Qed.
#[local] Instance keeps_writei i src off n : Keeps (writei i src off n).
Proof. keeping writei. Qed.
#[local] Instance keeps_dirlookup i name : Keeps (dirlookup i name).
Proof. unfold dirlookup, dirlookup_body. typeclasses eauto. Qed.
#[local] Instance keeps_dirlink i name n : Keeps (dirlink i name n).
Proof. unfold dirlink, dirlink_body. typeclasses eauto. Qed.
#[local] Instance keeps_namex_loop f i path par name : Keeps (namex_loop f i path par name).
Proof. revert i path name. induction f; intros; cbn [namex_loop]; typeclasses eauto. Qed.
#[local] Instance keeps_namex path par name : Keeps (namex path par name).
Proof. keeping namex. Qed.
#[local] Instance keeps_namei path : Keeps (namei path).
Proof. keeping namei. Qed.
#[local] Instance keeps_fileread i n : Keeps (fileread i n).
Proof. keeping fileread. Qed.
#[local] Instance keeps_filewrite_chunk i src n : Keeps (filewrite_chunk i src n).
Proof. keeping filewrite_chunk. Qed.
#[local] Instance keeps_filewrite_loop f i src n k : Keeps (filewrite_loop f i src n k).
Proof. revert src k. induction f; intros; cbn [filewrite_loop]; typeclasses eauto. Qed.
#[local] Instance keeps_filewrite i src n : Keeps (filewrite i src n).
Proof. keeping filewrite. Qed.
#[local] Instance keeps_create junk path t ma mi : Keeps (create junk path t ma mi).
Proof. unfold create, create_fill, nameiparent. typeclasses eauto. Qed.
#[local] Instance keeps_load_segments n i d off sz : Keeps (load_segments n i d off sz).
Proof. revert off sz. induction n; intros; cbn [load_segments]; unfold loaduvm, loaduvm_body; typeclasses eauto. Qed.

(** ** Processes *)

(** *** System calls on files *)

#[local] Instance keeps_with_arg {A} (m : K (option A)) f : Keeps m → (∀ a, Keeps (f a)) → Keeps (with_arg m f).
Proof. intros. keeping with_arg. Qed.
#[local] Instance keeps_fdalloc f : Keeps (fdalloc f).
Proof. unfold fdalloc, set_fd. typeclasses eauto. Qed.
#[local] Instance frame_put_stat d a s : Frame (put_stat d a s).
Proof. frames put_stat. Qed.
#[local] Instance keeps_sys_dup : Keeps sys_dup.
Proof. keeping sys_dup. Qed.
#[local] Instance keeps_sys_close : Keeps sys_close.
Proof. keeping sys_close. Qed.
#[local] Instance keeps_sys_fstat : Keeps sys_fstat.
Proof. keeping sys_fstat. Qed.
#[local] Instance keeps_sys_pipe : Keeps sys_pipe.
Proof. keeping sys_pipe. Qed.
#[local] Instance keeps_sys_read : Keeps sys_read.
Proof. keeping sys_read. Qed.
#[local] Instance keeps_sys_write : Keeps sys_write.
Proof. keeping sys_write. Qed.
#[local] Instance keeps_sys_link junk : Keeps (sys_link junk).
Proof. unfold sys_link, link_into, link_bad, nameiparent. typeclasses eauto. Qed.
#[local] Instance keeps_unlink_entry dp i off : Keeps (unlink_entry dp i off).
Proof. unfold unlink_entry, isdirempty, unlink_bad. typeclasses eauto. Qed.
#[local] Instance keeps_sys_unlink junk : Keeps (sys_unlink junk).
Proof. unfold sys_unlink, unlink_bad, nameiparent. typeclasses eauto. Qed.
#[local] Instance keeps_sys_open junk : Keeps (sys_open junk).
Proof. unfold sys_open, open_inode. typeclasses eauto. Qed.
#[local] Instance keeps_sys_mkdir junk : Keeps (sys_mkdir junk).
Proof. unfold sys_mkdir, finish_node. typeclasses eauto. Qed.
#[local] Instance keeps_sys_mknod junk : Keeps (sys_mknod junk).
Proof. unfold sys_mknod, finish_node. typeclasses eauto. Qed.
#[local] Instance keeps_sys_chdir : Keeps sys_chdir.
Proof. keeping sys_chdir. Qed.
#[local] Instance frame_fetch_argv n a acc : Frame (fetch_argv n a acc).
Proof. revert a acc. induction n; intros; cbn [fetch_argv]; typeclasses eauto. Qed.

(** *** exec and growproc *)

Lemma keeps_exec_commit path argv pgdir sz entry : pgdir ≠ 0 → Keeps (exec_commit path argv pgdir sz entry).
Proof.
  intros Hd. assert (∀ c sz, Keeps (upd_proc c (λ p, p <| p_pgdir := pgdir |> <| p_sz := sz |>))) as Hu.
  { intros c s. apply keeps_upd_proc. intros p [P1 P2 P3]. split; [|done]. split; [done| |done].
    intros Ha. split; [by apply P2|done]. }
  assert (∀ argv argc sp us, Frame (push_args pgdir argv argc sp us)) as Hp.
  { intros av. induction av; intros; cbn [push_args]; typeclasses eauto. }
  unfold exec_commit, exec_bad. typeclasses eauto.
Qed.
#[local] Instance keeps_exec path argv : Keeps (exec path argv).
Proof.
  unfold exec, exec_bad.
  repeat lazymatch goal with
  | |- Keeps (exec_commit _ _ _ _ _) => by apply keeps_exec_commit
  | |- Keeps (_ ≫= _) => apply keeps_bind; [typeclasses eauto|intros ?]
  | |- _ => case_match || typeclasses eauto
  end.
Qed.
#[local] Instance keeps_growproc n : Keeps (growproc n).
Proof. keeping growproc. Qed.

(** *** Creation

    An entry of the table on its way to a process, at least with a kernel stack. *)
Definition embryo (i : nat) (Q : proc → Prop) (o : option nat) (ps : list proc) (o' : option nat) : Prop :=
  during o ps o' ∧ ∃ p, ps !! i = Some p ∧ p_state p = EMBRYO ∧ Q p.
Definition has_stack (p : proc) : Prop := p_kstack p ≠ 0.
Definition has_space (p : proc) : Prop := p_kstack p ≠ 0 ∧ p_pgdir p ≠ 0.

Lemma embryo_ok i Q o ps o' : embryo i Q o ps o' → table_ok ps.
Proof. intros [H _]. by eapply during_ok. Qed.

Lemma proc_ok_idle p : length (p_ofile p) = NOFILE → p_state p = EMBRYO ∨ p_state p = UNUSED → proc_ok p.
Proof. intros Hl Hs. split; [done| |]; [intros [H1 H2]|intros]; destruct Hs; congruence. Qed.

Lemma during_idle o ps o' i p g :
  during o ps o' → ps !! i = Some p → p_state p = UNUSED ∨ p_state p = EMBRYO ∨ p_state p = ZOMBIE →
  length (p_ofile (g p)) = length (p_ofile p) → p_state (g p) = EMBRYO ∨ p_state (g p) = UNUSED →
  during o (alter g i ps) o'.
Proof.
  intros Hd Hp Hs Hl Hg. apply during_alter; [done|]. intros q Hq Hok. rewrite Hp in Hq. injection Hq as <-.
  split; [apply proc_ok_idle; [rewrite Hl; apply Hok|done]|]. intros _ E. rewrite E in Hs. by destruct Hs as [|[|]].
Qed.

Lemma triple_embryo i (Q R : proc → Prop) o g :
  (∀ p, p_state (g p) = p_state p ∧ length (p_ofile (g p)) = length (p_ofile p)) → (∀ p, Q p → R (g p)) →
  triple (embryo i Q o) (upd_proc i g) (λ _, embryo i R o).
Proof.
  intros Hg HQ. apply triple_upd_proc. intros ps o' [Hd (p & Hp & Hs & HQp)]. destruct (Hg p) as [E1 E2].
  split; [eapply during_idle; eauto; left; congruence|]. exists (g p). rewrite list_lookup_alter_eq, Hp.
  split_and!; [done|congruence|auto].
Qed.

(** Steps of code that leave the embryo an embryo in [Q]. *)
Ltac embryo_steps Q :=
  repeat lazymatch goal with
  | |- triple _ (_ ≫= _) _ =>
      eapply triple_bind;
        [first [by apply triple_embryo with (R := Q) | apply triple_frame; [typeclasses eauto|apply embryo_ok]]|intros ?]
  end.

Lemma unused_proc_spec l i j : unused_proc l j = Some i → (j ≤ i)%nat ∧ ∃ p, l !! (i - j)%nat = Some p ∧ p_state p = UNUSED.
Proof.
  revert j. induction l as [|p l IH]; intros j; simpl; [done|]. case_decide as E.
  - intros [= ->]. split; [done|]. rewrite Nat.sub_diag. by exists p.
  - intros [H1 (q & Hq & Hs)]%IH. split; [lia|]. exists q. by replace (i - j)%nat with (S (i - S j)) by lia.
Qed.

Lemma allocproc_triple o :
  triple (during o) allocproc (λ r, match r with Some i => embryo i has_stack o | None => during o end).
Proof.
  unfold allocproc. eapply triple_bind; [apply triple_frame; [apply _|apply during_ok]|]. intros ?.
  apply triple_gets. intros k0. destruct (unused_proc (k_procs k0) 0) as [i|] eqn:E.
  2:{ eapply (triple_bind _ _ (λ _, during o)); [|intros ?; by apply triple_ret].
      eapply triple_mono; [apply (keeps (m := release L_ptable))|by intros ?? [? _]|done]. }
  apply unused_proc_spec in E as (_ & p & Hp & Hs). rewrite Nat.sub_0_r in Hp.
  apply triple_gets. intros k1.
  eapply (triple_bind _ _ (λ _ ps o', during o ps o' ∧ ps !! i = Some p)).
  { eapply triple_mono; [apply (triple_frame _ (λ ps o', during o ps o' ∧ ps !! i = Some p)); [typeclasses eauto|naive_solver]| |done].
    intros ps o' [(Hd & -> & _) _]. done. }
  intros ?. eapply (triple_bind _ _ (λ _, embryo i (λ _, True) o)).
  { apply triple_upd_proc. intros ps o' [Hd Hp']. split; [eapply during_idle; eauto; by left|].
    rewrite list_lookup_alter_eq, Hp'. by eexists. }
  intros ?. eapply triple_bind; [apply triple_frame; [apply _|apply embryo_ok]|]. intros ?.
  eapply triple_bind; [apply triple_frame; [apply _|apply embryo_ok]|]. intros ks.
  eapply (triple_bind _ _ (λ _, embryo i (λ p, p_kstack p = ks) o)); [by apply triple_embryo|]. intros ?. case_decide as Hks.
  { eapply (triple_bind _ _ (λ _, during o)); [|intros ?; by apply triple_ret].
    apply triple_upd_proc. intros ps o' [Hd (q & Hq & Hs' & _)]. eapply during_idle; eauto. }
  apply (triple_pre (embryo i has_stack o)).
  2:{ intros ps o' [? (q & ? & ? & Hq)]. split; [done|]. exists q. unfold has_stack. by rewrite Hq. }
  apply triple_gets. intros k2. apply (triple_pre (embryo i has_stack o)); [|naive_solver].
  embryo_steps has_stack.
  by apply triple_ret.
Qed.

Lemma triple_each {I} P (b : I → K unit) l :
  (∀ i, triple P (b i) (λ _, P)) → triple P (each b l) (λ _, P).
Proof.
  intros Hb. induction l; cbn [each]; [by apply triple_ret|]. eapply triple_bind; [apply Hb|]. intros ?. exact IHl.
Qed.

Lemma triple_set_runnable i o : triple (embryo i has_space o) (set_runnable i) (λ _, during o).
Proof.
  unfold set_runnable. embryo_steps has_space.
  eapply (triple_bind _ _ (λ _, during o)); [|intros ?; apply (keeps (m := release L_ptable))].
  apply triple_upd_proc. intros ps o' [Hd (p & Hp & Hs & HQ)]. apply during_alter; [done|].
  intros q Hq Hok. rewrite Hp in Hq. injection Hq as <-. split; [|congruence].
  destruct Hok as [P1 P2 P3]. by split.
Qed.

(** The last steps of [fork] and [clone]. *)
Lemma triple_launch i o (z : Z) : triple (embryo i has_space o) (set_runnable i;; mret z) (λ _, during o).
Proof. eapply triple_bind; [apply triple_set_runnable|]. intros ?. by apply triple_ret. Qed.

#[local] Instance keeps_fork : Keeps fork.
Proof.
  intros o. unfold fork. eapply triple_bind; [apply triple_frame; [apply _|apply during_ok]|]. intros c.
  eapply triple_bind; [apply allocproc_triple|]. intros [np|]; [|by apply triple_ret].
  eapply triple_bind; [apply triple_frame; [apply _|apply embryo_ok]|]. intros p.
  eapply triple_bind; [apply triple_frame; [apply _|apply embryo_ok]|]. intros d.
  eapply (triple_bind _ _ (λ _, embryo np (λ q, has_stack q ∧ p_pgdir q = d) o)); [by apply triple_embryo|]. intros ?.
  eapply triple_bind; [apply triple_frame; [apply _|apply embryo_ok]|]. intros q. case_decide as Hd.
  - eapply triple_bind; [apply triple_frame; [apply _|apply embryo_ok]|]. intros ?.
    eapply (triple_bind _ _ (λ _, during o)); [|intros ?; by apply triple_ret].
    apply triple_upd_proc. intros ps o' [? (x & ? & ? & _)]. eapply during_idle; eauto.
  - apply (triple_pre (embryo np has_space o)).
    2:{ intros ps o' [? (x & ? & ? & Hx & E)]. split; [done|]. exists x. unfold has_space. by rewrite E. }
    embryo_steps has_space. eapply triple_bind.
    { apply triple_each. intros i. unfold fork_file. embryo_steps has_space.
      case_match; [|by apply triple_ret]. embryo_steps has_space. apply triple_embryo; [|done].
      intros. split; [done|]. apply length_insert. }
    intros ?. embryo_steps has_space. apply triple_launch.
Qed.

Lemma running_space o ps o' c p : during o ps o' → o' = Some c → ps !! c = Some p → p_kstack p ≠ 0 ∧ p_pgdir p ≠ 0.
Proof.
  intros [[[_ Hf] Hr] ->] Ho Hp. destruct (Hr c Ho) as (q & Hq & Hs). rewrite Hp in Hq. injection Hq as <-.
  rewrite Forall_lookup in Hf. apply (Hf _ _ Hp). split; congruence.
Qed.

#[local] Instance keeps_clone stack size : Keeps (clone stack size).
Proof.
  intros o. unfold clone. apply triple_curproc; [apply during_ok|]. intros c.
  apply (triple_pure (o = Some c)); [by intros ?? [[_ ->] ->]|]. intros ->.
  eapply triple_bind; [eapply triple_pre; [apply allocproc_triple|by intros ?? [? _]]|].
  intros [np|]; [|by apply triple_ret]. apply triple_the_proc; [apply embryo_ok|]. intros p.
  apply (triple_pure (p_pgdir p ≠ 0)); [|intros Hp].
  { intros ps o' [[Hd _] Hp]. by apply (running_space _ _ _ _ _ Hd (proj2 Hd) Hp). }
  eapply (triple_bind _ _ (λ _, embryo np has_space (Some c))).
  { apply (triple_pre (embryo np has_stack (Some c))); [|by intros ?? [? _]]. by apply triple_embryo. }
  intros ?. embryo_steps has_space. eapply triple_bind.
  { apply triple_each. intros i. apply triple_embryo; [|done]. intros. split; [done|]. apply length_insert. }
  intros ?. embryo_steps has_space. apply triple_launch.
Qed.

(** The path of userinit's [namei]: no directory is read. *)
#[local] Instance frame_namei_root : Frame (namei [SLASH]).
Proof.
  intros k. destruct (frame (m := iget ROOTDEV ROOTINO) k) as [E1 E2].
  unfold namei, namex. rewrite decide_True by done. unfold mbind, M_bind.
  destruct (iget ROOTDEV ROOTINO k) as [[ip|e] k'] eqn:E; simpl in *; done.
Qed.
#[local] Instance keeps_userinit : Keeps userinit.
Proof.
  intros o. unfold userinit. eapply triple_bind; [apply allocproc_triple|].
  intros [i|]; [|apply triple_stop; [apply _|by eexists _, _|apply during_ok]].
  do 2 (eapply triple_bind; [apply triple_frame; [typeclasses eauto|apply embryo_ok]|intros ?]).
  rename a0 into pgdir.
  eapply (triple_bind _ _ (λ _, embryo i (λ q, has_stack q ∧ p_pgdir q = pgdir) o)); [by apply triple_embryo|]. intros ?.
  case_decide as Hd; [apply triple_stop; [apply _|by eexists _, _|apply embryo_ok]|].
  apply (triple_pre (embryo i has_space o)).
  2:{ intros ps o' [? (x & ? & ? & Hx & E)]. split; [done|]. exists x. unfold has_space. by rewrite E. }
  embryo_steps has_space. apply triple_set_runnable.
Qed.

(** *** Exit and wait *)

#[local] Instance keeps_wakeup1_proc o : Keeps (wakeup1_proc o).
Proof.
  destruct o; unfold wakeup1_proc; [apply _|]. apply keeps_each. intros i. apply keeps_upd_proc. intros p [P1 P2 P3].
  case_decide as E; [|done]. destruct E as [E _]. split; [|congruence]. split; [done| |done]. intros _. apply P2.
  split; congruence.
Qed.
#[local] Instance keeps_exit_child c i : Keeps (exit_child c i).
Proof. keeping exit_child. Qed.
#[local] Instance keeps_exit_file c i : Keeps (exit_file c i).
Proof. keeping exit_file. Qed.

(** A step of code that keeps the table, while the running process is known. *)
Lemma triple_known {A B} o c (m : K A) (f : A → K B) R :
  Keeps m → (∀ a, triple (λ ps o', during o ps o' ∧ o' = Some c) (f a) R) →
  triple (λ ps o', during o ps o' ∧ o' = Some c) (m ≫= f) R.
Proof.
  intros Hm Hf. eapply triple_bind; [|exact Hf]. intros k [Hd Ho]. pose proof (Hm o k Hd) as H.
  destruct (m k) as [[a|e] k']; [|done]. split; [done|]. destruct Hd as [_ E], H as [_ ->]. congruence.
Qed.

#[local] Instance keeps_exit : Keeps exit.
Proof.
  intros o. unfold exit. apply triple_curproc; [apply during_ok|]. intros c.
  repeat (apply triple_known; [typeclasses eauto|intros ?; try (case_decide; [apply triple_stop; [apply _|by eexists _, _|naive_solver]|])]).
  apply triple_leave. intros p Hp Hst. apply (proc_ok_leave p ZOMBIE (p_chan p) Hp Hst). by left.
Qed.

Lemma keeps_wait_scan c l h : Keeps (wait_scan c l h).
Proof.
  revert h. induction l as [|i l IH]; intros h; cbn [wait_scan]; [apply _|]. intros o.
  apply triple_the_proc; [apply during_ok|]. intros p. case_decide; [|case_decide as Hz].
  1,3: eapply triple_pre; [apply IH|by intros ?? [? _]].
  repeat (eapply triple_bind; [apply triple_frame; [typeclasses eauto|by intros ?? [?%during_ok _]]|intros ?]).
  eapply (triple_bind _ _ (λ _, during o)).
  - apply triple_upd_proc. intros ps o' [Hd Hp]. eapply during_idle; eauto.
  - intros ?. apply (keeps (m := release L_ptable;; mret (inl (p_pid p)))).
Qed.
#[local] Instance keeps_wait_loop c : Keeps (wait_loop c).
Proof. unfold wait_loop. pose proof (keeps_wait_scan c (seq 0 NPROC) false). typeclasses eauto. Qed.
#[local] Instance keeps_wait : Keeps wait.
Proof. keeping wait. Qed.

(** ** System calls and traps *)

#[local] Instance keeps_syscall junk : Keeps (syscall junk).
Proof.
  unfold syscall. do 3 (apply keeps_bind; [typeclasses eauto|intros ?]).
  destruct (syscalls junk (i32 _)) as [f|] eqn:E; [|typeclasses eauto].
  apply keeps_bind; [|typeclasses eauto]. revert E. unfold syscalls. repeat case_match; intros [= <-]; try typeclasses eauto.
Qed.
#[local] Instance frame_cpuid : Frame cpuid.
Proof. frames cpuid. Qed.
#[local] Instance keeps_clock_tick : Keeps clock_tick.
Proof. keeping clock_tick. Qed.
#[local] Instance keeps_exit_if_killed tf : Keeps (exit_if_killed tf).
Proof. keeping exit_if_killed. Qed.
#[local] Instance keeps_trap_syscall junk tf : Keeps (trap_syscall junk tf).
Proof. keeping trap_syscall. Qed.
#[local] Instance keeps_trap_switch dev tf n : Keeps (trap_switch dev tf n).
Proof. unfold trap_switch, unexpected. typeclasses eauto. Qed.
#[local] Instance keeps_trap junk dev tf : Keeps (trap junk dev tf).
Proof. keeping trap. Qed.

(** *** Where a process goes on *)

#[local] Instance frame_sched_return b : Frame (sched_return b).
Proof. frames sched_return. Qed.
#[local] Instance keeps_sleep_return lk b : Keeps (sleep_return lk b).
Proof.
  intros o. unfold sleep_return. eapply triple_bind; [apply triple_frame; [apply _|apply during_ok]|]. intros ?.
  apply triple_curproc; [apply during_ok|]. intros i.
  eapply (triple_bind _ _ (λ _, during o)); [|intros ?; apply (keeps (m := when _ (release L_ptable;; acquire lk)))].
  apply triple_upd_proc. intros ps o' [Hd ->]. apply during_alter; [done|]. intros p Hp [P1 P2 P3].
  destruct Hd as [[_ Hr] Ho]. destruct (Hr i (eq_sym Ho)) as (q & Hq & Hs). rewrite Hp in Hq. injection Hq as <-.
  split; [|done]. split; [done|done|]. simpl. congruence.
Qed.
#[local] Instance keeps_iinit d : Keeps (iinit d).
Proof. keeping iinit. Qed.
#[local] Instance keeps_initlog d : Keeps (initlog d).
Proof. unfold initlog, recover_from_log, read_head. typeclasses eauto. Qed.
#[local] Instance keeps_forkret : Keeps forkret.
Proof. keeping forkret. Qed.
#[local] Instance keeps_consoleread_resume i t n d b : Keeps (consoleread_resume i t n d b).
Proof. keeping consoleread_resume. Qed.

(** The places at which the kernel is entered, or goes on after it has given up the
    processor: the first process is made, a trap happens, a process runs for the first
    time or again. *)
Inductive entry :=
| E_userinit
| E_trap (dev : devices) (tf : Z)
| E_forkret
| E_trap_resume (tf : Z) (intena : bool)
| E_acquiresleep (r : slref) (intena : bool)
| E_begin_op (intena : bool)
| E_pipewrite (p n : Z) (bs : list Z) (intena : bool)
| E_piperead (p n : Z) (intena : bool)
| E_consoleread (ip : nat) (target n : Z) (dst : list Z) (intena : bool)
| E_sys_sleep (ticks0 n : Z) (intena : bool)
| E_wait (c : nat) (intena : bool).

Definition enter (junk : list Z) (e : entry) : K unit :=
  match e with
  | E_userinit => userinit
  | E_trap dev tf => trap junk dev tf
  | E_forkret => forkret
  | E_trap_resume tf b => trap_resume tf b
  | E_acquiresleep r b => acquiresleep_resume r b
  | E_begin_op b => begin_op_resume b
  | E_pipewrite p n bs b => pipewrite_resume p n bs b;; mret tt
  | E_piperead p n b => piperead_resume p n b;; mret tt
  | E_consoleread ip t n d b => consoleread_resume ip t n d b;; mret tt
  | E_sys_sleep t n b => sys_sleep_resume t n b;; mret tt
  | E_wait c b => wait_resume c b;; mret tt
  end.

Lemma keeps_enter junk e : Keeps (enter junk e).
Proof. destruct e; cbn [enter]; typeclasses eauto. Qed.

(** Every way into the kernel, whatever the kernel does and however it ends. *)
Lemma enter_ok junk e k :
  run_ok (k_procs k) (cur k) →
  match enter junk e k with
  | (Ok _, k') => run_ok (k_procs k') (cur k') ∧ cur k' = cur k
  | (Stop _, k') => table_ok (k_procs k')
  end.
Proof.
  intros Hk. pose proof (keeps_enter junk e (cur k) k (conj Hk eq_refl)) as H.
  destruct (enter junk e k) as [[a|s] k']; [|done]. destruct H as [H E]. by rewrite E.
Qed.

(** What the scheduler's own code does to the table. *)
Lemma release_frame lk : Frame (release lk).
Proof. apply _. Qed.
Lemma acquire_frame lk : Frame (acquire lk).
Proof. apply _. Qed.
Lemma switchuvm_frame o : Frame (switchuvm o).
Proof. apply _. Qed.
Lemma switchkvm_frame : Frame switchkvm.
Proof. frames switchkvm. Qed.
Lemma sti_frame : Frame sti.
Proof. apply frame_set_if. Qed.

Lemma frame_run {A} (m : K A) k r k' : Frame m → m k = (r, k') → k_procs k' = k_procs k ∧ this_cpu k' = this_cpu k ∧ cur k' = cur k.
Proof. intros Hm E. destruct (Hm k) as [E1 [= E2 E3]]. by rewrite E in *. Qed.
