(* ===== verification/Scheduler.v ===== *)
(** * The scheduler's loop (proc.c: scheduler)

    The passes of [scheduler] over the process table, with what the processes do
    between two switches as a parameter, and the proof that every runnable process
    gets its turn.  Then the processor as a machine that is in the scheduler, in a
    process, or in between, and the invariant of the process table over all its runs. *)

From S2P Require Import Prelude Memory Strings State Spinlock Sched Kalloc Sleeplock Pipe Vm VmTable Console VmSpace.
From S2P Require Import Proc VmProc Syscall Exec Sysfile Trap ProcTable.

(** Processor [c] could take [ptable.lock] for its scheduler in [k]. *)
Record sched_ok (c : nat) (k : kernel) : Prop := {
  so_cpu : ∃ cp, cpu_at k c cp ∧ c_ncli cp = 0 ∧ c_if cp = true;
  so_free : free L_ptable k;
  so_table : table_ok (k_procs k) }.

Definition runnable (k : kernel) (i : nat) : Prop := ∃ p, k_procs k !! i = Some p ∧ p_state p = RUNNABLE.

(** Process [i] has been chosen. *)
Definition switched (c i : nat) (p : proc) (k : kernel) : kernel :=
  loaded c p (k <| k_cpus ::= alter (λ x, x <| c_proc := Some i |>) c |>)
    <| k_procs ::= alter (λ p, p <| p_state := RUNNING |>) i |>.

(** The first runnable process of the entries [a], ..., [a + n - 1] is [i]. *)
Definition first_runnable (k : kernel) (a n : nat) (o : option nat) : Prop :=
  match o with
  | Some i => (a ≤ i < a + n)%nat ∧ runnable k i ∧ ∀ j, (a ≤ j < i)%nat → ¬ runnable k j
  | None => ∀ j, (a ≤ j < a + n)%nat → ¬ runnable k j
  end.

(** Changes of the processor that do not concern the lock. *)
Lemma locked_cpus lk c k f :
  (∀ x, f (pushed x) = pushed (f x)) →
  locked lk c k <| k_cpus ::= alter f c |> = locked lk c (k <| k_cpus ::= alter f c |>).
Proof.
  intros Hf. unfold locked, push, upd. simpl. f_equal. rewrite !alter_comp. apply list_alter_ext; [|done].
  intros x _. apply Hf.
Qed.

Lemma choose_spec c k i p :
  sched_ok c k → k_procs k !! i = Some p → p_state p = RUNNABLE →
  (upd_cpu c (λ x, x <| c_proc := Some i |>);; switchuvm (Some i);;
   upd_proc i (λ p, p <| p_state := RUNNING |>);; (mret (Some i) : K (option nat))) (locked L_ptable c k) =
  (Ok (Some i), locked L_ptable c (switched c i p k)).
Proof.
  intros [(cp & Hc & Hz & Hif) Hf Ht] Hp Hst.
  destruct (table_ready _ _ _ Ht Hp ltac:(by split; rewrite Hst)) as [R1 R2].
  unfold upd_cpu. rewrite bind_modify.
  set (k1 := k <| k_cpus ::= alter (λ x, x <| c_proc := Some i |>) c |>).
  assert (cpu_at k1 c (cp <| c_proc := Some i |>)) as Hc1.
  { destruct Hc as [C1 C2 C3 C4 C5].
    destruct (cpu_at_alter (λ x, x <| c_proc := Some i |>) k c cp C1 C2) as [T1 T2]; [done|].
    split; [exact T1|exact T2|done..]. }
  rewrite locked_cpus by done. fold k1.
  pose proof (locked_at L_ptable _ _ _ Hc1 ltac:(simpl; lia)) as Hc2.
  erewrite bind_ok; [|by eapply (switchuvm_at _ c _ i p Hc2); [simpl; lia|..]].
  mstep (upd_proc_ok _ _ _). unfold mret, M_ret. f_equal.
  unfold loaded at 1. rewrite locked_cpus by done. reflexivity.
Qed.

Lemma scheduler_scan_spec c k n a :
  sched_ok c k → (a + n ≤ NPROC)%nat →
  ∃ o, first_runnable k a n o ∧
    match o with
    | Some i => ∃ p, k_procs k !! i = Some p ∧
        scheduler_scan c (seq a n) (locked L_ptable c k) = (Ok (Some i), locked L_ptable c (switched c i p k))
    | None => scheduler_scan c (seq a n) (locked L_ptable c k) = (Ok None, k)
    end.
Proof.
  intros Hok. revert a. induction n as [|n IH]; intros a Ha; cbn [seq scheduler_scan].
  - exists None. split; [intros j Hj; lia|]. destruct Hok as [(cp & Hc & Hz & _) Hf _].
    erewrite bind_ok; [|eapply release_spec; [done|lia|done]]. done.
  - destruct (lookup_lt_is_Some_2 (k_procs k) a) as [p Hp]; [rewrite (to_len _ (so_table _ _ Hok)); lia|].
    mstep (at_index_ok k_procs a p (locked L_ptable c k) Hp : the_proc a _ = _).
    destruct (decide (p_state p = RUNNABLE)) as [Hst|Hst].
    + rewrite decide_False by tauto. exists (Some a). split; [split; [lia|split; [by exists p|intros; lia]]|].
      exists p. split; [done|]. by apply choose_spec.
    + rewrite decide_True by done. destruct (IH (S a) ltac:(lia)) as (o & Ho & Hr). exists o. split; [|done].
      assert (¬ runnable k a) as Hna by (intros (p' & E & ?); rewrite Hp in E; by injection E as <-).
      destruct o as [i|].
      * destruct Ho as (H1 & H2 & H3). split; [lia|split; [done|]]. intros j Hj.
        destruct (decide (j = a)) as [->|]; [done|]. apply H3. lia.
      * intros j Hj. destruct (decide (j = a)) as [->|]; [done|]. apply Ho. lia.
Qed.

(** Back in the scheduler, behind [swtch]. *)
Definition returned (c : nat) (k : kernel) : kernel :=
  k <| k_cpus ::= alter (λ x, x <| c_cr3 := V2P (k_kpgdir k) |> <| c_proc := None |>) c |>.

Lemma sched_ok_cpus c k f :
  (∀ x, c_apicid (f x) = c_apicid x ∧ c_ncli (f x) = c_ncli x ∧ c_if (f x) = c_if x ∧ c_intena (f x) = c_intena x) →
  sched_ok c k → sched_ok c (k <| k_cpus ::= alter f c |>).
Proof.
  intros Hfx [(cp & [C1 C2 C3 C4 C5] & Hz & Hif) Hf Ht]. split; [|done..]. exists (f cp).
  destruct (cpu_at_alter f k c cp C1 C2) as [T1 T2]; [intros; apply Hfx|].
  destruct (Hfx cp) as (E1 & E2 & E3 & E4). split_and!; [|congruence..].
  split; [exact T1|exact T2|rewrite E2; done|rewrite E2, E3, E4; done|rewrite E2, E3; done].
Qed.

Lemma scheduler_round_spec c k :
  sched_ok c k →
  scheduler_round c k = scheduler_scan c (seq 0 NPROC) (locked L_ptable c k).
Proof.
  intros [(cp & Hc & Hz & Hif) Hf Ht]. unfold scheduler_round, sti. mstep (set_if_at _ _ _ Hc true).
  rewrite (cpus_alter_fix _ c cp k); [|by destruct Hc|by destruct cp; simpl in *; subst].
  by mstep (acquire_spec L_ptable k c cp Hc ltac:(lia) Hf).
Qed.

Lemma scheduler_resume_spec c i k :
  sched_ok c k →
  scheduler_resume c i (locked L_ptable c k) =
  scheduler_scan c (seq (S i) (NPROC - S i)) (locked L_ptable c (returned c k)).
Proof.
  intros [(cp & Hc & Hz & Hif) Hf Ht]. unfold scheduler_resume, switchkvm. rewrite bind_assoc, bind_gets.
  unfold lcr3, upd_cpu. rewrite !bind_modify.
  pose proof (locked_at L_ptable _ _ _ Hc ltac:(lia)) as Hl1. rewrite (ca_this _ _ _ Hl1).
  rewrite cpus_alter_comp, locked_cpus by done. reflexivity.
Qed.

Lemma returned_ok c k : sched_ok c k → sched_ok c (returned c k).
Proof. by apply sched_ok_cpus. Qed.

Lemma switched_ok c i p k : sched_ok c k → k_procs k !! i = Some p → active p → sched_ok c (switched c i p k).
Proof.
  intros Hok Hp Ha. unfold switched, loaded. rewrite cpus_alter_comp.
  destruct (sched_ok_cpus c k
    ((λ x, x <| c_esp0 := u32 (p_kstack p + KSTACKSIZE) |> <| c_cr3 := V2P (p_pgdir p) |>)
      ∘ (λ x, x <| c_proc := Some i |>)) ltac:(done) Hok) as [H1 H2 H3].
  split; [destruct H1 as (x & [] & ?); exists x; split; [by split|done]|done|].
  unfold upd. simpl. apply alter_ok; [exact (so_table _ _ Hok)|]. intros q Hq Hok'. rewrite Hp in Hq. injection Hq as <-.
  by apply set_state_ok.
Qed.

Lemma switched_runnable c i p k j : i ≠ j → runnable k j → runnable (switched c i p k) j.
Proof.
  intros Hne (q & Hq & Hst). exists q. split; [|done]. unfold switched, upd. simpl.
  by rewrite list_lookup_alter_ne.
Qed.

(** ** The loop of [scheduler]

    A point of the loop: the top of [for(;;)], or behind the [swtch] to process [i]. *)
Inductive point := Top | After (i : nat).

Definition sched_step (c : nat) (p : point) : K (option nat) :=
  match p with Top => scheduler_round c | After i => scheduler_resume c i end.

Section trace.
Variable c : nat.
(** What process [i] does at time [t] between the switch to it and its switch back,
    and what happens between two rounds, with the lock free. *)
Variable run : nat → nat → kernel → kernel.
Variable idle : nat → kernel → kernel.

(** The processes run in [n] steps of the loop from time [t]; [None] ends a round. *)
Fixpoint sched_trace (n t : nat) (p : point) (k : kernel) : list (option nat) :=
  match n with
  | O => []
  | S n' =>
      match sched_step c p k with
      | (Ok (Some i), k') => Some i :: sched_trace n' (S t) (After i) (run t i k')
      | (Ok None, k') => None :: sched_trace n' (S t) Top (idle t k')
      | (Stop _, _) => []
      end
  end.

(** The state of the loop at each point. *)
Definition at_point (p : point) (k : kernel) : Prop :=
  match p with
  | Top => sched_ok c k
  | After _ => ∃ k0, k = locked L_ptable c k0 ∧ sched_ok c k0
  end.

(** Where the scan goes on, and how far it is to process [j] from there. *)
Definition next_index (p : point) : nat := match p with Top => O | After i => S i end.
Definition distance (p : point) (j : nat) : nat :=
  if decide (next_index p ≤ j)%nat then j - next_index p else NPROC - next_index p + 1 + j.

Lemma sched_step_spec p k j :
  at_point p k → runnable k j → (j < NPROC)%nat → (next_index p ≤ NPROC)%nat →
  (∃ i k0 q, (next_index p ≤ i < NPROC)%nat ∧ ((next_index p ≤ j)%nat → (i ≤ j)%nat) ∧
     sched_ok c k0 ∧ k_procs k0 = k_procs k ∧ k_procs k0 !! i = Some q ∧ p_state q = RUNNABLE ∧
     sched_step c p k = (Ok (Some i), locked L_ptable c (switched c i q k0))) ∨
  (∃ k0, (j < next_index p)%nat ∧ sched_ok c k0 ∧ k_procs k0 = k_procs k ∧ sched_step c p k = (Ok None, k0)).
Proof.
  intros Hat Hj Hjn Hn.
  assert (∃ k0, sched_ok c k0 ∧ k_procs k0 = k_procs k ∧
    sched_step c p k = scheduler_scan c (seq (next_index p) (NPROC - next_index p)) (locked L_ptable c k0)) as (k0 & Hok & E & Hs).
  { destruct p as [|i]; simpl in Hat.
    - exists k. split_and!; [done|done|]. by apply scheduler_round_spec.
    - destruct Hat as (k0 & -> & Hok). exists (returned c k0). split_and!; [by apply returned_ok|done|].
      by apply scheduler_resume_spec. }
  destruct (scheduler_scan_spec c k0 (NPROC - next_index p) (next_index p) Hok ltac:(lia)) as ([i|] & Ho & Hr).
  - left. destruct Ho as (H1 & H2 & H3), Hr as (q & Hq & Hr). exists i, k0, q. rewrite Hs.
    split_and!; try done; [lia|lia| |destruct H2 as (x & Hx & ?); by rewrite Hq in Hx; injection Hx as ->]. intros Hle. destruct (decide (i ≤ j)%nat) as [|Hlt]; [done|exfalso].
    apply (H3 j); [lia|]. destruct Hj as (x & ? & ?). exists x. by rewrite E.
  - right. exists k0. rewrite Hs. split_and!; try done.
    destruct (decide (j < next_index p)%nat) as [|Hge]; [done|exfalso]. apply (Ho j); [lia|].
    destruct Hj as (x & ? & ?). exists x. by rewrite E.
Qed.

Variable j : nat.
(** The other processes, and whatever happens between rounds, leave process [j]
    runnable and the scheduler in order. *)
Hypothesis Hrun : ∀ t i q k,
  i ≠ j → sched_ok c k → k_procs k !! i = Some q → p_state q = RUNNABLE → runnable k j →
  let k' := run t i (locked L_ptable c (switched c i q k)) in at_point (After i) k' ∧ runnable k' j.
Hypothesis Hidle : ∀ t k, sched_ok c k → runnable k j → sched_ok c (idle t k) ∧ runnable (idle t k) j.

Lemma sched_trace_reaches n t p k :
  (j < NPROC)%nat → at_point p k → runnable k j → (next_index p ≤ NPROC)%nat → (distance p j < n)%nat →
  Some j ∈ sched_trace n t p k.
Proof.
  intros Hjn. revert t p k. induction n as [|n IH]; intros t p k Hat Hj Hn Hd; [lia|]. cbn [sched_trace].
  destruct (sched_step_spec p k j Hat Hj Hjn Hn) as [(i & k0 & q & H1 & H2 & Hok & E & Hq & Hst & ->)|(k0 & H1 & Hok & E & ->)].
  - destruct (decide (i = j)) as [->|Hne]; [left|right].
    assert (runnable k0 j) as Hj0 by (destruct Hj as (x & ? & ?); exists x; by rewrite E).
    destruct (Hrun t i q k0 Hne Hok Hq Hst Hj0) as [Hat' Hj']. apply IH; [done..|cbn [next_index]; lia|].
    revert Hd. unfold distance. cbn [next_index]. intros Hd. repeat case_decide; lia.
  - right. assert (runnable k0 j) as Hj0 by (destruct Hj as (x & ? & ?); exists x; by rewrite E).
    destruct (Hidle t k0 Hok Hj0) as [Hok' Hj']. apply IH; [done..|cbn [next_index]; lia|].
    revert Hd. unfold distance. cbn [next_index]. intros Hd. repeat case_decide; lia.
Qed.
End trace.

(** ** Processes that yield

    The kernel thread of a process that was preempted: it comes back from [sched]
    inside [yield], and the next clock interrupt makes it yield again. *)
Definition yielding (t i : nat) (k : kernel) : kernel := ((yield_return true;; yield) k).2.

Lemma switched_at c i q k :
  sched_ok c k → ∃ cp, cpu_at (switched c i q k) c cp ∧ c_ncli cp = 0 ∧ c_if cp = true ∧ c_proc cp = Some i.
Proof.
  intros [(cp & [C1 C2 C3 C4 C5] & Hz & Hif) _ _]. unfold switched, loaded. rewrite cpus_alter_comp.
  match goal with |- context [alter ?f c] => set (g := f) end.
  destruct (cpu_at_alter g k c cp C1 C2) as [T1 T2]; [done|].
  exists (g cp). split_and!; [|done..]. split; [exact T1|exact T2|done..].
Qed.

Lemma yield_return_spec c i q k :
  sched_ok c k → yield_return true (locked L_ptable c (switched c i q k)) = (Ok tt, switched c i q k).
Proof.
  intros Hok. destruct (switched_at c i q k Hok) as (cp & Hc & Hz & Hif & Hi).
  set (k1 := switched c i q k) in *. pose proof (locked_at L_ptable _ _ _ Hc ltac:(lia)) as Hl.
  unfold yield_return, sched_return. rewrite bind_assoc. mstep (mycpu_at _ _ _ Hl eq_refl).
  unfold upd_cpu. rewrite bind_modify.
  rewrite (cpus_alter_fix _ c (pushed cp)); [|by destruct Hl|by unfold pushed; rewrite decide_True, Hif by done].
  eapply release_spec; [done|lia|]. exact (so_free _ _ Hok).
Qed.

(** A preempted process that is switched to and preempted again. *)
Lemma yielding_ok c j t i q k :
  i ≠ j → sched_ok c k → k_procs k !! i = Some q → p_state q = RUNNABLE → runnable k j →
  let k' := yielding t i (locked L_ptable c (switched c i q k)) in at_point c (After i) k' ∧ runnable k' j.
Proof.
  intros Hne Hok Hq Hst Hj. unfold yielding.
  pose proof (switched_ok c i q k Hok Hq ltac:(by split; rewrite Hst)) as Hok1. pose proof (switched_runnable c i q k j Hne Hj) as Hj1.
  mstep (yield_return_spec c i q k Hok). destruct (switched_at c i q k Hok) as (cp & Hc & Hz & Hif & Hi).
  assert (k_procs (switched c i q k) !! i = Some (q <| p_state := RUNNING |>)) as Hq1
    by (unfold switched, upd; simpl; by rewrite list_lookup_alter_eq, Hq).
  set (k1 := switched c i q k) in *. clearbody k1. rewrite (yield_spec k1 c cp i _ Hc Hz Hi Hq1 (so_free _ _ Hok1)).
  cbn [snd]. split.
  - eexists. split; [reflexivity|]. destruct Hok1 as [_ O2 O3]. split.
    + exists cp. split; [by eapply cpu_at_ext; [..|exact Hc]|done].
    + exact O2.
    + unfold upd. simpl. apply alter_ok; [done|]. intros p Hp Hok1. rewrite Hq1 in Hp. injection Hp as <-.
      by apply set_state_ok.
  - destruct Hj1 as (x & Hx & ?). exists x. split; [|done]. unfold upd. simpl. by rewrite list_lookup_alter_ne.
Qed.



(** Three processes on one processor, the scheduler behind the first of them; the
    third one is waiting. *)
Definition demo_proc (st : procstate) : proc := proc0 <| p_state := st |> <| p_kstack := 4096 |> <| p_pgdir := 8192 |>.
Definition demo_sched : kernel :=
  boot0 <| k_procs := demo_proc RUNNABLE :: demo_proc RUNNABLE :: demo_proc RUNNABLE :: replicate (NPROC - 3) proc0 |>.

Lemma demo_sched_ok : sched_ok 0 demo_sched.
Proof.
  split; [|done|split; [done|]].
  - exists cpu0. split; [|done]. split; try done; simpl; lia.
  - apply Forall_lookup. intros [|[|[|i]]] p Hp; [by injection Hp as <-..|].
    change (replicate (NPROC - 3) proc0 !! i = Some p) in Hp. apply lookup_replicate in Hp as [-> _].
    apply proc_ok_idle; [done|]. by right.
Qed.


(** ** One processor as a machine

    It runs a process, or looks for one at the top of the scheduler's loop, or comes
    back to the scheduler from process [i], with [ptable.lock] held.  The kernel code
    of a process may run to its end, or end in a switch. *)
Inductive phase := Running | Idle | Left (i : nat).

Definition phase_after (r : option nat) : phase := match r with Some _ => Running | None => Idle end.

Section machine.
Variable c : nat.
Variable junk : list Z.

Inductive step : phase * kernel → phase * kernel → Prop :=
| step_enter e k k' : enter junk e k = (Ok tt, k') → step (Running, k) (Running, k')
| step_leave e i k k' : cur k = Some i → enter junk e k = (Stop Swtch, k') → step (Running, k) (Left i, k')
| step_interrupt e k k' : enter junk e k = (Ok tt, k') → step (Idle, k) (Idle, k')
| step_round r k k' : this_cpu k = Some c → scheduler_round c k = (Ok r, k') → step (Idle, k) (phase_after r, k')
| step_resume i r k k' :
    this_cpu k = Some c → scheduler_resume c i k = (Ok r, k') → step (Left i, k) (phase_after r, k').

Definition machine_ok (s : phase * kernel) : Prop :=
  match s.1 with
  | Running => run_ok (k_procs s.2) (cur s.2) ∧ is_Some (cur s.2)
  | Idle => table_ok (k_procs s.2) ∧ cur s.2 = None
  | Left _ => table_ok (k_procs s.2)
  end.

Lemma find_apicid_lt a l i j : find_apicid a l i = Some j → (i ≤ j < i + length l)%nat.
Proof.
  revert i. induction l as [|x l IH]; intros i; simpl; [done|]. case_decide; [intros [= ->]; lia|].
  intros ?%IH. lia.
Qed.

(** The processor's pointer to its process. *)
Lemma cur_set o k :
  this_cpu k = Some c → cur (k <| k_cpus ::= alter (λ x, x <| c_proc := o |>) c |>) = o.
Proof.
  intros Hc. unfold cur. rewrite this_cpu_alter, Hc by done. simpl. unfold upd. simpl.
  destruct (lookup_lt_is_Some_2 (k_cpus k) c) as [x Hx].
  { unfold this_cpu in Hc. apply find_apicid_lt in Hc. lia. }
  by rewrite list_lookup_alter_eq, Hx.
Qed.

(** The scan of the table: a chosen process runs, with everything it needs. *)
Lemma scheduler_scan_ok l k r k' :
  this_cpu k = Some c → table_ok (k_procs k) → scheduler_scan c l k = (Ok r, k') →
  match r with
  | Some i => run_ok (k_procs k') (cur k') ∧ cur k' = Some i
  | None => table_ok (k_procs k') ∧ cur k' = cur k
  end.
Proof.
  intros Hc Ht. induction l as [|i l IH]; cbn [scheduler_scan]; intros H.
  - apply bind_ok_inv in H as ([] & k1 & H1 & H2). injection H2 as <- <-.
    destruct (frame_run _ _ _ _ (release_frame _) H1) as (E1 & _ & E2). by rewrite E1, E2.
  - apply bind_ok_inv in H as (p & k1 & H1 & H2). unfold the_proc, at_index in H1.
    destruct (k_procs k !! i) as [q|] eqn:Hq; [|done]. injection H1 as <- <-. case_decide as Hst; [by apply IH|].
    apply bind_ok_inv in H2 as ([] & k2 & H2 & H3). injection H2 as <-. apply bind_ok_inv in H3 as ([] & k3 & H3 & H4).
    apply bind_ok_inv in H4 as ([] & k4 & H4 & H5). injection H4 as <-. injection H5 as <- <-.
    destruct (frame_run _ _ _ _ (switchuvm_frame _) H3) as (E1 & _ & E2).
    assert (p_state q = RUNNABLE) as Hr by (destruct (decide (p_state q = RUNNABLE)); tauto).
    assert (cur (k3 <| k_procs ::= alter (λ p, p <| p_state := RUNNING |>) i |>) = Some i) as Hcur
      by (change (cur k3 = Some i); by rewrite E2, cur_set).
    rewrite Hcur. split; [|done]. unfold upd at 1. simpl. rewrite E1. simpl. split.
    + apply alter_ok; [done|]. intros p Hp Hok. rewrite Hq in Hp. injection Hp as <-.
      apply set_state_ok; [done| |done]. by split; rewrite Hr.
    + intros j [= <-]. unfold upd. simpl. rewrite list_lookup_alter_eq, Hq. by eexists.
Qed.

Lemma step_ok s s' : machine_ok s → step s s' → machine_ok s'.
Proof.
  intros Hs H. unfold machine_ok in *. destruct H as [e k k' H|e i k k' Hi H|e k k' H|r k k' Hc H|i r k k' Hc H]; cbn [fst snd] in *.
  - destruct Hs as [Hr Hi]. pose proof (enter_ok junk e k Hr) as Hk. rewrite H in Hk. destruct Hk as [? E]. split; [done|by rewrite E].
  - destruct Hs as [Hr _]. pose proof (enter_ok junk e k Hr) as Hk. by rewrite H in Hk.
  - destruct Hs as [Ht Hn]. assert (run_ok (k_procs k) (cur k)) as Hr by (rewrite Hn; done).
    pose proof (enter_ok junk e k Hr) as Hk. rewrite H in Hk. destruct Hk as [[? _] ->]. done.
  - destruct Hs as [Ht Hn]. unfold scheduler_round in H.
    apply bind_ok_inv in H as ([] & k1 & H1 & H). destruct (frame_run _ _ _ _ sti_frame H1) as (E1 & E2 & E3).
    apply bind_ok_inv in H as ([] & k2 & H2 & H). destruct (frame_run _ _ _ _ (acquire_frame _) H2) as (E4 & E5 & E6).
    pose proof (scheduler_scan_ok _ k2 r k' ltac:(congruence) ltac:(by rewrite E4, E1) H) as Hk.
    destruct r as [i|]; simpl; destruct Hk as [? E]; [split; [done|by rewrite E]|split; [done|congruence]].
  - unfold scheduler_resume in H.
    apply bind_ok_inv in H as ([] & k1 & H1 & H). destruct (frame_run _ _ _ _ switchkvm_frame H1) as (E1 & E2 & E3).
    apply bind_ok_inv in H as ([] & k2 & H2 & H). injection H2 as <-.
    assert (this_cpu (k1 <| k_cpus ::= alter (λ x, x <| c_proc := None |>) c |>) = Some c) as Hc1
      by (rewrite this_cpu_alter by done; congruence).
    pose proof (scheduler_scan_ok _ _ r k' Hc1 ltac:(by simpl; rewrite E1) H) as Hk.
    destruct r as [j|]; simpl; destruct Hk as [? E]; [split; [done|by rewrite E]|split; [done|rewrite E]].
    apply cur_set. congruence.
Qed.
End machine.


Lemma demo_round : ∃ k', scheduler_round 0 demo_sched = (Ok (Some 0%nat), k').
Proof.
  assert ((scheduler_round 0 demo_sched).1 = Ok (Some 0%nat)) as Hr by (vm_compute; reflexivity).
  destruct (scheduler_round 0 demo_sched) as [r k']. exists k'. cbn [fst] in Hr. by rewrite Hr.
Qed.

